(** * EBTEL two-fluid loop engine: a shallow embedding of [loop.cpp]

  The C++ class [Loop] integrates the electron pressure, the ion pressure
  and the density of a coronal loop.  This file embeds its member
  functions as Rocq functions and proves the properties stated for them.

  Conventions of the embedding.

  - A C++ [double] is a real number ([R]): arithmetic is exact, and
    rounding, overflow, infinities and NaN are outside the model.  The one
    exception is the addition [time += tau] of the time loop, which is
    also given in binary64 ([binary64.add]), rounded to the nearest
    double: whether the time advances depends on it.
  - A [std::vector<double>] is a [list R]; [v[i]] is the total lookup
    [v !!! i] and [v[i] = x] is [<[i:=x]> v].  The source never checks an
    index, and an access out of range is undefined in C++; the theorems
    below are stated for vectors long enough for every access.
  - An [int] is an integer of [Z] (signed overflow is undefined in C++).
  - Text written to [std::cout] is kept as a list of messages in the
    object ([Loop.cout]); the calls made on the DEM collaborator are kept
    as a log ([Loop.dem]).
  - The header of the class is not part of the sources at hand: its
    physical constants are the fields of the class [PhysicalConstants],
    the heating and radiation collaborators are records of functions. *)

From Stdlib Require Import Reals Lra Lia ZArith String List.
From stdpp Require Import base list.

#[local] Open Scope R_scope.

#[local] Instance R_inhabited : Inhabited R := populate 0.

(** ** The functions of <cmath> on real numbers *)

Abbreviation fabs := Rabs (only parsing).
Abbreviation fmax := Rmax (only parsing).
Abbreviation fmin := Rmin (only parsing).
Abbreviation log := ln (only parsing).

Module cmath.

(** [pow(x,y)].  The exponent 2 is an integer exponent, defined for every
    base.  Otherwise, for a positive base it is [exp (y * ln x)]; for the
    base 0 and a positive exponent it is 0.  Where C yields an infinity or
    NaN (a base that is not positive, with a negative or fractional
    exponent) the real model has no value to offer and returns 0. *)
Definition pow (x y : R) : R :=
  if Req_dec_T y 2 then x * x
  else if Rlt_dec 0 x then Rpower x y
  else 0.

Definition log10 (x : R) : R := ln x / ln 10.

(** [int(ceil(x))] *)
Definition ceil (x : R) : Z := Zceil x.

End cmath.

(** ** Constants and collaborators declared outside [loop.cpp] *)

Class PhysicalConstants := {
  BOLTZMANN_CONSTANT : R;
  ELECTRON_MASS : R;
  PROTON_MASS : R;
  SPITZER_ELECTRON_CONDUCTIVITY : R;
  SPITZER_ION_CONDUCTIVITY : R;
  GAMMA : R;
  GAMMA_MINUS_ONE : R;
  SOLAR_SURFACE_GRAVITY : R;
  ELECTRON_CHARGE_POWER_4 : R;
  _PI_ : R;
  LARGEST_DOUBLE : R
}.

(** The constants are physical quantities: all of them are positive. *)
Record physical `{PhysicalConstants} : Prop := {
  kB_pos : 0 < BOLTZMANN_CONSTANT;
  me_pos : 0 < ELECTRON_MASS;
  mp_pos : 0 < PROTON_MASS;
  kappa_e_pos : 0 < SPITZER_ELECTRON_CONDUCTIVITY;
  kappa_i_pos : 0 < SPITZER_ION_CONDUCTIVITY;
  gamma_pos : 0 < GAMMA;
  gamma_m1_pos : 0 < GAMMA_MINUS_ONE;
  g_sun_pos : 0 < SOLAR_SURFACE_GRAVITY
}.

(** [heater->Get_Heating(t)] and [heater->partition] *)
Record Heater := {
  Get_Heating : R -> R;
  partition : R
}.

(** [radiation_model->GetPowerLawRad(log10 T)] *)
Record CRadiation := {
  GetPowerLawRad : R -> R
}.

(** One call [dem->CalculateDEM(i, pe, n, fe, c1)]. *)
Record DemCall := {
  dem_i : Z;
  dem_pressure_e : R;
  dem_density : R;
  dem_fe : R;
  dem_c1 : R
}.

(** The lines that [loop.cpp] writes to [std::cout]. *)
Inductive Message :=
| Warning_not_converged
| Returning_a_tau (tau time : R).

(** ** The data of the class *)

Module Parameters.
Record t := {
  total_time : R;
  tau : R;
  loop_length : R;
  rka_error : R;
  saturation_limit : R;
  c1_cond0 : R;
  c1_rad0 : R;
  use_c1_loss_correction : bool;
  use_c1_grav_correction : bool;
  use_power_law_radiative_losses : bool;
  use_spitzer_conductivity : bool;
  calculate_dem : bool;
  solver : string;
  output_filename : string;
  boltzmann_correction : R;
  ion_mass_correction : R
}.
End Parameters.

Module Results.
Record t := {
  time : list R;
  heat : list R;
  pressure_e : list R;
  pressure_i : list R;
  temperature_e : list R;
  temperature_i : list R;
  density : list R
}.
End Results.

Module Loop.
Record t := {
  parameters : Parameters.t;
  N : Z;
  (* [excess] is not set by the constructor; [EvolveLoop] assigns it. *)
  excess : option Z;
  __state : list R;
  results : Results.t;
  radiation_model : CRadiation;
  heater : Heater;
  (* [dem] exists only when [calculate_dem] is set. *)
  dem : option (list DemCall);
  cout : list Message
}.

Definition with_parameters (this : t) (p : Parameters.t) : t :=
  {| parameters := p; N := N this; excess := excess this;
     __state := __state this; results := results this;
     radiation_model := radiation_model this; heater := heater this;
     dem := dem this; cout := cout this |}.

Definition with_state (this : t) (s : list R) : t :=
  {| parameters := parameters this; N := N this; excess := excess this;
     __state := s; results := results this;
     radiation_model := radiation_model this; heater := heater this;
     dem := dem this; cout := cout this |}.

Definition with_results (this : t) (r : Results.t) : t :=
  {| parameters := parameters this; N := N this; excess := excess this;
     __state := __state this; results := r;
     radiation_model := radiation_model this; heater := heater this;
     dem := dem this; cout := cout this |}.

Definition with_excess (this : t) (e : Z) : t :=
  {| parameters := parameters this; N := N this; excess := Some e;
     __state := __state this; results := results this;
     radiation_model := radiation_model this; heater := heater this;
     dem := dem this; cout := cout this |}.

Definition with_dem (this : t) (d : option (list DemCall)) : t :=
  {| parameters := parameters this; N := N this; excess := excess this;
     __state := __state this; results := results this;
     radiation_model := radiation_model this; heater := heater this;
     dem := d; cout := cout this |}.

Definition print (this : t) (ms : list Message) : t :=
  {| parameters := parameters this; N := N this; excess := excess this;
     __state := __state this; results := results this;
     radiation_model := radiation_model this; heater := heater this;
     dem := dem this; cout := cout this ++ ms |}.
End Loop.

(** [for(i=0;i<n;i++) body] on a value that the body updates. *)
Definition for_loop {A : Type} (n : nat) (body : nat -> A -> A) (init : A) : A :=
  fold_left (fun acc i => body i acc) (seq 0 n) init.

(** ** Closure coefficients, conduction and the derivative function *)

Section Physics.
Context `{PhysicalConstants}.
Variable this : Loop.t.

Local Abbreviation parameters := (Loop.parameters this).
Local Abbreviation radiation_model := (Loop.radiation_model this).
Local Abbreviation heater := (Loop.heater this).

Definition CalculateC2 : R := 0.9.

Definition CalculateC3 : R := 0.6.

Definition CalculateScaleHeight (temperature_e temperature_i : R) : R :=
  BOLTZMANN_CONSTANT
  * (temperature_e + Parameters.boltzmann_correction parameters * temperature_i)
  / (Parameters.ion_mass_correction parameters * PROTON_MASS)
  / SOLAR_SURFACE_GRAVITY.

(** The three constants that the species selects. *)
Definition species_constants (species : string) : R * R * R :=
  if String.eqb species "electron" then
    (SPITZER_ELECTRON_CONDUCTIVITY, ELECTRON_MASS, BOLTZMANN_CONSTANT)
  else
    (SPITZER_ION_CONDUCTIVITY,
     Parameters.ion_mass_correction parameters * PROTON_MASS,
     Parameters.boltzmann_correction parameters * BOLTZMANN_CONSTANT).

(** Line 297: the classical flux. *)
Definition classical_flux (kappa temperature : R) : R :=
  let c2 := CalculateC2 in
  -2.0 / 7.0 * kappa * cmath.pow (temperature / c2) 3.5
  / Parameters.loop_length parameters.

(** Line 305: the saturated flux. *)
Definition saturated_flux (mass k_B temperature density : R) : R :=
  - Parameters.saturation_limit parameters * 1.5 / sqrt mass * density
  * cmath.pow (k_B * temperature) 1.5.

Definition CalculateThermalConduction
    (temperature density : R) (species : string) : R :=
  let '(kappa, mass, k_B) := species_constants species in
  let f_c := classical_flux kappa temperature in
  if Parameters.use_spitzer_conductivity parameters then f_c
  else
    let f_s := saturated_flux mass k_B temperature density in
    - f_c * f_s / sqrt (cmath.pow f_c 2 + cmath.pow f_s 2).

Definition CalculateCollisionFrequency (temperature_e density : R) : R :=
  let coulomb_logarithm :=
    23.0 - log (sqrt (density / 1.0e+13)
                * cmath.pow (BOLTZMANN_CONSTANT * temperature_e / 1.602e-9) (-1.5)) in
  16.0 * sqrt _PI_ / 3.0 * ELECTRON_CHARGE_POWER_4
  / (Parameters.ion_mass_correction parameters * PROTON_MASS * ELECTRON_MASS)
  * cmath.pow (2.0 * BOLTZMANN_CONSTANT * temperature_e / ELECTRON_MASS) (-1.5)
  * density * coulomb_logarithm.

(** The locals of [CalculateC1], one definition per assignment. *)
Definition c1_eqm0 : R := 2.0.

Definition C1_grav_correction (temperature_e temperature_i : R) : R :=
  let scale_height := CalculateScaleHeight temperature_e temperature_i in
  if Parameters.use_c1_grav_correction parameters then
    exp (4.0 * sin (_PI_ / 5.0) * Parameters.loop_length parameters
         / (_PI_ * scale_height))
  else 1.0.

Definition C1_loss_correction (temperature_e : R) : R :=
  let radiative_loss :=
    GetPowerLawRad radiation_model (cmath.log10 temperature_e) in
  if Parameters.use_c1_loss_correction parameters then
    1.95e-18 * cmath.pow temperature_e (-2.0 / 3.0) / radiative_loss
  else 1.0.

Definition C1_density_eqm_2 (temperature_e temperature_i : R) : R :=
  let c2 := CalculateC2 in
  let grav_correction := C1_grav_correction temperature_e temperature_i in
  let loss_correction := C1_loss_correction temperature_e in
  let radiative_loss :=
    GetPowerLawRad radiation_model (cmath.log10 temperature_e) in
  (SPITZER_ELECTRON_CONDUCTIVITY + SPITZER_ION_CONDUCTIVITY)
  * cmath.pow (temperature_e / c2) 3.5
  / (3.5 * cmath.pow (Parameters.loop_length parameters) 2 * c1_eqm0
     * loss_correction * grav_correction * radiative_loss).

Definition CalculateC1 (temperature_e temperature_i density : R) : R :=
  let grav_correction := C1_grav_correction temperature_e temperature_i in
  let loss_correction := C1_loss_correction temperature_e in
  let density_eqm_2 := C1_density_eqm_2 temperature_e temperature_i in
  let density_ratio := cmath.pow density 2 / density_eqm_2 in
  let c1 :=
    if Rlt_dec density_ratio 1.0 then
      (2.0 * c1_eqm0
       + Parameters.c1_cond0 parameters * (1.0 / density_ratio - 1.0))
      / (1.0 + 1.0 / density_ratio)
    else
      (2.0 * c1_eqm0
       + Parameters.c1_rad0 parameters * (density_ratio - 1.0))
      / (1.0 + density_ratio) in
  c1 * loss_correction * grav_correction.

(** The locals of [CalculateDerivs] that the later assignments read. *)
Record DerivsLocals := {
  d_temperature_e : R;
  d_temperature_i : R;
  d_f_e : R;
  d_f_i : R;
  d_radiative_loss : R;
  d_heat : R;
  d_c1 : R;
  d_collision_frequency : R;
  d_xi : R;
  d_psi_c : R;
  d_R_c : R;
  d_psi_tr : R
  }.

Definition CalculateDerivs_locals (state : list R) (time : R) : DerivsLocals :=
  let temperature_e :=
    state !!! 0%nat / (BOLTZMANN_CONSTANT * state !!! 2%nat) in
  let temperature_i :=
    state !!! 1%nat
    / (BOLTZMANN_CONSTANT * Parameters.boltzmann_correction parameters
       * state !!! 2%nat) in
  let f_e := CalculateThermalConduction temperature_e (state !!! 2%nat) "electron" in
  let f_i := CalculateThermalConduction temperature_i (state !!! 2%nat) "ion" in
  let radiative_loss :=
    GetPowerLawRad radiation_model (cmath.log10 temperature_e) in
  let heat := Get_Heating heater time in
  let c1 := CalculateC1 temperature_e temperature_i (state !!! 2%nat) in
  let collision_frequency :=
    CalculateCollisionFrequency temperature_e (state !!! 2%nat) in
  let xi := state !!! 0%nat / state !!! 1%nat in
  let psi_c :=
    Parameters.loop_length parameters / GAMMA_MINUS_ONE * collision_frequency
    * (state !!! 1%nat - state !!! 0%nat) in
  let R_c :=
    cmath.pow (state !!! 2%nat) 2 * radiative_loss
    * Parameters.loop_length parameters in
  let psi_tr := (f_e + c1 * R_c - xi * f_i) / (1.0 + xi) in
  {| d_temperature_e := temperature_e; d_temperature_i := temperature_i;
     d_f_e := f_e; d_f_i := f_i; d_radiative_loss := radiative_loss;
     d_heat := heat; d_c1 := c1;
     d_collision_frequency := collision_frequency;
     d_xi := xi; d_psi_c := psi_c; d_R_c := R_c; d_psi_tr := psi_tr |}.

Definition CalculateDerivs (state : list R) (time : R) : list R :=
  let derivs := replicate 3 0 in
  let v := CalculateDerivs_locals state time in
  let temperature_e := d_temperature_e v in
  let f_e := d_f_e v in
  let heat := d_heat v in
  let c1 := d_c1 v in
  let c2 := CalculateC2 in
  let c3 := CalculateC3 in
  let psi_c := d_psi_c v in
  let R_c := d_R_c v in
  let psi_tr := d_psi_tr v in
  let dpe_dt :=
    GAMMA_MINUS_ONE / Parameters.loop_length parameters
    * (psi_tr + psi_c - R_c * (1.0 + c1))
    + GAMMA_MINUS_ONE * heat * partition heater in
  let dpi_dt :=
    - GAMMA_MINUS_ONE / Parameters.loop_length parameters * (psi_tr + psi_c)
    + GAMMA_MINUS_ONE * heat * (1.0 - partition heater) in
  let dn_dt :=
    c2 * GAMMA_MINUS_ONE
    / (c3 * Parameters.loop_length parameters * GAMMA * BOLTZMANN_CONSTANT
       * temperature_e)
    * (- f_e - c1 * R_c + psi_tr) in
  let derivs := <[0%nat := dpe_dt]> derivs in
  let derivs := <[1%nat := dpi_dt]> derivs in
  let derivs := <[2%nat := dn_dt]> derivs in
  derivs.

End Physics.

(** ** The three integrators *)

Section Integrators.
Context `{PhysicalConstants}.
Variable this : Loop.t.

Local Abbreviation parameters := (Loop.parameters this).

Definition EulerSolver (state : list R) (time tau : R) : list R :=
  let new_state := replicate (length state) 0 in
  let derivs := CalculateDerivs this state time in
  for_loop (length state)
    (fun i new_state => <[i := state !!! i + derivs !!! i * tau]> new_state)
    new_state.

Definition RK4Solver (state : list R) (time tau : R) : list R :=
  let new_state := replicate (length state) 0 in
  let _tmp_state := replicate (length state) 0 in
  let f1 := CalculateDerivs this state time in
  let _tmp_state :=
    for_loop (length f1)
      (fun i t => <[i := state !!! i + tau / 2.0 * f1 !!! i]> t) _tmp_state in
  let f2 := CalculateDerivs this _tmp_state (time + tau / 2.0) in
  let _tmp_state :=
    for_loop (length f2)
      (fun i t => <[i := state !!! i + tau / 2.0 * f2 !!! i]> t) _tmp_state in
  let f3 := CalculateDerivs this _tmp_state (time + tau / 2.0) in
  let _tmp_state :=
    for_loop (length f3)
      (fun i t => <[i := state !!! i + tau * f3 !!! i]> t) _tmp_state in
  let f4 := CalculateDerivs this _tmp_state (time + tau) in
  for_loop (length f4)
    (fun i new_state =>
       <[i := state !!! i
              + tau / 6.0 * (f1 !!! i + 2.0 * f2 !!! i + 2.0 * f3 !!! i + f4 !!! i)]>
         new_state)
    new_state.

Definition safety_1 : R := 0.9.
Definition safety_2 : R := 1.1.
Definition safety_3 : R := 4.0.
Definition epsilon : R := 1.0e-16.

(** [*std::max_element(v.begin(), v.end())]; on an empty vector the
    source dereferences [end()], which is undefined (0 here). *)
Definition max_element (v : list R) : R :=
  match v with
  | [] => 0
  | x :: v' => fold_left fmax v' x
  end.

(** Lines 448-453: the per-component error ratios. *)
Definition error_ratios (n : nat) (small_step big_step : list R) : list R :=
  for_loop n
    (fun j _tmp_error_ratio =>
       let scale :=
         Parameters.rka_error parameters
         * (fabs (small_step !!! j) + fabs (big_step !!! j)) / 2.0 in
       let diff := small_step !!! j - big_step !!! j in
       <[j := fabs diff / (scale + epsilon)]> _tmp_error_ratio)
    (replicate n 0).

(** The variables at the test [error_ratio<1] of one pass of the loop. *)
Record Attempt := {
  small_step : list R;
  big_step : list R;
  error_ratio : R;
  old_tau : R;
  new_tau : R
  }.

(** Lines 442-458: one pass of the attempt loop, entered with [tau].
  [new_tau] is the value of [tau] after line 458; it is a real number
  when the error ratio is not 0 (see [capped_tau]). *)
Definition RKA4_attempt (state : list R) (time tau : R) : Attempt :=
  let small_step :=
  RK4Solver (RK4Solver state time (tau * 0.5)) (time + tau * 0.5) (tau * 0.5) in
  let big_step := RK4Solver state time tau in
  let _tmp_error_ratio := error_ratios (length state) small_step big_step in
  let error_ratio := max_element _tmp_error_ratio in
  let old_tau := tau in
  let tau := safety_1 * old_tau * cmath.pow error_ratio (-1.0 / 5.0) in
  let tau := fmax tau (old_tau / safety_2) in
  {| small_step := small_step; big_step := big_step;
   error_ratio := error_ratio; old_tau := old_tau; new_tau := tau |}.

(** [tau = fmin(tau,safety_3*old_tau)] (lines 462 and 475).  With an error
  ratio of 0, [pow(0,-1/5)] is +infinity: line 457 yields +infinity for a
  positive [old_tau] and -infinity for a negative one, line 458 keeps
  +infinity or replaces -infinity by [old_tau/safety_2], and [fmin] returns
  [safety_3*old_tau] in both cases. *)
Definition capped_tau (a : Attempt) : R :=
  if Req_dec_T (error_ratio a) 0 then safety_3 * old_tau a
  else fmin (new_tau a) (safety_3 * old_tau a).

(** The attempt loop and the code after it.  [remaining] is the number of
  passes left after the current one: [max_try] is 100 and the body runs
  at least once.  After the loop [i==max_try] always holds, so the
  warning is always written on that path. *)
Fixpoint RKA4_attempts (remaining : nat) (state : list R) (time tau : R)
  : list Message * list R :=
  let a := RKA4_attempt state time tau in
  if Rlt_dec (error_ratio a) 1 then
  let tau := capped_tau a in
  ([], small_step a ++ [tau])
  else
  match remaining with
  | S k => RKA4_attempts k state time (new_tau a)
  | O =>
      let tau := capped_tau a in
      ([Warning_not_converged; Returning_a_tau tau time],
       small_step a ++ [tau])
  end.

Definition max_try : nat := 100.

(** Returns what was written to [std::cout] and the returned vector. *)
Definition RKA4Solver (state : list R) (time tau : R) : list Message * list R :=
  RKA4_attempts (max_try - 1) state time tau.

End Integrators.

(** ** The engine: construction, seed state, time loop and export *)

Module Config.
(** The values that the constructor reads from the XML configuration. *)
Record t := {
  total_time : R;
  tau : R;
  loop_length : R;
  rka_error : R;
  saturation_limit : R;
  c1_cond0 : R;
  c1_rad0 : R;
  helium_to_hydrogen_ratio : R;
  use_c1_loss_correction : bool;
  use_c1_grav_correction : bool;
  use_power_law_radiative_losses : bool;
  use_spitzer_conductivity : bool;
  calculate_dem : bool;
  solver : string;
  output_filename : string
}.
End Config.

(** What [PrintToFile] hands to the outside: the rows of the output file,
    in the order of its columns, and the call of the DEM export. *)
Record Export := {
  file_name : string;
  file_rows : list (list R);
  dem_print : option (string * Z)
}.

Definition INT_MAX : Z := 2147483647.

Section Engine.
Context `{PhysicalConstants}.

Definition CalculateAbundanceCorrection
    (this : Loop.t) (helium_to_hydrogen_ratio : R) : Loop.t :=
  let p := Loop.parameters this in
  let z_avg :=
    (1.0 + 2.0 * helium_to_hydrogen_ratio) / (1.0 + helium_to_hydrogen_ratio) in
  let boltzmann_correction := (1.0 + 1.0 / z_avg) / 2.0 in
  let ion_mass_correction :=
    (1.0 + 4.0 * helium_to_hydrogen_ratio)
    / (2.0 + 3.0 * helium_to_hydrogen_ratio) * 2.0 * boltzmann_correction in
  Loop.with_parameters this
    {| Parameters.total_time := Parameters.total_time p;
       Parameters.tau := Parameters.tau p;
       Parameters.loop_length := Parameters.loop_length p;
       Parameters.rka_error := Parameters.rka_error p;
       Parameters.saturation_limit := Parameters.saturation_limit p;
       Parameters.c1_cond0 := Parameters.c1_cond0 p;
       Parameters.c1_rad0 := Parameters.c1_rad0 p;
       Parameters.use_c1_loss_correction := Parameters.use_c1_loss_correction p;
       Parameters.use_c1_grav_correction := Parameters.use_c1_grav_correction p;
       Parameters.use_power_law_radiative_losses :=
         Parameters.use_power_law_radiative_losses p;
       Parameters.use_spitzer_conductivity := Parameters.use_spitzer_conductivity p;
       Parameters.calculate_dem := Parameters.calculate_dem p;
       Parameters.solver := Parameters.solver p;
       Parameters.output_filename := Parameters.output_filename p;
       Parameters.boltzmann_correction := boltzmann_correction;
       Parameters.ion_mass_correction := ion_mass_correction |}.

(** The object that the constructor builds once the estimate [N] of the
    number of rows is known.  The two correction fields are not initialised
    before [CalculateAbundanceCorrection] assigns them (0 until then). *)
Definition Loop_build (cfg : Config.t) (heater : Heater)
    (power_law_radiation tabulated_radiation : CRadiation) (N : Z) : Loop.t :=
  let parameters :=
    {| Parameters.total_time := Config.total_time cfg;
       Parameters.tau := Config.tau cfg;
       Parameters.loop_length := Config.loop_length cfg;
       Parameters.rka_error := Config.rka_error cfg;
       Parameters.saturation_limit := Config.saturation_limit cfg;
       Parameters.c1_cond0 := Config.c1_cond0 cfg;
       Parameters.c1_rad0 := Config.c1_rad0 cfg;
       Parameters.use_c1_loss_correction := Config.use_c1_loss_correction cfg;
       Parameters.use_c1_grav_correction := Config.use_c1_grav_correction cfg;
       Parameters.use_power_law_radiative_losses :=
         Config.use_power_law_radiative_losses cfg;
       Parameters.use_spitzer_conductivity := Config.use_spitzer_conductivity cfg;
       Parameters.calculate_dem := Config.calculate_dem cfg;
       Parameters.solver := Config.solver cfg;
       Parameters.output_filename := Config.output_filename cfg;
       Parameters.boltzmann_correction := 0;
       Parameters.ion_mass_correction := 0 |} in
  let radiation_model :=
    if Parameters.use_power_law_radiative_losses parameters
    then power_law_radiation else tabulated_radiation in
  let dem :=
    if Parameters.calculate_dem parameters then Some [] else None in
  let this :=
    {| Loop.parameters := parameters; Loop.N := N; Loop.excess := None;
       Loop.__state := [];
       Loop.results :=
         {| Results.time := []; Results.heat := [];
            Results.pressure_e := []; Results.pressure_i := [];
            Results.temperature_e := []; Results.temperature_i := [];
            Results.density := [] |};
       Loop.radiation_model := radiation_model; Loop.heater := heater;
       Loop.dem := dem; Loop.cout := [] |} in
  let this :=
    CalculateAbundanceCorrection this (Config.helium_to_hydrogen_ratio cfg) in
  let zeros := replicate (Z.to_nat N) 0 in
  Loop.with_results this
    {| Results.time := zeros; Results.heat := zeros;
       Results.pressure_e := zeros; Results.pressure_i := zeros;
       Results.temperature_e := zeros; Results.temperature_i := zeros;
       Results.density := zeros |}.

(** The constructor, given the parsed configuration, the heater and the two
    radiation models it chooses from.  No object is produced when the
    estimate of the length cannot be computed ([tau] is 0, or the quotient
    does not fit an [int]) or when it is negative, in which case [resize]
    throws. *)
Definition Loop_new (cfg : Config.t) (heater : Heater)
    (power_law_radiation tabulated_radiation : CRadiation) : option Loop.t :=
  if Req_dec_T (Config.tau cfg) 0 then None
  else
    let N := cmath.ceil (Config.total_time cfg / Config.tau cfg) in
    if (N <? 0)%Z || (INT_MAX <? N)%Z then None
    else Some (Loop_build cfg heater power_law_radiation tabulated_radiation N).

(** [SaveResults(i, time)], called with [0 <= i]. *)
Definition SaveResults (this : Loop.t) (i : Z) (time : R) : Loop.t :=
  let __state := Loop.__state this in
  let results := Loop.results this in
  let heat := Get_Heating (Loop.heater this) time in
  let temperature_e :=
    __state !!! 0%nat / (BOLTZMANN_CONSTANT * __state !!! 2%nat) in
  let temperature_i :=
    __state !!! 1%nat
    / (BOLTZMANN_CONSTANT
       * Parameters.boltzmann_correction (Loop.parameters this)
       * __state !!! 2%nat) in
  if (Loop.N this <=? i)%Z then
    Loop.with_results this
      {| Results.time := Results.time results ++ [time];
         Results.heat := Results.heat results ++ [heat];
         Results.temperature_e := Results.temperature_e results ++ [temperature_e];
         Results.temperature_i := Results.temperature_i results ++ [temperature_i];
         Results.pressure_e := Results.pressure_e results ++ [__state !!! 0%nat];
         Results.pressure_i := Results.pressure_i results ++ [__state !!! 1%nat];
         Results.density := Results.density results ++ [__state !!! 2%nat] |}
  else
    let k := Z.to_nat i in
    Loop.with_results this
      {| Results.time := <[k := time]> (Results.time results);
         Results.heat := <[k := heat]> (Results.heat results);
         Results.temperature_e := <[k := temperature_e]> (Results.temperature_e results);
         Results.temperature_i := <[k := temperature_i]> (Results.temperature_i results);
         Results.pressure_e := <[k := __state !!! 0%nat]> (Results.pressure_e results);
         Results.pressure_i := <[k := __state !!! 1%nat]> (Results.pressure_i results);
         Results.density := <[k := __state !!! 2%nat]> (Results.density results) |}.

Definition i_max : nat := 100.
Definition tol : R := 1e-2.

(** The locals of one pass of the loop of [CalculateInitialConditions]. *)
Record InitialIterate := {
  ic_c1 : R;
  ic_temperature : R;
  ic_density : R;
  ic_error_temperature : R;
  ic_error_density : R
}.

(** Lines 106-114, entered with the counter [i] and the previous values. *)
Definition initial_pass (this : Loop.t) (i : Z) (c1 temperature_old density_old : R)
  : InitialIterate :=
  let c2 := CalculateC2 in
  let heat := Get_Heating (Loop.heater this) 0.0 in
  let c1 :=
    if (0 <? i)%Z then CalculateC1 this temperature_old temperature_old density_old
    else c1 in
  let temperature :=
    c2 * cmath.pow
           (3.5 * c1 / (1.0 + c1)
            * cmath.pow (Parameters.loop_length (Loop.parameters this)) 2 * heat
            / (SPITZER_ELECTRON_CONDUCTIVITY + SPITZER_ION_CONDUCTIVITY))
           (2.0 / 7.0) in
  let radiative_loss :=
    GetPowerLawRad (Loop.radiation_model this) (cmath.log10 temperature) in
  let density := sqrt (heat / (radiative_loss * (1.0 + c1))) in
  let error_temperature := fabs (temperature - temperature_old) / temperature in
  let error_density := fabs (density - density_old) / density in
  {| ic_c1 := c1; ic_temperature := temperature; ic_density := density;
     ic_error_temperature := error_temperature;
     ic_error_density := error_density |}.

(** The loop [while(i<i_max)]; [remaining] passes are left after the current
    one.  Returns the counter, the temperature and the density at the exit. *)
Fixpoint initial_while (this : Loop.t) (remaining : nat) (i : Z)
    (c1 temperature_old density_old : R) : Z * R * R :=
  let v := initial_pass this i c1 temperature_old density_old in
  if Rlt_dec (fmax (ic_error_density v) (ic_error_temperature v)) tol then
    (i, ic_temperature v, ic_density v)
  else
    match remaining with
    | S k =>
        initial_while this k (i + 1) (ic_c1 v) (ic_temperature v) (ic_density v)
    | O => ((i + 1)%Z, ic_temperature v, ic_density v)
    end.

Definition CalculateInitialConditions (this : Loop.t) : Loop.t :=
  let '(i, temperature, density) :=
    initial_while this (i_max - 1) 0 2.0 LARGEST_DOUBLE LARGEST_DOUBLE in
  let __state := replicate 3 0 in
  let __state := <[0%nat := BOLTZMANN_CONSTANT * density * temperature]> __state in
  let __state :=
    <[1%nat := Parameters.boltzmann_correction (Loop.parameters this)
               * BOLTZMANN_CONSTANT * density * temperature]> __state in
  let __state := <[2%nat := density]> __state in
  SaveResults (Loop.with_state this __state) 0 0.0.

(** The local variables of [EvolveLoop]. *)
Record EvolveVars := {
  ev_i : Z;
  ev_time : R;
  ev_tau : R
}.

(** Lines 143-158: the dispatch on the name of the solver. *)
Definition solver_step (this : Loop.t) (time tau : R) : Loop.t * R :=
  let solver := Parameters.solver (Loop.parameters this) in
  let __state := Loop.__state this in
  if String.eqb solver "euler" then
    (Loop.with_state this (EulerSolver this __state time tau), tau)
  else if String.eqb solver "rk4" then
    (Loop.with_state this (RK4Solver this __state time tau), tau)
  else if String.eqb solver "rka4" then
    let '(printed, _tmp_state) := RKA4Solver this __state time tau in
    let tau := List.last _tmp_state 0 in
    let _tmp_state := removelast _tmp_state in
    (Loop.with_state (Loop.print this printed) _tmp_state, tau)
  else (this, tau).

(** Lines 160-169. *)
Definition dem_step (this : Loop.t) (i : Z) : Loop.t :=
  if Parameters.calculate_dem (Loop.parameters this) then
    let __state := Loop.__state this in
    let tmp_temperature_e :=
      __state !!! 0%nat / (BOLTZMANN_CONSTANT * __state !!! 2%nat) in
    let tmp_temperature_i :=
      __state !!! 1%nat
      / (Parameters.boltzmann_correction (Loop.parameters this)
         * BOLTZMANN_CONSTANT * __state !!! 2%nat) in
    let tmp_fe :=
      CalculateThermalConduction this tmp_temperature_e (__state !!! 2%nat) "electron" in
    let tmp_c1 :=
      CalculateC1 this tmp_temperature_e tmp_temperature_i (__state !!! 2%nat) in
    let call :=
      {| dem_i := i; dem_pressure_e := __state !!! 0%nat;
         dem_density := __state !!! 2%nat; dem_fe := tmp_fe; dem_c1 := tmp_c1 |} in
    Loop.with_dem this (option_map (fun calls => calls ++ [call]) (Loop.dem this))
  else this.

(** One pass of the loop of [EvolveLoop]. *)
Definition EvolveLoop_body (this : Loop.t) (v : EvolveVars) : Loop.t * EvolveVars :=
  let '(this, tau) := solver_step this (ev_time v) (ev_tau v) in
  let this := dem_step this (ev_i v) in
  let this := SaveResults this (ev_i v) (ev_time v) in
  (this, {| ev_i := ev_i v + 1; ev_time := ev_time v + tau; ev_tau := tau |}).

(** The loop [while(time<parameters.total_time)].  The number of passes is
    not known beforehand: [fuel] bounds it, and the result is [None] when
    the bound is reached with the condition still true. *)
Fixpoint EvolveLoop_while (fuel : nat) (this : Loop.t) (v : EvolveVars)
  : option (Loop.t * EvolveVars) :=
  if Rlt_dec (ev_time v) (Parameters.total_time (Loop.parameters this)) then
    match fuel with
    | O => None
    | S fuel' =>
        let '(this, v) := EvolveLoop_body this v in
        EvolveLoop_while fuel' this v
    end
  else Some (this, v).

Definition EvolveLoop_init (this : Loop.t) : EvolveVars :=
  {| ev_i := 1;
     ev_time := Parameters.tau (Loop.parameters this);
     ev_tau := Parameters.tau (Loop.parameters this) |}.

Definition EvolveLoop (fuel : nat) (this : Loop.t) : option Loop.t :=
  match EvolveLoop_while fuel this (EvolveLoop_init this) with
  | None => None
  | Some (this, v) =>
      let excess := (Loop.N this - ev_i v)%Z in
      let excess := if (excess <? 0)%Z then 0%Z else excess in
      Some (Loop.with_excess this excess)
  end.

(** [pop_back] on each of the seven sequences. *)
Definition pop_back_all (r : Results.t) : Results.t :=
  {| Results.time := removelast (Results.time r);
     Results.temperature_e := removelast (Results.temperature_e r);
     Results.temperature_i := removelast (Results.temperature_i r);
     Results.density := removelast (Results.density r);
     Results.pressure_e := removelast (Results.pressure_e r);
     Results.pressure_i := removelast (Results.pressure_i r);
     Results.heat := removelast (Results.heat r) |}.

(** Lines 202-205: one row per entry of [results.time]. *)
Definition output_rows (r : Results.t) : list (list R) :=
  for_loop (length (Results.time r))
    (fun i f =>
       f ++ [[Results.time r !!! i; Results.temperature_e r !!! i;
              Results.temperature_i r !!! i; Results.density r !!! i;
              Results.pressure_e r !!! i; Results.pressure_i r !!! i;
              Results.heat r !!! i]])
    [].

(** [PrintToFile]: the object with its trimmed results and what is
    exported.  Reading [excess] before [EvolveLoop] has set it is undefined
    ([None]). *)
Definition PrintToFile (this : Loop.t) : option (Loop.t * Export) :=
  match Loop.excess this with
  | None => None
  | Some excess =>
      let results :=
        for_loop (Z.to_nat excess) (fun _ r => pop_back_all r) (Loop.results this) in
      let name := Parameters.output_filename (Loop.parameters this) in
      Some (Loop.with_results this results,
            {| file_name := name;
               file_rows := output_rows results;
               dem_print :=
                 if Parameters.calculate_dem (Loop.parameters this)
                 then Some (name, excess) else None |})
  end.

End Engine.

(** ** Statements taken from the specification *)

(** The piecewise formula of the specification for C1, as a function of
    the density ratio. *)
Definition C1_branch_cond (cond0 ratio : R) : R :=
  (2 * 2.0 + cond0 * (1 / ratio - 1)) / (1 + 1 / ratio).

Definition C1_branch_rad (rad0 ratio : R) : R :=
  (2 * 2.0 + rad0 * (ratio - 1)) / (1 + ratio).

Definition C1_piecewise (cond0 rad0 ratio : R) : R :=
  if Rlt_dec ratio 1 then C1_branch_cond cond0 ratio
  else C1_branch_rad rad0 ratio.


(** ** The passes of the two bounded loops, one by one *)

(** The [j]-th pass of the attempt loop of [RKA4Solver] entered with [tau],
    when no earlier pass has returned. *)
Fixpoint attempt_from `{PhysicalConstants} (this : Loop.t) (state : list R)
    (time : R) (j : nat) (tau : R) : Attempt :=
  let a := RKA4_attempt this state time tau in
  match j with
  | O => a
  | S j' => attempt_from this state time j' (new_tau a)
  end.

(** The [j]-th pass of the loop of [CalculateInitialConditions] after the
    one entered with [i], [c1] and the previous values, when no earlier pass
    has left the loop. *)
Fixpoint pass_from `{PhysicalConstants} (this : Loop.t) (j : nat) (i : Z)
    (c1 temperature_old density_old : R) : InitialIterate :=
  let v := initial_pass this i c1 temperature_old density_old in
  match j with
  | O => v
  | S j' =>
      pass_from this j' (i + 1) (ic_c1 v) (ic_temperature v) (ic_density v)
  end.

Definition initial_pass_at `{PhysicalConstants} (this : Loop.t) (j : nat)
  : InitialIterate :=
  pass_from this j 0 2.0 LARGEST_DOUBLE LARGEST_DOUBLE.

(** The object and the local variables after [k] passes of the loop of
    [EvolveLoop]. *)
Fixpoint EvolveLoop_passes `{PhysicalConstants} (k : nat) (this : Loop.t)
    (v : EvolveVars) : Loop.t * EvolveVars :=
  match k with
  | O => (this, v)
  | S k' =>
      let '(this', v') := EvolveLoop_passes k' this v in
      EvolveLoop_body this' v'
  end.

(** The seven sequences all have length [n]. *)
Definition aligned (r : Results.t) (n : nat) : Prop :=
  length (Results.time r) = n /\ length (Results.heat r) = n
  /\ length (Results.pressure_e r) = n /\ length (Results.pressure_i r) = n
  /\ length (Results.temperature_e r) = n
  /\ length (Results.temperature_i r) = n
  /\ length (Results.density r) = n.

(** The entries of the seven sequences at index [k], in the order time,
    heat, electron and ion temperature, electron and ion pressure, density. *)
Definition row (r : Results.t) (k : nat) : list (option R) :=
  [Results.time r !! k; Results.heat r !! k;
   Results.temperature_e r !! k; Results.temperature_i r !! k;
   Results.pressure_e r !! k; Results.pressure_i r !! k;
   Results.density r !! k].

(** The first [n] entries of each of the seven sequences. *)
Definition take_all (n : nat) (r : Results.t) : Results.t :=
  {| Results.time := take n (Results.time r);
     Results.heat := take n (Results.heat r);
     Results.pressure_e := take n (Results.pressure_e r);
     Results.pressure_i := take n (Results.pressure_i r);
     Results.temperature_e := take n (Results.temperature_e r);
     Results.temperature_i := take n (Results.temperature_i r);
     Results.density := take n (Results.density r) |}.

(** The three components of a state are positive. *)
Definition positive_state (state : list R) : Prop :=
  0 < state !!! 0%nat /\ 0 < state !!! 1%nat /\ 0 < state !!! 2%nat.

(** The error ratio of component [j] of an attempt of the adaptive
    integrator, as the specification writes it. *)
Definition component_ratio (this : Loop.t) (small big : list R) (j : nat) : R :=
  Rabs (small !!! j - big !!! j)
  / (Parameters.rka_error (Loop.parameters this)
     * (Rabs (small !!! j) + Rabs (big !!! j)) / 2 + 1e-16).

(** ** A concrete loop

    Constants in cgs units, a constant heating rate and a constant
    radiative loss rate, chosen so that the temperature 0.9 and the density
    1 balance conduction, radiation and heating exactly: the seed state of
    this loop is computed by hand. *)

Definition cgs : PhysicalConstants :=
  {| BOLTZMANN_CONSTANT := 1.38e-16;
     ELECTRON_MASS := 9.11e-28;
     PROTON_MASS := 1.67e-24;
     SPITZER_ELECTRON_CONDUCTIVITY := 7.8e-7;
     SPITZER_ION_CONDUCTIVITY := 3.2e-8;
     GAMMA := 5 / 3;
     GAMMA_MINUS_ONE := 2 / 3;
     SOLAR_SURFACE_GRAVITY := 2.74e4;
     ELECTRON_CHARGE_POWER_4 := 5.31e-38;
     _PI_ := 3.14159265358979;
     LARGEST_DOUBLE := 1.797e308 |}.

Definition example_heater (partition : R) : Heater :=
  {| Get_Heating := fun _ => 3.48e-7; partition := partition |}.

Definition example_radiation : CRadiation :=
  {| GetPowerLawRad := fun _ => 1.16e-7 |}.

Definition example_config (solver : string) : Config.t :=
  {| Config.total_time := 3;
     Config.tau := 1;
     Config.loop_length := 1;
     Config.rka_error := 1e-6;
     Config.saturation_limit := 1;
     Config.c1_cond0 := 6;
     Config.c1_rad0 := 0.6;
     Config.helium_to_hydrogen_ratio := 0;
     Config.use_c1_loss_correction := false;
     Config.use_c1_grav_correction := false;
     Config.use_power_law_radiative_losses := true;
     Config.use_spitzer_conductivity := true;
     Config.calculate_dem := false;
     Config.solver := solver;
     Config.output_filename := "ebtel.txt" |}.

Definition example_parameters (solver : string) (spitzer : bool)
    (saturation_limit : R) : Parameters.t :=
  {| Parameters.total_time := 3;
     Parameters.tau := 1;
     Parameters.loop_length := 1;
     Parameters.rka_error := 1e-6;
     Parameters.saturation_limit := saturation_limit;
     Parameters.c1_cond0 := 6;
     Parameters.c1_rad0 := 0.6;
     Parameters.use_c1_loss_correction := false;
     Parameters.use_c1_grav_correction := false;
     Parameters.use_power_law_radiative_losses := true;
     Parameters.use_spitzer_conductivity := spitzer;
     Parameters.calculate_dem := false;
     Parameters.solver := solver;
     Parameters.output_filename := "ebtel.txt";
     Parameters.boltzmann_correction := 1;
     Parameters.ion_mass_correction := 1 |}.

Definition example_results : Results.t :=
  {| Results.time := [0; 0; 0]; Results.heat := [0; 0; 0];
     Results.pressure_e := [0; 0; 0]; Results.pressure_i := [0; 0; 0];
     Results.temperature_e := [0; 0; 0]; Results.temperature_i := [0; 0; 0];
     Results.density := [0; 0; 0] |}.

(** The loop after its initial conditions, with the seed state. *)
Definition example_loop (solver : string) (spitzer : bool)
    (saturation_limit partition : R) : Loop.t :=
  {| Loop.parameters := example_parameters solver spitzer saturation_limit;
     Loop.N := 3;
     Loop.excess := None;
     Loop.__state := [1.242e-16; 1.242e-16; 1];
     Loop.results := example_results;
     Loop.radiation_model := example_radiation;
     Loop.heater := example_heater partition;
     Loop.dem := None;
     Loop.cout := [] |}.

(** The share of the heating given to the electrons for which the seed
    state is an equilibrium of the three equations. *)
Definition balanced_partition : R := 593 / 609.

(** The concrete loop after construction and initial conditions, with [cgs]
    for the constants. *)
Definition seeded (solver : string) (share : R) : Loop.t :=
  @CalculateInitialConditions cgs
    (Loop_build (example_config solver) (example_heater share)
       example_radiation example_radiation 3).

(** A heating profile with spikes: the rate of the concrete loop, raised by
    [1/t] at the times [(10/11)^m], [m < 100]. *)
Fixpoint on_grid (n : nat) (t : R) : bool :=
  match n with
  | O => false
  | S m => if Req_dec_T t ((10 / 11) ^ m) then true else on_grid m t
  end.

Definition spiky_heater : Heater :=
  {| Get_Heating := fun t => if on_grid 100 t then 3.48e-7 + 1 / t else 3.48e-7;
     partition := balanced_partition |}.

(** The concrete loop at its seed state, heated by the spikes. *)
Definition spiky_loop : Loop.t :=
  {| Loop.parameters := example_parameters "rka4" true 1;
     Loop.N := 3;
     Loop.excess := None;
     Loop.__state := [1.242e-16; 1.242e-16; 1];
     Loop.results := example_results;
     Loop.radiation_model := example_radiation;
     Loop.heater := spiky_heater;
     Loop.dem := None;
     Loop.cout := [] |}.

(** The concrete loop at its seed state with the DEM calculation switched
    on and no call made yet. *)
Definition dem_loop : Loop.t :=
  {| Loop.parameters :=
       {| Parameters.total_time := 3;
          Parameters.tau := 1;
          Parameters.loop_length := 1;
          Parameters.rka_error := 1e-6;
          Parameters.saturation_limit := 1;
          Parameters.c1_cond0 := 6;
          Parameters.c1_rad0 := 0.6;
          Parameters.use_c1_loss_correction := false;
          Parameters.use_c1_grav_correction := false;
          Parameters.use_power_law_radiative_losses := true;
          Parameters.use_spitzer_conductivity := true;
          Parameters.calculate_dem := true;
          Parameters.solver := "rk4";
          Parameters.output_filename := "ebtel.txt";
          Parameters.boltzmann_correction := 1;
          Parameters.ion_mass_correction := 1 |};
     Loop.N := 3;
     Loop.excess := None;
     Loop.__state := [1.242e-16; 1.242e-16; 1];
     Loop.results := example_results;
     Loop.radiation_model := example_radiation;
     Loop.heater := example_heater balanced_partition;
     Loop.dem := Some [];
     Loop.cout := [] |}.

(** ** The addition of the time loop in binary64

    [time += tau] (line 173) adds two doubles.  [binary64.round] rounds a
    real number to the nearest number with a significand of 53 bits, ties
    to even.  The range of the exponent is not modelled (no overflow, no
    subnormal numbers): the rounding is that of binary64 for every result
    between the smallest and the largest normal double. *)
Module binary64.

(** The exponent [e] of [x]: [2^e <= |x| < 2^(e+1)]. *)
Definition exponent (x : R) : Z := Zfloor (ln (Rabs x) / ln 2).

(** The distance between neighbouring doubles at [x]. *)
Definition ulp (x : R) : R := powerRZ 2 (exponent x - 52).

Definition nearest_even (m : R) : Z :=
  let f := Zfloor m in
  if Rlt_dec (m - IZR f) (1 / 2) then f
  else if Rlt_dec (1 / 2) (m - IZR f) then (f + 1)%Z
  else if Z.even f then f else (f + 1)%Z.

Definition round (x : R) : R :=
  if Req_dec_T x 0 then 0 else IZR (nearest_even (x / ulp x)) * ulp x.

Definition add (x y : R) : R := round (x + y).

(** [x] is a double. *)
Definition representable (x : R) : Prop := round x = x.

End binary64.

(** One pass of the loop of [EvolveLoop], as [EvolveLoop_body], with the
    addition [time += tau] of line 173 carried out in binary64. *)
Definition EvolveLoop_body_binary64 `{PhysicalConstants}
    (this : Loop.t) (v : EvolveVars) : Loop.t * EvolveVars :=
  let '(this, tau) := solver_step this (ev_time v) (ev_tau v) in
  let this := dem_step this (ev_i v) in
  let this := SaveResults this (ev_i v) (ev_time v) in
  (this, {| ev_i := ev_i v + 1;
            ev_time := binary64.add (ev_time v) tau;
            ev_tau := tau |}).

(** The object and the local variables after [k] such passes. *)
Fixpoint EvolveLoop_passes_binary64 `{PhysicalConstants} (k : nat)
    (this : Loop.t) (v : EvolveVars) : Loop.t * EvolveVars :=
  match k with
  | O => (this, v)
  | S k' =>
      let '(this', v') := EvolveLoop_passes_binary64 k' this v in
      EvolveLoop_body_binary64 this' v'
  end.

(** A number of the form [n / 2^s], as every double is. *)
Definition dyadic (x : R) : Prop := exists (n : Z) (s : nat), x = IZR n / 2 ^ s.

(** ** A run of the adaptive integrator whose time stops advancing

    The heating rate of the concrete loop, raised in five nested bursts of
    spikes.  Burst [k] starts at the time [stall_time k] at which pass
    [k + 1] of the loop of [EvolveLoop] is entered, with the step size
    [stall_shrink ^ k]; its spikes are at the ends of the first 99 attempts
    of that pass, [stall_time k + stall_shrink ^ k * (10/11)^m].  The
    hundredth attempt meets no spike, is accepted, and returns the step
    size [stall_shrink ^ (k + 1)]. *)
Definition stall_shrink : R := 4 * (10 / 11) ^ 99.

Fixpoint stall_time (k : nat) : R :=
  match k with
  | O => 1
  | S k' => binary64.add (stall_time k') (stall_shrink ^ S k')
  end.

Fixpoint stall_heating (k : nat) (t : R) : R :=
  match k with
  | O => 3.48e-7
  | S k' =>
      if on_grid 99 ((t - stall_time k') / stall_shrink ^ k')
      then 3.48e-7 + 1 / (t - stall_time k')
      else stall_heating k' t
  end.

Definition stall_heater : Heater :=
  {| Get_Heating := stall_heating 5; partition := balanced_partition |}.

(** The concrete loop with the adaptive integrator and the bursts, after
    construction and initial conditions. *)
Definition stall_loop : Loop.t :=
  @CalculateInitialConditions cgs
    (Loop_build (example_config "rka4") stall_heater
       example_radiation example_radiation 3).

(** Two objects with the same configuration and the same collaborators. *)
Definition same_model (a b : Loop.t) : Prop :=
  Loop.parameters a = Loop.parameters b
  /\ Loop.radiation_model a = Loop.radiation_model b
  /\ Loop.heater a = Loop.heater b.

(** ** The states that the integrators hand to [CalculateDerivs]

    Each integrator is given a companion that lists, in the order of the
    calls, the state vectors with which it invokes [CalculateDerivs]. *)

(** [EulerSolver] (line 380): one call, on the state it is given. *)
Definition EulerSolver_calls (state : list R) (time tau : R) : list (list R) :=
  [state].

(** [RK4Solver] (lines 396, 402, 408 and 414): the state it is given and the
    three intermediate states [_tmp_state]. *)
Definition RK4Solver_calls `{PhysicalConstants} (this : Loop.t)
    (state : list R) (time tau : R) : list (list R) :=
  let _tmp_state := replicate (length state) 0 in
  let f1 := CalculateDerivs this state time in
  let _tmp_state_1 :=
    for_loop (length f1)
      (fun i t => <[i := state !!! i + tau / 2.0 * f1 !!! i]> t) _tmp_state in
  let f2 := CalculateDerivs this _tmp_state_1 (time + tau / 2.0) in
  let _tmp_state_2 :=
    for_loop (length f2)
      (fun i t => <[i := state !!! i + tau / 2.0 * f2 !!! i]> t) _tmp_state_1 in
  let f3 := CalculateDerivs this _tmp_state_2 (time + tau / 2.0) in
  let _tmp_state_3 :=
    for_loop (length f3)
      (fun i t => <[i := state !!! i + tau * f3 !!! i]> t) _tmp_state_2 in
  [state; _tmp_state_1; _tmp_state_2; _tmp_state_3].

(** One pass of the attempt loop of [RKA4Solver] (lines 446 and 448): the
    calls of the two half steps, then those of the whole step. *)
Definition RKA4_attempt_calls `{PhysicalConstants} (this : Loop.t)
    (state : list R) (time tau : R) : list (list R) :=
  RK4Solver_calls this state time (tau * 0.5)
  ++ RK4Solver_calls this (RK4Solver this state time (tau * 0.5))
       (time + tau * 0.5) (tau * 0.5)
  ++ RK4Solver_calls this state time tau.

(** The attempt loop, as [RKA4_attempts]. *)
Fixpoint RKA4_attempts_calls `{PhysicalConstants} (this : Loop.t)
    (remaining : nat) (state : list R) (time tau : R) : list (list R) :=
  let a := RKA4_attempt this state time tau in
  RKA4_attempt_calls this state time tau
  ++ (if Rlt_dec (error_ratio a) 1 then []
      else
        match remaining with
        | S k => RKA4_attempts_calls this k state time (new_tau a)
        | O => []
        end).

Definition RKA4Solver_calls `{PhysicalConstants} (this : Loop.t)
    (state : list R) (time tau : R) : list (list R) :=
  RKA4_attempts_calls this (max_try - 1) state time tau.

(** The dispatch of [EvolveLoop], as [solver_step]; the rest of a pass of
    the loop does not call [CalculateDerivs]. *)
Definition solver_step_calls `{PhysicalConstants} (this : Loop.t)
    (time tau : R) : list (list R) :=
  let solver := Parameters.solver (Loop.parameters this) in
  let __state := Loop.__state this in
  if String.eqb solver "euler" then EulerSolver_calls __state time tau
  else if String.eqb solver "rk4" then RK4Solver_calls this __state time tau
  else if String.eqb solver "rka4" then RKA4Solver_calls this __state time tau
  else [].

(** The calls made in the first [k] passes of the loop of [EvolveLoop]. *)
Fixpoint EvolveLoop_passes_calls `{PhysicalConstants} (k : nat)
    (this : Loop.t) (v : EvolveVars) : list (list R) :=
  match k with
  | O => []
  | S k' =>
      let '(this', v') := EvolveLoop_passes k' this v in
      EvolveLoop_passes_calls k' this v
      ++ solver_step_calls this' (ev_time v') (ev_tau v')
  end.

(** ** Steps that keep the state positive *)

(** The three components of [u] are within [rho * D_j] of those of [s]. *)
Definition within (s D : list R) (rho : R) (u : list R) : Prop :=
  length u = 3%nat
  /\ forall j, (j < 3)%nat -> Rabs (u !!! j - s !!! j) <= rho * D !!! j.

(** The box around [s]: each component is within half of that of [s]. *)
Definition in_box (s u : list R) : Prop :=
  length u = 3%nat
  /\ forall j, (j < 3)%nat -> Rabs (u !!! j - s !!! j) <= s !!! j / 2.

(** A step size [tau] is safe at the state [s] when, with [D_j] a bound on
    the magnitude of derivative [j] over the box around [s] at all times,
    it moves no component by more than half of itself: [tau * D_j <= s_j/2]. *)
Definition safe_step `{PhysicalConstants} (this : Loop.t) (s : list R)
    (tau : R) : Prop :=
  exists D : list R,
    (forall u t j, (j < 3)%nat -> in_box s u ->
       Rabs (CalculateDerivs this u t !!! j) <= D !!! j)
    /\ forall j, (j < 3)%nat -> tau * D !!! j <= s !!! j / 2.

(** A function is bounded in magnitude, and is bounded and bounded away
    from 0 from above, on the points that satisfy [P]. *)
Definition bounded_on {X : Type} (P : X -> Prop) (f : X -> R) : Prop :=
  exists M, forall x, P x -> Rabs (f x) <= M.

Definition positive_on {X : Type} (P : X -> Prop) (f : X -> R) : Prop :=
  exists m M, 0 < m /\ forall x, P x -> m <= f x <= M.
(** * Proofs *)

(** ** Facts about the functions of <cmath> *)

Lemma pow_2 (x : R) : cmath.pow x 2 = x * x.
Proof.
  unfold cmath.pow. destruct (Req_dec_T 2 2) as [_ | Hne]; [reflexivity | lra].
Qed.

Lemma pow_gt0 (x y : R) : 0 < x -> 0 < cmath.pow x y.
Proof.
  intros Hx. unfold cmath.pow.
  destruct (Req_dec_T y 2) as [_ | _].
  - nra.
  - destruct (Rlt_dec 0 x) as [_ | Hn]; [apply exp_pos | lra].
Qed.

Lemma pow_1 (y : R) : cmath.pow 1 y = 1.
Proof.
  unfold cmath.pow.
  destruct (Req_dec_T y 2) as [_ | _]; [lra |].
  destruct (Rlt_dec 0 1) as [_ | Hn]; [| lra].
  unfold Rpower. rewrite ln_1, Rmult_0_r. apply exp_0.
Qed.

(** ** C1: the piecewise formula and its continuity *)

Lemma C1_piecewise_at_1 (cond0 rad0 : R) : C1_piecewise cond0 rad0 1 = 2.
Proof.
  unfold C1_piecewise, C1_branch_rad.
  destruct (Rlt_dec 1 1) as [Hlt | _]; [lra |].
  replace 2.0 with 2 by lra. field.
Qed.

Lemma C1_piecewise_near_1 (cond0 rad0 r : R) :
  1 / 2 < r < 3 / 2 ->
  Rabs (C1_piecewise cond0 rad0 r - 2)
  <= (Rabs (cond0 - 2) + Rabs (rad0 - 2)) * Rabs (r - 1).
Proof.
  intros [Hlo Hhi].
  assert (Hinv : 0 <= / (r + 1) <= 1).
  { split.
    - left. apply Rinv_0_lt_compat. lra.
    - rewrite <- Rinv_1 at 2. apply Rinv_le_contravar; lra. }
  pose proof (Rabs_pos (cond0 - 2)) as Hc.
  pose proof (Rabs_pos (rad0 - 2)) as Hr.
  pose proof (Rabs_pos (r - 1)) as Hd.
  unfold C1_piecewise. destruct (Rlt_dec r 1) as [Hlt | Hge].
  - replace (C1_branch_cond cond0 r - 2)
      with ((cond0 - 2) * (- (r - 1)) * / (r + 1))
      by (unfold C1_branch_cond; replace 2.0 with 2 by lra; field; lra).
    rewrite !Rabs_mult, Rabs_Ropp, (Rabs_pos_eq (/ (r + 1))) by lra.
    apply Rle_trans with (Rabs (cond0 - 2) * Rabs (r - 1) * 1);
      [apply Rmult_le_compat_l; [apply Rmult_le_pos |]; lra | nra].
  - replace (C1_branch_rad rad0 r - 2)
      with ((rad0 - 2) * (r - 1) * / (r + 1))
      by (unfold C1_branch_rad; replace 2.0 with 2 by lra; field; lra).
    rewrite !Rabs_mult, (Rabs_pos_eq (/ (r + 1))) by lra.
    apply Rle_trans with (Rabs (rad0 - 2) * Rabs (r - 1) * 1);
      [apply Rmult_le_compat_l; [apply Rmult_le_pos |]; lra | nra].
Qed.

Lemma C1_piecewise_continuous (cond0 rad0 : R) :
  continuity_pt (C1_piecewise cond0 rad0) 1.
Proof.
  intros eps Heps.
  set (M := Rabs (cond0 - 2) + Rabs (rad0 - 2)).
  assert (HM : 0 <= M)
    by (unfold M; pose proof (Rabs_pos (cond0 - 2));
        pose proof (Rabs_pos (rad0 - 2)); lra).
  exists (Rmin (1 / 2) (eps / (M + 1))). split.
  - apply Rmin_pos; [lra |]. apply Rdiv_lt_0_compat; lra.
  - intros r [_ Hdist]. simpl in *. unfold Rdist in *.
    rewrite C1_piecewise_at_1.
    assert (H1 : Rabs (r - 1) < 1 / 2)
      by (eapply Rlt_le_trans; [exact Hdist | apply Rmin_l]).
    assert (H2 : Rabs (r - 1) < eps / (M + 1))
      by (eapply Rlt_le_trans; [exact Hdist | apply Rmin_r]).
    assert (Hr : 1 / 2 < r < 3 / 2).
    { apply Rabs_def2 in H1. lra. }
    eapply Rle_lt_trans; [apply C1_piecewise_near_1; exact Hr |].
    fold M.
    assert (H3 : Rabs (r - 1) * (M + 1) < eps).
    { apply (Rmult_lt_compat_r (M + 1)) in H2; [| lra].
      replace (eps / (M + 1) * (M + 1)) with eps in H2 by (field; lra).
      exact H2. }
    pose proof (Rabs_pos (r - 1)). nra.
Qed.

Lemma CalculateC1_piecewise `{PhysicalConstants} (this : Loop.t) (Te Ti n : R) :
  CalculateC1 this Te Ti n
  = C1_loss_correction this Te * C1_grav_correction this Te Ti
    * C1_piecewise (Parameters.c1_cond0 (Loop.parameters this))
        (Parameters.c1_rad0 (Loop.parameters this))
        (n * n / C1_density_eqm_2 this Te Ti).
Proof.
  unfold CalculateC1, C1_piecewise, C1_branch_cond, C1_branch_rad, c1_eqm0.
  rewrite pow_2.
  set (ratio := n * n / C1_density_eqm_2 this Te Ti).
  replace 1.0 with 1 by lra. replace 2.0 with 2 by lra.
  destruct (Rlt_dec ratio 1); ring.
Qed.

(** C1. For positive temperatures and density, [CalculateC1] is the product
    of the loss correction, the gravity correction and the piecewise formula
    of the specification at [ratio = n^2 / density_eqm_2]; a correction is 1
    when its flag is off; both branches are 2.0 at ratio 1, and the value is
    continuous there, as a function of the ratio and as a function of the
    density, whatever [c1_cond0] and [c1_rad0] are. *)
Theorem CalculateC1_spec `{PhysicalConstants} (this : Loop.t) (Te Ti n : R) :
  0 < Te -> 0 < Ti -> 0 < n ->
  let p := Loop.parameters this in
  let loss_correction := C1_loss_correction this Te in
  let grav_correction := C1_grav_correction this Te Ti in
  let ratio := n ^ 2 / C1_density_eqm_2 this Te Ti in
  CalculateC1 this Te Ti n
  = loss_correction * grav_correction
    * C1_piecewise (Parameters.c1_cond0 p) (Parameters.c1_rad0 p) ratio
  /\ (Parameters.use_c1_loss_correction p = false -> loss_correction = 1)
  /\ (Parameters.use_c1_grav_correction p = false -> grav_correction = 1)
  /\ (forall cond0 rad0 : R,
        C1_branch_cond cond0 1 = 2.0 /\ C1_branch_rad rad0 1 = 2.0
        /\ continuity_pt (C1_piecewise cond0 rad0) 1)
  /\ (ratio = 1 -> continuity_pt (fun n' => CalculateC1 this Te Ti n') n).
Proof.
  intros HTe HTi Hn p loss_correction grav_correction ratio.
  assert (Hratio : ratio = n * n / C1_density_eqm_2 this Te Ti)
    by (unfold ratio; simpl; now rewrite Rmult_1_r).
  repeat split.
  - rewrite Hratio. apply CalculateC1_piecewise.
  - intros Hoff. unfold loss_correction, C1_loss_correction.
    fold p. rewrite Hoff. lra.
  - intros Hoff. unfold grav_correction, C1_grav_correction.
    fold p. rewrite Hoff. lra.
  - unfold C1_branch_cond. lra.
  - unfold C1_branch_rad. lra.
  - apply C1_piecewise_continuous.
  - intros Hone.
    apply (continuity_pt_locally_ext
             (fun n' => loss_correction * grav_correction
                        * C1_piecewise (Parameters.c1_cond0 p) (Parameters.c1_rad0 p)
                            (n' * n' / C1_density_eqm_2 this Te Ti)) _ 1 n);
      [lra | intros y _; symmetry; apply CalculateC1_piecewise |].
    apply continuity_pt_mult; [apply continuity_pt_const; now intros ? ? |].
    apply (continuity_pt_comp
             (fun n' => n' * n' / C1_density_eqm_2 this Te Ti)
             (C1_piecewise (Parameters.c1_cond0 p) (Parameters.c1_rad0 p))).
    + apply continuity_pt_mult;
        [| apply continuity_pt_const; now intros ? ?].
      apply continuity_pt_mult; apply derivable_continuous_pt, derivable_pt_id.
    + rewrite <- Hratio, Hone. apply C1_piecewise_continuous.
Qed.

(** ** Vectors and counted loops *)

Lemma for_loop_S {A : Type} (n : nat) (body : nat -> A -> A) (init : A) :
  for_loop (S n) body init = body n (for_loop n body init).
Proof.
  unfold for_loop. rewrite seq_S, fold_left_app. reflexivity.
Qed.

Lemma for_loop_3 {A : Type} (body : nat -> A -> A) (init : A) :
  for_loop 3 body init = body 2%nat (body 1%nat (body 0%nat init)).
Proof. reflexivity. Qed.

Lemma for_loop_invariant {A : Type} (P : A -> Prop) (n : nat)
    (body : nat -> A -> A) (init : A) :
  P init ->
  (forall i a, (i < n)%nat -> P a -> P (body i a)) ->
  P (for_loop n body init).
Proof.
  intros Hinit Hstep. induction n as [| n IH].
  - exact Hinit.
  - rewrite for_loop_S. apply Hstep; [lia |]. apply IH.
    intros i a Hi. apply Hstep. lia.
Qed.

Lemma for_loop_insert_length (n : nat) (f : nat -> R) (init : list R) :
  length (for_loop n (fun i acc => <[i := f i]> acc) init) = length init.
Proof.
  apply (for_loop_invariant (fun acc => length acc = length init)).
  - reflexivity.
  - intros i a _ Ha. now rewrite length_insert.
Qed.

Lemma CalculateDerivs_length `{PhysicalConstants} (this : Loop.t)
    (state : list R) (time : R) :
  length (CalculateDerivs this state time) = 3%nat.
Proof. reflexivity. Qed.

Lemma EulerSolver_length `{PhysicalConstants} (this : Loop.t)
    (state : list R) (time tau : R) :
  length (EulerSolver this state time tau) = length state.
Proof.
  unfold EulerSolver.
  rewrite (for_loop_insert_length _
             (fun i => state !!! i + CalculateDerivs this state time !!! i * tau)).
  apply length_replicate.
Qed.

Lemma RK4Solver_length `{PhysicalConstants} (this : Loop.t)
    (state : list R) (time tau : R) :
  length (RK4Solver this state time tau) = length state.
Proof.
  unfold RK4Solver.
  match goal with
  | |- length (for_loop _ (fun i acc => <[i := @?f i]> acc) _) = _ =>
      rewrite (for_loop_insert_length _ f)
  end.
  apply length_replicate.
Qed.

(** ** The adaptive integrator *)

Section RKA4.
Context `{PhysicalConstants}.
Variable this : Loop.t.
Variables (state : list R) (time : R).

Local Abbreviation attempt := (attempt_from this state time).

Lemma attempt_from_S (j : nat) (tau : R) :
  attempt (S j) tau = attempt j (new_tau (RKA4_attempt this state time tau)).
Proof. reflexivity. Qed.

Lemma RKA4_attempt_old_tau (tau : R) :
  old_tau (RKA4_attempt this state time tau) = tau.
Proof. reflexivity. Qed.

Lemma RKA4_attempt_floor (tau : R) :
  tau / safety_2 <= new_tau (RKA4_attempt this state time tau).
Proof. unfold RKA4_attempt. simpl. apply Rmax_r. Qed.

Lemma attempt_from_tau_pos (j : nat) (tau : R) :
  0 < tau ->
  0 < old_tau (attempt j tau)
  /\ old_tau (attempt j tau) / safety_2 <= new_tau (attempt j tau).
Proof.
  revert tau. induction j as [| j IH]; intros tau Htau.
  - simpl attempt_from. rewrite RKA4_attempt_old_tau.
    split; [exact Htau | apply RKA4_attempt_floor].
  - rewrite attempt_from_S. apply IH.
    pose proof (RKA4_attempt_floor tau) as Hfloor.
    unfold safety_2 in Hfloor. lra.
Qed.

Lemma capped_tau_bounds (a : Attempt) :
  0 < old_tau a ->
  old_tau a / safety_2 <= new_tau a ->
  old_tau a / safety_2 <= capped_tau a <= safety_3 * old_tau a.
Proof.
  intros Hpos Hfloor. unfold capped_tau, safety_2, safety_3 in *.
  destruct (Req_dec_T (error_ratio a) 0) as [_ | _].
  - lra.
  - split; [apply Rmin_glb; lra | apply Rmin_r].
Qed.

Lemma RKA4_attempts_unfold (remaining : nat) (tau : R) :
  RKA4_attempts this remaining state time tau
  = let a := RKA4_attempt this state time tau in
    if Rlt_dec (error_ratio a) 1 then ([], small_step a ++ [capped_tau a])
    else
      match remaining with
      | S k => RKA4_attempts this k state time (new_tau a)
      | O =>
          ([Warning_not_converged; Returning_a_tau (capped_tau a) time],
           small_step a ++ [capped_tau a])
      end.
Proof. destruct remaining; reflexivity. Qed.

(** The exit of the attempt loop: the first pass whose error ratio is below
    1 returns; when none of the passes is, the code after the loop runs. *)
Lemma RKA4_attempts_exit (remaining : nat) (tau : R) :
  exists k, (k <= remaining)%nat
    /\ (forall j, (j < k)%nat -> ~ error_ratio (attempt j tau) < 1)
    /\ ((error_ratio (attempt k tau) < 1
         /\ RKA4_attempts this remaining state time tau
            = ([], small_step (attempt k tau) ++ [capped_tau (attempt k tau)]))
        \/ (k = remaining /\ ~ error_ratio (attempt k tau) < 1
            /\ RKA4_attempts this remaining state time tau
               = ([Warning_not_converged;
                   Returning_a_tau (capped_tau (attempt k tau)) time],
                  small_step (attempt k tau) ++ [capped_tau (attempt k tau)]))).
Proof.
  revert tau. induction remaining as [| remaining IH]; intros tau;
    rewrite RKA4_attempts_unfold; cbv zeta;
    destruct (Rlt_dec (error_ratio (RKA4_attempt this state time tau)) 1)
      as [Hacc | Hrej].
  - exists 0%nat. split; [lia |]. split; [intros j Hj; lia |].
    left. split; [exact Hacc | reflexivity].
  - exists 0%nat. split; [lia |]. split; [intros j Hj; lia |].
    right. repeat split; assumption.
  - exists 0%nat. split; [lia |]. split; [intros j Hj; lia |].
    left. split; [exact Hacc | reflexivity].
  - destruct (IH (new_tau (RKA4_attempt this state time tau)))
      as (k & Hk & Hbefore & Hexit).
    exists (S k). split; [lia |]. split.
    + intros [| j] Hj; [exact Hrej |].
      rewrite attempt_from_S. apply Hbefore. lia.
    + rewrite attempt_from_S.
      destruct Hexit as [[Hacc Heq] | (Hlast & Hno & Heq)].
      * left. split; assumption.
      * right. repeat split; [lia | assumption | assumption].
Qed.

Lemma small_step_attempt (j : nat) (tau : R) :
  small_step (attempt j tau)
  = RK4Solver this
      (RK4Solver this state time (old_tau (attempt j tau) * 0.5))
      (time + old_tau (attempt j tau) * 0.5) (old_tau (attempt j tau) * 0.5).
Proof.
  revert tau. induction j as [| j IH]; intros tau.
  - reflexivity.
  - rewrite attempt_from_S. apply IH.
Qed.

Lemma attempt_from_is_attempt (j : nat) (tau : R) :
  attempt j tau = RKA4_attempt this state time (old_tau (attempt j tau)).
Proof.
  revert tau. induction j as [| j IH]; intros tau.
  - reflexivity.
  - rewrite attempt_from_S. apply IH.
Qed.

Lemma new_tau_attempt (j : nat) (tau : R) :
  new_tau (attempt j tau)
  = Rmax (safety_1 * old_tau (attempt j tau)
          * cmath.pow (error_ratio (attempt j tau)) (-1.0 / 5.0))
         (old_tau (attempt j tau) / safety_2).
Proof.
  revert tau. induction j as [| j IH]; intros tau.
  - cbn [attempt_from]. unfold RKA4_attempt.
    cbn [new_tau old_tau error_ratio]. reflexivity.
  - rewrite attempt_from_S. apply IH.
Qed.

Lemma error_ratio_attempt (j : nat) (tau : R) :
  error_ratio (attempt j tau)
  = max_element
      (error_ratios this (length state) (small_step (attempt j tau))
         (RK4Solver this state time (old_tau (attempt j tau)))).
Proof.
  revert tau. induction j as [| j IH]; intros tau.
  - cbn [attempt_from]. unfold RKA4_attempt.
    cbn [error_ratio small_step old_tau]. reflexivity.
  - rewrite attempt_from_S. apply IH.
Qed.

Lemma small_step_length (j : nat) (tau : R) :
  length (small_step (attempt j tau)) = length state.
Proof. rewrite small_step_attempt, !RK4Solver_length. reflexivity. Qed.

End RKA4.

(** ** The error ratio of an attempt *)

Section ErrorRatio.
Context `{PhysicalConstants}.
Variable this : Loop.t.

Lemma component_ratio_nonneg (small big : list R) (j : nat) :
  0 <= Parameters.rka_error (Loop.parameters this) ->
  0 <= component_ratio this small big j.
Proof.
  intros Hrka. unfold component_ratio.
  pose proof (Rabs_pos (small !!! j - big !!! j)).
  pose proof (Rabs_pos (small !!! j)).
  pose proof (Rabs_pos (big !!! j)).
  apply Rmult_le_pos; [assumption |].
  left. apply Rinv_0_lt_compat.
  assert (0 <= Parameters.rka_error (Loop.parameters this)
               * (Rabs (small !!! j) + Rabs (big !!! j))) by nra.
  lra.
Qed.

Lemma error_ratios_3 (small big : list R) :
  error_ratios this 3 small big
  = [component_ratio this small big 0; component_ratio this small big 1;
     component_ratio this small big 2].
Proof.
  unfold error_ratios, for_loop, component_ratio, epsilon. simpl.
  replace 2.0 with 2 by lra. replace 1.0e-16 with 1e-16 by lra.
  reflexivity.
Qed.

Lemma error_ratios_nonneg (n : nat) (small big : list R) :
  0 <= Parameters.rka_error (Loop.parameters this) ->
  Forall (fun x => 0 <= x) (error_ratios this n small big).
Proof.
  intros Hrka. unfold error_ratios.
  apply (for_loop_invariant (Forall (fun x => 0 <= x))).
  - apply Forall_replicate. lra.
  - intros j acc _ Hacc. apply Forall_insert; [exact Hacc |].
    pose proof (component_ratio_nonneg small big j Hrka) as Hj.
    unfold component_ratio in Hj. unfold epsilon.
    replace 2.0 with 2 by lra. replace 1.0e-16 with 1e-16 by lra.
    exact Hj.
Qed.

Lemma fold_left_fmax_ge (v : list R) (x : R) : x <= fold_left Rmax v x.
Proof.
  revert x. induction v as [| y v IH]; intros x; simpl.
  - lra.
  - eapply Rle_trans; [apply Rmax_l | apply IH].
Qed.

Lemma max_element_nonneg (v : list R) :
  Forall (fun x => 0 <= x) v -> 0 <= max_element v.
Proof.
  intros Hv. destruct v as [| x v]; simpl.
  - lra.
  - apply Forall_cons in Hv as [Hx _].
    eapply Rle_trans; [exact Hx | apply fold_left_fmax_ge].
Qed.

Lemma error_ratio_nonneg (state : list R) (time tau : R) :
  0 <= Parameters.rka_error (Loop.parameters this) ->
  0 <= error_ratio (RKA4_attempt this state time tau).
Proof.
  intros Hrka. unfold RKA4_attempt. simpl.
  apply max_element_nonneg, error_ratios_nonneg, Hrka.
Qed.

Lemma pow_Rpower (x y : R) : 0 < x -> y <> 2 -> cmath.pow x y = Rpower x y.
Proof.
  intros Hx Hy. unfold cmath.pow.
  destruct (Req_dec_T y 2) as [Heq | _]; [contradiction |].
  destruct (Rlt_dec 0 x) as [_ | Hn]; [reflexivity | contradiction].
Qed.

End ErrorRatio.

Section RKA4Claims.
Context `{PhysicalConstants}.
Variable this : Loop.t.

Local Abbreviation rka_error := (Parameters.rka_error (Loop.parameters this)).

(** C2. A call of [RKA4Solver] on a three-component state with [0 < tau]
    and [0 < rka_error] that returns from inside its attempt loop (it wrote
    nothing to the console) was accepted at some attempt [k < 100], entered
    with a positive step size [tau_att]: every earlier attempt was rejected,
    the worst component ratio of attempt [k] is below 1, the returned vector
    is the two-half-step RK4 result of that attempt followed by [tau_new],
    and [tau_att/1.1 <= tau_new <= 4*tau_att], where [tau_new] is
    [min (max (0.9*tau_att*ratio^(-1/5)) (tau_att/1.1)) (4*tau_att)]; for a
    ratio of 0 the power is infinite and the minimum is [4*tau_att]. *)
Theorem RKA4Solver_accepted (state : list R) (time tau : R) :
  length state = 3%nat ->
  0 < tau ->
  0 < rka_error ->
  fst (RKA4Solver this state time tau) = [] ->
  exists k tau_att,
    (k < 100)%nat
    /\ tau_att = old_tau (attempt_from this state time k tau)
    /\ 0 < tau_att
    /\ (forall j, (j < k)%nat ->
          ~ error_ratio (attempt_from this state time j tau) < 1)
    /\ let small :=
         RK4Solver this (RK4Solver this state time (tau_att * 0.5))
           (time + tau_att * 0.5) (tau_att * 0.5) in
       let big := RK4Solver this state time tau_att in
       let ratio :=
         Rmax (Rmax (component_ratio this small big 0)
                    (component_ratio this small big 1))
              (component_ratio this small big 2) in
       let tau_new := List.last (snd (RKA4Solver this state time tau)) 0 in
       error_ratio (attempt_from this state time k tau) = ratio
       /\ 0 <= ratio < 1
       /\ snd (RKA4Solver this state time tau) = small ++ [tau_new]
       /\ tau_att / 1.1 <= tau_new <= 4 * tau_att
       /\ (0 < ratio ->
           tau_new
           = Rmin (Rmax (0.9 * tau_att * Rpower ratio (- 1 / 5)) (tau_att / 1.1))
               (4 * tau_att))
       /\ (ratio = 0 -> tau_new = 4 * tau_att).
Proof.
  intros Hlen Htau Hrka Hquiet. unfold RKA4Solver in *.
  destruct (RKA4_attempts_exit this state time (max_try - 1) tau)
    as (k & Hk & Hbefore & [[Hacc Heq] | (_ & _ & Heq)]);
    [| rewrite Heq in Hquiet; discriminate].
  set (a := attempt_from this state time k tau) in *.
  exists k, (old_tau a).
  destruct (attempt_from_tau_pos this state time k tau Htau) as [Hpos Hfloor].
  fold a in Hpos, Hfloor.
  assert (Hsmall : small_step a
                   = RK4Solver this (RK4Solver this state time (old_tau a * 0.5))
                       (time + old_tau a * 0.5) (old_tau a * 0.5))
    by apply small_step_attempt.
  assert (Hratio : error_ratio a
                   = Rmax (Rmax (component_ratio this (small_step a)
                                   (RK4Solver this state time (old_tau a)) 0)
                                (component_ratio this (small_step a)
                                   (RK4Solver this state time (old_tau a)) 1))
                          (component_ratio this (small_step a)
                             (RK4Solver this state time (old_tau a)) 2)).
  { unfold a. rewrite error_ratio_attempt, Hlen, error_ratios_3.
    reflexivity. }
  assert (Hnonneg : 0 <= error_ratio a).
  { unfold a. rewrite (attempt_from_is_attempt this state time k tau).
    apply error_ratio_nonneg. lra. }
  assert (Hnew : new_tau a
                 = Rmax (safety_1 * old_tau a
                         * cmath.pow (error_ratio a) (-1.0 / 5.0))
                        (old_tau a / safety_2))
    by apply new_tau_attempt.
  pose proof (capped_tau_bounds a Hpos Hfloor) as Hcap.
  unfold safety_2, safety_3 in Hcap.
  split; [unfold max_try in Hk; simpl in Hk; lia |].
  split; [reflexivity |]. split; [exact Hpos |]. split; [exact Hbefore |].
  cbv zeta. rewrite Heq. cbn [snd]. rewrite last_last, <- Hsmall, <- Hratio.
  split; [reflexivity |]. split; [lra |]. split; [reflexivity |].
  split; [lra |]. split.
  - intros Hgt. unfold capped_tau.
    destruct (Req_dec_T (error_ratio a) 0) as [Hz | _]; [lra |].
    rewrite Hnew, pow_Rpower by lra.
    unfold safety_1, safety_2, safety_3.
    replace (-1.0 / 5.0) with (- 1 / 5) by lra.
    replace 4.0 with 4 by lra. reflexivity.
  - intros Hz. unfold capped_tau.
    destruct (Req_dec_T (error_ratio a) 0) as [_ | Hnz]; [| contradiction].
    unfold safety_3. lra.
Qed.

(** The two ways in which [RKA4Solver] returns. *)
Lemma RKA4Solver_cases (state : list R) (time tau : R) :
  let last_attempt := attempt_from this state time 99 tau in
  let tau_last := old_tau last_attempt in
  let small :=
    RK4Solver this (RK4Solver this state time (tau_last * 0.5))
      (time + tau_last * 0.5) (tau_last * 0.5) in
  let tau_ret := Rmin (new_tau last_attempt) (4 * tau_last) in
  (exists k, (k < 100)%nat
             /\ error_ratio (attempt_from this state time k tau) < 1)
  \/ ((forall j, (j < 100)%nat ->
         ~ error_ratio (attempt_from this state time j tau) < 1)
      /\ RKA4Solver this state time tau
         = ([Warning_not_converged; Returning_a_tau tau_ret time],
            small ++ [tau_ret])).
Proof.
  cbv zeta. unfold RKA4Solver.
  destruct (RKA4_attempts_exit this state time (max_try - 1) tau)
    as (k & Hk & Hbefore & [[Hacc _] | (Hlast & Hno & Heq)]).
  - left. exists k. split; [unfold max_try in Hk; simpl in Hk; lia | exact Hacc].
  - right. unfold max_try in Hlast. simpl in Hlast. subst k. split.
    + intros j Hj. destruct (Nat.eq_dec j 99%nat) as [-> | Hne];
        [exact Hno | apply Hbefore; lia].
    + rewrite Heq, <- small_step_attempt.
      assert (Hcap : capped_tau (attempt_from this state time 99 tau)
                     = Rmin (new_tau (attempt_from this state time 99 tau))
                         (4 * old_tau (attempt_from this state time 99 tau))).
      { unfold capped_tau.
        destruct (Req_dec_T _ 0) as [Hz | _]; [exfalso; apply Hno; lra |].
        unfold safety_3. replace 4.0 with 4 by lra. reflexivity. }
      rewrite Hcap. reflexivity.
Qed.

(** C4. When none of the 100 attempts of a call of [RKA4Solver] has an
    error ratio below 1, the call returns all the same: it writes the
    warning and the line that reports the step size, and returns the
    two-half-step RK4 result of the last attempt followed by the step size
    computed by that attempt, capped at 4 times the step size the attempt
    was entered with. *)
Theorem RKA4Solver_not_converged (state : list R) (time tau : R) :
  (forall j, (j < 100)%nat ->
     ~ error_ratio (attempt_from this state time j tau) < 1) ->
  let last_attempt := attempt_from this state time 99 tau in
  let tau_last := old_tau last_attempt in
  let small :=
    RK4Solver this (RK4Solver this state time (tau_last * 0.5))
      (time + tau_last * 0.5) (tau_last * 0.5) in
  let tau_ret := Rmin (new_tau last_attempt) (4 * tau_last) in
  RKA4Solver this state time tau
  = ([Warning_not_converged; Returning_a_tau tau_ret time], small ++ [tau_ret])
  /\ tau_ret <= 4 * tau_last.
Proof.
  intros Hnone. cbv zeta.
  destruct (RKA4Solver_cases state time tau) as [(k & Hk & Hacc) | [_ Heq]].
  - exfalso. exact (Hnone k Hk Hacc).
  - split; [exact Heq | apply Rmin_r].
Qed.

End RKA4Claims.

(** ** One pass of the time loop *)

Section LoopBody.
Context `{PhysicalConstants}.

Lemma SaveResults_frame (this : Loop.t) (i : Z) (time : R) :
  Loop.parameters (SaveResults this i time) = Loop.parameters this
  /\ Loop.N (SaveResults this i time) = Loop.N this
  /\ Loop.excess (SaveResults this i time) = Loop.excess this
  /\ Loop.__state (SaveResults this i time) = Loop.__state this
  /\ Loop.radiation_model (SaveResults this i time) = Loop.radiation_model this
  /\ Loop.heater (SaveResults this i time) = Loop.heater this
  /\ Loop.dem (SaveResults this i time) = Loop.dem this
  /\ Loop.cout (SaveResults this i time) = Loop.cout this.
Proof.
  unfold SaveResults. destruct (Loop.N this <=? i)%Z; repeat split.
Qed.

Lemma dem_step_frame (this : Loop.t) (i : Z) :
  Loop.parameters (dem_step this i) = Loop.parameters this
  /\ Loop.N (dem_step this i) = Loop.N this
  /\ Loop.excess (dem_step this i) = Loop.excess this
  /\ Loop.__state (dem_step this i) = Loop.__state this
  /\ Loop.results (dem_step this i) = Loop.results this
  /\ Loop.radiation_model (dem_step this i) = Loop.radiation_model this
  /\ Loop.heater (dem_step this i) = Loop.heater this
  /\ Loop.cout (dem_step this i) = Loop.cout this.
Proof.
  unfold dem_step.
  destruct (Parameters.calculate_dem (Loop.parameters this)); repeat split.
Qed.

Lemma solver_step_frame (this : Loop.t) (time tau : R) :
  let this' := fst (solver_step this time tau) in
  Loop.parameters this' = Loop.parameters this
  /\ Loop.N this' = Loop.N this
  /\ Loop.excess this' = Loop.excess this
  /\ Loop.results this' = Loop.results this
  /\ Loop.radiation_model this' = Loop.radiation_model this
  /\ Loop.heater this' = Loop.heater this
  /\ Loop.dem this' = Loop.dem this.
Proof.
  unfold solver_step.
  destruct (String.eqb _ "euler"); [repeat split |].
  destruct (String.eqb _ "rk4"); [repeat split |].
  destruct (String.eqb _ "rka4"); [| repeat split].
  destruct (RKA4Solver this (Loop.__state this) time tau). repeat split.
Qed.

Lemma EvolveLoop_body_unfold (this : Loop.t) (v : EvolveVars) :
  EvolveLoop_body this v
  = (SaveResults
       (dem_step (fst (solver_step this (ev_time v) (ev_tau v))) (ev_i v))
       (ev_i v) (ev_time v),
     {| ev_i := ev_i v + 1;
        ev_time := ev_time v + snd (solver_step this (ev_time v) (ev_tau v));
        ev_tau := snd (solver_step this (ev_time v) (ev_tau v)) |}).
Proof.
  unfold EvolveLoop_body.
  destruct (solver_step this (ev_time v) (ev_tau v)). reflexivity.
Qed.

Lemma EvolveLoop_body_frame (this : Loop.t) (v : EvolveVars) :
  let this' := fst (EvolveLoop_body this v) in
  Loop.parameters this' = Loop.parameters this
  /\ Loop.N this' = Loop.N this
  /\ Loop.radiation_model this' = Loop.radiation_model this
  /\ Loop.heater this' = Loop.heater this
  /\ Loop.__state this'
     = Loop.__state (fst (solver_step this (ev_time v) (ev_tau v))).
Proof.
  rewrite EvolveLoop_body_unfold. cbn [fst].
  destruct (SaveResults_frame
              (dem_step (fst (solver_step this (ev_time v) (ev_tau v))) (ev_i v))
              (ev_i v) (ev_time v)) as (-> & -> & _ & -> & -> & -> & _).
  destruct (dem_step_frame (fst (solver_step this (ev_time v) (ev_tau v)))
              (ev_i v)) as (-> & -> & _ & -> & _ & -> & -> & _).
  destruct (solver_step_frame this (ev_time v) (ev_tau v))
    as (-> & -> & _ & _ & -> & -> & _).
  repeat split.
Qed.

Lemma EvolveLoop_passes_S (k : nat) (this : Loop.t) (v : EvolveVars) :
  EvolveLoop_passes (S k) this v
  = EvolveLoop_body (fst (EvolveLoop_passes k this v))
      (snd (EvolveLoop_passes k this v)).
Proof.
  simpl. destruct (EvolveLoop_passes k this v). reflexivity.
Qed.

Lemma EvolveLoop_passes_frame (k : nat) (this : Loop.t) (v : EvolveVars) :
  let this' := fst (EvolveLoop_passes k this v) in
  Loop.parameters this' = Loop.parameters this
  /\ Loop.N this' = Loop.N this
  /\ Loop.radiation_model this' = Loop.radiation_model this
  /\ Loop.heater this' = Loop.heater this.
Proof.
  induction k as [| k IH].
  - repeat split.
  - rewrite EvolveLoop_passes_S. cbv zeta in *.
    destruct (EvolveLoop_body_frame (fst (EvolveLoop_passes k this v))
                (snd (EvolveLoop_passes k this v))) as (-> & -> & -> & -> & _).
    exact IH.
Qed.

Lemma solver_step_rka4 (this : Loop.t) (time tau : R) :
  Parameters.solver (Loop.parameters this) = "rka4"%string ->
  let out := RKA4Solver this (Loop.__state this) time tau in
  solver_step this time tau
  = (Loop.with_state (Loop.print this (fst out)) (removelast (snd out)),
     List.last (snd out) 0).
Proof.
  intros Hs. unfold solver_step. rewrite Hs. cbn [String.eqb Ascii.eqb Bool.eqb].
  cbv zeta. destruct (RKA4Solver this (Loop.__state this) time tau).
  reflexivity.
Qed.

Lemma solver_step_unknown (this : Loop.t) (time tau : R) :
  Parameters.solver (Loop.parameters this) <> "euler"%string ->
  Parameters.solver (Loop.parameters this) <> "rk4"%string ->
  Parameters.solver (Loop.parameters this) <> "rka4"%string ->
  solver_step this time tau = (this, tau).
Proof.
  intros He Hr Ha. unfold solver_step.
  apply String.eqb_neq in He, Hr, Ha. rewrite He, Hr, Ha. reflexivity.
Qed.

End LoopBody.

Section Progress.
Context `{PhysicalConstants}.

Lemma RKA4Solver_returns (this : Loop.t) (state : list R) (time tau : R) :
  exists k, (k < 100)%nat
    /\ snd (RKA4Solver this state time tau)
       = small_step (attempt_from this state time k tau)
         ++ [capped_tau (attempt_from this state time k tau)].
Proof.
  unfold RKA4Solver.
  destruct (RKA4_attempts_exit this state time (max_try - 1) tau)
    as (k & Hk & _ & [[_ Heq] | (_ & _ & Heq)]);
    exists k; (split; [unfold max_try in Hk; simpl in Hk; lia |]);
    rewrite Heq; reflexivity.
Qed.

Lemma RKA4Solver_last_positive (this : Loop.t) (state : list R) (time tau : R) :
  0 < tau ->
  length (snd (RKA4Solver this state time tau)) = S (length state)
  /\ 0 < List.last (snd (RKA4Solver this state time tau)) 0
  /\ length (removelast (snd (RKA4Solver this state time tau))) = length state.
Proof.
  intros Htau.
  destruct (RKA4Solver_returns this state time tau) as (k & _ & ->).
  destruct (attempt_from_tau_pos this state time k tau Htau) as [Hpos Hfloor].
  pose proof (capped_tau_bounds _ Hpos Hfloor) as Hcap.
  unfold safety_2 in Hcap.
  rewrite last_last, removelast_last, length_app, small_step_length.
  simpl. repeat split; [lia | lra].
Qed.

(** C9. With a solver name that is none of "euler", "rk4" and "rka4", a
    pass of the loop of [EvolveLoop] leaves the state vector and the step
    size unchanged, advances the time by the step size and the counter by
    one, and still saves the row of that pass: its time and the unchanged
    pressures and density are found at the index written by [SaveResults]. *)
Theorem EvolveLoop_unknown_solver (this : Loop.t) (v : EvolveVars) (n : nat) :
  Parameters.solver (Loop.parameters this) <> "euler"%string ->
  Parameters.solver (Loop.parameters this) <> "rk4"%string ->
  Parameters.solver (Loop.parameters this) <> "rka4"%string ->
  aligned (Loop.results this) n ->
  (0 <= ev_i v)%Z ->
  (Loop.N this <= Z.of_nat n)%Z ->
  let this' := fst (EvolveLoop_body this v) in
  let v' := snd (EvolveLoop_body this v) in
  let k := if (Loop.N this <=? ev_i v)%Z then n else Z.to_nat (ev_i v) in
  Loop.__state this' = Loop.__state this
  /\ ev_time v' = ev_time v + ev_tau v
  /\ ev_tau v' = ev_tau v
  /\ ev_i v' = (ev_i v + 1)%Z
  /\ this' = SaveResults (dem_step this (ev_i v)) (ev_i v) (ev_time v)
  /\ Results.time (Loop.results this') !! k = Some (ev_time v)
  /\ Results.heat (Loop.results this') !! k
     = Some (Get_Heating (Loop.heater this) (ev_time v))
  /\ Results.pressure_e (Loop.results this') !! k
     = Some (Loop.__state this !!! 0%nat)
  /\ Results.pressure_i (Loop.results this') !! k
     = Some (Loop.__state this !!! 1%nat)
  /\ Results.density (Loop.results this') !! k
     = Some (Loop.__state this !!! 2%nat).
Proof.
  intros He Hr Ha Hal Hi HN. cbv zeta.
  rewrite EvolveLoop_body_unfold, (solver_step_unknown this _ _ He Hr Ha).
  cbn [fst snd ev_time ev_tau ev_i].
  destruct (dem_step_frame this (ev_i v))
    as (Hp & HdN & _ & Hst & Hres & _ & Hh & _).
  destruct (SaveResults_frame (dem_step this (ev_i v)) (ev_i v) (ev_time v))
    as (_ & _ & _ & Hst' & _).
  split; [now rewrite Hst', Hst |].
  do 4 (split; [reflexivity |]).
  destruct Hal as (Ht & Hhe & Hpe & Hpi & _ & _ & Hd).
  unfold SaveResults. rewrite HdN, Hres, Hst, Hh.
  destruct (Loop.N this <=? ev_i v)%Z eqn:Hcmp; cbn [Loop.results Loop.with_results
    Results.time Results.heat Results.pressure_e Results.pressure_i Results.density].
  - repeat split; apply list_lookup_middle; symmetry; assumption.
  - apply Z.leb_gt in Hcmp.
    repeat split; apply list_lookup_insert_eq; lia.
Qed.

End Progress.

(** ** The derivative function *)

Section Derivatives.
Context `{PhysicalConstants}.

(** The functions of the physics read the configuration and the two
    collaborators of the object, and nothing else of it. *)
Lemma CalculateDerivs_reads (this this' : Loop.t) (state : list R) (time : R) :
  Loop.parameters this' = Loop.parameters this ->
  Loop.radiation_model this' = Loop.radiation_model this ->
  Loop.heater this' = Loop.heater this ->
  CalculateDerivs this' state time = CalculateDerivs this state time.
Proof.
  destruct this, this'. cbn [Loop.parameters Loop.radiation_model Loop.heater].
  intros -> -> ->. reflexivity.
Qed.

(** The locals and the result of [CalculateDerivs] on a three-component
    state, written out. *)
Lemma CalculateDerivs_formulas (this : Loop.t) (Pe Pi n time : R) :
  let p := Loop.parameters this in
  let state := [Pe; Pi; n] in
  let Te := Pe / (BOLTZMANN_CONSTANT * n) in
  let Ti := Pi / (Parameters.boltzmann_correction p * BOLTZMANN_CONSTANT * n) in
  let f_e := CalculateThermalConduction this Te n "electron" in
  let f_i := CalculateThermalConduction this Ti n "ion" in
  let C1 := CalculateC1 this Te Ti n in
  let xi := Pe / Pi in
  let R_c :=
    n ^ 2 * GetPowerLawRad (Loop.radiation_model this) (cmath.log10 Te)
    * Parameters.loop_length p in
  let psi_tr := (f_e + C1 * R_c - xi * f_i) / (1 + xi) in
  let psi_c :=
    Parameters.loop_length p / GAMMA_MINUS_ONE
    * CalculateCollisionFrequency this Te n * (Pi - Pe) in
  let heat := Get_Heating (Loop.heater this) time in
  let v := CalculateDerivs_locals this state time in
  d_temperature_e v = Te
  /\ d_temperature_i v = Ti
  /\ d_f_e v = f_e /\ d_f_i v = f_i /\ d_c1 v = C1
  /\ d_xi v = xi /\ d_R_c v = R_c
  /\ d_psi_tr v = psi_tr
  /\ CalculateDerivs this state time
     = [GAMMA_MINUS_ONE / Parameters.loop_length p
        * (psi_tr + psi_c - R_c * (1 + C1))
        + GAMMA_MINUS_ONE * heat * partition (Loop.heater this);
        - GAMMA_MINUS_ONE / Parameters.loop_length p * (psi_tr + psi_c)
        + GAMMA_MINUS_ONE * heat * (1 - partition (Loop.heater this));
        CalculateC2 * GAMMA_MINUS_ONE
        / (CalculateC3 * Parameters.loop_length p * GAMMA * BOLTZMANN_CONSTANT * Te)
        * (- f_e - C1 * R_c + psi_tr)]
  /\ (forall this' : Loop.t,
        Loop.parameters this' = Loop.parameters this ->
        Loop.radiation_model this' = Loop.radiation_model this ->
        Loop.heater this' = Loop.heater this ->
        CalculateDerivs this' state time = CalculateDerivs this state time).
Proof.
  intros p state Te Ti f_e f_i C1 xi R_c psi_tr psi_c heat v.
  assert (HTi : Pi / (BOLTZMANN_CONSTANT * Parameters.boltzmann_correction p * n)
                = Ti).
  { unfold Ti. f_equal. ring. }
  assert (HRc : d_R_c v = R_c).
  { unfold v, CalculateDerivs_locals, state. cbn [d_R_c].
    cbn [lookup_total list_lookup_total]. rewrite pow_2. unfold R_c.
    fold Te p. simpl. ring. }
  assert (Hpsi : d_psi_tr v = psi_tr).
  { unfold v, CalculateDerivs_locals, state. cbn [d_psi_tr].
    cbn [lookup_total list_lookup_total]. fold p. rewrite HTi, pow_2.
    fold Te f_e f_i C1 xi. unfold psi_tr, R_c.
    replace 1.0 with 1 by lra. simpl. do 2 f_equal. ring. }
  assert (Hv : d_temperature_e v = Te /\ d_temperature_i v = Ti
               /\ d_f_e v = f_e /\ d_f_i v = f_i /\ d_c1 v = C1 /\ d_xi v = xi).
  { unfold v, CalculateDerivs_locals, state.
    cbn [d_temperature_e d_temperature_i d_f_e d_f_i d_c1 d_xi].
    cbn [lookup_total list_lookup_total]. fold p. rewrite HTi.
    repeat split. }
  destruct Hv as (H1 & H2 & H3 & H4 & H5 & H6).
  repeat (split; [assumption |]). split.
  - unfold CalculateDerivs. fold v. rewrite Hpsi, HRc, H1, H3, H5.
    assert (Hc : d_psi_c v = psi_c).
    { unfold v, CalculateDerivs_locals, state. cbn [d_psi_c].
      cbn [lookup_total list_lookup_total]. reflexivity. }
    assert (Hh : d_heat v = heat) by reflexivity.
    rewrite Hc, Hh. fold p. replace 1.0 with 1 by lra. reflexivity.
  - intros this'. apply CalculateDerivs_reads.
Qed.


(** C3. For a state with positive pressures and density, [CalculateDerivs]
    recovers [Te = Pe/(kB n)] and [Ti = Pi/(boltzmann_correction kB n)] and
    computes [psi_tr = (f_e + C1 R_c - xi f_i)/(1 + xi)] with [xi = Pe/Pi]
    and [R_c = n^2 R(Te) loop_length]; the three derivatives it returns are
    built from these, and its result depends on the object only through the
    configuration and the two collaborators: it reads no mutable field, and
    being a function to a vector it writes none. *)
Theorem CalculateDerivs_spec (this : Loop.t) (Pe Pi n time : R) :
  0 < Pe -> 0 < Pi -> 0 < n ->
  let p := Loop.parameters this in
  let state := [Pe; Pi; n] in
  let Te := Pe / (BOLTZMANN_CONSTANT * n) in
  let Ti := Pi / (Parameters.boltzmann_correction p * BOLTZMANN_CONSTANT * n) in
  let f_e := CalculateThermalConduction this Te n "electron" in
  let f_i := CalculateThermalConduction this Ti n "ion" in
  let C1 := CalculateC1 this Te Ti n in
  let xi := Pe / Pi in
  let R_c :=
    n ^ 2 * GetPowerLawRad (Loop.radiation_model this) (cmath.log10 Te)
    * Parameters.loop_length p in
  let psi_tr := (f_e + C1 * R_c - xi * f_i) / (1 + xi) in
  let psi_c :=
    Parameters.loop_length p / GAMMA_MINUS_ONE
    * CalculateCollisionFrequency this Te n * (Pi - Pe) in
  let heat := Get_Heating (Loop.heater this) time in
  let v := CalculateDerivs_locals this state time in
  d_temperature_e v = Te
  /\ d_temperature_i v = Ti
  /\ d_f_e v = f_e /\ d_f_i v = f_i /\ d_c1 v = C1
  /\ d_xi v = xi /\ d_R_c v = R_c
  /\ d_psi_tr v = psi_tr
  /\ CalculateDerivs this state time
     = [GAMMA_MINUS_ONE / Parameters.loop_length p
        * (psi_tr + psi_c - R_c * (1 + C1))
        + GAMMA_MINUS_ONE * heat * partition (Loop.heater this);
        - GAMMA_MINUS_ONE / Parameters.loop_length p * (psi_tr + psi_c)
        + GAMMA_MINUS_ONE * heat * (1 - partition (Loop.heater this));
        CalculateC2 * GAMMA_MINUS_ONE
        / (CalculateC3 * Parameters.loop_length p * GAMMA * BOLTZMANN_CONSTANT * Te)
        * (- f_e - C1 * R_c + psi_tr)]
  /\ (forall this' : Loop.t,
        Loop.parameters this' = Loop.parameters this ->
        Loop.radiation_model this' = Loop.radiation_model this ->
        Loop.heater this' = Loop.heater this ->
        CalculateDerivs this' state time = CalculateDerivs this state time).
Proof.
  intros _ _ _. apply CalculateDerivs_formulas.
Qed.

End Derivatives.

(** ** Thermal conduction *)

Section Conduction.
Context `{PhysicalConstants}.
Variable this : Loop.t.

Local Abbreviation p := (Loop.parameters this).

Lemma species_constants_electron :
  species_constants this "electron"
  = (SPITZER_ELECTRON_CONDUCTIVITY, ELECTRON_MASS, BOLTZMANN_CONSTANT).
Proof. reflexivity. Qed.

Lemma species_constants_other (species : string) :
  species <> "electron"%string ->
  species_constants this species
  = (SPITZER_ION_CONDUCTIVITY,
     Parameters.ion_mass_correction p * PROTON_MASS,
     Parameters.boltzmann_correction p * BOLTZMANN_CONSTANT).
Proof.
  intros Hne. unfold species_constants.
  apply String.eqb_neq in Hne. rewrite Hne. reflexivity.
Qed.

Lemma species_constants_pos (species : string) :
  physical ->
  0 < Parameters.boltzmann_correction p ->
  0 < Parameters.ion_mass_correction p ->
  0 < fst (fst (species_constants this species))
  /\ 0 < snd (fst (species_constants this species))
  /\ 0 < snd (species_constants this species).
Proof.
  intros [HkB Hme Hmp Hke Hki _ _ _] Hbc Himc. unfold species_constants.
  destruct (String.eqb species "electron"); cbn [fst snd];
    repeat split; try assumption; apply Rmult_lt_0_compat; assumption.
Qed.

Lemma classical_flux_neg (kappa temperature : R) :
  0 < kappa -> 0 < temperature -> 0 < Parameters.loop_length p ->
  classical_flux this kappa temperature
  = - (2 / 7) * kappa * Rpower (temperature / CalculateC2) 3.5
    / Parameters.loop_length p
  /\ classical_flux this kappa temperature < 0.
Proof.
  intros Hk HT HL. unfold classical_flux.
  assert (Hbase : 0 < temperature / CalculateC2)
    by (unfold CalculateC2; apply Rdiv_lt_0_compat; lra).
  rewrite pow_Rpower by (assumption || lra).
  pose proof (exp_pos (3.5 * ln (temperature / CalculateC2))) as Hpow.
  fold (Rpower (temperature / CalculateC2) 3.5) in Hpow.
  set (w := Rpower (temperature / CalculateC2) 3.5) in *.
  assert (Hinv : 0 < / Parameters.loop_length p) by now apply Rinv_0_lt_compat.
  assert (Hkw : 0 < kappa * w) by now apply Rmult_lt_0_compat.
  split.
  - replace (-2.0 / 7.0) with (- (2 / 7)) by lra. reflexivity.
  - unfold Rdiv. replace (-2.0 * / 7.0 * kappa * w) with (- (2 / 7 * (kappa * w)))
      by lra.
    assert (0 < 2 / 7 * (kappa * w) * / Parameters.loop_length p)
      by (apply Rmult_lt_0_compat; [lra | assumption]).
    lra.
Qed.

Lemma saturated_flux_neg (mass k_B temperature density : R) :
  0 < mass -> 0 < k_B -> 0 < temperature -> 0 < density ->
  saturated_flux this mass k_B temperature density
  = - Parameters.saturation_limit p * 1.5 / sqrt mass * density
    * Rpower (k_B * temperature) 1.5
  /\ (0 < Parameters.saturation_limit p ->
      saturated_flux this mass k_B temperature density < 0).
Proof.
  intros Hm Hk HT Hn. unfold saturated_flux.
  assert (Hbase : 0 < k_B * temperature) by now apply Rmult_lt_0_compat.
  rewrite pow_Rpower by (assumption || lra).
  split; [reflexivity |]. intros Hsat.
  pose proof (exp_pos (1.5 * ln (k_B * temperature))) as Hpow.
  fold (Rpower (k_B * temperature) 1.5) in Hpow.
  set (w := Rpower (k_B * temperature) 1.5) in *.
  assert (Hs : 0 < / sqrt mass) by (apply Rinv_0_lt_compat, sqrt_lt_R0, Hm).
  assert (H1 : 0 < Parameters.saturation_limit p * 1.5 * / sqrt mass)
    by (apply Rmult_lt_0_compat; [lra | assumption]).
  assert (H2 : 0 < Parameters.saturation_limit p * 1.5 * / sqrt mass * density)
    by (apply Rmult_lt_0_compat; assumption).
  assert (H3 : 0 < Parameters.saturation_limit p * 1.5 * / sqrt mass * density * w)
    by (apply Rmult_lt_0_compat; assumption).
  unfold Rdiv. lra.
Qed.

Lemma blend_neg (f_c f_s : R) :
  f_c < 0 -> f_s < 0 -> - f_c * f_s / sqrt (f_c * f_c + f_s * f_s) < 0.
Proof.
  intros Hc Hs.
  assert (Hsq : 0 < f_c * f_c + f_s * f_s) by nra.
  assert (Hinv : 0 < / sqrt (f_c * f_c + f_s * f_s))
    by (apply Rinv_0_lt_compat, sqrt_lt_R0, Hsq).
  assert (Hprod : 0 < f_c * f_s) by nra.
  unfold Rdiv. replace (- f_c * f_s) with (- (f_c * f_s)) by ring.
  assert (0 < f_c * f_s * / sqrt (f_c * f_c + f_s * f_s))
    by (apply Rmult_lt_0_compat; assumption).
  lra.
Qed.

(** C6, as amended.  With positive physical constants and correction
    factors, for a positive temperature and density and either species,
    [CalculateThermalConduction] computes the classical flux
    [f_c = -(2/7) kappa (T/C2)^3.5 / loop_length]; with
    [use_spitzer_conductivity] it returns [f_c], and otherwise the blend
    [- f_c f_s / sqrt (f_c^2 + f_s^2)] with the saturated flux
    [f_s = - saturation_limit 1.5/sqrt(mass) n (k_B T)^1.5].  The classical
    flux is negative when [loop_length] is positive, and so is the returned
    flux provided that, when the blend is used, [saturation_limit] is
    positive too. *)
Theorem CalculateThermalConduction_spec (T n : R) (species : string) :
  physical ->
  0 < Parameters.boltzmann_correction p ->
  0 < Parameters.ion_mass_correction p ->
  0 < T -> 0 < n ->
  let kappa := fst (fst (species_constants this species)) in
  let mass := snd (fst (species_constants this species)) in
  let k_B := snd (species_constants this species) in
  let f_c :=
    - (2 / 7) * kappa * Rpower (T / CalculateC2) 3.5 / Parameters.loop_length p in
  let f_s :=
    - Parameters.saturation_limit p * 1.5 / sqrt mass * n
    * Rpower (k_B * T) 1.5 in
  (species = "electron"%string ->
   (kappa, mass, k_B)
   = (SPITZER_ELECTRON_CONDUCTIVITY, ELECTRON_MASS, BOLTZMANN_CONSTANT))
  /\ (species <> "electron"%string ->
      (kappa, mass, k_B)
      = (SPITZER_ION_CONDUCTIVITY,
         Parameters.ion_mass_correction p * PROTON_MASS,
         Parameters.boltzmann_correction p * BOLTZMANN_CONSTANT))
  /\ (Parameters.use_spitzer_conductivity p = true ->
      CalculateThermalConduction this T n species = f_c)
  /\ (Parameters.use_spitzer_conductivity p = false ->
      CalculateThermalConduction this T n species
      = - f_c * f_s / sqrt (f_c ^ 2 + f_s ^ 2))
  /\ (0 < Parameters.loop_length p ->
      f_c < 0
      /\ (Parameters.use_spitzer_conductivity p = true
          \/ 0 < Parameters.saturation_limit p ->
          CalculateThermalConduction this T n species < 0)).
Proof.
  intros Hphys Hbc Himc HT Hn kappa mass k_B f_c f_s.
  destruct (species_constants_pos species Hphys Hbc Himc) as (Hk & Hm & HkB).
  fold kappa in Hk. fold mass in Hm. fold k_B in HkB.
  assert (Hunfold :
            CalculateThermalConduction this T n species
            = if Parameters.use_spitzer_conductivity p
              then classical_flux this kappa T
              else - classical_flux this kappa T
                   * saturated_flux this mass k_B T n
                   / sqrt (cmath.pow (classical_flux this kappa T) 2
                           + cmath.pow (saturated_flux this mass k_B T n) 2)).
  { unfold CalculateThermalConduction, kappa, mass, k_B.
    destruct (species_constants this species) as [[a b] c]. reflexivity. }
  assert (Hfs : saturated_flux this mass k_B T n = f_s)
    by apply (saturated_flux_neg mass k_B T n Hm HkB HT Hn).
  assert (Hfc : classical_flux this kappa T
                = - 2.0 / 7.0 * kappa * Rpower (T / CalculateC2) 3.5
                  / Parameters.loop_length p).
  { unfold classical_flux. rewrite pow_Rpower; [reflexivity | | lra].
    unfold CalculateC2. apply Rdiv_lt_0_compat; lra. }
  assert (Hfc' : classical_flux this kappa T = f_c).
  { rewrite Hfc. unfold f_c. replace (-2.0 / 7.0) with (- (2 / 7)) by lra.
    reflexivity. }
  split.
  { intros ->. reflexivity. }
  split.
  { intros Hne. unfold kappa, mass, k_B.
    rewrite (species_constants_other species Hne). reflexivity. }
  split.
  { intros Hsp. rewrite Hunfold, Hsp. exact Hfc'. }
  split.
  { intros Hsp. rewrite Hunfold, Hsp, !pow_2, Hfc', Hfs. simpl.
    rewrite !Rmult_1_r. reflexivity. }
  intros HL.
  destruct (classical_flux_neg kappa T Hk HT HL) as [_ Hneg].
  rewrite Hfc' in Hneg. split; [exact Hneg |].
  intros Hcase. rewrite Hunfold.
  destruct (Parameters.use_spitzer_conductivity p) eqn:Hsp.
  - rewrite Hfc'. exact Hneg.
  - destruct Hcase as [Habs | Hsat]; [discriminate |].
    rewrite !pow_2, Hfc', Hfs. apply blend_neg; [exact Hneg |].
    rewrite <- Hfs.
    apply (saturated_flux_neg mass k_B T n Hm HkB HT Hn), Hsat.
Qed.

End Conduction.

(** ** The initial conditions *)

Section InitialConditions.
Context `{PhysicalConstants}.
Variable this : Loop.t.

(** The test of line 115 on the locals of a pass. *)
Local Abbreviation converged v :=
  (Rmax (ic_error_density v) (ic_error_temperature v) < tol).

Lemma converged_both (v : InitialIterate) :
  converged v <-> ic_error_temperature v < 1e-2 /\ ic_error_density v < 1e-2.
Proof.
  unfold tol. rewrite Rmax_Rlt. tauto.
Qed.

Lemma initial_while_unfold (remaining : nat) (i : Z) (c1 To no : R) :
  initial_while this remaining i c1 To no
  = let v := initial_pass this i c1 To no in
    if Rlt_dec (Rmax (ic_error_density v) (ic_error_temperature v)) tol then
      (i, ic_temperature v, ic_density v)
    else
      match remaining with
      | S k =>
          initial_while this k (i + 1) (ic_c1 v) (ic_temperature v) (ic_density v)
      | O => ((i + 1)%Z, ic_temperature v, ic_density v)
      end.
Proof. destruct remaining; reflexivity. Qed.

Lemma pass_from_S (j : nat) (i : Z) (c1 To no : R) :
  pass_from this (S j) i c1 To no
  = let v := initial_pass this i c1 To no in
    pass_from this j (i + 1) (ic_c1 v) (ic_temperature v) (ic_density v).
Proof. reflexivity. Qed.

(** The exit of the loop: at the first pass that passes the test, or after
    the last pass of the budget. *)
Lemma initial_while_exit (remaining : nat) (i : Z) (c1 To no : R) :
  exists k, (k <= remaining)%nat
    /\ (forall j, (j < k)%nat -> ~ converged (pass_from this j i c1 To no))
    /\ let v := pass_from this k i c1 To no in
       (converged v
        /\ initial_while this remaining i c1 To no
           = ((i + Z.of_nat k)%Z, ic_temperature v, ic_density v))
       \/ (k = remaining /\ ~ converged v
           /\ initial_while this remaining i c1 To no
              = ((i + Z.of_nat k + 1)%Z, ic_temperature v, ic_density v)).
Proof.
  revert i c1 To no.
  induction remaining as [| remaining IH]; intros i c1 To no;
    rewrite initial_while_unfold; cbv zeta;
    destruct (Rlt_dec _ tol) as [Hconv | Hnot].
  - exists 0%nat. split; [lia |]. split; [intros j Hj; lia |].
    left. split; [exact Hconv |]. simpl. now rewrite Z.add_0_r.
  - exists 0%nat. split; [lia |]. split; [intros j Hj; lia |].
    right. split; [reflexivity |]. split; [exact Hnot |].
    simpl. now rewrite Z.add_0_r.
  - exists 0%nat. split; [lia |]. split; [intros j Hj; lia |].
    left. split; [exact Hconv |]. simpl. now rewrite Z.add_0_r.
  - set (v := initial_pass this i c1 To no) in *.
    destruct (IH (i + 1)%Z (ic_c1 v) (ic_temperature v) (ic_density v))
      as (k & Hk & Hbefore & Hexit).
    exists (S k). split; [lia |]. split.
    + intros [| j] Hj; [exact Hnot |].
      rewrite pass_from_S. apply Hbefore. lia.
    + rewrite pass_from_S. cbv zeta in *. fold v.
      replace (i + Z.of_nat (S k))%Z with (i + 1 + Z.of_nat k)%Z by lia.
      destruct Hexit as [[Hc Heq] | (Hlast & Hno & Heq)].
      * left. split; assumption.
      * right. repeat split; [lia | assumption | assumption].
Qed.

Lemma CalculateInitialConditions_unfold :
  CalculateInitialConditions this
  = let run := initial_while this (i_max - 1) 0 2.0 LARGEST_DOUBLE LARGEST_DOUBLE in
    let temperature := snd (fst run) in
    let density := snd run in
    SaveResults
      (Loop.with_state this
         [BOLTZMANN_CONSTANT * density * temperature;
          Parameters.boltzmann_correction (Loop.parameters this)
          * BOLTZMANN_CONSTANT * density * temperature;
          density]) 0 0.0.
Proof.
  unfold CalculateInitialConditions.
  destruct (initial_while this (i_max - 1) 0 2.0 LARGEST_DOUBLE LARGEST_DOUBLE)
    as [[i T] n].
  reflexivity.
Qed.

(** C7. [CalculateInitialConditions] returns after at most 100 passes of
    its loop: there is a pass [k < 100], the first whose relative
    temperature error and relative density error are both below 1e-2, or
    else the last one of the budget, at which the loop is left with the
    counter [i <= 100] and the temperature and density of that pass.  The
    first pass uses C1 = 2.0.  The seed state is [Pe0 = kB n T],
    [Pi0 = boltzmann_correction Pe0], [n0 = n], and nothing is written to
    the console. *)
Theorem CalculateInitialConditions_spec :
  exists (k : nat) (i : Z),
    let v := initial_pass_at this k in
    let T := ic_temperature v in
    let n := ic_density v in
    let Pe0 := BOLTZMANN_CONSTANT * n * T in
    (k < 100)%nat
    /\ (forall j, (j < k)%nat ->
          ~ (ic_error_temperature (initial_pass_at this j) < 1e-2
             /\ ic_error_density (initial_pass_at this j) < 1e-2))
    /\ ((ic_error_temperature v < 1e-2 /\ ic_error_density v < 1e-2
         /\ i = Z.of_nat k)
        \/ (k = 99%nat /\ i = 100%Z))
    /\ initial_while this (i_max - 1) 0 2.0 LARGEST_DOUBLE LARGEST_DOUBLE
       = (i, T, n)
    /\ (0 <= i <= 100)%Z
    /\ ic_c1 (initial_pass_at this 0) = 2.0
    /\ Loop.__state (CalculateInitialConditions this)
       = [Pe0; Parameters.boltzmann_correction (Loop.parameters this) * Pe0; n]
    /\ Loop.cout (CalculateInitialConditions this) = Loop.cout this.
Proof.
  destruct (initial_while_exit (i_max - 1) 0 2.0 LARGEST_DOUBLE LARGEST_DOUBLE)
    as (k & Hk & Hbefore & Hexit).
  unfold i_max in Hk. simpl in Hk. fold (initial_pass_at this k) in Hexit.
  assert (Hstate : forall i,
            initial_while this (i_max - 1) 0 2.0 LARGEST_DOUBLE LARGEST_DOUBLE
            = (i, ic_temperature (initial_pass_at this k),
               ic_density (initial_pass_at this k)) ->
            Loop.__state (CalculateInitialConditions this)
            = [BOLTZMANN_CONSTANT * ic_density (initial_pass_at this k)
               * ic_temperature (initial_pass_at this k);
               Parameters.boltzmann_correction (Loop.parameters this)
               * (BOLTZMANN_CONSTANT * ic_density (initial_pass_at this k)
                  * ic_temperature (initial_pass_at this k));
               ic_density (initial_pass_at this k)]
            /\ Loop.cout (CalculateInitialConditions this) = Loop.cout this).
  { intros i Heq. rewrite CalculateInitialConditions_unfold. cbv zeta.
    rewrite Heq. cbn [fst snd].
    match goal with
    | |- context [SaveResults ?l ?a ?b] =>
        destruct (SaveResults_frame l a b) as (_ & _ & _ & -> & _ & _ & _ & ->)
    end.
    cbn [Loop.__state Loop.cout Loop.with_state]. split; [| reflexivity].
    f_equal. f_equal. ring. }
  assert (Hb : forall j, (j < k)%nat ->
            ~ (ic_error_temperature (initial_pass_at this j) < 1e-2
               /\ ic_error_density (initial_pass_at this j) < 1e-2)).
  { intros j Hj Hboth. apply (Hbefore j Hj). apply converged_both, Hboth. }
  cbv zeta in Hexit.
  destruct Hexit as [[Hconv Heq] | (Hlast & Hno & Heq)].
  - exists k, (Z.of_nat k). cbv zeta.
    apply converged_both in Hconv. destruct Hconv as [HcT Hcn].
    destruct (Hstate _ Heq) as [Hs Hc].
    split; [lia |]. split; [exact Hb |].
    split; [left; repeat split; assumption |].
    split; [exact Heq |]. split; [lia |]. split; [reflexivity |].
    split; assumption.
  - exists k, 100%Z. cbv zeta. unfold i_max in Hlast. simpl in Hlast.
    replace (0 + Z.of_nat k + 1)%Z with 100%Z in Heq by lia.
    destruct (Hstate _ Heq) as [Hs Hc].
    split; [lia |]. split; [exact Hb |].
    split; [right; split; [exact Hlast | reflexivity] |].
    split; [exact Heq |]. split; [lia |]. split; [reflexivity |].
    split; assumption.
Qed.

End InitialConditions.

(** ** The results buffer *)

Section ResultsBuffer.
Context `{PhysicalConstants}.

Lemma Loop_new_spec (cfg : Config.t) (heater : Heater)
    (power_law tabulated : CRadiation) (this : Loop.t) :
  Loop_new cfg heater power_law tabulated = Some this ->
  Loop.N this = cmath.ceil (Config.total_time cfg / Config.tau cfg)
  /\ (0 <= Loop.N this)%Z
  /\ aligned (Loop.results this) (Z.to_nat (Loop.N this))
  /\ Loop.__state this = []
  /\ Loop.excess this = None
  /\ Loop.heater this = heater
  /\ Parameters.tau (Loop.parameters this) = Config.tau cfg
  /\ Parameters.solver (Loop.parameters this) = Config.solver cfg.
Proof.
  unfold Loop_new.
  destruct (Req_dec_T (Config.tau cfg) 0) as [_ | _]; [discriminate |].
  set (N := cmath.ceil (Config.total_time cfg / Config.tau cfg)).
  destruct ((N <? 0)%Z || (INT_MAX <? N)%Z) eqn:Hrange; [discriminate |].
  apply orb_false_elim in Hrange as [Hneg _]. apply Z.ltb_ge in Hneg.
  intros [= <-]. cbn.
  repeat split; try assumption; apply length_replicate.
Qed.

Lemma SaveResults_aligned (this : Loop.t) (i : Z) (time : R) (n : nat) :
  aligned (Loop.results this) n ->
  aligned (Loop.results (SaveResults this i time))
    (if (Loop.N this <=? i)%Z then S n else n).
Proof.
  intros (Ht & Hh & Hpe & Hpi & HTe & HTi & Hd). unfold SaveResults, aligned.
  destruct (Loop.N this <=? i)%Z;
    cbn [Loop.results Loop.with_results Results.time Results.heat
         Results.pressure_e Results.pressure_i Results.temperature_e
         Results.temperature_i Results.density];
    rewrite ?length_app, ?length_insert; simpl; repeat split; lia.
Qed.

(** What [SaveResults] writes: with [N <= i] it appends one entry to each of
    the seven sequences, otherwise it overwrites the entry at index [i] of
    each and leaves the others as they are. *)
Lemma SaveResults_writes (this : Loop.t) (i : Z) (time : R) :
  let r := Loop.results this in
  let r' := Loop.results (SaveResults this i time) in
  ((Loop.N this <= i)%Z ->
   exists t h Te Ti pe pi d,
     Results.time r' = Results.time r ++ [t]
     /\ Results.heat r' = Results.heat r ++ [h]
     /\ Results.temperature_e r' = Results.temperature_e r ++ [Te]
     /\ Results.temperature_i r' = Results.temperature_i r ++ [Ti]
     /\ Results.pressure_e r' = Results.pressure_e r ++ [pe]
     /\ Results.pressure_i r' = Results.pressure_i r ++ [pi]
     /\ Results.density r' = Results.density r ++ [d])
  /\ ((i < Loop.N this)%Z ->
      exists t h Te Ti pe pi d,
        Results.time r' = <[Z.to_nat i := t]> (Results.time r)
        /\ Results.heat r' = <[Z.to_nat i := h]> (Results.heat r)
        /\ Results.temperature_e r' = <[Z.to_nat i := Te]> (Results.temperature_e r)
        /\ Results.temperature_i r' = <[Z.to_nat i := Ti]> (Results.temperature_i r)
        /\ Results.pressure_e r' = <[Z.to_nat i := pe]> (Results.pressure_e r)
        /\ Results.pressure_i r' = <[Z.to_nat i := pi]> (Results.pressure_i r)
        /\ Results.density r' = <[Z.to_nat i := d]> (Results.density r)).
Proof.
  cbv zeta. unfold SaveResults. split; intros Hi.
  - apply Z.leb_le in Hi. rewrite Hi. cbn. repeat eexists.
  - apply Z.leb_gt in Hi. rewrite Hi. cbn. repeat eexists.
Qed.

Lemma EvolveLoop_body_aligned (this : Loop.t) (v : EvolveVars) (n : nat) :
  aligned (Loop.results this) n ->
  aligned (Loop.results (fst (EvolveLoop_body this v)))
    (if (Loop.N this <=? ev_i v)%Z then S n else n).
Proof.
  intros Hal. rewrite EvolveLoop_body_unfold. cbn [fst].
  destruct (dem_step_frame (fst (solver_step this (ev_time v) (ev_tau v)))
              (ev_i v)) as (_ & HN & _ & _ & Hres & _).
  destruct (solver_step_frame this (ev_time v) (ev_tau v))
    as (_ & HN' & _ & Hres' & _).
  rewrite <- HN', <- HN. apply SaveResults_aligned.
  rewrite Hres, Hres'. exact Hal.
Qed.

Lemma EvolveLoop_passes_counter (k : nat) (this : Loop.t) (v : EvolveVars) :
  ev_i (snd (EvolveLoop_passes k this v)) = (ev_i v + Z.of_nat k)%Z.
Proof.
  induction k as [| k IH].
  - simpl. lia.
  - rewrite EvolveLoop_passes_S, EvolveLoop_body_unfold. cbn [snd ev_i].
    rewrite IH. lia.
Qed.

(** After the initial row and [k] passes the sequences hold
    [max N (k + 1)] entries each. *)
Lemma EvolveLoop_passes_aligned (k : nat) (this : Loop.t) :
  (0 <= Loop.N this)%Z ->
  aligned (Loop.results this) (Nat.max (Z.to_nat (Loop.N this)) 1) ->
  aligned (Loop.results (fst (EvolveLoop_passes k this (EvolveLoop_init this))))
    (Nat.max (Z.to_nat (Loop.N this)) (S k)).
Proof.
  intros HN Hal. induction k as [| k IH]; [exact Hal |].
  rewrite EvolveLoop_passes_S.
  pose proof (EvolveLoop_body_aligned _
                (snd (EvolveLoop_passes k this (EvolveLoop_init this))) _ IH)
    as Hstep.
  rewrite EvolveLoop_passes_counter in Hstep.
  destruct (EvolveLoop_passes_frame k this (EvolveLoop_init this))
    as (_ & HNk & _).
  cbv zeta in HNk. rewrite HNk in Hstep. cbn [EvolveLoop_init ev_i] in Hstep.
  destruct (Loop.N this <=? 1 + Z.of_nat k)%Z eqn:Hcmp.
  - apply Z.leb_le in Hcmp.
    replace (Nat.max (Z.to_nat (Loop.N this)) (S (S k)))
      with (S (Nat.max (Z.to_nat (Loop.N this)) (S k))) by lia.
    exact Hstep.
  - apply Z.leb_gt in Hcmp.
    replace (Nat.max (Z.to_nat (Loop.N this)) (S (S k)))
      with (Nat.max (Z.to_nat (Loop.N this)) (S k)) by lia.
    exact Hstep.
Qed.

(** When the loop of [EvolveLoop] ends, it has made some number [k] of
    passes and its condition is false. *)
Lemma EvolveLoop_while_passes (fuel : nat) (this this' : Loop.t)
    (v v' : EvolveVars) :
  EvolveLoop_while fuel this v = Some (this', v') ->
  exists k, (k <= fuel)%nat
    /\ EvolveLoop_passes k this v = (this', v')
    /\ ~ ev_time v' < Parameters.total_time (Loop.parameters this').
Proof.
  revert this v. induction fuel as [| fuel IH]; intros this v; simpl.
  - destruct (Rlt_dec _ _) as [_ | Hend]; [discriminate |].
    intros [= <- <-]. exists 0%nat. repeat split; [lia | exact Hend].
  - destruct (Rlt_dec _ _) as [_ | Hend].
    + destruct (EvolveLoop_body this v) as [this1 v1] eqn:Hbody.
      intros Hrun. destruct (IH _ _ Hrun) as (k & Hk & Hpasses & Hend).
      exists (S k). split; [lia |]. split; [| exact Hend].
      clear -Hbody Hpasses. revert this' v' Hpasses.
      induction k as [| k IHk]; intros this' v' Hpasses.
      * simpl in *. congruence.
      * rewrite EvolveLoop_passes_S in Hpasses.
        destruct (EvolveLoop_passes k this1 v1) as [t2 v2] eqn:Hk.
        rewrite EvolveLoop_passes_S, (IHk _ _ eq_refl). exact Hpasses.
    + intros [= <- <-]. exists 0%nat. repeat split; [lia | exact Hend].
Qed.

Lemma removelast_take (l : list R) : removelast l = take (length l - 1) l.
Proof.
  rewrite removelast_firstn_len. f_equal. lia.
Qed.

Lemma pop_back_all_take (r : Results.t) (n : nat) :
  aligned r n -> pop_back_all r = take_all (n - 1) r.
Proof.
  intros (Ht & Hh & Hpe & Hpi & HTe & HTi & Hd).
  unfold pop_back_all, take_all. rewrite !removelast_take.
  rewrite Ht, Hh, Hpe, Hpi, HTe, HTi, Hd. reflexivity.
Qed.

Lemma take_all_aligned (r : Results.t) (n m : nat) :
  aligned r n -> aligned (take_all m r) (Nat.min m n).
Proof.
  intros (Ht & Hh & Hpe & Hpi & HTe & HTi & Hd). unfold aligned, take_all.
  cbn. rewrite !length_take. repeat split; lia.
Qed.

Lemma take_all_take_all (r : Results.t) (n m : nat) :
  take_all n (take_all m r) = take_all (Nat.min n m) r.
Proof.
  unfold take_all. cbn. rewrite !take_take. reflexivity.
Qed.

Lemma take_all_ge (r : Results.t) (n : nat) :
  aligned r n -> take_all n r = r.
Proof.
  intros (Ht & Hh & Hpe & Hpi & HTe & HTi & Hd). destruct r. unfold take_all.
  cbn in *. rewrite !take_ge by lia. reflexivity.
Qed.

(** Lines 189-198: [e] passes of the trimming loop remove the last [e]
    entries of each sequence. *)
Lemma trim_take (r : Results.t) (n e : nat) :
  aligned r n -> (e <= n)%nat ->
  for_loop e (fun _ r => pop_back_all r) r = take_all (n - e) r.
Proof.
  intros Hal He. induction e as [| e IH].
  - unfold for_loop. simpl. rewrite Nat.sub_0_r. symmetry.
    now apply take_all_ge.
  - rewrite for_loop_S, IH by lia.
    rewrite (pop_back_all_take _ (n - e)).
    + rewrite take_all_take_all. f_equal. lia.
    + replace (n - e)%nat with (Nat.min (n - e) n) at 2 by lia.
      now apply take_all_aligned.
Qed.

Lemma output_rows_length (r : Results.t) :
  length (output_rows r) = length (Results.time r).
Proof.
  unfold output_rows.
  generalize (length (Results.time r)) as n. intros n.
  induction n as [| n IH]; [reflexivity |].
  rewrite for_loop_S, length_app, IH. simpl. lia.
Qed.

End ResultsBuffer.

(** ** The end of the time loop *)

Section Termination.
Context `{PhysicalConstants}.

Lemma solver_step_fixed (this : Loop.t) (time tau : R) :
  Parameters.solver (Loop.parameters this) <> "rka4"%string ->
  snd (solver_step this time tau) = tau.
Proof.
  intros Hs. unfold solver_step.
  destruct (String.eqb _ "euler"); [reflexivity |].
  destruct (String.eqb _ "rk4"); [reflexivity |].
  apply String.eqb_neq in Hs. rewrite Hs. reflexivity.
Qed.

Lemma nat_above (x : R) : exists n : nat, x <= INR n.
Proof.
  destruct (archimed x) as [Hup _].
  destruct (Z_le_gt_dec 0 (up x)) as [Hpos | Hneg].
  - exists (Z.to_nat (up x)). rewrite INR_IZR_INZ, Z2Nat.id by exact Hpos. lra.
  - exists 0%nat. simpl. apply Z.gt_lt, IZR_lt in Hneg. lra.
Qed.

(** With a solver that keeps the step size, the loop of [EvolveLoop] ends
    as soon as the fuel covers the time that is left. *)
Lemma EvolveLoop_while_fixed_step (fuel : nat) (this : Loop.t) (v : EvolveVars) :
  Parameters.solver (Loop.parameters this) <> "rka4"%string ->
  0 < ev_tau v ->
  Parameters.total_time (Loop.parameters this) - ev_time v
  <= INR fuel * ev_tau v ->
  exists r, EvolveLoop_while fuel this v = Some r.
Proof.
  revert this v. induction fuel as [| fuel IH]; intros this v Hs Htau Hleft.
  - simpl in *. destruct (Rlt_dec _ _) as [Hlt | _]; [lra | eauto].
  - cbn [EvolveLoop_while]. destruct (Rlt_dec _ _) as [Hlt | _]; [| eauto].
    destruct (EvolveLoop_body this v) as [this' v'] eqn:Hbody.
    destruct (EvolveLoop_body_frame this v) as (Hp & _).
    rewrite Hbody in Hp. cbn [fst] in Hp.
    rewrite EvolveLoop_body_unfold in Hbody.
    injection Hbody as _ Hv. subst v'.
    apply IH; cbn [ev_tau ev_time]; rewrite ?Hp, ?solver_step_fixed by exact Hs;
      try assumption.
    rewrite S_INR in Hleft. lra.
Qed.

Lemma EvolveLoop_fixed_step_returns (this : Loop.t) :
  Parameters.solver (Loop.parameters this) <> "rka4"%string ->
  0 < Parameters.tau (Loop.parameters this) ->
  exists fuel this', EvolveLoop fuel this = Some this'.
Proof.
  intros Hs Htau.
  destruct (nat_above ((Parameters.total_time (Loop.parameters this)
                        - Parameters.tau (Loop.parameters this))
                       / Parameters.tau (Loop.parameters this)))
    as [fuel Hfuel].
  destruct (EvolveLoop_while_fixed_step fuel this (EvolveLoop_init this))
    as [[this' v'] Hrun]; cbn [EvolveLoop_init ev_tau ev_time];
    try assumption.
  - apply (Rmult_le_compat_r (Parameters.tau (Loop.parameters this))) in Hfuel;
      [| lra].
    unfold Rdiv in Hfuel. rewrite Rmult_assoc, Rinv_l, Rmult_1_r in Hfuel by lra.
    exact Hfuel.
  - exists fuel. unfold EvolveLoop. rewrite Hrun. eauto.
Qed.

Lemma abundance_correction_positive (this : Loop.t) (h : R) :
  0 <= h ->
  let p := Loop.parameters (CalculateAbundanceCorrection this h) in
  0 < Parameters.boltzmann_correction p
  /\ 0 < Parameters.ion_mass_correction p.
Proof.
  intros Hh. cbn.
  assert (Hz : 0 < (1.0 + 2.0 * h) / (1.0 + h))
    by (apply Rdiv_lt_0_compat; lra).
  assert (Hinv : 0 < 1.0 / ((1.0 + 2.0 * h) / (1.0 + h)))
    by (apply Rdiv_lt_0_compat; lra).
  assert (Hbc : 0 < (1.0 + 1.0 / ((1.0 + 2.0 * h) / (1.0 + h))) / 2.0)
    by (apply Rdiv_lt_0_compat; lra).
  split; [exact Hbc |].
  apply Rmult_lt_0_compat; [| exact Hbc].
  apply Rmult_lt_0_compat; [| lra].
  apply Rdiv_lt_0_compat; lra.
Qed.

End Termination.

Section ResultsClaim.
Context `{PhysicalConstants}.

Lemma CalculateInitialConditions_frame (this : Loop.t) :
  Loop.parameters (CalculateInitialConditions this) = Loop.parameters this
  /\ Loop.N (CalculateInitialConditions this) = Loop.N this
  /\ Loop.heater (CalculateInitialConditions this) = Loop.heater this
  /\ Loop.radiation_model (CalculateInitialConditions this)
     = Loop.radiation_model this.
Proof.
  rewrite CalculateInitialConditions_unfold. cbv zeta.
  match goal with
  | |- context [SaveResults ?l ?a ?b] =>
      destruct (SaveResults_frame l a b) as (-> & -> & _ & _ & -> & -> & _)
  end.
  repeat split.
Qed.

Lemma CalculateInitialConditions_aligned (this : Loop.t) (n : nat) :
  aligned (Loop.results this) n ->
  aligned (Loop.results (CalculateInitialConditions this))
    (if (Loop.N this <=? 0)%Z then S n else n).
Proof.
  intros Hal. rewrite CalculateInitialConditions_unfold. cbv zeta.
  match goal with
  | |- context [SaveResults ?l ?a ?b] =>
      apply (SaveResults_aligned l a b n)
  end.
  exact Hal.
Qed.

(** C8. In a run (construction, initial conditions, the passes of the loop
    of [EvolveLoop], export) the seven sequences of the results have one
    common length after every operation.  The constructor sizes them to
    [N = ceil(total_time/tau)]; [SaveResults] keeps a common length, writing
    in place for [i < N] and appending one entry to each for [N <= i]; after
    the initial row and [k] passes the common length is [max N (k+1)]; and
    when [EvolveLoop] ends after [k] passes, with [k + 1] rows saved, it sets
    [excess = max 0 (N - (k+1))] and [PrintToFile] removes exactly that many
    trailing entries from each sequence, leaving the [k + 1] saved rows, one
    output row each.  With a solver that keeps the step size and a positive
    step the loop does end. *)
Theorem results_sequences_aligned (cfg : Config.t) (heater : Heater)
    (power_law tabulated : CRadiation) (this0 : Loop.t) :
  Loop_new cfg heater power_law tabulated = Some this0 ->
  let N := cmath.ceil (Config.total_time cfg / Config.tau cfg) in
  let this1 := CalculateInitialConditions this0 in
  Loop.N this0 = N
  /\ (0 <= N)%Z
  /\ aligned (Loop.results this0) (Z.to_nat N)
  /\ (forall (this : Loop.t) (i : Z) (time : R) (n : nat),
        aligned (Loop.results this) n ->
        let r := Loop.results this in
        let r' := Loop.results (SaveResults this i time) in
        aligned r' (if (Loop.N this <=? i)%Z then S n else n)
        /\ ((Loop.N this <= i)%Z ->
            exists t h Te Ti pe pi d,
              Results.time r' = Results.time r ++ [t]
              /\ Results.heat r' = Results.heat r ++ [h]
              /\ Results.temperature_e r' = Results.temperature_e r ++ [Te]
              /\ Results.temperature_i r' = Results.temperature_i r ++ [Ti]
              /\ Results.pressure_e r' = Results.pressure_e r ++ [pe]
              /\ Results.pressure_i r' = Results.pressure_i r ++ [pi]
              /\ Results.density r' = Results.density r ++ [d])
        /\ ((i < Loop.N this)%Z ->
            exists t h Te Ti pe pi d,
              Results.time r' = <[Z.to_nat i := t]> (Results.time r)
              /\ Results.heat r' = <[Z.to_nat i := h]> (Results.heat r)
              /\ Results.temperature_e r'
                 = <[Z.to_nat i := Te]> (Results.temperature_e r)
              /\ Results.temperature_i r'
                 = <[Z.to_nat i := Ti]> (Results.temperature_i r)
              /\ Results.pressure_e r'
                 = <[Z.to_nat i := pe]> (Results.pressure_e r)
              /\ Results.pressure_i r'
                 = <[Z.to_nat i := pi]> (Results.pressure_i r)
              /\ Results.density r' = <[Z.to_nat i := d]> (Results.density r)))
  /\ aligned (Loop.results this1) (Nat.max (Z.to_nat N) 1)
  /\ (forall k,
        aligned
          (Loop.results (fst (EvolveLoop_passes k this1 (EvolveLoop_init this1))))
          (Nat.max (Z.to_nat N) (S k)))
  /\ (forall fuel this2,
        EvolveLoop fuel this1 = Some this2 ->
        exists (k : nat) (e : Z) (this3 : Loop.t) (out : Export),
          (k <= fuel)%nat
          /\ Loop.results this2
             = Loop.results
                 (fst (EvolveLoop_passes k this1 (EvolveLoop_init this1)))
          /\ Loop.excess this2 = Some e
          /\ e = Z.max 0 (N - Z.of_nat (S k))
          /\ PrintToFile this2 = Some (this3, out)
          /\ Loop.results this3
             = take_all (Nat.max (Z.to_nat N) (S k) - Z.to_nat e)
                 (Loop.results this2)
          /\ aligned (Loop.results this3) (S k)
          /\ length (file_rows out) = S k)
  /\ (Config.solver cfg <> "rka4"%string ->
      0 < Config.tau cfg ->
      exists fuel this2, EvolveLoop fuel this1 = Some this2).
Proof.
  intros Hnew N this1.
  destruct (Loop_new_spec _ _ _ _ _ Hnew)
    as (HN & Hpos & Hal0 & _ & _ & _ & Htau0 & Hsolver0).
  fold N in HN. rewrite HN in Hpos, Hal0.
  destruct (CalculateInitialConditions_frame this0) as (Hp1 & HN1 & _).
  fold this1 in HN1, Hp1. rewrite HN in HN1.
  assert (Hal1 : aligned (Loop.results this1) (Nat.max (Z.to_nat N) 1)).
  { pose proof (CalculateInitialConditions_aligned this0 _ Hal0) as Hal.
    fold this1 in Hal. rewrite HN in Hal.
    destruct (N <=? 0)%Z eqn:Hcmp.
    - apply Z.leb_le in Hcmp.
      replace (Nat.max (Z.to_nat N) 1) with (S (Z.to_nat N)) by lia. exact Hal.
    - apply Z.leb_gt in Hcmp.
      replace (Nat.max (Z.to_nat N) 1) with (Z.to_nat N) by lia. exact Hal. }
  assert (Hpasses : forall k,
            aligned
              (Loop.results
                 (fst (EvolveLoop_passes k this1 (EvolveLoop_init this1))))
              (Nat.max (Z.to_nat N) (S k))).
  { intros k. rewrite <- HN1. apply EvolveLoop_passes_aligned; rewrite HN1;
      assumption. }
  split; [exact HN |]. split; [exact Hpos |]. split; [exact Hal0 |].
  split.
  { intros this i time n Hal. cbv zeta.
    split; [now apply SaveResults_aligned |].
    apply SaveResults_writes. }
  split; [exact Hal1 |]. split; [exact Hpasses |].
  split;
    [| intros Hsolver Htau; apply EvolveLoop_fixed_step_returns;
       rewrite Hp1; [rewrite Hsolver0 | rewrite Htau0]; assumption].
  intros fuel this2. unfold EvolveLoop.
  destruct (EvolveLoop_while fuel this1 (EvolveLoop_init this1))
    as [[thisk vk] |] eqn:Hwhile; [| discriminate].
  intros [= <-].
  destruct (EvolveLoop_while_passes _ _ _ _ _ Hwhile) as (k & Hk & Hp & _).
  pose proof (Hpasses k) as Halk. rewrite Hp in Halk. cbn [fst] in Halk.
  pose proof (EvolveLoop_passes_counter k this1 (EvolveLoop_init this1)) as Hi.
  rewrite Hp in Hi. cbn [snd EvolveLoop_init ev_i] in Hi.
  destruct (EvolveLoop_passes_frame k this1 (EvolveLoop_init this1))
    as (_ & HNk & _).
  cbv zeta in HNk. rewrite Hp, HN1 in HNk. cbn [fst] in HNk.
  set (e := Z.max 0 (N - Z.of_nat (S k))).
  assert (He : (if (Loop.N thisk - ev_i vk <? 0)%Z then 0%Z
                else (Loop.N thisk - ev_i vk)%Z) = e).
  { rewrite HNk, Hi. unfold e.
    destruct (N - (1 + Z.of_nat k) <? 0)%Z eqn:Hcmp;
      [apply Z.ltb_lt in Hcmp | apply Z.ltb_ge in Hcmp]; lia. }
  rewrite He.
  assert (Htrim : for_loop (Z.to_nat e) (fun _ r => pop_back_all r)
                    (Loop.results thisk)
                  = take_all (Nat.max (Z.to_nat N) (S k) - Z.to_nat e)
                      (Loop.results thisk)).
  { apply trim_take; [exact Halk | unfold e; lia]. }
  assert (Hlen : aligned
                   (take_all (Nat.max (Z.to_nat N) (S k) - Z.to_nat e)
                      (Loop.results thisk)) (S k)).
  { replace (S k)
      with (Nat.min (Nat.max (Z.to_nat N) (S k) - Z.to_nat e)
              (Nat.max (Z.to_nat N) (S k))) at 2 by (unfold e; lia).
    now apply take_all_aligned. }
  eexists k, e, _, _.
  split; [exact Hk |].
  split; [rewrite Hp; reflexivity |].
  split; [reflexivity |]. split; [reflexivity |].
  split; [unfold PrintToFile; cbn [Loop.excess Loop.with_excess]; reflexivity |].
  cbn [Loop.results Loop.with_results Loop.with_excess file_rows].
  rewrite Htrim. split; [reflexivity |]. split; [exact Hlen |].
  rewrite output_rows_length. apply Hlen.
Qed.

End ResultsClaim.

(** ** The integrators on a three-component state *)

Section ThreeComponents.
Context `{PhysicalConstants}.
Variable this : Loop.t.

Lemma EulerSolver_3 (a b c time tau : R) :
  let d := CalculateDerivs this [a; b; c] time in
  EulerSolver this [a; b; c] time tau
  = [a + d !!! 0%nat * tau; b + d !!! 1%nat * tau; c + d !!! 2%nat * tau].
Proof. reflexivity. Qed.

Lemma RK4Solver_3 (a b c time tau : R) :
  let f1 := CalculateDerivs this [a; b; c] time in
  let s1 := [a + tau / 2.0 * f1 !!! 0%nat; b + tau / 2.0 * f1 !!! 1%nat;
             c + tau / 2.0 * f1 !!! 2%nat] in
  let f2 := CalculateDerivs this s1 (time + tau / 2.0) in
  let s2 := [a + tau / 2.0 * f2 !!! 0%nat; b + tau / 2.0 * f2 !!! 1%nat;
             c + tau / 2.0 * f2 !!! 2%nat] in
  let f3 := CalculateDerivs this s2 (time + tau / 2.0) in
  let s3 := [a + tau * f3 !!! 0%nat; b + tau * f3 !!! 1%nat;
             c + tau * f3 !!! 2%nat] in
  let f4 := CalculateDerivs this s3 (time + tau) in
  RK4Solver this [a; b; c] time tau
  = [a + tau / 6.0 * (f1 !!! 0%nat + 2.0 * f2 !!! 0%nat + 2.0 * f3 !!! 0%nat + f4 !!! 0%nat);
     b + tau / 6.0 * (f1 !!! 1%nat + 2.0 * f2 !!! 1%nat + 2.0 * f3 !!! 1%nat + f4 !!! 1%nat);
     c + tau / 6.0 * (f1 !!! 2%nat + 2.0 * f2 !!! 2%nat + 2.0 * f3 !!! 2%nat + f4 !!! 2%nat)].
Proof.
  intros f1 s1 f2 s2 f3 s3 f4. unfold RK4Solver.
  rewrite !CalculateDerivs_length, !for_loop_3.
  cbn [length replicate insert list_insert lookup_total list_lookup_total].
  reflexivity.
Qed.

Lemma RK4Solver_fixed (a b c time tau : R) :
  (forall t, CalculateDerivs this [a; b; c] t = [0; 0; 0]) ->
  RK4Solver this [a; b; c] time tau = [a; b; c].
Proof.
  intros Hzero. rewrite RK4Solver_3. cbv zeta.
  rewrite (Hzero time). cbn [lookup_total list_lookup_total].
  replace [a + tau / 2.0 * 0; b + tau / 2.0 * 0; c + tau / 2.0 * 0]
    with [a; b; c] by (repeat f_equal; lra).
  rewrite (Hzero (time + tau / 2.0)). cbn [lookup_total list_lookup_total].
  replace [a + tau / 2.0 * 0; b + tau / 2.0 * 0; c + tau / 2.0 * 0]
    with [a; b; c] by (repeat f_equal; lra).
  rewrite (Hzero (time + tau / 2.0)). cbn [lookup_total list_lookup_total].
  replace [a + tau * 0; b + tau * 0; c + tau * 0]
    with [a; b; c] by (repeat f_equal; lra).
  rewrite (Hzero (time + tau)). cbn [lookup_total list_lookup_total].
  repeat f_equal; lra.
Qed.

(** At a state where the derivatives vanish at all times the first attempt
    of the adaptive integrator is accepted with an error ratio of 0. *)
Lemma RKA4Solver_fixed (a b c time tau : R) :
  (forall t, CalculateDerivs this [a; b; c] t = [0; 0; 0]) ->
  error_ratio (RKA4_attempt this [a; b; c] time tau) = 0
  /\ RKA4Solver this [a; b; c] time tau = ([], [a; b; c; 4 * tau]).
Proof.
  intros Hzero.
  assert (Hratio : error_ratio (RKA4_attempt this [a; b; c] time tau) = 0).
  { unfold RKA4_attempt. cbn [error_ratio].
    rewrite !RK4Solver_fixed by exact Hzero.
    cbn [length]. rewrite error_ratios_3. unfold component_ratio.
    cbn [lookup_total list_lookup_total max_element fold_left].
    rewrite !Rminus_diag, Rabs_R0. unfold Rdiv. rewrite !Rmult_0_l.
    rewrite (Rmax_left 0 0) by lra. apply Rmax_left. lra. }
  split; [exact Hratio |].
  unfold RKA4Solver. rewrite RKA4_attempts_unfold. cbv zeta.
  destruct (Rlt_dec _ 1) as [_ | Hn]; [| rewrite Hratio in Hn; lra].
  unfold capped_tau. rewrite Hratio.
  destruct (Req_dec_T 0 0) as [_ | Hn]; [| lra].
  unfold RKA4_attempt. cbn [small_step old_tau].
  rewrite !RK4Solver_fixed by exact Hzero.
  unfold safety_3. simpl. repeat f_equal. lra.
Qed.
End ThreeComponents.


(** ** The concrete loop, by hand *)

(** Unfolds the constants of the instance [cgs]. *)
Ltac cgs_values :=
  cbv [BOLTZMANN_CONSTANT ELECTRON_MASS PROTON_MASS
       SPITZER_ELECTRON_CONDUCTIVITY SPITZER_ION_CONDUCTIVITY GAMMA
       GAMMA_MINUS_ONE SOLAR_SURFACE_GRAVITY ELECTRON_CHARGE_POWER_4
       LARGEST_DOUBLE cgs] in *.

Section Equilibrium.
#[local] Existing Instance cgs.
Variable this : Loop.t.

Hypothesis Hspitzer :
  Parameters.use_spitzer_conductivity (Loop.parameters this) = true.
Hypothesis Hloss :
  Parameters.use_c1_loss_correction (Loop.parameters this) = false.
Hypothesis Hgrav :
  Parameters.use_c1_grav_correction (Loop.parameters this) = false.
Hypothesis Hlength : Parameters.loop_length (Loop.parameters this) = 1.
Hypothesis Hbc : Parameters.boltzmann_correction (Loop.parameters this) = 1.
Hypothesis Hrad :
  forall x, GetPowerLawRad (Loop.radiation_model this) x = 1.16e-7.
Hypothesis Hheat : forall t, Get_Heating (Loop.heater this) t = 3.48e-7.

Lemma example_conduction (T n : R) (species : string) :
  T / CalculateC2 = 1 ->
  CalculateThermalConduction this T n species
  = - (2 / 7) * fst (fst (species_constants this species)).
Proof.
  intros HT. unfold CalculateThermalConduction.
  destruct (species_constants this species) as [[kappa mass] k_B].
  rewrite Hspitzer. unfold classical_flux. rewrite HT, pow_1, Hlength.
  cbn [fst]. lra.
Qed.

Lemma example_density_eqm_2 (Te Ti : R) :
  Te / CalculateC2 = 1 -> C1_density_eqm_2 this Te Ti = 1.
Proof.
  intros HT. unfold C1_density_eqm_2, C1_grav_correction, C1_loss_correction.
  rewrite Hloss, Hgrav, Hrad, HT, pow_1, Hlength, pow_2. unfold c1_eqm0.
  cgs_values. lra.
Qed.

Lemma example_C1 (Te Ti : R) :
  Te / CalculateC2 = 1 -> CalculateC1 this Te Ti 1 = 2.
Proof.
  intros HT. rewrite CalculateC1_piecewise, example_density_eqm_2 by exact HT.
  unfold C1_grav_correction, C1_loss_correction. rewrite Hloss, Hgrav.
  replace (1 * 1 / 1) with 1 by lra. rewrite C1_piecewise_at_1. lra.
Qed.

End Equilibrium.

Section EquilibriumDerivs.
#[local] Existing Instance cgs.
Variable this : Loop.t.

Hypothesis Hspitzer :
  Parameters.use_spitzer_conductivity (Loop.parameters this) = true.
Hypothesis Hloss :
  Parameters.use_c1_loss_correction (Loop.parameters this) = false.
Hypothesis Hgrav :
  Parameters.use_c1_grav_correction (Loop.parameters this) = false.
Hypothesis Hlength : Parameters.loop_length (Loop.parameters this) = 1.
Hypothesis Hbc : Parameters.boltzmann_correction (Loop.parameters this) = 1.
Hypothesis Hrad :
  forall x, GetPowerLawRad (Loop.radiation_model this) x = 1.16e-7.

(** The derivatives at the seed state, for any heating profile: the density
    is at rest, and the two pressures move with the heating. *)
Lemma example_derivs_heated (time : R) :
  CalculateDerivs this [1.242e-16; 1.242e-16; 1] time
  = [2 / 3 * (1.16e-7 - 7.48e-7 / 7 - 3.48e-7)
     + 2 / 3 * Get_Heating (Loop.heater this) time
       * partition (Loop.heater this);
     - (2 / 3) * (1.16e-7 - 7.48e-7 / 7)
     + 2 / 3 * Get_Heating (Loop.heater this) time
       * (1 - partition (Loop.heater this));
     0].
Proof.
  destruct (CalculateDerivs_formulas this 1.242e-16 1.242e-16 1 time)
    as (_ & _ & _ & _ & _ & _ & _ & _ & Hvec & _).
  rewrite Hvec. clear Hvec. rewrite Hbc, Hlength, Hrad.
  assert (HTe : 1.242e-16 / (BOLTZMANN_CONSTANT * 1) / CalculateC2 = 1)
    by (unfold CalculateC2; cgs_values; lra).
  assert (HTi : 1.242e-16 / (1 * BOLTZMANN_CONSTANT * 1) / CalculateC2 = 1)
    by (unfold CalculateC2; cgs_values; lra).
  rewrite !(example_conduction this Hspitzer Hlength) by assumption.
  rewrite (example_C1 this Hloss Hgrav Hlength Hrad) by assumption.
  rewrite species_constants_electron.
  rewrite (species_constants_other this "ion") by discriminate.
  cbn [fst snd].
  replace (1.242e-16 - 1.242e-16) with 0 by lra. rewrite !Rmult_0_r.
  cgs_values. f_equal; [nra |]. f_equal; [nra |]. f_equal.
  match goal with
  | |- ?a * ?b = 0 => replace b with 0 by lra; apply Rmult_0_r
  end.
Qed.

Hypothesis Hheat : forall t, Get_Heating (Loop.heater this) t = 3.48e-7.

(** The same under the constant heating rate. *)
Lemma example_derivs (time : R) :
  CalculateDerivs this [1.242e-16; 1.242e-16; 1] time
  = [2 / 3 * (1.16e-7 - 7.48e-7 / 7 - 3.48e-7
              + 3.48e-7 * partition (Loop.heater this));
     - (2 / 3) * (1.16e-7 - 7.48e-7 / 7)
     + 2 / 3 * 3.48e-7 * (1 - partition (Loop.heater this));
     0].
Proof.
  rewrite example_derivs_heated, Hheat. repeat f_equal; lra.
Qed.

End EquilibriumDerivs.

Section Concrete.
#[local] Existing Instance cgs.

Lemma cgs_physical : physical.
Proof. constructor; cgs_values; lra. Qed.

Lemma example_ceil : cmath.ceil (3 / 1) = 3%Z.
Proof. apply Zceil_eq. simpl. lra. Qed.

Lemma example_new (solver : string) (partition : R) :
  Loop_new (example_config solver) (example_heater partition)
    example_radiation example_radiation
  = Some (Loop_build (example_config solver) (example_heater partition)
            example_radiation example_radiation 3).
Proof.
  unfold Loop_new. cbn [Config.tau Config.total_time example_config].
  destruct (Req_dec_T 1 0) as [Habs | _]; [lra |].
  rewrite example_ceil. reflexivity.
Qed.

(** The seed state of the constructed loop is found at the second pass of
    the loop of [CalculateInitialConditions]. *)
Lemma example_initial_while (this : Loop.t) :
  Parameters.use_c1_loss_correction (Loop.parameters this) = false ->
  Parameters.use_c1_grav_correction (Loop.parameters this) = false ->
  Parameters.loop_length (Loop.parameters this) = 1 ->
  (forall x, GetPowerLawRad (Loop.radiation_model this) x = 1.16e-7) ->
  (forall t, Get_Heating (Loop.heater this) t = 3.48e-7) ->
  initial_while this (i_max - 1) 0 2.0 LARGEST_DOUBLE LARGEST_DOUBLE
  = (1%Z, 0.9, 1).
Proof.
  intros Hloss Hgrav Hlength Hrad Hheat.
  assert (Hbase : forall c1, c1 = 2 ->
            3.5 * c1 / (1.0 + c1)
            * cmath.pow (Parameters.loop_length (Loop.parameters this)) 2
            * Get_Heating (Loop.heater this) 0.0
            / (SPITZER_ELECTRON_CONDUCTIVITY + SPITZER_ION_CONDUCTIVITY) = 1).
  { intros c1 ->. rewrite Hlength, Hheat, pow_2. cgs_values. lra. }
  assert (Hpass : forall i c1 To no,
            (if (0 <? i)%Z then CalculateC1 this To To no else c1) = 2 ->
            ic_temperature (initial_pass this i c1 To no) = 0.9
            /\ ic_density (initial_pass this i c1 To no) = 1
            /\ ic_error_temperature (initial_pass this i c1 To no)
               = Rabs (0.9 - To) / 0.9
            /\ ic_error_density (initial_pass this i c1 To no)
               = Rabs (1 - no) / 1).
  { intros i c1 To no Hc1. unfold initial_pass.
    cbn [ic_temperature ic_density ic_error_temperature ic_error_density].
    rewrite Hc1, (Hbase 2 eq_refl), pow_1, Hrad, Hheat.
    replace (3.48e-7 / (1.16e-7 * (1.0 + 2))) with 1 by lra.
    rewrite sqrt_1. unfold CalculateC2.
    replace (0.9 * 1) with 0.9 by lra. repeat split. }
  unfold i_max. simpl Nat.sub. rewrite initial_while_unfold. cbv zeta.
  destruct (Hpass 0%Z 2.0 LARGEST_DOUBLE LARGEST_DOUBLE)
    as (HT0 & Hn0 & HeT0 & Hen0); [simpl; lra |].
  destruct (Rlt_dec _ tol) as [Hconv | _].
  { exfalso. rewrite Hen0, HeT0 in Hconv. unfold tol in Hconv.
    apply Rmax_Rlt in Hconv as [Hconv _].
    rewrite Rabs_left in Hconv by (cgs_values; lra).
    cgs_values. lra. }
  rewrite initial_while_unfold. cbv zeta.
  assert (Hc1 : ic_c1 (initial_pass this 0 2.0 LARGEST_DOUBLE LARGEST_DOUBLE)
                = 2) by (simpl; lra).
  rewrite HT0, Hn0.
  destruct (Hpass (0 + 1)%Z
              (ic_c1 (initial_pass this 0 2.0 LARGEST_DOUBLE LARGEST_DOUBLE))
              0.9 1)
    as (HT1 & Hn1 & HeT1 & Hen1).
  { simpl. apply (example_C1 this Hloss Hgrav Hlength Hrad).
    unfold CalculateC2. lra. }
  destruct (Rlt_dec _ tol) as [_ | Hnot].
  - rewrite HT1, Hn1. reflexivity.
  - exfalso. apply Hnot. rewrite Hen1, HeT1. unfold tol.
    rewrite !Rminus_diag, Rabs_R0. unfold Rdiv. rewrite !Rmult_0_l.
    rewrite Rmax_left; lra.
Qed.


(** The configuration of the constructed loop. *)
Lemma example_build_parameters (solver : string) (share : R) :
  let this := Loop_build (example_config solver) (example_heater share)
                example_radiation example_radiation 3 in
  let p := Loop.parameters this in
  Parameters.use_spitzer_conductivity p = true
  /\ Parameters.use_c1_loss_correction p = false
  /\ Parameters.use_c1_grav_correction p = false
  /\ Parameters.loop_length p = 1
  /\ Parameters.boltzmann_correction p = 1
  /\ Parameters.solver p = solver
  /\ Parameters.tau p = 1
  /\ Parameters.total_time p = 3
  /\ Loop.radiation_model this = example_radiation
  /\ Loop.heater this = example_heater share.
Proof.
  cbv zeta. repeat split.
  cbn [Loop_build Loop.parameters Loop.with_results
       CalculateAbundanceCorrection Loop.with_parameters
       Parameters.boltzmann_correction Config.helium_to_hydrogen_ratio
       example_config].
  lra.
Qed.

Lemma example_seed (solver : string) (share : R) :
  let this := seeded solver share in
  let p := Loop.parameters this in
  Loop.__state this = [1.242e-16; 1.242e-16; 1]
  /\ Parameters.use_spitzer_conductivity p = true
  /\ Parameters.use_c1_loss_correction p = false
  /\ Parameters.use_c1_grav_correction p = false
  /\ Parameters.loop_length p = 1
  /\ Parameters.boltzmann_correction p = 1
  /\ Parameters.solver p = solver
  /\ Parameters.tau p = 1
  /\ Parameters.total_time p = 3
  /\ (forall x, GetPowerLawRad (Loop.radiation_model this) x = 1.16e-7)
  /\ (forall t, Get_Heating (Loop.heater this) t = 3.48e-7)
  /\ partition (Loop.heater this) = share.
Proof.
  cbv zeta. unfold seeded.
  set (this0 := Loop_build (example_config solver) (example_heater share)
                  example_radiation example_radiation 3).
  destruct (example_build_parameters solver share)
    as (Hsp & Hlo & Hgr & Hle & Hbc & Hso & Hta & Hto & Hra & Hhe).
  fold this0 in Hsp, Hlo, Hgr, Hle, Hbc, Hso, Hta, Hto, Hra, Hhe.
  destruct (CalculateInitialConditions_frame this0) as (Hp & _ & Hh & Hr).
  rewrite Hp, Hh, Hr, Hra, Hhe.
  split.
  - rewrite CalculateInitialConditions_unfold. cbv zeta.
    rewrite (example_initial_while this0) by
      (try assumption; intros; rewrite ?Hra, ?Hhe; reflexivity).
    cbn [fst snd].
    match goal with
    | |- context [SaveResults ?l ?a ?b] =>
        destruct (SaveResults_frame l a b) as (_ & _ & _ & -> & _)
    end.
    cbn [Loop.__state Loop.with_state]. rewrite Hbc. cgs_values.
    repeat f_equal; lra.
  - repeat split; assumption.
Qed.

End Concrete.

(** ** A call of the adaptive integrator that exhausts its attempts *)

Section LateKick.
Context `{PhysicalConstants}.
Variable this : Loop.t.

(** A Runge-Kutta step from a state at which the derivatives vanish at the
    start and at the middle of the step, and have the value [e] at its end. *)
Lemma RK4Solver_late_kick (a b c time tau e0 e1 e2 : R) :
  CalculateDerivs this [a; b; c] time = [0; 0; 0] ->
  CalculateDerivs this [a; b; c] (time + tau / 2.0) = [0; 0; 0] ->
  CalculateDerivs this [a; b; c] (time + tau) = [e0; e1; e2] ->
  RK4Solver this [a; b; c] time tau
  = [a + tau / 6 * e0; b + tau / 6 * e1; c + tau / 6 * e2].
Proof.
  intros H1 H2 H3. rewrite RK4Solver_3. cbv zeta.
  rewrite H1. cbn [lookup_total list_lookup_total].
  replace [a + tau / 2.0 * 0; b + tau / 2.0 * 0; c + tau / 2.0 * 0]
    with [a; b; c] by (repeat f_equal; lra).
  rewrite H2. cbn [lookup_total list_lookup_total].
  replace [a + tau / 2.0 * 0; b + tau / 2.0 * 0; c + tau / 2.0 * 0]
    with [a; b; c] by (repeat f_equal; lra).
  rewrite H2. cbn [lookup_total list_lookup_total].
  replace [a + tau * 0; b + tau * 0; c + tau * 0]
    with [a; b; c] by (repeat f_equal; lra).
  rewrite H3. cbn [lookup_total list_lookup_total].
  repeat f_equal; lra.
Qed.

Lemma Rpower_le_1 (x y : R) : 1 <= x -> y < 0 -> Rpower x y <= 1.
Proof.
  intros Hx Hy. unfold Rpower. destruct Hx as [Hx | <-].
  - left. rewrite <- exp_0. apply exp_increasing.
    assert (0 < ln x) by (rewrite <- ln_1; apply ln_increasing; lra).
    nra.
  - rewrite ln_1, Rmult_0_r, exp_0. lra.
Qed.

(** A rejected attempt divides the step size by 1.1. *)
Lemma rejected_new_tau (state : list R) (time tau : R) :
  0 < tau ->
  ~ error_ratio (RKA4_attempt this state time tau) < 1 ->
  new_tau (RKA4_attempt this state time tau) = tau / 1.1.
Proof.
  intros Htau Hrej.
  pose proof (new_tau_attempt this state time 0 tau) as Hnew.
  cbn [attempt_from] in Hnew. rewrite Hnew, RKA4_attempt_old_tau.
  set (r := error_ratio (RKA4_attempt this state time tau)) in *.
  rewrite pow_Rpower by lra.
  pose proof (Rpower_le_1 r (-1.0 / 5.0)) as Hp.
  unfold safety_1, safety_2. rewrite Rmax_right; [reflexivity |].
  assert (Rpower r (-1.0 / 5.0) <= 1) by (apply Hp; lra).
  assert (0 < Rpower r (-1.0 / 5.0)) by apply exp_pos.
  nra.
Qed.

End LateKick.

Section Grid.

Lemma grid_pos (m : nat) : 0 < (10 / 11) ^ m.
Proof. apply pow_lt. lra. Qed.

Lemma grid_le_1 (m : nat) : (10 / 11) ^ m <= 1.
Proof.
  induction m as [| m IH]; simpl; [lra |].
  pose proof (grid_pos m). nra.
Qed.

Lemma grid_decreasing (m d : nat) : (10 / 11) ^ (m + d) <= (10 / 11) ^ m.
Proof.
  rewrite pow_add. pose proof (grid_pos m). pose proof (grid_le_1 d).
  pose proof (grid_pos d). nra.
Qed.

Lemma on_grid_true (n : nat) (t : R) :
  on_grid n t = true -> exists m, (m < n)%nat /\ t = (10 / 11) ^ m.
Proof.
  induction n as [| n IH]; simpl; [discriminate |].
  destruct (Req_dec_T t ((10 / 11) ^ n)) as [-> | _].
  - intros _. exists n. split; [lia | reflexivity].
  - intros Hn. destruct (IH Hn) as (m & Hm & ->). exists m. split; [lia | reflexivity].
Qed.

Lemma on_grid_member (n m : nat) :
  (m < n)%nat -> on_grid n ((10 / 11) ^ m) = true.
Proof.
  induction n as [| n IH]; [lia |]. intros Hm. simpl.
  destruct (Req_dec_T ((10 / 11) ^ m) ((10 / 11) ^ n)) as [_ | Hne];
    [reflexivity |].
  apply IH. destruct (Nat.eq_dec m n) as [-> | Hmn]; [contradiction | lia].
Qed.

(** A fraction of a grid time that lies strictly between two consecutive
    grid times is not a grid time. *)
Lemma off_grid (c : R) (m0 k n : nat) :
  (10 / 11) ^ S m0 < c < (10 / 11) ^ m0 ->
  on_grid n (c * (10 / 11) ^ k) = false.
Proof.
  intros [Hlo Hhi]. destruct (on_grid n _) eqn:Hon; [| reflexivity].
  exfalso. apply on_grid_true in Hon as (m & _ & Heq).
  pose proof (grid_pos k) as Hk. pose proof (grid_le_1 m0) as H1.
  destruct (le_lt_dec k m) as [Hkm | Hmk].
  - replace m with (k + (m - k))%nat in Heq by lia.
    rewrite pow_add in Heq.
    assert (Hc : c = (10 / 11) ^ (m - k)) by nra.
    destruct (le_lt_dec (m - k) m0) as [Hd | Hd].
    + pose proof (grid_decreasing (m - k) (m0 - (m - k))) as Hdec.
      replace (m - k + (m0 - (m - k)))%nat with m0 in Hdec by lia. lra.
    + pose proof (grid_decreasing (S m0) (m - k - S m0)) as Hdec.
      replace (S m0 + (m - k - S m0))%nat with (m - k)%nat in Hdec by lia. lra.
  - replace k with (m + (k - m))%nat in Heq by lia.
    rewrite pow_add in Heq.
    pose proof (grid_pos m) as Hm. pose proof (grid_le_1 (k - m)) as Hd.
    pose proof (grid_pos (k - m)) as Hd'.
    assert (Hone : c * (10 / 11) ^ (k - m) = 1) by nra.
    nra.
Qed.

Lemma quarter_off_grid (k n : nat) : on_grid n (1 / 4 * (10 / 11) ^ k) = false.
Proof. apply (off_grid (1 / 4) 14). simpl. lra. Qed.

Lemma half_off_grid (k n : nat) : on_grid n (1 / 2 * (10 / 11) ^ k) = false.
Proof. apply (off_grid (1 / 2) 7). simpl. lra. Qed.

Lemma three_quarters_off_grid (k n : nat) :
  on_grid n (3 / 4 * (10 / 11) ^ k) = false.
Proof. apply (off_grid (3 / 4) 3). simpl. lra. Qed.

Lemma zero_off_grid (n : nat) : on_grid n 0 = false.
Proof.
  destruct (on_grid n 0) eqn:Hon; [| reflexivity].
  apply on_grid_true in Hon as (m & _ & Heq).
  pose proof (grid_pos m). lra.
Qed.

End Grid.

Section Spiky.
#[local] Existing Instance cgs.

Local Abbreviation seed := [1.242e-16; 1.242e-16; 1].

Lemma spiky_derivs (t : R) :
  CalculateDerivs spiky_loop seed t
  = if on_grid 100 t then
      [2 / 3 * (1 / t) * balanced_partition;
       2 / 3 * (1 / t) * (1 - balanced_partition); 0]
    else [0; 0; 0].
Proof.
  rewrite example_derivs_heated; try reflexivity.
  cbn [spiky_loop Loop.heater spiky_heater Get_Heating partition].
  unfold balanced_partition.
  destruct (on_grid 100 t); repeat f_equal; lra.
Qed.

Lemma spiky_rest (t c : R) (k : nat) :
  t = c * (10 / 11) ^ k ->
  c = 0 \/ c = 1 / 4 \/ c = 1 / 2 \/ c = 3 / 4 ->
  CalculateDerivs spiky_loop seed t = [0; 0; 0].
Proof.
  intros -> Hc. rewrite spiky_derivs.
  destruct Hc as [-> | [-> | [-> | ->]]].
  - rewrite Rmult_0_l, zero_off_grid. reflexivity.
  - rewrite quarter_off_grid. reflexivity.
  - rewrite half_off_grid. reflexivity.
  - rewrite three_quarters_off_grid. reflexivity.
Qed.

Lemma spiky_kick (t : R) (k : nat) :
  (k < 100)%nat ->
  t = (10 / 11) ^ k ->
  CalculateDerivs spiky_loop seed t
  = [2 / 3 * (1 / t) * balanced_partition;
     2 / 3 * (1 / t) * (1 - balanced_partition); 0].
Proof.
  intros Hk ->. rewrite spiky_derivs, on_grid_member by exact Hk. reflexivity.
Qed.

Lemma ratio_ge_1 (a d : R) : 0 < d -> d <= a -> 1 <= a / d.
Proof.
  intros Hd Hle. apply (Rmult_le_reg_r d); [exact Hd |].
  unfold Rdiv. rewrite Rmult_assoc, Rinv_l by lra. lra.
Qed.

(** An attempt entered at time 0 with a step size on the grid: the two half
    steps and the whole step both end on the spike, and differ by more than
    the tolerance. *)
Lemma spiky_attempt (k : nat) :
  (k < 100)%nat ->
  ~ error_ratio (RKA4_attempt spiky_loop seed 0 ((10 / 11) ^ k)) < 1.
Proof.
  intros Hk. set (tau := (10 / 11) ^ k).
  assert (Htau : 0 < tau) by apply grid_pos.
  assert (Hfirst : RK4Solver spiky_loop seed 0 (tau * 0.5) = seed).
  { rewrite (RK4Solver_late_kick spiky_loop _ _ _ 0 (tau * 0.5) 0 0 0).
    - repeat f_equal; lra.
    - apply (spiky_rest _ 0 k); [lra | tauto].
    - apply (spiky_rest _ (1 / 4) k); [unfold tau; lra | tauto].
    - apply (spiky_rest _ (1 / 2) k); [unfold tau; lra | tauto]. }
  assert (Hsmall : RK4Solver spiky_loop seed (0 + tau * 0.5) (tau * 0.5)
                   = [1.242e-16 + balanced_partition / 18;
                      1.242e-16 + (1 - balanced_partition) / 18; 1]).
  { rewrite (RK4Solver_late_kick spiky_loop _ _ _ (0 + tau * 0.5) (tau * 0.5)
               (2 / 3 * (1 / tau) * balanced_partition)
               (2 / 3 * (1 / tau) * (1 - balanced_partition)) 0).
    - replace 0.5 with (1 / 2) by lra. repeat f_equal; field; lra.
    - apply (spiky_rest _ (1 / 2) k); [unfold tau; lra | tauto].
    - apply (spiky_rest _ (3 / 4) k); [unfold tau; lra | tauto].
    - replace (0 + tau * 0.5 + tau * 0.5) with tau by lra.
      apply (spiky_kick _ k Hk). reflexivity. }
  assert (Hbig : RK4Solver spiky_loop seed 0 tau
                 = [1.242e-16 + balanced_partition / 9;
                    1.242e-16 + (1 - balanced_partition) / 9; 1]).
  { rewrite (RK4Solver_late_kick spiky_loop _ _ _ 0 tau
               (2 / 3 * (1 / tau) * balanced_partition)
               (2 / 3 * (1 / tau) * (1 - balanced_partition)) 0).
    - repeat f_equal; field; lra.
    - apply (spiky_rest _ 0 k); [lra | tauto].
    - apply (spiky_rest _ (1 / 2) k); [unfold tau; lra | tauto].
    - replace (0 + tau) with tau by lra.
      apply (spiky_kick _ k Hk). reflexivity. }
  unfold RKA4_attempt. cbn [error_ratio]. rewrite Hfirst, Hsmall, Hbig.
  cbn [length]. rewrite error_ratios_3. cbn [max_element fold_left].
  intros Hlt.
  assert (Hone : 1 <= component_ratio spiky_loop
                        [1.242e-16 + balanced_partition / 18;
                         1.242e-16 + (1 - balanced_partition) / 18; 1]
                        [1.242e-16 + balanced_partition / 9;
                         1.242e-16 + (1 - balanced_partition) / 9; 1] 0).
  { unfold component_ratio. cbn [lookup_total list_lookup_total].
    cbn [spiky_loop Loop.parameters example_parameters Parameters.rka_error].
    unfold balanced_partition.
    rewrite Rabs_left, !Rabs_right by lra.
    apply ratio_ge_1; lra. }
  pose proof (Rmax_l (component_ratio spiky_loop
                        [1.242e-16 + balanced_partition / 18;
                         1.242e-16 + (1 - balanced_partition) / 18; 1]
                        [1.242e-16 + balanced_partition / 9;
                         1.242e-16 + (1 - balanced_partition) / 9; 1] 0)
                (component_ratio spiky_loop
                        [1.242e-16 + balanced_partition / 18;
                         1.242e-16 + (1 - balanced_partition) / 18; 1]
                        [1.242e-16 + balanced_partition / 9;
                         1.242e-16 + (1 - balanced_partition) / 9; 1] 1)) as Hl.
  match type of Hlt with
  | Rmax ?x ?y < 1 => pose proof (Rmax_l x y)
  end.
  lra.
Qed.

(** None of the 100 attempts of the call at time 0 with step size 1 is
    accepted; attempt [j] is entered with the step size [(10/11)^j]. *)
Lemma spiky_attempts (j k : nat) :
  (k + j < 100)%nat ->
  old_tau (attempt_from spiky_loop seed 0 j ((10 / 11) ^ k)) = (10 / 11) ^ (k + j)
  /\ ~ error_ratio (attempt_from spiky_loop seed 0 j ((10 / 11) ^ k)) < 1.
Proof.
  revert k. induction j as [| j IH]; intros k Hk.
  - cbn [attempt_from]. rewrite Nat.add_0_r. split; [reflexivity |].
    apply spiky_attempt. lia.
  - rewrite attempt_from_S, rejected_new_tau;
      [| apply grid_pos | apply spiky_attempt; lia].
    replace ((10 / 11) ^ k / 1.1) with ((10 / 11) ^ S k) by (simpl; lra).
    replace (k + S j)%nat with (S k + j)%nat by lia.
    apply IH. lia.
Qed.

End Spiky.
Section Refutations.
#[local] Existing Instance cgs.

(** A pass of the loop with the Euler solver. *)
Lemma euler_pass (this : Loop.t) (v : EvolveVars) :
  Parameters.solver (Loop.parameters this) = "euler"%string ->
  Loop.__state (fst (EvolveLoop_body this v))
  = EulerSolver this (Loop.__state this) (ev_time v) (ev_tau v)
  /\ ev_time (snd (EvolveLoop_body this v)) = ev_time v + ev_tau v
  /\ ev_tau (snd (EvolveLoop_body this v)) = ev_tau v.
Proof.
  intros Hs.
  destruct (EvolveLoop_body_frame this v) as (_ & _ & _ & _ & ->).
  rewrite EvolveLoop_body_unfold. unfold solver_step. rewrite Hs.
  cbn [String.eqb Ascii.eqb Bool.eqb fst snd ev_time ev_tau].
  repeat split.
Qed.

(** The first two passes of the Euler solver with a step of 1 from the seed
    state, when half of the heating goes to the electrons. *)
Lemma euler_two_passes (this1 : Loop.t) :
  Loop.__state this1 = [1.242e-16; 1.242e-16; 1] ->
  Parameters.use_spitzer_conductivity (Loop.parameters this1) = true ->
  Parameters.use_c1_loss_correction (Loop.parameters this1) = false ->
  Parameters.use_c1_grav_correction (Loop.parameters this1) = false ->
  Parameters.loop_length (Loop.parameters this1) = 1 ->
  Parameters.boltzmann_correction (Loop.parameters this1) = 1 ->
  Parameters.solver (Loop.parameters this1) = "euler"%string ->
  Parameters.tau (Loop.parameters this1) = 1 ->
  Parameters.total_time (Loop.parameters this1) = 3 ->
  (forall x, GetPowerLawRad (Loop.radiation_model this1) x = 1.16e-7) ->
  (forall t, Get_Heating (Loop.heater this1) t = 3.48e-7) ->
  partition (Loop.heater this1) = 1 / 2 ->
  forall pass1 pass2,
    pass1 = EvolveLoop_body this1 (EvolveLoop_init this1) ->
    pass2 = EvolveLoop_body (fst pass1) (snd pass1) ->
    positive_state (Loop.__state this1)
    /\ ev_time (EvolveLoop_init this1)
       < Parameters.total_time (Loop.parameters this1)
    /\ Loop.__state (fst pass1) = EulerSolver this1 (Loop.__state this1) 1 1
    /\ Loop.__state (fst pass1) !!! 0%nat < 0
    /\ ~ positive_state (Loop.__state (fst pass1))
    /\ ev_time (snd pass1) < Parameters.total_time (Loop.parameters (fst pass1))
    /\ Loop.__state (fst pass2)
       = EulerSolver (fst pass1) (Loop.__state (fst pass1)) 2 1.
Proof.
  intros Hst Hsp Hlo Hgr Hle Hbc Hso Hta Hto Hra Hhe Hpa pass1 pass2 E1 E2.
  destruct (euler_pass this1 (EvolveLoop_init this1) Hso) as (Hs1 & Ht1 & Hu1).
  rewrite <- E1 in Hs1, Ht1, Hu1.
  cbn [EvolveLoop_init ev_time ev_tau] in Hs1, Ht1, Hu1.
  rewrite Hta in Hs1, Ht1, Hu1.
  assert (Hneg : Loop.__state (fst pass1) !!! 0%nat < 0).
  { rewrite Hs1, Hst, EulerSolver_3. cbv zeta.
    rewrite (example_derivs this1 Hsp Hlo Hgr Hle Hbc Hra Hhe), Hpa.
    cbn [lookup_total list_lookup_total]. lra. }
  destruct (EvolveLoop_body_frame this1 (EvolveLoop_init this1))
    as (Hp1 & _).
  rewrite <- E1 in Hp1.
  split; [rewrite Hst; unfold positive_state;
          cbn [lookup_total list_lookup_total]; lra |].
  split; [cbn [EvolveLoop_init ev_time]; rewrite Hta, Hto; lra |].
  split; [exact Hs1 |].
  split; [exact Hneg |].
  split; [intros (Hpos & _); lra |].
  split; [rewrite Ht1, Hp1, Hto; lra |].
  destruct (euler_pass (fst pass1) (snd pass1)) as (Hs2 & _);
    [rewrite Hp1; exact Hso |].
  rewrite <- E2 in Hs2. rewrite Hs2, Ht1, Hu1. f_equal; lra.
Qed.

(** C5, refuted as stated.  The concrete loop with the Euler solver, a step
    of 1 and half of the heating given to the electrons: the heating rate is
    positive at all times and the seed state is positive, yet the first pass
    of the loop stores a negative electron pressure, and the loop goes on to
    a second pass, which hands that state to [EulerSolver] and so to
    [CalculateDerivs]. *)
Lemma positivity_counterexample :
  let heater := example_heater (1 / 2) in
  let this1 := seeded "euler" (1 / 2) in
  let pass1 := EvolveLoop_body this1 (EvolveLoop_init this1) in
  let pass2 := EvolveLoop_body (fst pass1) (snd pass1) in
  Loop_new (example_config "euler") heater example_radiation example_radiation
  = Some (Loop_build (example_config "euler") heater example_radiation
            example_radiation 3)
  /\ (forall t, 0 <= Get_Heating heater t)
  /\ positive_state (Loop.__state this1)
  /\ ev_time (EvolveLoop_init this1)
     < Parameters.total_time (Loop.parameters this1)
  /\ Loop.__state (fst pass1)
     = EulerSolver this1 (Loop.__state this1) 1 1
  /\ Loop.__state (fst pass1) !!! 0%nat < 0
  /\ ~ positive_state (Loop.__state (fst pass1))
  /\ ev_time (snd pass1)
     < Parameters.total_time (Loop.parameters (fst pass1))
  /\ Loop.__state (fst pass2)
     = EulerSolver (fst pass1) (Loop.__state (fst pass1)) 2 1.
Proof.
  cbv zeta.
  split; [apply example_new |].
  split; [intros t; cbn [example_heater Get_Heating]; lra |].
  destruct (example_seed "euler" (1 / 2))
    as (Hst & Hsp & Hlo & Hgr & Hle & Hbc & Hso & Hta & Hto & Hra & Hhe & Hpa).
  exact (euler_two_passes (seeded "euler" (1 / 2))
           Hst Hsp Hlo Hgr Hle Hbc Hso Hta Hto Hra Hhe Hpa _ _ eq_refl eq_refl).
Qed.

(** C6, refuted as stated.  With positive constants and a positive loop
    length, but a saturation limit of 0 and the blend in use, the flux of a
    positive temperature and density is 0: it is not negative. *)
Lemma conduction_counterexample :
  let this := example_loop "rk4" false 0 balanced_partition in
  physical
  /\ 0 < Parameters.loop_length (Loop.parameters this)
  /\ Parameters.use_spitzer_conductivity (Loop.parameters this) = false
  /\ Parameters.saturation_limit (Loop.parameters this) = 0
  /\ CalculateThermalConduction this 0.9 1 "electron" = 0
  /\ ~ CalculateThermalConduction this 0.9 1 "electron" < 0.
Proof.
  intros this.
  assert (Hzero : CalculateThermalConduction this 0.9 1 "electron" = 0).
  { unfold CalculateThermalConduction. rewrite species_constants_electron.
    cbn [this example_loop Loop.parameters example_parameters
         Parameters.use_spitzer_conductivity].
    unfold saturated_flux.
    cbn [this example_loop Loop.parameters example_parameters
         Parameters.saturation_limit].
    unfold Rdiv. ring. }
  split; [exact cgs_physical |].
  split; [simpl; lra |].
  split; [reflexivity |]. split; [reflexivity |].
  split; [exact Hzero |]. rewrite Hzero. lra.
Qed.

End Refutations.

(** * Further properties of the code *)

Section DivisionBounds.

Lemma lt_div_r (a b c : R) : 0 < c -> a * c < b -> a < b / c.
Proof.
  intros Hc Hab. apply (Rmult_lt_reg_r c); [exact Hc |].
  replace (b / c * c) with b by (field; lra). exact Hab.
Qed.

Lemma le_div_r (a b c : R) : 0 < c -> a * c <= b -> a <= b / c.
Proof.
  intros Hc Hab. apply (Rmult_le_reg_r c); [exact Hc |].
  replace (b / c * c) with b by (field; lra). exact Hab.
Qed.

Lemma lt_div_l (a b c : R) : 0 < c -> a < b * c -> a / c < b.
Proof.
  intros Hc Hab. apply (Rmult_lt_reg_r c); [exact Hc |].
  replace (a / c * c) with a by (field; lra). exact Hab.
Qed.

Lemma le_div_l (a b c : R) : 0 < c -> a <= b * c -> a / c <= b.
Proof.
  intros Hc Hab. apply (Rmult_le_reg_r c); [exact Hc |].
  replace (a / c * c) with a by (field; lra). exact Hab.
Qed.

End DivisionBounds.

Section Abundance.
Context `{PhysicalConstants}.

(** X1. For a helium to hydrogen ratio [h >= 0],
    [CalculateAbundanceCorrection] sets [boltzmann_correction] to
    [(2 + 3h) / (2 (1 + 2h))] and [ion_mass_correction] to
    [(1 + 4h) / (1 + 2h)]: the first lies in (3/4, 1] and the second in
    [1, 2), both being 1 for pure hydrogen. *)
Theorem abundance_closed_form (this : Loop.t) (h : R) :
  0 <= h ->
  let p := Loop.parameters (CalculateAbundanceCorrection this h) in
  Parameters.boltzmann_correction p = (2 + 3 * h) / (2 * (1 + 2 * h))
  /\ Parameters.ion_mass_correction p = (1 + 4 * h) / (1 + 2 * h)
  /\ 3 / 4 < Parameters.boltzmann_correction p <= 1
  /\ 1 <= Parameters.ion_mass_correction p < 2.
Proof.
  intros Hh. cbn.
  assert (Hbc : (1.0 + 1.0 / ((1.0 + 2.0 * h) / (1.0 + h))) / 2.0
                = (2 + 3 * h) / (2 * (1 + 2 * h))).
  { replace 1.0 with 1 by lra. replace 2.0 with 2 by lra. field. lra. }
  assert (Himc : (1.0 + 4.0 * h) / (2.0 + 3.0 * h) * 2.0
                 * ((1.0 + 1.0 / ((1.0 + 2.0 * h) / (1.0 + h))) / 2.0)
                 = (1 + 4 * h) / (1 + 2 * h)).
  { rewrite Hbc. replace 1.0 with 1 by lra. replace 2.0 with 2 by lra.
    replace 3.0 with 3 by lra. replace 4.0 with 4 by lra. field. lra. }
  rewrite Himc, Hbc.
  assert (Hd : 0 < / (1 + 2 * h)) by (apply Rinv_0_lt_compat; lra).
  assert (Hd2 : 0 < / (2 * (1 + 2 * h))) by (apply Rinv_0_lt_compat; lra).
  split; [reflexivity |]. split; [reflexivity |].
  split; split.
  - apply lt_div_r; lra.
  - apply le_div_l; lra.
  - apply le_div_r; lra.
  - apply lt_div_l; lra.
Qed.
End Abundance.
Section LimiterAndClosure.
Context `{PhysicalConstants}.
Variable this : Loop.t.

Local Abbreviation p := (Loop.parameters this).

Lemma blend_bound (a b : R) :
  Rabs (- a * b / sqrt (a * a + b * b)) <= Rabs a.
Proof.
  destruct (Req_dec_T (a * a + b * b) 0) as [Hz | Hnz].
  - assert (a = 0) by nra. subst a.
    replace (- 0 * b / sqrt (0 * 0 + b * b)) with 0 by (unfold Rdiv; ring).
    lra.
  - assert (Hpos : 0 < a * a + b * b) by nra.
    pose proof (sqrt_lt_R0 _ Hpos) as Hs.
    assert (Hb : Rabs b <= sqrt (a * a + b * b)).
    { rewrite <- (sqrt_Rsqr_abs b). apply sqrt_le_1_alt. unfold Rsqr. nra. }
    unfold Rdiv. rewrite !Rabs_mult, Rabs_Ropp, Rabs_inv.
    rewrite (Rabs_pos_eq (sqrt (a * a + b * b))) by lra.
    pose proof (Rabs_pos a) as Ha. pose proof (Rabs_pos b) as Hb0.
    apply (Rmult_le_reg_r (sqrt (a * a + b * b))); [exact Hs |].
    rewrite Rmult_assoc, Rinv_l by lra. nra.
Qed.

(** X2. With [use_spitzer_conductivity] off, the flux that
    [CalculateThermalConduction] returns is limited by both of its
    ingredients: its magnitude exceeds neither that of the classical flux
    nor that of the saturated flux, for every temperature, density and
    species. *)
Theorem conduction_is_limited (T n : R) (species : string) :
  Parameters.use_spitzer_conductivity p = false ->
  let kappa := fst (fst (species_constants this species)) in
  let mass := snd (fst (species_constants this species)) in
  let k_B := snd (species_constants this species) in
  Rabs (CalculateThermalConduction this T n species)
  <= Rabs (classical_flux this kappa T)
  /\ Rabs (CalculateThermalConduction this T n species)
     <= Rabs (saturated_flux this mass k_B T n).
Proof.
  intros Hsp kappa mass k_B.
  assert (Hunfold :
            CalculateThermalConduction this T n species
            = - classical_flux this kappa T * saturated_flux this mass k_B T n
              / sqrt (classical_flux this kappa T * classical_flux this kappa T
                      + saturated_flux this mass k_B T n
                        * saturated_flux this mass k_B T n)).
  { unfold CalculateThermalConduction, kappa, mass, k_B.
    destruct (species_constants this species) as [[a b] c].
    rewrite Hsp, !pow_2. reflexivity. }
  rewrite Hunfold. split; [apply blend_bound |].
  set (a := classical_flux this kappa T).
  set (b := saturated_flux this mass k_B T n).
  replace (- a * b / sqrt (a * a + b * b))
    with (- b * a / sqrt (b * b + a * a)).
  - apply blend_bound.
  - rewrite (Rplus_comm (b * b)). unfold Rdiv. ring.
Qed.

Lemma weighted_between (c w : R) :
  0 <= w ->
  Rmin 2 c <= (2 * 2 + c * w) / (2 + w) <= Rmax 2 c.
Proof.
  intros Hw.
  pose proof (Rmin_l 2 c). pose proof (Rmin_r 2 c).
  pose proof (Rmax_l 2 c). pose proof (Rmax_r 2 c).
  split; [apply le_div_r | apply le_div_l]; nra.
Qed.

Lemma C1_piecewise_between (cond0 rad0 ratio : R) :
  0 < ratio ->
  (ratio < 1 ->
   Rmin 2 cond0 <= C1_piecewise cond0 rad0 ratio <= Rmax 2 cond0)
  /\ (1 <= ratio ->
      Rmin 2 rad0 <= C1_piecewise cond0 rad0 ratio <= Rmax 2 rad0).
Proof.
  intros Hr. unfold C1_piecewise, C1_branch_cond, C1_branch_rad.
  replace 2.0 with 2 by lra.
  destruct (Rlt_dec ratio 1) as [Hlt | Hge]; split; intros Hcase; try lra.
  - assert (Hw : 0 <= 1 / ratio - 1).
    { assert (1 <= 1 / ratio) by (apply le_div_r; lra). lra. }
    replace (1 + 1 / ratio) with (2 + (1 / ratio - 1)) by ring.
    apply weighted_between, Hw.
  - replace (1 + ratio) with (2 + (ratio - 1)) by ring.
    apply weighted_between. lra.
Qed.

End LimiterAndClosure.
Section ClosureBounds.
Context `{PhysicalConstants}.
Variable this : Loop.t.

Local Abbreviation p := (Loop.parameters this).

Lemma C1_loss_correction_pos (Te : R) :
  0 < Te ->
  0 < GetPowerLawRad (Loop.radiation_model this) (cmath.log10 Te) ->
  0 < C1_loss_correction this Te.
Proof.
  intros HTe Hrad. unfold C1_loss_correction.
  destruct (Parameters.use_c1_loss_correction p); [| lra].
  apply Rdiv_lt_0_compat; [| exact Hrad].
  pose proof (pow_gt0 Te (-2.0 / 3.0) HTe). nra.
Qed.

Lemma C1_grav_correction_pos (Te Ti : R) : 0 < C1_grav_correction this Te Ti.
Proof.
  unfold C1_grav_correction.
  destruct (Parameters.use_c1_grav_correction p); [apply exp_pos | lra].
Qed.

Lemma C1_density_eqm_2_pos (Te Ti : R) :
  physical -> 0 < Te ->
  0 < GetPowerLawRad (Loop.radiation_model this) (cmath.log10 Te) ->
  Parameters.loop_length p <> 0 ->
  0 < C1_density_eqm_2 this Te Ti.
Proof.
  intros Hphys HTe Hrad HL. unfold C1_density_eqm_2.
  pose proof (C1_loss_correction_pos Te HTe Hrad) as Hloss.
  pose proof (C1_grav_correction_pos Te Ti) as Hgrav.
  pose proof (kappa_e_pos Hphys). pose proof (kappa_i_pos Hphys).
  assert (Hc2 : 0 < Te / CalculateC2).
  { apply Rdiv_lt_0_compat; [exact HTe | unfold CalculateC2; lra]. }
  pose proof (pow_gt0 _ 3.5 Hc2) as Hpow.
  rewrite pow_2. unfold c1_eqm0.
  assert (HL2 : 0 < Parameters.loop_length p * Parameters.loop_length p) by nra.
  apply Rdiv_lt_0_compat; [nra |].
  apply Rmult_lt_0_compat; [| exact Hrad].
  apply Rmult_lt_0_compat; [| exact Hgrav].
  apply Rmult_lt_0_compat; [| exact Hloss].
  nra.
Qed.

(** X3. For a positive temperature and density, a positive radiative loss
    and a loop of non-zero length, [CalculateC1] stays between the smallest
    and the largest of 2, [c1_cond0] and [c1_rad0], each multiplied by the
    (positive) product of the loss and gravity corrections; below the
    equilibrium density only 2 and [c1_cond0] bound it, at and above it
    only 2 and [c1_rad0].  So it is positive when both parameters are. *)
Theorem CalculateC1_between (Te Ti n : R) :
  physical -> 0 < Te -> 0 < n ->
  0 < GetPowerLawRad (Loop.radiation_model this) (cmath.log10 Te) ->
  Parameters.loop_length p <> 0 ->
  let corrections := C1_loss_correction this Te * C1_grav_correction this Te Ti in
  let cond0 := Parameters.c1_cond0 p in
  let rad0 := Parameters.c1_rad0 p in
  let ratio := n ^ 2 / C1_density_eqm_2 this Te Ti in
  0 < corrections
  /\ (ratio < 1 ->
      corrections * Rmin 2 cond0 <= CalculateC1 this Te Ti n
      <= corrections * Rmax 2 cond0)
  /\ (1 <= ratio ->
      corrections * Rmin 2 rad0 <= CalculateC1 this Te Ti n
      <= corrections * Rmax 2 rad0)
  /\ (0 < cond0 -> 0 < rad0 -> 0 < CalculateC1 this Te Ti n).
Proof.
  intros Hphys HTe Hn Hrad HL corrections cond0 rad0 ratio.
  pose proof (C1_loss_correction_pos Te HTe Hrad) as Hloss.
  pose proof (C1_grav_correction_pos Te Ti) as Hgrav.
  pose proof (C1_density_eqm_2_pos Te Ti Hphys HTe Hrad HL) as Heq.
  assert (Hcorr : 0 < corrections) by (apply Rmult_lt_0_compat; assumption).
  assert (Hratio : 0 < ratio).
  { apply Rdiv_lt_0_compat; [simpl; nra | exact Heq]. }
  assert (HC1 : CalculateC1 this Te Ti n
                = corrections * C1_piecewise cond0 rad0 ratio).
  { rewrite CalculateC1_piecewise. unfold ratio. simpl. rewrite Rmult_1_r.
    reflexivity. }
  destruct (C1_piecewise_between cond0 rad0 ratio Hratio) as [Hlow Hhigh].
  rewrite HC1.
  split; [exact Hcorr |].
  split; [| split].
  - intros Hlt. destruct (Hlow Hlt). split; apply Rmult_le_compat_l; lra.
  - intros Hge. destruct (Hhigh Hge). split; apply Rmult_le_compat_l; lra.
  - intros Hc Hr. apply Rmult_lt_0_compat; [exact Hcorr |].
    destruct (Rlt_dec ratio 1) as [Hlt | Hge].
    + destruct (Hlow Hlt) as [Hm _].
      apply Rlt_le_trans with (Rmin 2 cond0); [| exact Hm].
      apply Rmin_glb_lt; lra.
    + destruct (Hhigh ltac:(lra)) as [Hm _].
      apply Rlt_le_trans with (Rmin 2 rad0); [| exact Hm].
      apply Rmin_glb_lt; lra.
Qed.

(** X4. Whatever the conduction, the collisions and the heating partition
    are, they only move energy between the species: the two pressure
    derivatives of [CalculateDerivs] add up to [GAMMA_MINUS_ONE] times the
    heating minus the radiative losses [R_c*(1+c1)/L]; the density
    derivative is driven by the sum of the two conductive fluxes and the
    transition-region loss; and at equal pressures the collisional
    exchange term is 0. *)
Theorem CalculateDerivs_energy_balance (Pe Pi n time : R) :
  0 < Pe -> 0 < Pi ->
  let state := [Pe; Pi; n] in
  let derivs := CalculateDerivs this state time in
  let v := CalculateDerivs_locals this state time in
  let L := Parameters.loop_length p in
  derivs !!! 0%nat + derivs !!! 1%nat
  = GAMMA_MINUS_ONE * (d_heat v - d_R_c v * (1 + d_c1 v) / L)
  /\ derivs !!! 2%nat
     = - (CalculateC2 * GAMMA_MINUS_ONE
          / (CalculateC3 * L * GAMMA * BOLTZMANN_CONSTANT * d_temperature_e v))
       * (d_xi v / (1 + d_xi v))
       * (d_f_e v + d_f_i v + d_c1 v * d_R_c v)
  /\ (Pe = Pi -> d_psi_c v = 0).
Proof.
  intros HPe HPi state derivs v L.
  assert (Hxi : d_xi v = Pe / Pi) by reflexivity.
  assert (Hxi_pos : 0 < d_xi v).
  { rewrite Hxi. apply Rdiv_lt_0_compat; assumption. }
  assert (Hpsi : d_psi_tr v
                 = (d_f_e v + d_c1 v * d_R_c v - d_xi v * d_f_i v)
                   / (1 + d_xi v)).
  { cbn [v CalculateDerivs_locals d_psi_tr d_f_e d_c1 d_R_c d_xi d_f_i].
    replace 1.0 with 1 by lra. reflexivity. }
  assert (Hd0 : derivs !!! 0%nat
                = GAMMA_MINUS_ONE / L
                  * (d_psi_tr v + d_psi_c v - d_R_c v * (1 + d_c1 v))
                  + GAMMA_MINUS_ONE * d_heat v * partition (Loop.heater this)).
  { unfold derivs, CalculateDerivs. fold v. replace 1.0 with 1 by lra.
    reflexivity. }
  assert (Hd1 : derivs !!! 1%nat
                = - GAMMA_MINUS_ONE / L * (d_psi_tr v + d_psi_c v)
                  + GAMMA_MINUS_ONE * d_heat v
                    * (1 - partition (Loop.heater this))).
  { unfold derivs, CalculateDerivs. fold v. replace 1.0 with 1 by lra.
    reflexivity. }
  assert (Hd2 : derivs !!! 2%nat
                = CalculateC2 * GAMMA_MINUS_ONE
                  / (CalculateC3 * L * GAMMA * BOLTZMANN_CONSTANT
                     * d_temperature_e v)
                  * (- d_f_e v - d_c1 v * d_R_c v + d_psi_tr v)).
  { unfold derivs, CalculateDerivs. fold v. reflexivity. }
  split; [| split].
  - rewrite Hd0, Hd1. unfold Rdiv. ring.
  - rewrite Hd2, Hpsi.
    replace (- d_f_e v - d_c1 v * d_R_c v
             + (d_f_e v + d_c1 v * d_R_c v - d_xi v * d_f_i v) / (1 + d_xi v))
      with (- (d_xi v / (1 + d_xi v))
            * (d_f_e v + d_f_i v + d_c1 v * d_R_c v)) by (field; lra).
    generalize (d_xi v / (1 + d_xi v)), (d_f_e v + d_f_i v + d_c1 v * d_R_c v),
      (CalculateC2 * GAMMA_MINUS_ONE
       / (CalculateC3 * L * GAMMA * BOLTZMANN_CONSTANT * d_temperature_e v)).
    intros; ring.
  - intros ->.
    cbn [v CalculateDerivs_locals d_psi_c].
    change (state !!! 1%nat) with Pi. change (state !!! 0%nat) with Pi.
    replace (Pi - Pi) with 0 by ring. apply Rmult_0_r.
Qed.

End ClosureBounds.
Section SavedRows.
Context `{PhysicalConstants}.

Lemma snoc_lookup_at (l : list R) (x : R) (n : nat) :
  length l = n -> (l ++ [x]) !! n = Some x.
Proof. intros Hl. apply list_lookup_middle. symmetry. exact Hl. Qed.

Lemma snoc_lookup_other (l : list R) (x : R) (n j : nat) :
  length l = n -> j <> n -> (l ++ [x]) !! j = l !! j.
Proof.
  intros Hl Hj. destruct (Nat.lt_ge_cases j n) as [Hlt | Hge].
  - apply lookup_app_l. lia.
  - rewrite (lookup_ge_None_2 l) by lia.
    apply lookup_ge_None_2. rewrite length_app. simpl. lia.
Qed.

Lemma insert_lookup_at (l : list R) (x : R) (n k : nat) :
  length l = n -> (k < n)%nat -> <[k := x]> l !! k = Some x.
Proof. intros Hl Hk. apply list_lookup_insert_eq. lia. Qed.

Lemma SaveResults_written (this : Loop.t) (i : Z) (time : R) (n : nat) :
  aligned (Loop.results this) n ->
  ((i < Loop.N this)%Z -> (Z.to_nat i < n)%nat) ->
  let s := Loop.__state this in
  row (Loop.results (SaveResults this i time))
    (if (Loop.N this <=? i)%Z then n else Z.to_nat i)
  = [Some time;
     Some (Get_Heating (Loop.heater this) time);
     Some (s !!! 0%nat / (BOLTZMANN_CONSTANT * s !!! 2%nat));
     Some (s !!! 1%nat
           / (BOLTZMANN_CONSTANT
              * Parameters.boltzmann_correction (Loop.parameters this)
              * s !!! 2%nat));
     Some (s !!! 0%nat); Some (s !!! 1%nat); Some (s !!! 2%nat)].
Proof.
  intros (Ht & Hh & Hpe & Hpi & Hte & Hti & Hd) Hin s.
  unfold SaveResults, row.
  destruct (Loop.N this <=? i)%Z eqn:Hcmp;
    cbn [Loop.results Loop.with_results Results.time Results.heat
         Results.pressure_e Results.pressure_i Results.temperature_e
         Results.temperature_i Results.density].
  - rewrite !snoc_lookup_at by assumption. reflexivity.
  - apply Z.leb_gt in Hcmp. specialize (Hin Hcmp).
    rewrite !(insert_lookup_at _ _ n) by assumption. reflexivity.
Qed.

Lemma SaveResults_others (this : Loop.t) (i : Z) (time : R) (n j : nat) :
  aligned (Loop.results this) n ->
  j <> (if (Loop.N this <=? i)%Z then n else Z.to_nat i) ->
  row (Loop.results (SaveResults this i time)) j = row (Loop.results this) j.
Proof.
  intros (Ht & Hh & Hpe & Hpi & Hte & Hti & Hd).
  unfold SaveResults, row.
  destruct (Loop.N this <=? i)%Z eqn:Hcmp;
    cbn [Loop.results Loop.with_results Results.time Results.heat
         Results.pressure_e Results.pressure_i Results.temperature_e
         Results.temperature_i Results.density];
    intros Hj.
  - rewrite !(snoc_lookup_other _ _ n j) by assumption. reflexivity.
  - rewrite !list_lookup_insert_ne by congruence. reflexivity.
Qed.

(** X14. [SaveResults(i, time)] on sequences of common length [n], with
    [i] inside them whenever [i < N]: the seven entries of the row it writes
    (index [i], or the new last index [n] when [N <= i]) are the time, the
    heating rate at that time, the two temperatures computed from the
    state, the two pressures and the density; every other row is as it was
    before the call. *)
Theorem SaveResults_row (this : Loop.t) (i : Z) (time : R) (n : nat) :
  aligned (Loop.results this) n ->
  (0 <= i)%Z ->
  ((i < Loop.N this)%Z -> (Z.to_nat i < n)%nat) ->
  let s := Loop.__state this in
  let k := if (Loop.N this <=? i)%Z then n else Z.to_nat i in
  let r' := Loop.results (SaveResults this i time) in
  row r' k
  = [Some time;
     Some (Get_Heating (Loop.heater this) time);
     Some (s !!! 0%nat / (BOLTZMANN_CONSTANT * s !!! 2%nat));
     Some (s !!! 1%nat
           / (BOLTZMANN_CONSTANT
              * Parameters.boltzmann_correction (Loop.parameters this)
              * s !!! 2%nat));
     Some (s !!! 0%nat); Some (s !!! 1%nat); Some (s !!! 2%nat)]
  /\ forall j, j <> k -> row r' j = row (Loop.results this) j.
Proof.
  intros Hal Hi Hin s k r'.
  split; [apply SaveResults_written; assumption |].
  intros j Hj. apply (SaveResults_others this i time n j Hal Hj).
Qed.

End SavedRows.
Section Passes.
Context `{PhysicalConstants}.

Lemma solver_step_length (this : Loop.t) (time tau : R) :
  length (Loop.__state (fst (solver_step this time tau)))
  = length (Loop.__state this).
Proof.
  unfold solver_step.
  destruct (String.eqb _ "euler");
    [cbn [fst Loop.__state Loop.with_state]; apply EulerSolver_length |].
  destruct (String.eqb _ "rk4");
    [cbn [fst Loop.__state Loop.with_state]; apply RK4Solver_length |].
  destruct (String.eqb _ "rka4"); [| reflexivity].
  destruct (RKA4Solver_returns this (Loop.__state this) time tau)
    as (k & _ & Hsnd).
  destruct (RKA4Solver this (Loop.__state this) time tau) as [printed tmp].
  cbn [snd] in Hsnd. subst tmp. cbn [fst Loop.__state Loop.with_state].
  rewrite removelast_last. apply small_step_length.
Qed.

(** X8. The state vector has exactly three components after
    [CalculateInitialConditions] and keeps them through every pass of the
    loop of [EvolveLoop], whichever solver is configured: the indices 0, 1
    and 2 that [CalculateDerivs], [SaveResults] and the DEM call read are
    always within the vector. *)
Theorem state_has_three_components (this : Loop.t) (v : EvolveVars) (k : nat) :
  length (Loop.__state (CalculateInitialConditions this)) = 3%nat
  /\ length (Loop.__state
               (fst (EvolveLoop_passes k (CalculateInitialConditions this) v)))
     = 3%nat.
Proof.
  assert (Hseed : length (Loop.__state (CalculateInitialConditions this)) = 3%nat).
  { rewrite CalculateInitialConditions_unfold. cbv zeta.
    destruct (SaveResults_frame
                (Loop.with_state this
                   [BOLTZMANN_CONSTANT
                    * snd (initial_while this (i_max - 1) 0 2.0
                             LARGEST_DOUBLE LARGEST_DOUBLE)
                    * snd (fst (initial_while this (i_max - 1) 0 2.0
                                  LARGEST_DOUBLE LARGEST_DOUBLE));
                    Parameters.boltzmann_correction (Loop.parameters this)
                    * BOLTZMANN_CONSTANT
                    * snd (initial_while this (i_max - 1) 0 2.0
                             LARGEST_DOUBLE LARGEST_DOUBLE)
                    * snd (fst (initial_while this (i_max - 1) 0 2.0
                                  LARGEST_DOUBLE LARGEST_DOUBLE));
                    snd (initial_while this (i_max - 1) 0 2.0
                           LARGEST_DOUBLE LARGEST_DOUBLE)]) 0 0.0)
      as (_ & _ & _ & Hst & _).
    rewrite Hst. reflexivity. }
  split; [exact Hseed |].
  induction k as [| k IH]; [exact Hseed |].
  rewrite EvolveLoop_passes_S.
  destruct (EvolveLoop_body_frame
              (fst (EvolveLoop_passes k (CalculateInitialConditions this) v))
              (snd (EvolveLoop_passes k (CalculateInitialConditions this) v)))
    as (_ & _ & _ & _ & Hst).
  cbv zeta in Hst. rewrite Hst, solver_step_length. exact IH.
Qed.

Lemma EvolveLoop_body_cout (this : Loop.t) (v : EvolveVars) :
  Loop.cout (fst (EvolveLoop_body this v))
  = Loop.cout (fst (solver_step this (ev_time v) (ev_tau v))).
Proof.
  rewrite EvolveLoop_body_unfold. cbn [fst].
  destruct (SaveResults_frame
              (dem_step (fst (solver_step this (ev_time v) (ev_tau v))) (ev_i v))
              (ev_i v) (ev_time v)) as (_ & _ & _ & _ & _ & _ & _ & Hc).
  destruct (dem_step_frame (fst (solver_step this (ev_time v) (ev_tau v)))
              (ev_i v)) as (_ & _ & _ & _ & _ & _ & _ & Hc').
  rewrite Hc, Hc'. reflexivity.
Qed.

Lemma solver_step_quiet (this : Loop.t) (time tau : R) :
  Parameters.solver (Loop.parameters this) <> "rka4"%string ->
  Loop.cout (fst (solver_step this time tau)) = Loop.cout this.
Proof.
  intros Hs. unfold solver_step.
  destruct (String.eqb _ "euler"); [reflexivity |].
  destruct (String.eqb _ "rk4"); [reflexivity |].
  apply String.eqb_neq in Hs. rewrite Hs. reflexivity.
Qed.

(** X12. The only writer to the console is the adaptive integrator when
    its attempts are exhausted.  A pass of the loop of [EvolveLoop] either
    prints nothing, or (solver "rka4" only) appends exactly the warning and
    the line reporting the step size it goes on with and the time of the
    pass.  With any other solver the console is untouched however many
    passes are made. *)
Theorem console_only_from_rka4 (this : Loop.t) (v : EvolveVars) :
  let this' := fst (EvolveLoop_body this v) in
  let v' := snd (EvolveLoop_body this v) in
  (Loop.cout this' = Loop.cout this
   \/ (Parameters.solver (Loop.parameters this) = "rka4"%string
       /\ Loop.cout this'
          = Loop.cout this
            ++ [Warning_not_converged; Returning_a_tau (ev_tau v') (ev_time v)]))
  /\ (Parameters.solver (Loop.parameters this) <> "rka4"%string ->
      forall k, Loop.cout (fst (EvolveLoop_passes k this v)) = Loop.cout this).
Proof.
  cbv zeta. split.
  - rewrite EvolveLoop_body_cout, EvolveLoop_body_unfold. cbn [snd ev_tau].
    destruct (string_dec (Parameters.solver (Loop.parameters this)) "rka4")
      as [Hs | Hs]; [| left; apply solver_step_quiet, Hs].
    rewrite (solver_step_rka4 this _ _ Hs). cbn [fst snd Loop.cout Loop.print].
    unfold RKA4Solver.
    destruct (RKA4_attempts_exit this (Loop.__state this) (ev_time v)
                (max_try - 1) (ev_tau v))
      as (j & _ & _ & [[_ Heq] | (_ & _ & Heq)]); rewrite Heq; cbn [fst snd].
    + left. apply app_nil_r.
    + right. split; [exact Hs |]. rewrite last_last. reflexivity.
  - intros Hs k. induction k as [| k IH]; [reflexivity |].
    rewrite EvolveLoop_passes_S, EvolveLoop_body_cout, solver_step_quiet;
      [exact IH |].
    destruct (EvolveLoop_passes_frame k this v) as (Hp & _).
    cbv zeta in Hp. rewrite Hp. exact Hs.
Qed.

Lemma dem_step_dem (this : Loop.t) (i : Z) :
  Loop.dem (dem_step this i)
  = if Parameters.calculate_dem (Loop.parameters this) then
      option_map
        (fun calls =>
           calls
           ++ [{| dem_i := i;
                  dem_pressure_e := Loop.__state this !!! 0%nat;
                  dem_density := Loop.__state this !!! 2%nat;
                  dem_fe :=
                    CalculateThermalConduction this
                      (Loop.__state this !!! 0%nat
                       / (BOLTZMANN_CONSTANT * Loop.__state this !!! 2%nat))
                      (Loop.__state this !!! 2%nat) "electron";
                  dem_c1 :=
                    CalculateC1 this
                      (Loop.__state this !!! 0%nat
                       / (BOLTZMANN_CONSTANT * Loop.__state this !!! 2%nat))
                      (Loop.__state this !!! 1%nat
                       / (Parameters.boltzmann_correction (Loop.parameters this)
                          * BOLTZMANN_CONSTANT * Loop.__state this !!! 2%nat))
                      (Loop.__state this !!! 2%nat) |}])
        (Loop.dem this)
    else Loop.dem this.
Proof.
  unfold dem_step.
  destruct (Parameters.calculate_dem (Loop.parameters this)); reflexivity.
Qed.

Lemma EvolveLoop_body_dem (this : Loop.t) (v : EvolveVars) :
  Loop.dem (fst (EvolveLoop_body this v))
  = Loop.dem (dem_step (fst (solver_step this (ev_time v) (ev_tau v))) (ev_i v)).
Proof.
  rewrite EvolveLoop_body_unfold. cbn [fst].
  destruct (SaveResults_frame
              (dem_step (fst (solver_step this (ev_time v) (ev_tau v))) (ev_i v))
              (ev_i v) (ev_time v)) as (_ & _ & _ & _ & _ & _ & Hd & _).
  exact Hd.
Qed.

(** X11. The DEM calculation is called once per pass of the loop of
    [EvolveLoop] when [calculate_dem] is set, and never otherwise.  After
    [k] passes the log of calls has grown by exactly [k] entries; the entry
    of pass [j] carries the pass counter and the electron pressure and the
    density of the state that pass has just computed. *)
Theorem dem_called_once_per_pass (this : Loop.t) (v : EvolveVars)
    (log : list DemCall) (k : nat) :
  Loop.dem this = Some log ->
  let state_after m := Loop.__state (fst (EvolveLoop_passes m this v)) in
  if Parameters.calculate_dem (Loop.parameters this) then
    exists calls,
      Loop.dem (fst (EvolveLoop_passes k this v)) = Some (log ++ calls)
      /\ length calls = k
      /\ forall j, (j < k)%nat ->
           exists c, calls !! j = Some c
             /\ dem_i c = (ev_i v + Z.of_nat j)%Z
             /\ dem_pressure_e c = state_after (S j) !!! 0%nat
             /\ dem_density c = state_after (S j) !!! 2%nat
  else Loop.dem (fst (EvolveLoop_passes k this v)) = Some log.
Proof.
  intros Hlog state_after.
  destruct (Parameters.calculate_dem (Loop.parameters this)) eqn:Hflag.
  - induction k as [| k IH].
    + exists []. rewrite app_nil_r. repeat split; [exact Hlog |].
      intros j Hj. lia.
    + destruct IH as (calls & Hdem & Hlen & Hcalls).
      rewrite EvolveLoop_passes_S, EvolveLoop_body_dem, dem_step_dem.
      set (this_k := fst (EvolveLoop_passes k this v)) in *.
      set (v_k := snd (EvolveLoop_passes k this v)) in *.
      destruct (solver_step_frame this_k (ev_time v_k) (ev_tau v_k))
        as (Hp & _ & _ & _ & _ & _ & Hd).
      cbv zeta in Hp, Hd.
      destruct (EvolveLoop_passes_frame k this v) as (Hpk & _).
      cbv zeta in Hpk. fold this_k in Hpk.
      rewrite Hp, Hpk, Hflag, Hd, Hdem. cbn [option_map].
      eexists (calls ++ [_]). rewrite app_assoc.
      split; [reflexivity |].
      split; [rewrite length_app; simpl; lia |].
      intros j Hj. destruct (Nat.eq_dec j k) as [-> | Hne].
      * eexists. split; [apply list_lookup_middle; symmetry; exact Hlen |].
        cbn [dem_i dem_pressure_e dem_density].
        unfold v_k. rewrite EvolveLoop_passes_counter.
        unfold state_after. rewrite EvolveLoop_passes_S.
        destruct (EvolveLoop_body_frame this_k v_k) as (_ & _ & _ & _ & Hst).
        cbv zeta in Hst. fold this_k v_k. rewrite Hst.
        repeat split.
      * destruct (Hcalls j ltac:(lia)) as (c & Hc & Hrest).
        exists c. split; [| exact Hrest].
        rewrite lookup_app_l by lia. exact Hc.
  - induction k as [| k IH]; [exact Hlog |].
    rewrite EvolveLoop_passes_S, EvolveLoop_body_dem, dem_step_dem.
    set (this_k := fst (EvolveLoop_passes k this v)) in *.
    set (v_k := snd (EvolveLoop_passes k this v)) in *.
    destruct (solver_step_frame this_k (ev_time v_k) (ev_tau v_k))
      as (Hp & _ & _ & _ & _ & _ & Hd).
    cbv zeta in Hp, Hd.
    destruct (EvolveLoop_passes_frame k this v) as (Hpk & _).
    cbv zeta in Hpk. fold this_k in Hpk.
    rewrite Hp, Hpk, Hflag, Hd. exact IH.
Qed.

End Passes.
Section RestState.
Context `{PhysicalConstants}.

Lemma EulerSolver_fixed (this : Loop.t) (a b c time tau : R) :
  (forall t, CalculateDerivs this [a; b; c] t = [0; 0; 0]) ->
  EulerSolver this [a; b; c] time tau = [a; b; c].
Proof.
  intros Hrest. rewrite EulerSolver_3. cbv zeta. rewrite Hrest.
  cbn [lookup_total list_lookup_total]. repeat f_equal; lra.
Qed.

Lemma solver_step_rest (this : Loop.t) (a b c time tau : R) :
  (forall t, CalculateDerivs this [a; b; c] t = [0; 0; 0]) ->
  Loop.__state this = [a; b; c] ->
  Loop.__state (fst (solver_step this time tau)) = [a; b; c]
  /\ Loop.cout (fst (solver_step this time tau)) = Loop.cout this.
Proof.
  intros Hrest Hst. unfold solver_step. rewrite Hst.
  destruct (String.eqb _ "euler");
    [cbn [fst Loop.__state Loop.cout Loop.with_state];
     split; [apply EulerSolver_fixed, Hrest | reflexivity] |].
  destruct (String.eqb _ "rk4");
    [cbn [fst Loop.__state Loop.cout Loop.with_state];
     split; [apply RK4Solver_fixed, Hrest | reflexivity] |].
  destruct (String.eqb _ "rka4"); [| split; [exact Hst | reflexivity]].
  destruct (RKA4Solver_fixed this a b c time tau Hrest) as [_ Heq].
  rewrite Heq.
  cbn [fst Loop.__state Loop.cout Loop.with_state Loop.print removelast].
  split; [reflexivity | apply app_nil_r].
Qed.

(** X5. A state at which [CalculateDerivs] vanishes at all times is kept
    exactly by the three integrators, whatever the step size: [EulerSolver]
    and [RK4Solver] return it, and [RKA4Solver] accepts its first attempt,
    prints nothing and returns the state followed by four times the step
    size.  Hence a loop that starts at such a state stays there through
    every pass of the loop of [EvolveLoop], with any solver name, and
    nothing is printed. *)
Theorem rest_state_is_kept (this : Loop.t) (a b c : R) :
  (forall t, CalculateDerivs this [a; b; c] t = [0; 0; 0]) ->
  (forall time tau,
      EulerSolver this [a; b; c] time tau = [a; b; c]
      /\ RK4Solver this [a; b; c] time tau = [a; b; c]
      /\ RKA4Solver this [a; b; c] time tau = ([], [a; b; c; 4 * tau]))
  /\ (Loop.__state this = [a; b; c] ->
      forall v k,
        Loop.__state (fst (EvolveLoop_passes k this v)) = [a; b; c]
        /\ Loop.cout (fst (EvolveLoop_passes k this v)) = Loop.cout this).
Proof.
  intros Hrest. split.
  - intros time tau. split; [apply EulerSolver_fixed, Hrest |].
    split; [apply RK4Solver_fixed, Hrest |].
    apply RKA4Solver_fixed, Hrest.
  - intros Hst v k. induction k as [| k [IHs IHc]]; [split; [exact Hst | reflexivity] |].
    rewrite EvolveLoop_passes_S.
    set (this_k := fst (EvolveLoop_passes k this v)) in *.
    set (v_k := snd (EvolveLoop_passes k this v)) in *.
    destruct (EvolveLoop_passes_frame k this v) as (Hp & _ & Hr & Hh).
    cbv zeta in Hp, Hr, Hh. fold this_k in Hp, Hr, Hh.
    assert (Hrest_k : forall t, CalculateDerivs this_k [a; b; c] t = [0; 0; 0]).
    { intros t. rewrite (CalculateDerivs_reads this this_k) by assumption.
      apply Hrest. }
    destruct (solver_step_rest this_k a b c (ev_time v_k) (ev_tau v_k)
                Hrest_k IHs) as [Hs Hc].
    destruct (EvolveLoop_body_frame this_k v_k) as (_ & _ & _ & _ & Hst').
    cbv zeta in Hst'. rewrite Hst', Hs, EvolveLoop_body_cout, Hc, IHc.
    split; reflexivity.
Qed.

End RestState.

Section StepSizeControl.
Context `{PhysicalConstants}.
Variable this : Loop.t.

Lemma pow_1_1 (j : nat) : 1.1 ^ j <> 0.
Proof. apply pow_nonzero. lra. Qed.

Lemma rejected_chain (state : list R) (time : R) (j : nat) (tau : R) :
  0 < tau ->
  (forall i, (i < j)%nat ->
     ~ error_ratio (attempt_from this state time i tau) < 1) ->
  old_tau (attempt_from this state time j tau) = tau / 1.1 ^ j.
Proof.
  revert tau. induction j as [| j IH]; intros tau Htau Hrej.
  - cbn [attempt_from]. rewrite RKA4_attempt_old_tau. simpl. lra.
  - rewrite attempt_from_S.
    assert (Hfirst : ~ error_ratio (RKA4_attempt this state time tau) < 1).
    { apply (Hrej 0%nat). lia. }
    rewrite (rejected_new_tau this state time tau Htau Hfirst).
    rewrite IH.
    + pose proof (pow_1_1 j) as Hj.
      change (1.1 ^ S j) with (1.1 * 1.1 ^ j). field. split; [exact Hj | lra].
    + lra.
    + intros i Hi.
      rewrite <- (rejected_new_tau this state time tau Htau Hfirst),
        <- attempt_from_S.
      apply Hrej. lia.
Qed.

(** X6. Each rejected attempt of [RKA4Solver] divides the step size by
    exactly 1.1: if the first [j] attempts are rejected, attempt [j] is
    entered with [tau / 1.1^j].  When all 100 attempts are rejected, the
    step size that is returned (and reported on the console) is
    [tau / 1.1^100], about 7e-5 of the one the call was entered with. *)
Theorem RKA4Solver_rejections_shrink (state : list R) (time tau : R) :
  0 < tau ->
  (forall j, (j < 100)%nat ->
     (forall i, (i < j)%nat ->
        ~ error_ratio (attempt_from this state time i tau) < 1) ->
     old_tau (attempt_from this state time j tau) = tau / 1.1 ^ j)
  /\ ((forall i, (i < 100)%nat ->
         ~ error_ratio (attempt_from this state time i tau) < 1) ->
      List.last (snd (RKA4Solver this state time tau)) 0 = tau / 1.1 ^ 100
      /\ fst (RKA4Solver this state time tau)
         = [Warning_not_converged; Returning_a_tau (tau / 1.1 ^ 100) time]).
Proof.
  intros Htau. split.
  - intros j _ Hrej. apply rejected_chain; assumption.
  - intros Hrej.
    destruct (RKA4Solver_cases this state time tau)
      as [(k & Hk & Hacc) | [_ Heq]]; [exfalso; exact (Hrej k Hk Hacc) |].
    cbv zeta in Heq.
    assert (Hold : old_tau (attempt_from this state time 99 tau) = tau / 1.1 ^ 99).
    { apply rejected_chain; [exact Htau |]. intros i Hi. apply Hrej. lia. }
    assert (Hpos : 0 < tau / 1.1 ^ 99).
    { apply Rdiv_lt_0_compat; [exact Htau |]. apply pow_lt. lra. }
    assert (Hnew : new_tau (attempt_from this state time 99 tau)
                   = tau / 1.1 ^ 99 / 1.1).
    { rewrite (attempt_from_is_attempt this state time 99 tau), Hold.
      apply rejected_new_tau; [exact Hpos |].
      rewrite <- Hold, <- attempt_from_is_attempt. apply Hrej. lia. }
    rewrite Hnew, Hold in Heq.
    rewrite Rmin_left in Heq by lra.
    replace (tau / 1.1 ^ 99 / 1.1) with (tau / 1.1 ^ 100) in Heq
      by (pose proof (pow_1_1 99);
          change (1.1 ^ 100) with (1.1 * 1.1 ^ 99); field; repeat split;
          (assumption || lra)).
    rewrite Heq. cbn [fst snd]. rewrite last_last. split; reflexivity.
Qed.

Lemma Rpower_decreasing (x y z : R) :
  0 < x -> x < y -> z < 0 -> Rpower y z < Rpower x z.
Proof.
  intros Hx Hxy Hz. unfold Rpower. apply exp_increasing.
  pose proof (ln_increasing x y Hx Hxy). nra.
Qed.

Lemma Rpower_threshold : Rpower (0.9 ^ 5) (- 1.0 / 5.0) = 10 / 9.
Proof.
  rewrite <- (Rpower_pow 5 0.9) by lra.
  rewrite Rpower_mult.
  replace (INR 5 * (- 1.0 / 5.0)) with (- (1)) by (simpl; lra).
  rewrite Rpower_Ropp, Rpower_1 by lra. lra.
Qed.

(** X7. An accepted first attempt of [RKA4Solver] with a positive step
    size: the step size that is returned is at least the one the call was
    entered with exactly when the error ratio is at most [0.9^5] (about
    0.59), and smaller otherwise; so a step can be accepted and the step
    size reduced all the same. *)
Theorem RKA4Solver_growth_threshold (state : list R) (time tau : R) :
  0 < tau ->
  0 <= Parameters.rka_error (Loop.parameters this) ->
  let a := RKA4_attempt this state time tau in
  let tau_new := List.last (snd (RKA4Solver this state time tau)) 0 in
  error_ratio a < 1 ->
  RKA4Solver this state time tau = ([], small_step a ++ [tau_new])
  /\ (error_ratio a <= 0.9 ^ 5 -> tau <= tau_new)
  /\ (0.9 ^ 5 < error_ratio a -> tau_new < tau).
Proof.
  intros Htau Hrka a tau_new Hacc.
  assert (Heq : RKA4Solver this state time tau
                = ([], small_step a ++ [capped_tau a])).
  { unfold RKA4Solver. rewrite RKA4_attempts_unfold. cbv zeta. fold a.
    destruct (Rlt_dec (error_ratio a) 1) as [_ | Hn]; [reflexivity | contradiction]. }
  assert (Hlast : tau_new = capped_tau a).
  { unfold tau_new. rewrite Heq. cbn [snd]. apply last_last. }
  rewrite Hlast. split; [exact Heq |].
  pose proof (error_ratio_nonneg this state time tau Hrka) as Hr0. fold a in Hr0.
  pose proof (RKA4_attempt_old_tau this state time tau) as Hold. fold a in Hold.
  pose proof (new_tau_attempt this state time 0 tau) as Hnew.
  cbn [attempt_from] in Hnew. fold a in Hnew. rewrite Hold in Hnew.
  unfold safety_1, safety_2 in Hnew.
  unfold capped_tau. rewrite Hold. unfold safety_3.
  destruct (Req_dec_T (error_ratio a) 0) as [Hz | Hnz].
  - split; [intros _; lra |]. intros Hbig. rewrite Hz in Hbig.
    assert (0 < 0.9 ^ 5) by (apply pow_lt; lra). lra.
  - assert (Hrpos : 0 < error_ratio a) by lra.
    rewrite pow_Rpower in Hnew by lra.
    set (g := Rpower (error_ratio a) (- 1.0 / 5.0)) in *.
    assert (H95 : 0 < 0.9 ^ 5) by (apply pow_lt; lra).
    split.
    + intros Hsmall.
      assert (Hg : 10 / 9 <= g).
      { rewrite <- Rpower_threshold. destruct Hsmall as [Hlt | Heq'].
        - left. apply Rpower_decreasing; lra.
        - unfold g. rewrite Heq'. lra. }
      apply Rmin_glb; [| lra].
      rewrite Hnew. apply Rle_trans with (0.9 * tau * g); [nra | apply Rmax_l].
    + intros Hbig.
      assert (Hg : g < 10 / 9).
      { rewrite <- Rpower_threshold. apply Rpower_decreasing; lra. }
      apply Rle_lt_trans with (new_tau a); [apply Rmin_l |].
      rewrite Hnew. apply Rmax_lub_lt; [nra | lra].
Qed.

End StepSizeControl.
Section FixedStepRun.
Context `{PhysicalConstants}.

Lemma EvolveLoop_body_time (this : Loop.t) (v : EvolveVars) :
  Results.time (Loop.results (fst (EvolveLoop_body this v)))
  = if (Loop.N this <=? ev_i v)%Z then
      Results.time (Loop.results this) ++ [ev_time v]
    else <[Z.to_nat (ev_i v) := ev_time v]> (Results.time (Loop.results this)).
Proof.
  rewrite EvolveLoop_body_unfold. cbn [fst].
  destruct (solver_step_frame this (ev_time v) (ev_tau v))
    as (_ & HN & _ & Hr & _).
  destruct (dem_step_frame (fst (solver_step this (ev_time v) (ev_tau v)))
              (ev_i v)) as (_ & HN' & _ & _ & Hr' & _).
  cbv zeta in HN, Hr. unfold SaveResults. rewrite HN', HN, Hr', Hr.
  destruct (Loop.N this <=? ev_i v)%Z; reflexivity.
Qed.

Lemma fixed_step_vars (this : Loop.t) (v : EvolveVars) (k : nat) :
  Parameters.solver (Loop.parameters this) <> "rka4"%string ->
  ev_tau (snd (EvolveLoop_passes k this v)) = ev_tau v
  /\ ev_time (snd (EvolveLoop_passes k this v)) = ev_time v + INR k * ev_tau v.
Proof.
  intros Hs. induction k as [| k [IHtau IHtime]].
  - simpl. split; [reflexivity | lra].
  - rewrite EvolveLoop_passes_S, EvolveLoop_body_unfold.
    cbn [snd ev_tau ev_time].
    destruct (EvolveLoop_passes_frame k this v) as (Hp & _). cbv zeta in Hp.
    rewrite solver_step_fixed by (rewrite Hp; exact Hs).
    split; [exact IHtau |]. rewrite IHtime, IHtau, S_INR. lra.
Qed.

Lemma fixed_step_times (this : Loop.t) (k : nat) :
  Parameters.solver (Loop.parameters this) <> "rka4"%string ->
  (0 <= Loop.N this)%Z ->
  aligned (Loop.results this) (Nat.max (Z.to_nat (Loop.N this)) 1) ->
  forall j, (j <= k)%nat ->
    Results.time
      (Loop.results (fst (EvolveLoop_passes k this (EvolveLoop_init this)))) !! j
    = match j with
      | O => Results.time (Loop.results this) !! 0%nat
      | S _ => Some (INR j * Parameters.tau (Loop.parameters this))
      end.
Proof.
  intros Hs HN Hal. induction k as [| k IH]; intros j Hj.
  - replace j with 0%nat by lia. reflexivity.
  - rewrite EvolveLoop_passes_S, EvolveLoop_body_time.
    set (this_k := fst (EvolveLoop_passes k this (EvolveLoop_init this))) in *.
    set (v_k := snd (EvolveLoop_passes k this (EvolveLoop_init this))) in *.
    destruct (EvolveLoop_passes_frame k this (EvolveLoop_init this))
      as (_ & HNk & _).
    cbv zeta in HNk. fold this_k in HNk.
    pose proof (EvolveLoop_passes_counter k this (EvolveLoop_init this)) as Hi.
    fold v_k in Hi. cbn [EvolveLoop_init ev_i] in Hi.
    destruct (fixed_step_vars this (EvolveLoop_init this) k Hs) as [_ Htime].
    fold v_k in Htime. cbn [EvolveLoop_init ev_time ev_tau] in Htime.
    destruct (EvolveLoop_passes_aligned k this HN Hal) as [Hlen _].
    fold this_k in Hlen.
    assert (Hnew : ev_time v_k
                   = INR (S k) * Parameters.tau (Loop.parameters this)).
    { rewrite Htime, S_INR. lra. }
    rewrite HNk, Hi, Hnew.
    destruct (Loop.N this <=? 1 + Z.of_nat k)%Z eqn:Hcmp.
    + apply Z.leb_le in Hcmp.
      assert (Hlen' : length (Results.time (Loop.results this_k)) = S k) by lia.
      destruct (Nat.eq_dec j (S k)) as [-> | Hne].
      * apply snoc_lookup_at, Hlen'.
      * rewrite (snoc_lookup_other _ _ (S k) j Hlen' Hne). apply IH. lia.
    + apply Z.leb_gt in Hcmp.
      replace (Z.to_nat (1 + Z.of_nat k)) with (S k) by lia.
      destruct (Nat.eq_dec j (S k)) as [-> | Hne].
      * apply (insert_lookup_at _ _ _ _ Hlen). lia.
      * rewrite list_lookup_insert_ne by congruence. apply IH. lia.
Qed.

(** What the constructor and [CalculateInitialConditions] establish before
    the loop of [EvolveLoop] is entered. *)
Lemma seeded_loop (cfg : Config.t) (heater : Heater)
    (power_law tabulated : CRadiation) (this0 : Loop.t) :
  Loop_new cfg heater power_law tabulated = Some this0 ->
  (0 <= Loop.N (CalculateInitialConditions this0))%Z
  /\ Loop.N (CalculateInitialConditions this0)
     = cmath.ceil (Config.total_time cfg / Config.tau cfg)
  /\ Parameters.tau (Loop.parameters (CalculateInitialConditions this0))
     = Config.tau cfg
  /\ Parameters.total_time (Loop.parameters (CalculateInitialConditions this0))
     = Config.total_time cfg
  /\ Parameters.solver (Loop.parameters (CalculateInitialConditions this0))
     = Config.solver cfg
  /\ aligned (Loop.results (CalculateInitialConditions this0))
       (Nat.max (Z.to_nat (Loop.N (CalculateInitialConditions this0))) 1)
  /\ Results.time (Loop.results (CalculateInitialConditions this0)) !! 0%nat
     = Some 0.0.
Proof.
  intros Hnew.
  destruct (Loop_new_spec _ _ _ _ _ Hnew)
    as (HN & Hpos & Hal0 & _ & _ & _ & Htau0 & Hsolver0).
  destruct (CalculateInitialConditions_frame this0) as (Hp1 & HN1 & _).
  assert (Htotal : Parameters.total_time (Loop.parameters this0)
                   = Config.total_time cfg).
  { revert Hnew. unfold Loop_new.
    destruct (Req_dec_T _ 0); [discriminate |].
    destruct (_ || _)%bool; [discriminate |]. intros [= <-]. reflexivity. }
  rewrite HN1, Hp1.
  split; [exact Hpos |]. split; [exact HN |].
  split; [exact Htau0 |]. split; [exact Htotal |]. split; [exact Hsolver0 |].
  split.
  - pose proof (CalculateInitialConditions_aligned this0 _ Hal0) as Hal.
    destruct (Loop.N this0 <=? 0)%Z eqn:Hcmp.
    + apply Z.leb_le in Hcmp.
      replace (Nat.max (Z.to_nat (Loop.N this0)) 1)
        with (S (Z.to_nat (Loop.N this0))) by lia.
      exact Hal.
    + apply Z.leb_gt in Hcmp.
      replace (Nat.max (Z.to_nat (Loop.N this0)) 1)
        with (Z.to_nat (Loop.N this0)) by lia.
      exact Hal.
  - destruct Hal0 as [Hlen _].
    rewrite CalculateInitialConditions_unfold. cbv zeta.
    unfold SaveResults.
    cbn [Loop.N Loop.with_state Loop.results Results.time].
    destruct (Loop.N this0 <=? 0)%Z eqn:Hcmp;
      cbn [Loop.results Loop.with_results Results.time].
    + apply Z.leb_le in Hcmp. apply snoc_lookup_at. rewrite Hlen. lia.
    + apply Z.leb_gt in Hcmp. apply (insert_lookup_at _ _ _ _ Hlen). lia.
Qed.

Lemma fixed_step_grid (this : Loop.t) (k : nat) :
  Parameters.solver (Loop.parameters this) <> "rka4"%string ->
  (0 <= Loop.N this)%Z ->
  aligned (Loop.results this) (Nat.max (Z.to_nat (Loop.N this)) 1) ->
  Results.time (Loop.results this) !! 0%nat = Some 0.0 ->
  ev_i (snd (EvolveLoop_passes k this (EvolveLoop_init this))) = Z.of_nat (S k)
  /\ ev_tau (snd (EvolveLoop_passes k this (EvolveLoop_init this)))
     = Parameters.tau (Loop.parameters this)
  /\ ev_time (snd (EvolveLoop_passes k this (EvolveLoop_init this)))
     = INR (S k) * Parameters.tau (Loop.parameters this)
  /\ forall j, (j <= k)%nat ->
       Results.time
         (Loop.results (fst (EvolveLoop_passes k this (EvolveLoop_init this))))
         !! j
       = Some (INR j * Parameters.tau (Loop.parameters this)).
Proof.
  intros Hs HN Hal Hrow0.
  destruct (fixed_step_vars this (EvolveLoop_init this) k Hs) as [Hvt Hvtime].
  cbn [EvolveLoop_init ev_tau ev_time] in Hvt, Hvtime.
  split.
  { rewrite EvolveLoop_passes_counter. cbn [EvolveLoop_init ev_i]. lia. }
  split; [exact Hvt |].
  split; [rewrite Hvtime, S_INR; lra |].
  intros j Hj.
  rewrite (fixed_step_times this k Hs HN Hal j Hj).
  destruct j as [| j]; [| reflexivity].
  rewrite Hrow0. f_equal. simpl. lra.
Qed.

(** X9. With a solver other than "rka4" the step size never changes, so a
    constructed and seeded loop saves its rows on the uniform grid: after
    [k] passes the counter is [k + 1], the time variable is [(k + 1) * tau]
    and the saved time of row [j] is [j * tau] for every [j <= k]. *)
Theorem fixed_step_time_grid (cfg : Config.t) (heater : Heater)
    (power_law tabulated : CRadiation) (this0 : Loop.t) (k : nat) :
  Loop_new cfg heater power_law tabulated = Some this0 ->
  Config.solver cfg <> "rka4"%string ->
  let this1 := CalculateInitialConditions this0 in
  let tau := Config.tau cfg in
  let this_k := fst (EvolveLoop_passes k this1 (EvolveLoop_init this1)) in
  let v_k := snd (EvolveLoop_passes k this1 (EvolveLoop_init this1)) in
  ev_i v_k = Z.of_nat (S k)
  /\ ev_tau v_k = tau
  /\ ev_time v_k = INR (S k) * tau
  /\ forall j, (j <= k)%nat ->
       Results.time (Loop.results this_k) !! j = Some (INR j * tau).
Proof.
  intros Hnew Hsolver. cbv zeta.
  destruct (seeded_loop _ _ _ _ _ Hnew)
    as (HN & _ & Htau & _ & Hs & Hal & Hrow0).
  rewrite <- Htau. apply fixed_step_grid; try assumption.
  rewrite Hs. exact Hsolver.
Qed.

End FixedStepRun.
Section OutputFile.
Context `{PhysicalConstants}.

Lemma fold_left_snoc {A B : Type} (g : A -> B) (l : list A) (init : list B) :
  fold_left (fun acc i => acc ++ [g i]) l init = init ++ (g <$> l).
Proof.
  revert init. induction l as [| x l IH]; intros init; simpl.
  - symmetry. apply app_nil_r.
  - rewrite IH, <- app_assoc. reflexivity.
Qed.

Lemma output_rows_lookup (r : Results.t) (j : nat) :
  (j < length (Results.time r))%nat ->
  output_rows r !! j
  = Some [Results.time r !!! j; Results.temperature_e r !!! j;
          Results.temperature_i r !!! j; Results.density r !!! j;
          Results.pressure_e r !!! j; Results.pressure_i r !!! j;
          Results.heat r !!! j].
Proof.
  intros Hj. unfold output_rows, for_loop.
  rewrite (fold_left_snoc
             (fun i => [Results.time r !!! i; Results.temperature_e r !!! i;
                        Results.temperature_i r !!! i; Results.density r !!! i;
                        Results.pressure_e r !!! i; Results.pressure_i r !!! i;
                        Results.heat r !!! i])).
  rewrite app_nil_l, list_lookup_fmap, lookup_seq_lt by exact Hj.
  reflexivity.
Qed.

(** X13. Once [EvolveLoop] has set [excess], [PrintToFile] removes that
    many entries from the end of each of the seven sequences and writes to
    the configured file name one row per entry that is left in
    [results.time], row [j] holding the entries of index [j] in the column
    order time, electron temperature, ion temperature, density, electron
    pressure, ion pressure, heating rate; and the DEM export is requested,
    with the same file name and the excess, exactly when [calculate_dem] is
    set. *)
Theorem PrintToFile_export (this : Loop.t) (excess : Z) :
  Loop.excess this = Some excess ->
  exists this' out,
    PrintToFile this = Some (this', out)
    /\ Loop.results this'
       = for_loop (Z.to_nat excess) (fun _ r => pop_back_all r)
           (Loop.results this)
    /\ file_name out = Parameters.output_filename (Loop.parameters this)
    /\ length (file_rows out) = length (Results.time (Loop.results this'))
    /\ (forall j, (j < length (Results.time (Loop.results this')))%nat ->
          let r := Loop.results this' in
          file_rows out !! j
          = Some [Results.time r !!! j; Results.temperature_e r !!! j;
                  Results.temperature_i r !!! j; Results.density r !!! j;
                  Results.pressure_e r !!! j; Results.pressure_i r !!! j;
                  Results.heat r !!! j])
    /\ dem_print out
       = (if Parameters.calculate_dem (Loop.parameters this)
          then Some (Parameters.output_filename (Loop.parameters this), excess)
          else None).
Proof.
  intros Hexcess. unfold PrintToFile. rewrite Hexcess. cbv zeta.
  eexists _, _. split; [reflexivity |].
  cbn [Loop.results Loop.with_results file_name file_rows dem_print].
  split; [reflexivity |]. split; [reflexivity |].
  split; [apply output_rows_length |].
  split; [intros j Hj; apply output_rows_lookup, Hj | reflexivity].
Qed.

End OutputFile.

Section SeedRow.
Context `{PhysicalConstants}.

Lemma seed_row (this : Loop.t) (T n : R) :
  0 < BOLTZMANN_CONSTANT ->
  0 < Parameters.boltzmann_correction (Loop.parameters this) ->
  n <> 0 ->
  (0 <= Loop.N this)%Z ->
  aligned (Loop.results this) (Z.to_nat (Loop.N this)) ->
  row (Loop.results
         (SaveResults
            (Loop.with_state this
               [BOLTZMANN_CONSTANT * n * T;
                Parameters.boltzmann_correction (Loop.parameters this)
                * BOLTZMANN_CONSTANT * n * T;
                n]) 0 0.0)) 0
  = [Some 0; Some (Get_Heating (Loop.heater this) 0);
     Some T; Some T;
     Some (BOLTZMANN_CONSTANT * n * T);
     Some (Parameters.boltzmann_correction (Loop.parameters this)
           * BOLTZMANN_CONSTANT * n * T);
     Some n].
Proof.
  intros HkB Hbc Hn HN Hal.
  set (this' := Loop.with_state this
                  [BOLTZMANN_CONSTANT * n * T;
                   Parameters.boltzmann_correction (Loop.parameters this)
                   * BOLTZMANN_CONSTANT * n * T;
                   n]).
  pose proof (SaveResults_written this' 0 0.0 (Z.to_nat (Loop.N this))) as Hw.
  cbv zeta in Hw.
  replace (if (Loop.N this' <=? 0)%Z then Z.to_nat (Loop.N this) else Z.to_nat 0)
    with 0%nat in Hw
    by (change (Loop.N this') with (Loop.N this);
        destruct (Loop.N this <=? 0)%Z eqn:Hcmp;
        [apply Z.leb_le in Hcmp; lia | reflexivity]).
  rewrite Hw; [| exact Hal | change (Loop.N this') with (Loop.N this); lia].
  cbn [this' Loop.__state Loop.with_state Loop.heater Loop.parameters
       lookup_total list_lookup_total].
  replace 0.0 with 0 by lra.
  repeat f_equal; field; repeat split; lra.
Qed.

(** X15. The row that [CalculateInitialConditions] saves for a constructed
    loop is row 0, at time 0, and it is isothermal: the two temperatures
    that [SaveResults] recomputes from the seed pressures and density are
    both the temperature [T] that the iteration ended with, the pressures
    are [kB n T] and [boltzmann_correction kB n T], provided the density
    [n] it ended with is not 0. *)
Theorem seed_row_is_isothermal (cfg : Config.t) (heater : Heater)
    (power_law tabulated : CRadiation) (this0 : Loop.t) :
  Loop_new cfg heater power_law tabulated = Some this0 ->
  0 < BOLTZMANN_CONSTANT ->
  0 <= Config.helium_to_hydrogen_ratio cfg ->
  let run := initial_while this0 (i_max - 1) 0 2.0 LARGEST_DOUBLE LARGEST_DOUBLE in
  let T := snd (fst run) in
  let n := snd run in
  let bc := Parameters.boltzmann_correction (Loop.parameters this0) in
  n <> 0 ->
  row (Loop.results (CalculateInitialConditions this0)) 0
  = [Some 0; Some (Get_Heating heater 0); Some T; Some T;
     Some (BOLTZMANN_CONSTANT * n * T);
     Some (bc * BOLTZMANN_CONSTANT * n * T); Some n].
Proof.
  intros Hnew HkB Hh. cbv zeta. intros Hn.
  destruct (Loop_new_spec _ _ _ _ _ Hnew)
    as (_ & HN & Hal & _ & _ & Hheater & _).
  assert (Hbc : 0 < Parameters.boltzmann_correction (Loop.parameters this0)).
  { revert Hnew. unfold Loop_new.
    destruct (Req_dec_T _ 0); [discriminate |].
    destruct (_ || _)%bool; [discriminate |]. intros [= <-].
    unfold Loop_build. cbv zeta. cbn [Loop.parameters Loop.with_results].
    apply abundance_correction_positive, Hh. }
  rewrite CalculateInitialConditions_unfold. cbv zeta.
  rewrite <- Hheater. apply seed_row; assumption.
Qed.

Lemma initial_pass_values (this : Loop.t) (i : Z) (c1 To no c : R) :
  (if (0 <? i)%Z then CalculateC1 this To To no else c1) = c ->
  let v := initial_pass this 0 c c c in
  ic_temperature (initial_pass this i c1 To no) = ic_temperature v
  /\ ic_density (initial_pass this i c1 To no) = ic_density v
  /\ ic_c1 (initial_pass this i c1 To no) = c
  /\ ic_error_temperature (initial_pass this i c1 To no)
     = Rabs (ic_temperature v - To) / ic_temperature v
  /\ ic_error_density (initial_pass this i c1 To no)
     = Rabs (ic_density v - no) / ic_density v.
Proof.
  intros Hc. unfold initial_pass.
  cbn [ic_temperature ic_density ic_c1 ic_error_temperature ic_error_density].
  rewrite Hc. change (0 <? 0)%Z with false. cbv iota. repeat split.
Qed.

(** X16. The iteration of [CalculateInitialConditions] recognises a fixed
    point at once: when the closure coefficient computed from the first
    estimate of temperature and density is again the starting value 2, the
    loop ends at its first or second pass with exactly that first
    estimate. *)
Theorem initial_conditions_fixed_point (this : Loop.t) :
  let v0 := initial_pass_at this 0 in
  let T0 := ic_temperature v0 in
  let n0 := ic_density v0 in
  0 < T0 -> 0 < n0 ->
  CalculateC1 this T0 T0 n0 = 2 ->
  exists i : Z,
    (i = 0 \/ i = 1)%Z
    /\ initial_while this (i_max - 1) 0 2.0 LARGEST_DOUBLE LARGEST_DOUBLE
       = (i, T0, n0).
Proof.
  cbv zeta. unfold initial_pass_at. cbn [pass_from].
  set (v0 := initial_pass this 0 2.0 LARGEST_DOUBLE LARGEST_DOUBLE).
  intros HT Hn Hc1.
  destruct (initial_pass_values this 0 2.0 LARGEST_DOUBLE LARGEST_DOUBLE 2)
    as (HT0 & Hn0 & Hc0 & _); [simpl; lra |].
  fold v0 in HT0, Hn0, Hc0. cbv zeta in HT0, Hn0.
  unfold i_max. simpl Nat.sub. rewrite initial_while_unfold. cbv zeta.
  fold v0.
  destruct (Rlt_dec _ tol) as [_ | _]; [exists 0%Z; split; [left |]; reflexivity |].
  exists 1%Z. split; [right; reflexivity |].
  rewrite initial_while_unfold. cbv zeta.
  destruct (initial_pass_values this (0 + 1) (ic_c1 v0) (ic_temperature v0)
              (ic_density v0) 2)
    as (HT1 & Hn1 & _ & HeT & Hen); [exact Hc1 |].
  cbv zeta in HT1, Hn1, HeT, Hen.
  rewrite <- HT0 in HT1, HeT. rewrite <- Hn0 in Hn1, Hen.
  destruct (Rlt_dec _ tol) as [_ | Hnot].
  - rewrite HT1, Hn1. reflexivity.
  - exfalso. apply Hnot. rewrite Hen, HeT. unfold tol.
    rewrite !Rminus_diag, Rabs_R0. unfold Rdiv. rewrite !Rmult_0_l.
    rewrite Rmax_left; lra.
Qed.

End SeedRow.

Section Gravity.
Context `{PhysicalConstants}.
Variable this : Loop.t.

Local Abbreviation p := (Loop.parameters this).

(** X17. For positive temperatures and correction factors the scale height
    is positive, and the gravitational correction of [CalculateC1] is never
    below 1 for a loop of non-negative length: it is exactly 1 when the
    flag is off or the length is 0, and above 1 otherwise. *)
Theorem grav_correction_at_least_1 (Te Ti : R) :
  physical ->
  0 < Parameters.boltzmann_correction p ->
  0 < Parameters.ion_mass_correction p ->
  0 < Te -> 0 < Ti ->
  0 <= Parameters.loop_length p ->
  3 < _PI_ < 4 ->
  0 < CalculateScaleHeight this Te Ti
  /\ 1 <= C1_grav_correction this Te Ti
  /\ (Parameters.use_c1_grav_correction p = false ->
      C1_grav_correction this Te Ti = 1)
  /\ (Parameters.use_c1_grav_correction p = true ->
      0 < Parameters.loop_length p ->
      1 < C1_grav_correction this Te Ti).
Proof.
  intros Hphys Hbc Himc HTe HTi HL Hpi.
  pose proof (kB_pos Hphys). pose proof (mp_pos Hphys).
  pose proof (g_sun_pos Hphys).
  assert (Hh : 0 < CalculateScaleHeight this Te Ti).
  { unfold CalculateScaleHeight.
    assert (0 < Parameters.boltzmann_correction p * Ti)
      by (apply Rmult_lt_0_compat; assumption).
    assert (0 < Parameters.ion_mass_correction p * PROTON_MASS)
      by (apply Rmult_lt_0_compat; assumption).
    repeat apply Rdiv_lt_0_compat; try assumption.
    apply Rmult_lt_0_compat; lra. }
  assert (Hsin : 0 < sin (_PI_ / 5.0)).
  { pose proof PI2_3_2. apply sin_gt_0; lra. }
  assert (Hcoef : 0 < 4.0 * sin (_PI_ / 5.0) / (_PI_ * CalculateScaleHeight this Te Ti)).
  { apply Rdiv_lt_0_compat; [lra |]. apply Rmult_lt_0_compat; lra. }
  assert (Hexp : forall L,
            4.0 * sin (_PI_ / 5.0) * L / (_PI_ * CalculateScaleHeight this Te Ti)
            = 4.0 * sin (_PI_ / 5.0) / (_PI_ * CalculateScaleHeight this Te Ti) * L).
  { intros L. unfold Rdiv. ring. }
  split; [exact Hh |].
  unfold C1_grav_correction.
  destruct (Parameters.use_c1_grav_correction p).
  - rewrite Hexp.
    split; [| split; [discriminate |]].
    + rewrite <- exp_0. destruct HL as [HL | <-].
      * left. apply exp_increasing. nra.
      * rewrite Rmult_0_r. lra.
    + intros _ HLpos. rewrite <- exp_0. apply exp_increasing. nra.
  - split; [lra |]. split; [intros _; lra | discriminate].
Qed.

End Gravity.
Section Collisions.
Context `{PhysicalConstants}.
Variable this : Loop.t.

Local Abbreviation p := (Loop.parameters this).

Lemma CalculateCollisionFrequency_pos (Te n : R) :
  physical ->
  0 < Parameters.ion_mass_correction p ->
  0 < _PI_ -> 0 < ELECTRON_CHARGE_POWER_4 ->
  0 < Te -> 0 < n ->
  sqrt (n / 1.0e+13) * cmath.pow (BOLTZMANN_CONSTANT * Te / 1.602e-9) (-1.5)
  < exp 23 ->
  0 < CalculateCollisionFrequency this Te n.
Proof.
  intros Hphys Himc Hpi He4 HTe Hn Hlog.
  pose proof (kB_pos Hphys) as HkB. pose proof (me_pos Hphys) as Hme.
  pose proof (mp_pos Hphys) as Hmp.
  unfold CalculateCollisionFrequency.
  assert (Hsq : 0 < sqrt (n / 1.0e+13)).
  { apply sqrt_lt_R0. apply Rdiv_lt_0_compat; lra. }
  assert (Hpw : 0 < cmath.pow (BOLTZMANN_CONSTANT * Te / 1.602e-9) (-1.5)).
  { apply pow_gt0. apply Rdiv_lt_0_compat; [| lra].
    apply Rmult_lt_0_compat; assumption. }
  assert (Hcoulomb :
            0 < 23.0 - ln (sqrt (n / 1.0e+13)
                           * cmath.pow (BOLTZMANN_CONSTANT * Te / 1.602e-9) (-1.5))).
  { assert (Harg : 0 < sqrt (n / 1.0e+13)
                       * cmath.pow (BOLTZMANN_CONSTANT * Te / 1.602e-9) (-1.5))
      by (apply Rmult_lt_0_compat; assumption).
    pose proof (ln_increasing _ _ Harg Hlog) as Hln.
    rewrite ln_exp in Hln. lra. }
  assert (Hpw2 : 0 < cmath.pow (2.0 * BOLTZMANN_CONSTANT * Te / ELECTRON_MASS) (-1.5)).
  { apply pow_gt0. apply Rdiv_lt_0_compat; [| exact Hme].
    apply Rmult_lt_0_compat; [| exact HTe].
    apply Rmult_lt_0_compat; lra. }
  assert (Hsqpi : 0 < sqrt _PI_) by (apply sqrt_lt_R0; exact Hpi).
  assert (Hfront : 0 < 16.0 * sqrt _PI_ / 3.0 * ELECTRON_CHARGE_POWER_4
                       / (Parameters.ion_mass_correction p * PROTON_MASS
                          * ELECTRON_MASS)).
  { apply Rdiv_lt_0_compat.
    - apply Rmult_lt_0_compat; [| exact He4].
      apply Rdiv_lt_0_compat; [| lra]. apply Rmult_lt_0_compat; lra.
    - apply Rmult_lt_0_compat; [| exact Hme].
      apply Rmult_lt_0_compat; assumption. }
  apply Rmult_lt_0_compat; [| exact Hcoulomb].
  apply Rmult_lt_0_compat; [| exact Hn].
  apply Rmult_lt_0_compat; assumption.
Qed.

(** X18. For a state with positive pressures and density whose Coulomb
    logarithm is positive, the collision frequency is positive and the
    collisional exchange term of [CalculateDerivs] has the sign of
    [Pi - Pe]: with a loop of positive length the collisions heat the
    species of lower pressure at the cost of the other one. *)
Theorem collisions_equalise_pressures (Pe Pi n time : R) :
  physical ->
  0 < Parameters.ion_mass_correction p ->
  0 < _PI_ -> 0 < ELECTRON_CHARGE_POWER_4 ->
  0 < Parameters.loop_length p ->
  0 < Pe -> 0 < n ->
  let v := CalculateDerivs_locals this [Pe; Pi; n] time in
  sqrt (n / 1.0e+13)
  * cmath.pow (BOLTZMANN_CONSTANT * d_temperature_e v / 1.602e-9) (-1.5)
  < exp 23 ->
  0 < d_collision_frequency v
  /\ (Pe < Pi -> 0 < d_psi_c v)
  /\ (Pi < Pe -> d_psi_c v < 0).
Proof.
  intros Hphys Himc Hpi He4 HL HPe Hn v Hlog.
  pose proof (kB_pos Hphys) as HkB. pose proof (gamma_m1_pos Hphys) as Hg.
  assert (HTe : 0 < d_temperature_e v).
  { cbn [v CalculateDerivs_locals d_temperature_e lookup_total list_lookup_total].
    apply Rdiv_lt_0_compat; [exact HPe |]. apply Rmult_lt_0_compat; assumption. }
  assert (Hnu : 0 < d_collision_frequency v).
  { change (d_collision_frequency v)
      with (CalculateCollisionFrequency this (d_temperature_e v) n).
    apply CalculateCollisionFrequency_pos; assumption. }
  assert (Hpsi : d_psi_c v
                 = Parameters.loop_length p / GAMMA_MINUS_ONE
                   * d_collision_frequency v * (Pi - Pe)) by reflexivity.
  assert (Hfront : 0 < Parameters.loop_length p / GAMMA_MINUS_ONE
                       * d_collision_frequency v).
  { apply Rmult_lt_0_compat; [| exact Hnu].
    apply Rdiv_lt_0_compat; assumption. }
  split; [exact Hnu |]. rewrite Hpsi.
  split; intros Hcmp; nra.
Qed.

End Collisions.
Section SavedRowsOfARun.
Context `{PhysicalConstants}.

Lemma EvolveLoop_body_rows (this : Loop.t) (v : EvolveVars) (n : nat) :
  aligned (Loop.results this) n ->
  ((ev_i v < Loop.N this)%Z -> (Z.to_nat (ev_i v) < n)%nat) ->
  row (Loop.results (fst (EvolveLoop_body this v)))
    (if (Loop.N this <=? ev_i v)%Z then n else Z.to_nat (ev_i v))
  = [Some (ev_time v);
     Some (Get_Heating (Loop.heater this) (ev_time v));
     Some (Loop.__state (fst (EvolveLoop_body this v)) !!! 0%nat
           / (BOLTZMANN_CONSTANT
              * Loop.__state (fst (EvolveLoop_body this v)) !!! 2%nat));
     Some (Loop.__state (fst (EvolveLoop_body this v)) !!! 1%nat
           / (BOLTZMANN_CONSTANT
              * Parameters.boltzmann_correction (Loop.parameters this)
              * Loop.__state (fst (EvolveLoop_body this v)) !!! 2%nat));
     Some (Loop.__state (fst (EvolveLoop_body this v)) !!! 0%nat);
     Some (Loop.__state (fst (EvolveLoop_body this v)) !!! 1%nat);
     Some (Loop.__state (fst (EvolveLoop_body this v)) !!! 2%nat)]
  /\ forall j,
       j <> (if (Loop.N this <=? ev_i v)%Z then n else Z.to_nat (ev_i v)) ->
       row (Loop.results (fst (EvolveLoop_body this v))) j
       = row (Loop.results this) j.
Proof.
  intros Hal Hin.
  destruct (EvolveLoop_body_frame this v) as (_ & _ & _ & _ & Hst).
  cbv zeta in Hst. rewrite Hst.
  rewrite EvolveLoop_body_unfold. cbn [fst].
  set (s := fst (solver_step this (ev_time v) (ev_tau v))).
  destruct (solver_step_frame this (ev_time v) (ev_tau v))
    as (Hp & HN & _ & Hr & _ & Hh & _).
  cbv zeta in Hp, HN, Hr, Hh. fold s in Hp, HN, Hr, Hh.
  destruct (dem_step_frame s (ev_i v))
    as (Hp' & HN' & _ & Hst' & Hr' & _ & Hh' & _).
  assert (Hal' : aligned (Loop.results (dem_step s (ev_i v))) n)
    by (rewrite Hr', Hr; exact Hal).
  split.
  - pose proof (SaveResults_written (dem_step s (ev_i v)) (ev_i v) (ev_time v) n
                  Hal') as Hw.
    cbv zeta in Hw. rewrite HN', HN, Hh', Hh, Hp', Hp, Hst' in Hw.
    apply Hw. exact Hin.
  - intros j Hj.
    rewrite (SaveResults_others (dem_step s (ev_i v)) (ev_i v) (ev_time v) n j Hal')
      by (rewrite HN', HN; exact Hj).
    rewrite Hr', Hr. reflexivity.
Qed.

Lemma EvolveLoop_passes_rows (this : Loop.t) (k : nat) :
  (0 <= Loop.N this)%Z ->
  aligned (Loop.results this) (Nat.max (Z.to_nat (Loop.N this)) 1) ->
  row (Loop.results (fst (EvolveLoop_passes k this (EvolveLoop_init this)))) 0
  = row (Loop.results this) 0
  /\ forall j, (j < k)%nat ->
       row (Loop.results (fst (EvolveLoop_passes k this (EvolveLoop_init this))))
         (S j)
       = [Some (ev_time (snd (EvolveLoop_passes j this (EvolveLoop_init this))));
          Some (Get_Heating (Loop.heater this)
                  (ev_time (snd (EvolveLoop_passes j this (EvolveLoop_init this)))));
          Some (Loop.__state
                  (fst (EvolveLoop_passes (S j) this (EvolveLoop_init this)))
                !!! 0%nat
                / (BOLTZMANN_CONSTANT
                   * Loop.__state
                       (fst (EvolveLoop_passes (S j) this (EvolveLoop_init this)))
                     !!! 2%nat));
          Some (Loop.__state
                  (fst (EvolveLoop_passes (S j) this (EvolveLoop_init this)))
                !!! 1%nat
                / (BOLTZMANN_CONSTANT
                   * Parameters.boltzmann_correction (Loop.parameters this)
                   * Loop.__state
                       (fst (EvolveLoop_passes (S j) this (EvolveLoop_init this)))
                     !!! 2%nat));
          Some (Loop.__state
                  (fst (EvolveLoop_passes (S j) this (EvolveLoop_init this)))
                !!! 0%nat);
          Some (Loop.__state
                  (fst (EvolveLoop_passes (S j) this (EvolveLoop_init this)))
                !!! 1%nat);
          Some (Loop.__state
                  (fst (EvolveLoop_passes (S j) this (EvolveLoop_init this)))
                !!! 2%nat)].
Proof.
  intros HN Hal. induction k as [| k [IH0 IH]].
  - split; [reflexivity |]. intros j Hj. lia.
  - pose proof (EvolveLoop_passes_aligned k this HN Hal) as Halk.
    pose proof (EvolveLoop_passes_counter k this (EvolveLoop_init this)) as Hi.
    cbn [EvolveLoop_init ev_i] in Hi.
    destruct (EvolveLoop_passes_frame k this (EvolveLoop_init this))
      as (Hpk & HNk & _ & Hhk).
    cbv zeta in Hpk, HNk, Hhk.
    destruct (EvolveLoop_body_rows
                (fst (EvolveLoop_passes k this (EvolveLoop_init this)))
                (snd (EvolveLoop_passes k this (EvolveLoop_init this)))
                _ Halk) as [Hwritten Hothers].
    { rewrite Hi, HNk. lia. }
    rewrite <- EvolveLoop_passes_S in Hwritten, Hothers.
    rewrite Hi, HNk, Hpk, Hhk in Hwritten. rewrite Hi, HNk in Hothers.
    assert (Hidx : (if (Loop.N this <=? 1 + Z.of_nat k)%Z
                    then Nat.max (Z.to_nat (Loop.N this)) (S k)
                    else Z.to_nat (1 + Z.of_nat k)) = S k).
    { destruct (Loop.N this <=? 1 + Z.of_nat k)%Z eqn:Hcmp;
        [apply Z.leb_le in Hcmp | apply Z.leb_gt in Hcmp]; lia. }
    rewrite Hidx in Hwritten, Hothers.
    split.
    + rewrite Hothers by lia. exact IH0.
    + intros j Hj. destruct (Nat.eq_dec j k) as [-> | Hne].
      * exact Hwritten.
      * rewrite Hothers by lia. apply IH. lia.
Qed.

(** X19. In a run of a constructed and seeded loop, with any solver, pass
    [j + 1] of the loop of [EvolveLoop] saves row [j + 1] and no later pass
    touches it: after any [k > j] passes the row still holds the time that
    pass was entered with, the heating rate at that time, and the pressures
    and density of the state that pass computed, with the two temperatures
    derived from them.  Row 0, the seed row, is never touched either. *)
Theorem saved_rows_are_permanent (cfg : Config.t) (heater : Heater)
    (power_law tabulated : CRadiation) (this0 : Loop.t) (j k : nat) :
  Loop_new cfg heater power_law tabulated = Some this0 ->
  (j < k)%nat ->
  let this1 := CalculateInitialConditions this0 in
  let run m := EvolveLoop_passes m this1 (EvolveLoop_init this1) in
  let t := ev_time (snd (run j)) in
  let s := Loop.__state (fst (run (S j))) in
  let bc := Parameters.boltzmann_correction (Loop.parameters this1) in
  row (Loop.results (fst (run k))) 0 = row (Loop.results this1) 0
  /\ row (Loop.results (fst (run k))) (S j)
     = [Some t; Some (Get_Heating heater t);
        Some (s !!! 0%nat / (BOLTZMANN_CONSTANT * s !!! 2%nat));
        Some (s !!! 1%nat / (BOLTZMANN_CONSTANT * bc * s !!! 2%nat));
        Some (s !!! 0%nat); Some (s !!! 1%nat); Some (s !!! 2%nat)].
Proof.
  intros Hnew Hjk. cbv zeta.
  destruct (seeded_loop _ _ _ _ _ Hnew) as (HN & _ & _ & _ & _ & Hal & _).
  destruct (Loop_new_spec _ _ _ _ _ Hnew) as (_ & _ & _ & _ & _ & Hheater & _).
  destruct (CalculateInitialConditions_frame this0) as (_ & _ & Hh1 & _).
  destruct (EvolveLoop_passes_rows (CalculateInitialConditions this0) k HN Hal)
    as [H0 Hrows].
  split; [exact H0 |].
  rewrite (Hrows j Hjk), Hh1, Hheater. reflexivity.
Qed.

End SavedRowsOfARun.
(** * The time of the loop in binary64 *)

Section Binary64.

Lemma nearest_even_bounds (m : R) :
  IZR (binary64.nearest_even m) - 1 / 2 <= m <= IZR (binary64.nearest_even m) + 1 / 2.
Proof.
  unfold binary64.nearest_even. cbv zeta.
  pose proof (Zfloor_bound m) as [Hlo Hhi].
  destruct (Rlt_dec (m - IZR (Zfloor m)) (1 / 2)) as [Hlt | Hge]; [lra |].
  destruct (Rlt_dec (1 / 2) (m - IZR (Zfloor m))) as [Hgt | Hle].
  - rewrite plus_IZR. lra.
  - destruct (Z.even (Zfloor m)); [lra | rewrite plus_IZR; lra].
Qed.

(** The nearest integer of a number that is at least the integer [n] is at
    least [n], and likewise from above. *)
Lemma nearest_even_ge (m : R) (n : Z) :
  IZR n <= m -> (n <= binary64.nearest_even m)%Z.
Proof.
  intros Hn. pose proof (Zfloor_lub n m Hn) as Hf.
  unfold binary64.nearest_even. cbv zeta.
  destruct (Rlt_dec _ _); [exact Hf |].
  destruct (Rlt_dec _ _); [lia |].
  destruct (Z.even _); lia.
Qed.

Lemma nearest_even_le (m : R) (n : Z) :
  m <= IZR n -> (binary64.nearest_even m <= n)%Z.
Proof.
  intros Hn. pose proof (Zfloor_bound m) as [Hlo Hhi].
  assert (Hf : (Zfloor m <= n)%Z) by (apply le_IZR; lra).
  unfold binary64.nearest_even. cbv zeta.
  destruct (Rlt_dec _ _) as [_ | Hge]; [exact Hf |].
  assert (Hlt : (Zfloor m < n)%Z).
  { apply lt_IZR. lra. }
  destruct (Rlt_dec _ _); [lia |].
  destruct (Z.even _); lia.
Qed.

Lemma nearest_even_IZR (n : Z) : binary64.nearest_even (IZR n) = n.
Proof.
  apply Z.le_antisymm; [apply nearest_even_le | apply nearest_even_ge]; lra.
Qed.

(** A number within less than a half of an integer rounds to it. *)
Lemma nearest_even_near (m : R) (n : Z) :
  IZR n <= m < IZR n + 1 / 2 -> binary64.nearest_even m = n.
Proof.
  intros [Hlo Hhi].
  assert (Hf : Zfloor m = n) by (apply Zfloor_eq; lra).
  unfold binary64.nearest_even. cbv zeta. rewrite Hf.
  destruct (Rlt_dec (m - IZR n) (1 / 2)) as [_ | Hn]; [reflexivity | lra].
Qed.

Lemma ln_2_pos : 0 < ln 2.
Proof. rewrite <- ln_1. apply ln_increasing; lra. Qed.

(** The binade of a positive number. *)
Lemma exponent_bounds (x : R) :
  0 < x ->
  powerRZ 2 (binary64.exponent x) <= x < powerRZ 2 (binary64.exponent x + 1).
Proof.
  intros Hx. unfold binary64.exponent. rewrite (Rabs_pos_eq x) by lra.
  pose proof (Zfloor_bound (ln x / ln 2)) as [Hlo Hhi].
  pose proof ln_2_pos as H2.
  rewrite !powerRZ_Rpower by lra. unfold Rpower.
  rewrite plus_IZR.
  assert (Hlo' : IZR (Zfloor (ln x / ln 2)) * ln 2 <= ln x).
  { apply (Rmult_le_compat_r (ln 2)) in Hlo; [| lra].
    unfold Rdiv in Hlo. rewrite Rmult_assoc, Rinv_l, Rmult_1_r in Hlo by lra.
    exact Hlo. }
  assert (Hhi' : ln x < (IZR (Zfloor (ln x / ln 2)) + 1) * ln 2).
  { apply (Rmult_lt_compat_r (ln 2)) in Hhi; [| lra].
    unfold Rdiv in Hhi. rewrite Rmult_assoc, Rinv_l, Rmult_1_r in Hhi by lra.
    exact Hhi. }
  rewrite <- (exp_ln x Hx) at 2 3. split.
  - destruct Hlo' as [Hlt | Heq].
    + left. apply exp_increasing. exact Hlt.
    + rewrite Heq. lra.
  - apply exp_increasing. exact Hhi'.
Qed.

Lemma powerRZ_2_increasing (a b : Z) :
  (a <= b)%Z -> powerRZ 2 a <= powerRZ 2 b.
Proof.
  intros Hab. replace b with (a + (b - a))%Z by lia.
  rewrite powerRZ_add by lra.
  assert (H1 : 1 <= powerRZ 2 (b - a)).
  { destruct (b - a)%Z as [| p | p] eqn:Hd; [simpl; lra | | lia].
    simpl. apply pow_R1_Rle. lra. }
  pose proof (powerRZ_lt 2 a ltac:(lra)). nra.
Qed.

(** The exponent is determined by the binade. *)
Lemma exponent_eq (x : R) (e : Z) :
  powerRZ 2 e <= x < powerRZ 2 (e + 1) -> binary64.exponent x = e.
Proof.
  intros [Hlo Hhi].
  assert (Hx : 0 < x).
  { pose proof (powerRZ_lt 2 e ltac:(lra)). lra. }
  destruct (exponent_bounds x Hx) as [Hlo' Hhi'].
  set (e' := binary64.exponent x) in *.
  destruct (Z.lt_trichotomy e' e) as [Hlt | [Heq | Hgt]]; [| exact Heq |].
  - pose proof (powerRZ_2_increasing (e' + 1) e ltac:(lia)). lra.
  - pose proof (powerRZ_2_increasing (e + 1) e' ltac:(lia)). lra.
Qed.

Lemma ulp_pos (x : R) : 0 < binary64.ulp x.
Proof. apply powerRZ_lt. lra. Qed.

Lemma round_pos_eq (x : R) :
  0 < x ->
  binary64.round x
  = IZR (binary64.nearest_even (x / binary64.ulp x)) * binary64.ulp x.
Proof.
  intros Hx. unfold binary64.round.
  destruct (Req_dec_T x 0) as [Hz | _]; [lra | reflexivity].
Qed.

(** The significand of a positive number lies between [2^52] and [2^53]. *)
Lemma significand_bounds (x : R) :
  0 < x ->
  2 ^ 52 <= x / binary64.ulp x < 2 ^ 53.
Proof.
  intros Hx. destruct (exponent_bounds x Hx) as [Hlo Hhi].
  unfold binary64.ulp. set (e := binary64.exponent x) in *.
  assert (He : powerRZ 2 e = 2 ^ 52 * powerRZ 2 (e - 52)).
  { replace e with (52 + (e - 52))%Z at 1 by lia.
    rewrite powerRZ_add by lra. reflexivity. }
  assert (He1 : powerRZ 2 (e + 1) = 2 ^ 53 * powerRZ 2 (e - 52)).
  { replace (e + 1)%Z with (53 + (e - 52))%Z by lia.
    rewrite powerRZ_add by lra. reflexivity. }
  pose proof (powerRZ_lt 2 (e - 52) ltac:(lra)) as Hu.
  split; [apply le_div_r | apply lt_div_l]; lra.
Qed.

Lemma IZR_2_52 : IZR (2 ^ 52) = 2 ^ 52.
Proof. change (2 ^ 52)%Z with (2 ^ Z.of_nat 52)%Z. rewrite <- pow_IZR. reflexivity. Qed.

Lemma IZR_2_53 : IZR (2 ^ 53) = 2 ^ 53.
Proof. change (2 ^ 53)%Z with (2 ^ Z.of_nat 53)%Z. rewrite <- pow_IZR. reflexivity. Qed.

(** Rounding does not leave the binade: with exponent [e] the result is
    between [2^e] and [2^(e+1)]. *)
Lemma round_in_binade (x : R) :
  0 < x ->
  powerRZ 2 (binary64.exponent x) <= binary64.round x
  <= powerRZ 2 (binary64.exponent x + 1).
Proof.
  intros Hx. rewrite round_pos_eq by exact Hx.
  destruct (significand_bounds x Hx) as [Hlo Hhi].
  pose proof (nearest_even_ge (x / binary64.ulp x) (2 ^ 52)) as Hge.
  pose proof (nearest_even_le (x / binary64.ulp x) (2 ^ 53)) as Hle.
  rewrite IZR_2_52 in Hge. rewrite IZR_2_53 in Hle.
  apply IZR_le in Hge; [| lra]. apply IZR_le in Hle; [| lra].
  rewrite IZR_2_52 in Hge. rewrite IZR_2_53 in Hle.
  unfold binary64.ulp in *. set (e := binary64.exponent x) in *.
  pose proof (powerRZ_lt 2 (e - 52) ltac:(lra)) as Hu.
  replace (powerRZ 2 e) with (2 ^ 52 * powerRZ 2 (e - 52)).
  - replace (powerRZ 2 (e + 1)) with (2 ^ 53 * powerRZ 2 (e - 52)).
    + split; apply Rmult_le_compat_r; lra.
    + replace (e + 1)%Z with (53 + (e - 52))%Z by lia.
      rewrite powerRZ_add by lra. reflexivity.
  - replace e with (52 + (e - 52))%Z at 2 by lia.
    rewrite powerRZ_add by lra. reflexivity.
Qed.

(** Adding a number that is not negative to a positive double never
    yields a smaller double. *)
Lemma add_not_below (t tau : R) :
  0 < t -> binary64.representable t -> 0 <= tau ->
  t <= binary64.add t tau.
Proof.
  intros Ht Hrep Htau. unfold binary64.add.
  assert (Hx : 0 < t + tau) by lra.
  destruct (exponent_bounds t Ht) as [Htlo Hthi].
  destruct (exponent_bounds (t + tau) Hx) as [Hxlo Hxhi].
  destruct (Z.lt_trichotomy (binary64.exponent t) (binary64.exponent (t + tau)))
    as [Hlt | [Heq | Hgt]].
  - destruct (round_in_binade (t + tau) Hx) as [Hr _].
    pose proof (powerRZ_2_increasing (binary64.exponent t + 1)
                  (binary64.exponent (t + tau)) ltac:(lia)).
    lra.
  - unfold binary64.representable in Hrep.
    rewrite round_pos_eq in Hrep by exact Ht.
    rewrite round_pos_eq by exact Hx.
    assert (Hu : binary64.ulp (t + tau) = binary64.ulp t)
      by (unfold binary64.ulp; rewrite Heq; reflexivity).
    rewrite Hu. pose proof (ulp_pos t) as Hup.
    set (n := binary64.nearest_even (t / binary64.ulp t)) in *.
    assert (Hn : IZR n <= (t + tau) / binary64.ulp t).
    { apply le_div_r; [exact Hup | lra]. }
    apply nearest_even_ge, IZR_le in Hn.
    rewrite <- Hrep at 1. apply Rmult_le_compat_r; lra.
  - pose proof (powerRZ_2_increasing (binary64.exponent (t + tau) + 1)
                  (binary64.exponent t) ltac:(lia)).
    lra.
Qed.

(** The doubles between 1 and 2 are the multiples of [2^-52]. *)
Lemma round_1_2 (x : R) :
  1 <= x < 2 ->
  binary64.round x = IZR (binary64.nearest_even (x * 2 ^ 52)) / 2 ^ 52.
Proof.
  intros [Hlo Hhi].
  assert (He : binary64.exponent x = 0%Z) by (apply exponent_eq; simpl; lra).
  rewrite round_pos_eq by lra. unfold binary64.ulp. rewrite He.
  change (0 - 52)%Z with (- 52)%Z.
  assert (Hu : powerRZ 2 (- 52) = / 2 ^ 52) by reflexivity.
  rewrite Hu. unfold Rdiv. rewrite Rinv_inv. reflexivity.
Qed.

(** Rounding keeps a number between 1 and 2 between the multiples of
    [2^-52] that enclose it. *)
Lemma round_between (x : R) (lo hi : Z) :
  1 <= x < 2 ->
  IZR lo / 2 ^ 52 <= x <= IZR hi / 2 ^ 52 ->
  IZR lo / 2 ^ 52 <= binary64.round x <= IZR hi / 2 ^ 52.
Proof.
  intros Hx [Hlo Hhi]. rewrite round_1_2 by exact Hx.
  assert (Hp : 0 < 2 ^ 52) by (apply pow_lt; lra).
  assert (Hlo' : IZR lo <= x * 2 ^ 52).
  { apply (Rmult_le_compat_r (2 ^ 52)) in Hlo; [| lra].
    unfold Rdiv in Hlo. rewrite Rmult_assoc, Rinv_l, Rmult_1_r in Hlo by lra.
    exact Hlo. }
  assert (Hhi' : x * 2 ^ 52 <= IZR hi).
  { apply (Rmult_le_compat_r (2 ^ 52)) in Hhi; [| lra].
    unfold Rdiv in Hhi. rewrite Rmult_assoc, Rinv_l, Rmult_1_r in Hhi by lra.
    exact Hhi. }
  apply nearest_even_ge, IZR_le in Hlo'. apply nearest_even_le, IZR_le in Hhi'.
  split; (apply Rmult_le_compat_r; [left; apply Rinv_0_lt_compat; exact Hp |]);
    assumption.
Qed.

(** Absorption: adding less than [2^-53] to a double between 1 and 2
    returns the double. *)
Lemma add_absorbs (t tau : R) :
  1 <= t < 2 -> binary64.representable t ->
  0 <= tau < / 2 ^ 53 ->
  binary64.add t tau = t.
Proof.
  intros [Hlo Hhi] Hrep [Htau0 Htau].
  assert (Hp : 0 < 2 ^ 52) by (apply pow_lt; lra).
  assert (H53 : 2 ^ 53 = 2 * 2 ^ 52) by reflexivity.
  assert (Hi53 : / 2 ^ 53 = / 2 ^ 52 / 2).
  { rewrite H53. field. }
  assert (Hi52 : 0 < / 2 ^ 52) by (apply Rinv_0_lt_compat; exact Hp).
  unfold binary64.representable in Hrep.
  rewrite round_1_2 in Hrep by lra.
  set (n := binary64.nearest_even (t * 2 ^ 52)) in *.
  assert (Hn : t * 2 ^ 52 = IZR n).
  { rewrite <- Hrep at 1. field. }
  assert (Hn1 : (n + 1 <= 2 ^ 53)%Z).
  { assert (Hlt : IZR n < IZR (2 ^ 53)).
    { rewrite <- Hn, IZR_2_53, H53. nra. }
    apply lt_IZR in Hlt. lia. }
  assert (Hsum : t + tau < 2).
  { assert (Hle : IZR (n + 1) <= IZR (2 ^ 53)) by (apply IZR_le; exact Hn1).
    rewrite IZR_2_53, plus_IZR, <- Hn, H53 in Hle.
    assert (t + / 2 ^ 52 <= 2).
    { apply (Rmult_le_reg_r (2 ^ 52)); [exact Hp |].
      rewrite Rmult_plus_distr_r, Rinv_l by lra. lra. }
    lra. }
  unfold binary64.add. rewrite round_1_2 by lra.
  rewrite (nearest_even_near _ n).
  - rewrite <- Hn. field.
  - rewrite Rmult_plus_distr_r, Hn. split.
    + pose proof (Rmult_le_pos tau (2 ^ 52) Htau0 ltac:(lra)). lra.
    + assert (tau * 2 ^ 52 < 1 / 2).
      { apply (Rmult_lt_compat_r (2 ^ 52)) in Htau; [| exact Hp].
        rewrite Hi53 in Htau. unfold Rdiv in Htau.
        rewrite Rmult_assoc, (Rmult_comm (/ 2)), <- Rmult_assoc, Rinv_l in Htau
          by lra.
        lra. }
      lra.
Qed.

Lemma representable_round_1_2 (x : R) :
  1 <= x < 2 -> 1 <= binary64.round x < 2 ->
  binary64.representable (binary64.round x).
Proof.
  intros Hx Hr. unfold binary64.representable.
  rewrite (round_1_2 (binary64.round x)) by exact Hr.
  rewrite (round_1_2 x) by exact Hx.
  assert (Hp : 0 < 2 ^ 52) by (apply pow_lt; lra).
  replace (IZR (binary64.nearest_even (x * 2 ^ 52)) / 2 ^ 52 * 2 ^ 52)
    with (IZR (binary64.nearest_even (x * 2 ^ 52))) by field.
  rewrite nearest_even_IZR. reflexivity.
Qed.

Lemma representable_1 : binary64.representable 1.
Proof.
  unfold binary64.representable. rewrite round_1_2 by lra.
  rewrite Rmult_1_l.
  rewrite <- IZR_2_52, nearest_even_IZR, IZR_2_52. field.
Qed.

(** The rounding of a positive number is a double. *)
Lemma representable_round (x : R) :
  0 < x -> binary64.representable (binary64.round x).
Proof.
  intros Hx. unfold binary64.representable.
  destruct (significand_bounds x Hx) as [Hlo Hhi].
  pose proof (nearest_even_ge (x / binary64.ulp x) (2 ^ 52)) as Hge.
  pose proof (nearest_even_le (x / binary64.ulp x) (2 ^ 53)) as Hle.
  rewrite IZR_2_52 in Hge. rewrite IZR_2_53 in Hle.
  specialize (Hge Hlo). specialize (Hle ltac:(lra)).
  rewrite (round_pos_eq x Hx).
  set (n := binary64.nearest_even (x / binary64.ulp x)) in *.
  set (e := binary64.exponent x).
  assert (Hu : binary64.ulp x = powerRZ 2 (e - 52)) by reflexivity.
  pose proof (ulp_pos x) as Hup. rewrite Hu in *.
  assert (He : powerRZ 2 e = 2 ^ 52 * powerRZ 2 (e - 52)).
  { replace e with (52 + (e - 52))%Z at 1 by lia.
    rewrite powerRZ_add by lra. reflexivity. }
  assert (He1 : powerRZ 2 (e + 1) = 2 ^ 53 * powerRZ 2 (e - 52)).
  { replace (e + 1)%Z with (53 + (e - 52))%Z by lia.
    rewrite powerRZ_add by lra. reflexivity. }
  assert (He2 : powerRZ 2 (e + 2) = 2 * 2 ^ 53 * powerRZ 2 (e - 52)).
  { replace (e + 2)%Z with (1 + (e + 1))%Z by lia.
    rewrite powerRZ_add, He1 by lra. simpl. ring. }
  assert (Hn52 : 2 ^ 52 <= IZR n) by (rewrite <- IZR_2_52; apply IZR_le, Hge).
  assert (Hn53 : IZR n <= 2 ^ 53) by (rewrite <- IZR_2_53; apply IZR_le, Hle).
  assert (Hpos : 0 < IZR n * powerRZ 2 (e - 52)).
  { apply Rmult_lt_0_compat; [| exact Hup].
    assert (0 < 2 ^ 52) by (apply pow_lt; lra). lra. }
  rewrite round_pos_eq by exact Hpos.
  destruct (Z.eq_dec n (2 ^ 53)%Z) as [Hmax | Hnot].
  - assert (Hex : binary64.exponent (IZR n * powerRZ 2 (e - 52)) = (e + 1)%Z).
    { apply exponent_eq. rewrite Hmax, IZR_2_53.
      replace (e + 1 + 1)%Z with (e + 2)%Z by lia. rewrite He1, He2.
      assert (0 < 2 ^ 53) by (apply pow_lt; lra). nra. }
    unfold binary64.ulp. rewrite Hex.
    replace (e + 1 - 52)%Z with (1 + (e - 52))%Z by lia.
    rewrite powerRZ_add by lra. change (powerRZ 2 1) with (2 * 1).
    replace (IZR n * powerRZ 2 (e - 52) / (2 * 1 * powerRZ 2 (e - 52)))
      with (IZR (2 ^ 52)).
    + rewrite nearest_even_IZR, Hmax, IZR_2_52, IZR_2_53.
      change (2 ^ 53) with (2 * 2 ^ 52). ring.
    + rewrite Hmax, IZR_2_52, IZR_2_53. change (2 ^ 53) with (2 * 2 ^ 52).
      field. lra.
  - assert (Hlt : IZR n < 2 ^ 53).
    { rewrite <- IZR_2_53. apply IZR_lt. lia. }
    assert (Hex : binary64.exponent (IZR n * powerRZ 2 (e - 52)) = e).
    { apply exponent_eq. rewrite He, He1. nra. }
    unfold binary64.ulp. rewrite Hex.
    replace (IZR n * powerRZ 2 (e - 52) / powerRZ 2 (e - 52)) with (IZR n)
      by (field; lra).
    rewrite nearest_even_IZR. reflexivity.
Qed.

(** A number more than a half above an integer rounds above it. *)
Lemma nearest_even_above (m : R) (n : Z) :
  IZR n + 1 / 2 < m -> (n + 1 <= binary64.nearest_even m)%Z.
Proof.
  intros Hm. destruct (Rle_dec (IZR (n + 1)) m) as [Hle | Hgt].
  - apply nearest_even_ge. exact Hle.
  - rewrite plus_IZR in Hgt.
    assert (Hf : Zfloor m = n) by (apply Zfloor_eq; lra).
    unfold binary64.nearest_even. cbv zeta. rewrite Hf.
    destruct (Rlt_dec (m - IZR n) (1 / 2)) as [Hlt | _]; [lra |].
    destruct (Rlt_dec (1 / 2) (m - IZR n)) as [_ | Hn]; [lia | lra].
Qed.

(** A positive double is its significand times its spacing. *)
Lemma representable_significand (t : R) :
  0 < t -> binary64.representable t ->
  exists n : Z,
    t = IZR n * binary64.ulp t /\ (2 ^ 52 <= n)%Z /\ (n < 2 ^ 53)%Z.
Proof.
  intros Ht Hrep. unfold binary64.representable in Hrep.
  rewrite round_pos_eq in Hrep by exact Ht.
  exists (binary64.nearest_even (t / binary64.ulp t)).
  set (n := binary64.nearest_even (t / binary64.ulp t)) in *.
  pose proof (ulp_pos t) as Hup.
  destruct (significand_bounds t Ht) as [Hlo Hhi].
  assert (Hq : t / binary64.ulp t = IZR n).
  { rewrite <- Hrep at 1. field. lra. }
  rewrite Hq in Hlo, Hhi.
  split; [symmetry; exact Hrep |]. split.
  - apply le_IZR. rewrite IZR_2_52. exact Hlo.
  - apply lt_IZR. rewrite IZR_2_53. exact Hhi.
Qed.

(** Adding more than half the spacing to a positive double yields a
    greater double. *)
Lemma add_advances (t tau : R) :
  0 < t -> binary64.representable t -> binary64.ulp t / 2 < tau ->
  t < binary64.add t tau.
Proof.
  intros Ht Hrep Htau. unfold binary64.add.
  pose proof (ulp_pos t) as Hup.
  assert (Hx : 0 < t + tau) by lra.
  destruct (exponent_bounds t Ht) as [Htlo Hthi].
  destruct (exponent_bounds (t + tau) Hx) as [Hxlo Hxhi].
  destruct (Z.lt_trichotomy (binary64.exponent t) (binary64.exponent (t + tau)))
    as [Hlt | [Heq | Hgt]].
  - destruct (round_in_binade (t + tau) Hx) as [Hr _].
    pose proof (powerRZ_2_increasing (binary64.exponent t + 1)
                  (binary64.exponent (t + tau)) ltac:(lia)).
    lra.
  - destruct (representable_significand t Ht Hrep) as (n & Hn & _ & _).
    rewrite round_pos_eq by exact Hx.
    assert (Hu : binary64.ulp (t + tau) = binary64.ulp t)
      by (unfold binary64.ulp; rewrite Heq; reflexivity).
    rewrite Hu.
    assert (Hm : IZR n + 1 / 2 < (t + tau) / binary64.ulp t).
    { apply lt_div_r; [exact Hup |]. rewrite Hn at 2. lra. }
    apply nearest_even_above, IZR_le in Hm. rewrite plus_IZR in Hm.
    rewrite Hn at 1. nra.
  - pose proof (powerRZ_2_increasing (binary64.exponent (t + tau) + 1)
                  (binary64.exponent t) ltac:(lia)).
    lra.
Qed.

(** Absorption: adding less than half the spacing to a positive double
    returns the double. *)
Lemma add_stays (t tau : R) :
  0 < t -> binary64.representable t -> 0 <= tau < binary64.ulp t / 2 ->
  binary64.add t tau = t.
Proof.
  intros Ht Hrep [Htau0 Htau]. unfold binary64.add.
  pose proof (ulp_pos t) as Hup.
  assert (Hx : 0 < t + tau) by lra.
  destruct (exponent_bounds t Ht) as [Htlo Hthi].
  destruct (representable_significand t Ht Hrep) as (n & Hn & Hn52 & Hn53).
  set (e := binary64.exponent t) in *.
  assert (Hu : binary64.ulp t = powerRZ 2 (e - 52)) by reflexivity.
  assert (He1 : powerRZ 2 (e + 1) = 2 ^ 53 * binary64.ulp t).
  { rewrite Hu. replace (e + 1)%Z with (53 + (e - 52))%Z by lia.
    rewrite powerRZ_add by lra. reflexivity. }
  assert (Hn1 : IZR n + 1 <= 2 ^ 53).
  { rewrite <- IZR_2_53, <- plus_IZR. apply IZR_le. lia. }
  assert (Hex : binary64.exponent (t + tau) = e).
  { apply exponent_eq. split; [lra |]. rewrite He1. nra. }
  rewrite round_pos_eq by exact Hx.
  assert (Hu' : binary64.ulp (t + tau) = binary64.ulp t)
    by (unfold binary64.ulp; rewrite Hex; reflexivity).
  rewrite Hu'. rewrite (nearest_even_near _ n); [symmetry; exact Hn |].
  split.
  - apply le_div_r; [exact Hup |]. rewrite Hn at 2. lra.
  - apply lt_div_l; [exact Hup |]. rewrite Hn at 1. lra.
Qed.

Lemma add_representable (t tau : R) :
  0 < t + tau -> binary64.representable (binary64.add t tau).
Proof. apply representable_round. Qed.

End Binary64.
(** ** The nested bursts of the stalling run *)

Section StallGrid.

Local Abbreviation q := (10 / 11).

Lemma q_pow_15 : q ^ 15 <= 1 / 4.
Proof. simpl. lra. Qed.

Lemma q_pow_9 : q ^ 9 <= 1 / 2.
Proof. simpl. lra. Qed.

Lemma q_pow_99 : q ^ 99 <= / 2 ^ 13.
Proof.
  change 99%nat with (15 * 6 + 9)%nat. rewrite pow_add, pow_mult.
  pose proof (grid_pos 15) as H15. pose proof (grid_pos 9) as H9.
  assert (H90 : (q ^ 15) ^ 6 <= (1 / 4) ^ 6).
  { apply pow_incr. split; [lra | exact q_pow_15]. }
  assert (Hpos : 0 < (q ^ 15) ^ 6) by (apply pow_lt; exact H15).
  pose proof q_pow_9.
  replace (/ 2 ^ 13) with ((1 / 4) ^ 6 * (1 / 2)) by (simpl; lra).
  assert (0 < (1 / 4) ^ 6) by (apply pow_lt; lra).
  nra.
Qed.

Lemma stall_shrink_pos : 0 < stall_shrink.
Proof. unfold stall_shrink. pose proof (grid_pos 99). lra. Qed.

Lemma stall_shrink_small : stall_shrink <= / 2 ^ 11.
Proof.
  unfold stall_shrink. pose proof q_pow_99.
  replace (/ 2 ^ 11) with (4 * / 2 ^ 13) by (simpl; lra). lra.
Qed.

Lemma stall_shrink_pow_pos (k : nat) : 0 < stall_shrink ^ k.
Proof. apply pow_lt, stall_shrink_pos. Qed.

Lemma stall_shrink_pow_small (k : nat) : stall_shrink ^ S k <= / 2 ^ 11.
Proof.
  induction k as [| k IH]; [rewrite Rfunctions.pow_1; exact stall_shrink_small |].
  change (stall_shrink ^ S (S k)) with (stall_shrink * stall_shrink ^ S k).
  pose proof stall_shrink_pos. pose proof stall_shrink_small.
  pose proof (stall_shrink_pow_pos (S k)).
  assert (/ 2 ^ 11 <= 1) by (simpl; lra). nra.
Qed.

(** The step size after the fifth pass is below half the distance between
    neighbouring doubles at 1. *)
Lemma stall_shrink_pow_5 : stall_shrink ^ 5 < / 2 ^ 53.
Proof.
  assert (H : stall_shrink ^ 5 <= (/ 2 ^ 11) ^ 5).
  { apply pow_incr. split; [left; exact stall_shrink_pos | exact stall_shrink_small]. }
  assert ((/ 2 ^ 11) ^ 5 < / 2 ^ 53) by (simpl; lra). lra.
Qed.

Lemma stall_shrink_pow (k : nat) : stall_shrink ^ k = 4 ^ k * q ^ (99 * k).
Proof.
  unfold stall_shrink. rewrite Rpow_mult_distr, <- pow_mult. reflexivity.
Qed.

Lemma q_pow_ratio (a : nat) : q ^ a = 10 ^ a / 11 ^ a.
Proof.
  induction a as [| a IH]; simpl; [lra |].
  rewrite IH. field. apply pow_nonzero. lra.
Qed.

(** The times at which the passes are entered. *)
Lemma stall_time_bounds (k : nat) :
  (k <= 8)%nat ->
  1 <= stall_time k <= 1 + INR k / 16.
Proof.
  induction k as [| k IH]; intros Hk; [simpl; lra |].
  specialize (IH ltac:(lia)).
  cbn [stall_time]. unfold binary64.add.
  pose proof (stall_shrink_pow_pos (S k)) as Hpos.
  pose proof (stall_shrink_pow_small k) as Hsmall.
  assert (H11 : / 2 ^ 11 <= 1 / 16) by (simpl; lra).
  assert (Hk8 : INR k <= 8).
  { replace 8 with (INR 8) by (simpl; lra). apply le_INR. lia. }
  pose proof (round_between (stall_time k + stall_shrink ^ S k)
                (2 ^ 52) (2 ^ 52 + Z.of_nat (S k) * 2 ^ 48)) as Hr.
  assert (H48 : IZR (2 ^ 48) = 2 ^ 52 / 16).
  { change (2 ^ 48)%Z with (2 ^ Z.of_nat 48)%Z. rewrite <- pow_IZR. simpl. lra. }
  assert (Hp : 0 < 2 ^ 52) by (apply pow_lt; lra).
  assert (Hhi : IZR (2 ^ 52 + Z.of_nat (S k) * 2 ^ 48) / 2 ^ 52
                = 1 + INR (S k) / 16).
  { rewrite plus_IZR, mult_IZR, IZR_2_52, H48, <- INR_IZR_INZ. field. }
  assert (Hlo : IZR (2 ^ 52) / 2 ^ 52 = 1) by (rewrite IZR_2_52; field).
  rewrite Hhi, Hlo in Hr. rewrite S_INR in *.
  apply Hr; lra.
Qed.

Lemma stall_time_dyadic (k : nat) : (k <= 8)%nat -> dyadic (stall_time k).
Proof.
  destruct k as [| k]; intros Hk.
  - exists 1%Z, 0%nat. simpl. lra.
  - cbn [stall_time]. unfold binary64.add.
    destruct (stall_time_bounds k ltac:(lia)) as [Hlo Hhi].
    pose proof (stall_shrink_pow_pos (S k)) as Hpos.
    pose proof (stall_shrink_pow_small k) as Hsmall.
    assert (H11 : / 2 ^ 11 <= 1 / 16) by (simpl; lra).
    assert (Hk8 : INR k <= 8).
    { replace 8 with (INR 8) by (simpl; lra). apply le_INR. lia. }
    rewrite round_1_2 by lra.
    eexists _, 52%nat. reflexivity.
Qed.

Lemma stall_time_representable (k : nat) :
  (k <= 8)%nat -> binary64.representable (stall_time k).
Proof.
  destruct k as [| k]; intros Hk; [exact representable_1 |].
  cbn [stall_time]. apply add_representable.
  destruct (stall_time_bounds k ltac:(lia)) as [Hlo _].
  pose proof (stall_shrink_pow_pos (S k)). lra.
Qed.

Lemma dyadic_minus (x y : R) : dyadic x -> dyadic y -> dyadic (x - y).
Proof.
  intros (n & s & ->) (m & r & ->).
  exists (n * 2 ^ Z.of_nat r - m * 2 ^ Z.of_nat s)%Z, (s + r)%nat.
  rewrite minus_IZR, !mult_IZR, <- !pow_IZR, pow_add.
  field. split; apply pow_nonzero; lra.
Qed.

End StallGrid.
(** ** No two points of the bursts coincide by accident *)

Section Coincidences.

Local Open Scope Z_scope.

Lemma prime_11 : Z.prime 11.
Proof.
  split; [lia |]. intros n Hn [z Hz].
  assert (Hcases : n = 2 \/ n = 3 \/ n = 4 \/ n = 5 \/ n = 6
                   \/ n = 7 \/ n = 8 \/ n = 9 \/ n = 10) by lia.
  destruct Hcases as [-> | [-> | [-> | [-> | [-> | [-> | [-> | [-> | ->]]]]]]]];
    lia.
Qed.

Lemma div_11_mult (x y : Z) : (11 | x * y) -> ~ (11 | x) -> (11 | y).
Proof.
  intros H Hx. destruct (proj1 (Z.divide_prime_mul x y 11 prime_11) H) as [Hd | Hd];
    [contradiction | exact Hd].
Qed.

Lemma not_div_11_pow (x : Z) (n : nat) :
  ~ (11 | x) -> ~ (11 | x ^ Z.of_nat n).
Proof.
  intros Hx. induction n as [| n IH].
  - simpl. intros [z Hz]. lia.
  - rewrite Nat2Z.inj_succ, Z.pow_succ_r by lia.
    intros H. apply IH. exact (div_11_mult _ _ H Hx).
Qed.

Lemma not_div_11_small (c : Z) : 0 < c < 11 -> ~ (11 | c).
Proof. intros Hc [z Hz]. lia. Qed.

Lemma div_11_pow (n : nat) : (0 < n)%nat -> (11 | 11 ^ Z.of_nat n).
Proof.
  intros Hn. destruct n as [| n]; [lia |].
  rewrite Nat2Z.inj_succ, Z.pow_succ_r by lia. apply Z.divide_factor_l.
Qed.

Local Ltac opaque_ring :=
  repeat match goal with x := _ : Z |- _ => clearbody x end; ring.

(** The integer form of a coincidence: a dyadic number [n / 2^s] equal to
    [4^k (10/11)^a - C/4 4^k' (10/11)^b]. *)
Lemma coincidence_exponents (n : Z) (s k k' a b : nat) (C : Z) :
  0 <= C <= 4 ->
  n * 4 * 11 ^ Z.of_nat a * 11 ^ Z.of_nat b
  = 2 ^ Z.of_nat s
    * (4 * 4 ^ Z.of_nat k * 10 ^ Z.of_nat a * 11 ^ Z.of_nat b
       - C * 4 ^ Z.of_nat k' * 10 ^ Z.of_nat b * 11 ^ Z.of_nat a) ->
  a = 0%nat
  \/ (a = b /\ (11 | 4 * 4 ^ Z.of_nat k - C * 4 ^ Z.of_nat k')).
Proof.
  intros HC Heq.
  set (S2 := 2 ^ Z.of_nat s) in *. set (K := 4 ^ Z.of_nat k) in *.
  set (K' := 4 ^ Z.of_nat k') in *.
  assert (HS2 : ~ (11 | S2)) by (apply not_div_11_pow, not_div_11_small; lia).
  assert (HK : ~ (11 | K)) by (apply not_div_11_pow, not_div_11_small; lia).
  assert (HK' : ~ (11 | K')) by (apply not_div_11_pow, not_div_11_small; lia).
  assert (H10 : forall i : nat, ~ (11 | 10 ^ Z.of_nat i))
    by (intros i; apply not_div_11_pow, not_div_11_small; lia).
  assert (H4 : ~ (11 | 4)) by (apply not_div_11_small; lia).
  assert (Hpos : forall i : nat, 11 ^ Z.of_nat i <> 0)
    by (intros i; apply Z.pow_nonzero; lia).
  destruct (Nat.eq_dec a 0%nat) as [Ha0 | Ha0]; [left; exact Ha0 | right].
  destruct (lt_eq_lt_dec a b) as [[Hlt | Heqab] | Hgt].
  - exfalso.
    replace b with (a + (b - a))%nat in Heq by lia.
    rewrite Nat2Z.inj_add, !Z.pow_add_r in Heq by lia.
    set (A := 11 ^ Z.of_nat a) in *. set (D := 11 ^ Z.of_nat (b - a)) in *.
    set (Ta := 10 ^ Z.of_nat a) in *. set (Td := 10 ^ Z.of_nat (b - a)) in *.
    assert (Hc : n * 4 * A * D = S2 * (4 * K * Ta * D - C * K' * (Ta * Td))).
    { apply (Z.mul_reg_l _ _ A (Hpos a)).
      transitivity (n * 4 * A * (A * D)); [opaque_ring |]. rewrite Heq. opaque_ring. }
    assert (HD : (11 | D)) by (apply div_11_pow; lia).
    assert (Hdiv : (11 | S2 * (C * (K' * (Ta * Td))))).
    { replace (S2 * (C * (K' * (Ta * Td))))
        with (S2 * (4 * K * Ta) * D - n * 4 * A * D) by (rewrite Hc; opaque_ring).
      apply Z.divide_sub_r; apply Z.divide_mul_r; exact HD. }
    apply div_11_mult in Hdiv; [| exact HS2].
    assert (HC0 : C = 0).
    { destruct (Z.eq_dec C 0) as [-> | HCn]; [reflexivity |]. exfalso.
      apply div_11_mult in Hdiv; [| apply not_div_11_small; lia].
      apply div_11_mult in Hdiv; [| exact HK'].
      apply div_11_mult in Hdiv; [| exact (H10 a)].
      exact (H10 _ Hdiv). }
    rewrite HC0 in Hc.
    assert (Hc' : n * 4 * A = S2 * (4 * K * Ta)).
    { apply (Z.mul_reg_l _ _ D (Hpos (b - a)%nat)).
      transitivity (n * 4 * A * D); [opaque_ring |]. rewrite Hc. opaque_ring. }
    assert (HA : (11 | A)) by (apply div_11_pow; lia).
    assert (Hd : (11 | S2 * (4 * K * Ta))).
    { rewrite <- Hc'. apply Z.divide_mul_r. exact HA. }
    apply div_11_mult in Hd; [| exact HS2].
    replace (4 * K * Ta) with (4 * (K * Ta)) in Hd by opaque_ring.
    apply div_11_mult in Hd; [| exact H4].
    apply div_11_mult in Hd; [| exact HK]. exact (H10 a Hd).
  - split; [exact Heqab |]. subst b.
    set (A := 11 ^ Z.of_nat a) in *. set (Ta := 10 ^ Z.of_nat a) in *.
    assert (Hc : n * 4 * A = S2 * (Ta * (4 * K - C * K'))).
    { apply (Z.mul_reg_l _ _ A (Hpos a)).
      transitivity (n * 4 * A * A); [opaque_ring |]. rewrite Heq. opaque_ring. }
    assert (HA : (11 | A)) by (apply div_11_pow; lia).
    assert (Hd : (11 | S2 * (Ta * (4 * K - C * K'))))
      by (rewrite <- Hc; apply Z.divide_mul_r; exact HA).
    apply div_11_mult in Hd; [| exact HS2].
    apply div_11_mult in Hd; [| exact (H10 a)]. exact Hd.
  - exfalso.
    replace a with (b + (a - b))%nat in Heq by lia.
    rewrite Nat2Z.inj_add, !Z.pow_add_r in Heq by lia.
    set (B := 11 ^ Z.of_nat b) in *. set (D := 11 ^ Z.of_nat (a - b)) in *.
    set (Tb := 10 ^ Z.of_nat b) in *. set (Td := 10 ^ Z.of_nat (a - b)) in *.
    assert (Hc : n * 4 * B * D = S2 * (4 * K * (Tb * Td) - C * K' * Tb * D)).
    { apply (Z.mul_reg_l _ _ B (Hpos b)).
      transitivity (n * 4 * (B * D) * B); [opaque_ring |]. rewrite Heq. opaque_ring. }
    assert (HD : (11 | D)) by (apply div_11_pow; lia).
    assert (Hdiv : (11 | S2 * (4 * (K * (Tb * Td))))).
    { replace (S2 * (4 * (K * (Tb * Td))))
        with (n * 4 * B * D + S2 * (C * K' * Tb) * D) by (rewrite Hc; opaque_ring).
      apply Z.divide_add_r; apply Z.divide_mul_r; exact HD. }
    apply div_11_mult in Hdiv; [| exact HS2].
    apply div_11_mult in Hdiv; [| exact H4].
    apply div_11_mult in Hdiv; [| exact HK].
    apply div_11_mult in Hdiv; [| exact (H10 b)].
    exact (H10 _ Hdiv).
Qed.

End Coincidences.
(** ** The heating rate on and off the bursts *)

Section StallHeating.

Local Abbreviation q := (10 / 11).

Lemma IZR_quarter_bounds (C : Z) : (0 <= C <= 4)%Z -> 0 <= IZR C <= 4.
Proof. intros [H0 H4]. split; apply IZR_le; assumption. Qed.

(** A sample time of an attempt of pass [k' + 1] is a spike of burst [k]
    only if it is the end of that attempt, in the same pass. *)
Lemma grids_disjoint (k k' m j : nat) (C : Z) :
  (k <= 5)%nat -> (k' <= 5)%nat -> (0 <= C <= 4)%Z ->
  (j <= 99)%nat -> (m < 99)%nat ->
  stall_time k' + IZR C / 4 * (stall_shrink ^ k' * q ^ j)
  = stall_time k + stall_shrink ^ k * q ^ m ->
  C = 4%Z /\ k' = k /\ j = m.
Proof.
  intros Hk Hk' HC Hj Hm Heq.
  pose proof (IZR_quarter_bounds C HC) as HCr.
  destruct (dyadic_minus _ _ (stall_time_dyadic k' ltac:(lia))
              (stall_time_dyadic k ltac:(lia))) as (n & s & Hd).
  set (a := (99 * k + m)%nat). set (b := (99 * k' + j)%nat).
  assert (Hd' : IZR n / 2 ^ s
                = 4 ^ k * (10 ^ a / 11 ^ a)
                  - IZR C / 4 * (4 ^ k' * (10 ^ b / 11 ^ b))).
  { rewrite <- Hd, <- !q_pow_ratio. unfold a, b. rewrite !pow_add.
    rewrite !stall_shrink_pow in Heq. lra. }
  assert (H2 : 2 ^ s <> 0) by (apply pow_nonzero; lra).
  assert (H11a : 11 ^ a <> 0) by (apply pow_nonzero; lra).
  assert (H11b : 11 ^ b <> 0) by (apply pow_nonzero; lra).
  assert (HR : IZR n * 4 * 11 ^ a * 11 ^ b
               = 2 ^ s * (4 * 4 ^ k * 10 ^ a * 11 ^ b
                          - IZR C * 4 ^ k' * 10 ^ b * 11 ^ a)).
  { replace (IZR n) with (IZR n / 2 ^ s * 2 ^ s) by (field; exact H2).
    rewrite Hd'. field. split; assumption. }
  assert (HZ : (n * 4 * 11 ^ Z.of_nat a * 11 ^ Z.of_nat b
                = 2 ^ Z.of_nat s
                  * (4 * 4 ^ Z.of_nat k * 10 ^ Z.of_nat a * 11 ^ Z.of_nat b
                     - C * 4 ^ Z.of_nat k' * 10 ^ Z.of_nat b * 11 ^ Z.of_nat a))%Z).
  { apply eq_IZR. rewrite !mult_IZR, minus_IZR, !mult_IZR, <- !pow_IZR.
    exact HR. }
  destruct (coincidence_exponents n s k k' a b C HC HZ) as [Ha0 | [Hab Hdiv]].
  - assert (Hk0 : k = 0%nat) by (unfold a in Ha0; lia).
    assert (Hm0 : m = 0%nat) by (unfold a in Ha0; lia).
    subst k m. cbn [stall_time pow] in Heq.
    pose proof (grid_pos j) as Hqj. pose proof (grid_le_1 j) as Hqj1.
    destruct k' as [| k'].
    + cbn [stall_time pow] in Heq.
      assert (HC4 : IZR C = 4) by nra.
      assert (Hq1 : q ^ j = 1) by nra.
      split; [apply eq_IZR; exact HC4 |]. split; [reflexivity |].
      destruct j as [| j]; [reflexivity | exfalso].
      pose proof (grid_pos j). pose proof (grid_le_1 j).
      simpl in Hq1. nra.
    + exfalso.
      destruct (stall_time_bounds (S k') ltac:(lia)) as [_ Hhi].
      pose proof (stall_shrink_pow_small k') as Hsmall.
      pose proof (stall_shrink_pow_pos (S k')) as Hpos.
      assert (H11 : / 2 ^ 11 <= 1 / 16) by (simpl; lra).
      assert (HS : INR (S k') <= 5).
      { replace 5 with (INR 5) by (simpl; lra). apply le_INR. lia. }
      assert (Hprod : stall_shrink ^ S k' * q ^ j <= 1 / 16) by nra.
      assert (Hprod0 : 0 <= stall_shrink ^ S k' * q ^ j) by nra.
      assert (IZR C / 4 * (stall_shrink ^ S k' * q ^ j) <= 1 / 16) by nra.
      lra.
  - unfold a, b in Hab.
    assert (Hcases : (k' = k /\ j = m) \/ (k = S k' /\ m = 0 /\ j = 99)%nat)
      by lia.
    destruct Hcases as [[-> ->] | (-> & -> & ->)].
    + split; [| split; reflexivity].
      replace (4 * 4 ^ Z.of_nat k - C * 4 ^ Z.of_nat k)%Z
        with (4 ^ Z.of_nat k * (4 - C))%Z in Hdiv by ring.
      apply div_11_mult in Hdiv;
        [| apply not_div_11_pow, not_div_11_small; lia].
      destruct Hdiv as [z Hz]. lia.
    + exfalso.
      rewrite Nat2Z.inj_succ, Z.pow_succ_r in Hdiv by lia.
      replace (4 * (4 * 4 ^ Z.of_nat k') - C * 4 ^ Z.of_nat k')%Z
        with (4 ^ Z.of_nat k' * (16 - C))%Z in Hdiv by ring.
      apply div_11_mult in Hdiv;
        [| apply not_div_11_pow, not_div_11_small; lia].
      destruct Hdiv as [z Hz]. lia.
Qed.

Lemma on_grid_scaled (k m : nat) (t : R) :
  (t - stall_time k) / stall_shrink ^ k = q ^ m ->
  t = stall_time k + stall_shrink ^ k * q ^ m.
Proof.
  intros Heq. pose proof (stall_shrink_pow_pos k) as Hpos.
  rewrite <- Heq. field. lra.
Qed.

(** Off the spikes the heating rate is that of the concrete loop. *)
Lemma stall_heating_off (n k j : nat) (C : Z) :
  (n <= 5)%nat -> (k <= 5)%nat -> (0 <= C <= 4)%Z -> (j <= 99)%nat ->
  C <> 4%Z \/ j = 99%nat \/ (n <= k)%nat ->
  stall_heating n (stall_time k + IZR C / 4 * (stall_shrink ^ k * q ^ j))
  = 3.48e-7.
Proof.
  intros Hn Hk HC Hj Hoff. induction n as [| n IH]; [reflexivity |].
  cbn [stall_heating].
  destruct (on_grid 99 _) eqn:Hon.
  - exfalso. apply on_grid_true in Hon as (m & Hm & Heq).
    apply on_grid_scaled in Heq.
    destruct (grids_disjoint n k m j C ltac:(lia) Hk HC Hj Hm Heq)
      as (HC4 & Hkn & Hjm).
    lia.
  - apply IH; [lia |]. destruct Hoff as [H | [H | H]]; [tauto | tauto |].
    right. right. lia.
Qed.

(** At spike [j] of burst [k] it is raised by the inverse of the distance
    from the start of the burst. *)
Lemma stall_heating_on (n k j : nat) :
  (n <= 5)%nat -> (k < n)%nat -> (j < 99)%nat ->
  stall_heating n (stall_time k + stall_shrink ^ k * q ^ j)
  = 3.48e-7 + 1 / (stall_shrink ^ k * q ^ j).
Proof.
  intros Hn Hk Hj. induction n as [| n IH]; [lia |].
  cbn [stall_heating].
  pose proof (stall_shrink_pow_pos k) as Hpos.
  destruct (Nat.eq_dec n k) as [-> | Hne].
  - replace ((stall_time k + stall_shrink ^ k * q ^ j - stall_time k)
             / stall_shrink ^ k)
      with (q ^ j) by (field; lra).
    rewrite on_grid_member by exact Hj.
    replace (stall_time k + stall_shrink ^ k * q ^ j - stall_time k)
      with (stall_shrink ^ k * q ^ j) by lra.
    reflexivity.
  - destruct (on_grid 99 _) eqn:Hon.
    + exfalso. apply on_grid_true in Hon as (m & Hm & Heq).
      apply on_grid_scaled in Heq.
      assert (Heq' : stall_time k + IZR 4 / 4 * (stall_shrink ^ k * q ^ j)
                     = stall_time n + stall_shrink ^ n * q ^ m) by lra.
      destruct (grids_disjoint n k m j 4 ltac:(lia) ltac:(lia) ltac:(lia)
                  ltac:(lia) Hm Heq') as (_ & Hkn & _).
      lia.
    + apply IH; lia.
Qed.

(** Time 0, at which the initial conditions read the heating rate, is
    before all bursts. *)
Lemma stall_heating_0 (n : nat) : (n <= 5)%nat -> stall_heating n 0.0 = 3.48e-7.
Proof.
  intros Hn. induction n as [| n IH]; [reflexivity |].
  cbn [stall_heating].
  destruct (on_grid 99 _) eqn:Hon; [exfalso | apply IH; lia].
  apply on_grid_true in Hon as (m & Hm & Heq).
  apply on_grid_scaled in Heq.
  destruct (stall_time_bounds n ltac:(lia)) as [Hlo _].
  pose proof (stall_shrink_pow_pos n). pose proof (grid_pos m).
  assert (0 < stall_shrink ^ n * q ^ m) by (apply Rmult_lt_0_compat; assumption).
  lra.
Qed.

End StallHeating.
(** ** One attempt of the adaptive integrator at the seed state *)

Section SeedAttempt.
#[local] Existing Instance cgs.
Variable this : Loop.t.
Variables (T tau : R).

Local Abbreviation seed := [1.242e-16; 1.242e-16; 1].
Local Abbreviation kick :=
  [2 / 3 * (1 / tau) * balanced_partition;
   2 / 3 * (1 / tau) * (1 - balanced_partition); 0].

Hypothesis Hrka : Parameters.rka_error (Loop.parameters this) = 1e-6.
Hypothesis Htau : 0 < tau.
Hypothesis Hrest :
  forall c t, c = 0 \/ c = 1 / 4 \/ c = 1 / 2 \/ c = 3 / 4 ->
    t = T + c * tau -> CalculateDerivs this seed t = [0; 0; 0].

Lemma seed_first_half : RK4Solver this seed T (tau * 0.5) = seed.
Proof.
  rewrite (RK4Solver_late_kick this _ _ _ T (tau * 0.5) 0 0 0).
  - repeat f_equal; lra.
  - apply (Hrest 0); [tauto | lra].
  - apply (Hrest (1 / 4)); [tauto | lra].
  - apply (Hrest (1 / 2)); [tauto | lra].
Qed.

(** The derivatives vanish at the end of the attempt as well: the two half
    steps and the whole step leave the state where it is. *)
Lemma seed_attempt_at_rest :
  (forall t, t = T + tau -> CalculateDerivs this seed t = [0; 0; 0]) ->
  small_step (RKA4_attempt this seed T tau) = seed
  /\ error_ratio (RKA4_attempt this seed T tau) = 0.
Proof.
  intros Hend.
  assert (Hsmall : RK4Solver this seed (T + tau * 0.5) (tau * 0.5) = seed).
  { rewrite (RK4Solver_late_kick this _ _ _ (T + tau * 0.5) (tau * 0.5) 0 0 0).
    - repeat f_equal; lra.
    - apply (Hrest (1 / 2)); [tauto | lra].
    - apply (Hrest (3 / 4)); [tauto | lra].
    - apply Hend. lra. }
  assert (Hbig : RK4Solver this seed T tau = seed).
  { rewrite (RK4Solver_late_kick this _ _ _ T tau 0 0 0).
    - repeat f_equal; lra.
    - apply (Hrest 0); [tauto | lra].
    - apply (Hrest (1 / 2)); [tauto | lra].
    - apply Hend. lra. }
  unfold RKA4_attempt. cbn [small_step error_ratio].
  rewrite seed_first_half, Hsmall, Hbig. split; [reflexivity |].
  cbn [length]. rewrite error_ratios_3. unfold component_ratio.
  cbn [lookup_total list_lookup_total max_element fold_left].
  rewrite !Rminus_diag, Rabs_R0. unfold Rdiv. rewrite !Rmult_0_l.
  rewrite (Rmax_left 0 0) by lra. apply Rmax_left. lra.
Qed.

(** The heating is raised by [1 / tau] at the end of the attempt: the two
    half steps and the whole step end on the spike, and differ by more than
    the tolerance. *)
Lemma seed_attempt_kicked :
  (forall t, t = T + tau -> CalculateDerivs this seed t = kick) ->
  ~ error_ratio (RKA4_attempt this seed T tau) < 1.
Proof.
  intros Hend.
  assert (Hsmall : RK4Solver this seed (T + tau * 0.5) (tau * 0.5)
                   = [1.242e-16 + balanced_partition / 18;
                      1.242e-16 + (1 - balanced_partition) / 18; 1]).
  { rewrite (RK4Solver_late_kick this _ _ _ (T + tau * 0.5) (tau * 0.5)
               (2 / 3 * (1 / tau) * balanced_partition)
               (2 / 3 * (1 / tau) * (1 - balanced_partition)) 0).
    - replace 0.5 with (1 / 2) by lra. repeat f_equal; field; lra.
    - apply (Hrest (1 / 2)); [tauto | lra].
    - apply (Hrest (3 / 4)); [tauto | lra].
    - apply Hend. lra. }
  assert (Hbig : RK4Solver this seed T tau
                 = [1.242e-16 + balanced_partition / 9;
                    1.242e-16 + (1 - balanced_partition) / 9; 1]).
  { rewrite (RK4Solver_late_kick this _ _ _ T tau
               (2 / 3 * (1 / tau) * balanced_partition)
               (2 / 3 * (1 / tau) * (1 - balanced_partition)) 0).
    - repeat f_equal; field; lra.
    - apply (Hrest 0); [tauto | lra].
    - apply (Hrest (1 / 2)); [tauto | lra].
    - apply Hend. lra. }
  unfold RKA4_attempt. cbn [error_ratio].
  rewrite seed_first_half, Hsmall, Hbig.
  cbn [length]. rewrite error_ratios_3. cbn [max_element fold_left].
  intros Hlt.
  assert (Hone : 1 <= component_ratio this
                        [1.242e-16 + balanced_partition / 18;
                         1.242e-16 + (1 - balanced_partition) / 18; 1]
                        [1.242e-16 + balanced_partition / 9;
                         1.242e-16 + (1 - balanced_partition) / 9; 1] 0).
  { unfold component_ratio. cbn [lookup_total list_lookup_total].
    rewrite Hrka. unfold balanced_partition.
    rewrite Rabs_left, !Rabs_right by lra.
    apply ratio_ge_1; lra. }
  match type of Hlt with
  | Rmax (Rmax ?x ?y) ?z < 1 =>
      pose proof (Rmax_l x y); pose proof (Rmax_l (Rmax x y) z)
  end.
  lra.
Qed.

End SeedAttempt.

(** ** The passes of the stalling run *)

Section StallPass.
#[local] Existing Instance cgs.
Variable this : Loop.t.

Local Abbreviation seed := [1.242e-16; 1.242e-16; 1].
Local Abbreviation q := (10 / 11).

Hypothesis Hspitzer :
  Parameters.use_spitzer_conductivity (Loop.parameters this) = true.
Hypothesis Hloss :
  Parameters.use_c1_loss_correction (Loop.parameters this) = false.
Hypothesis Hgrav :
  Parameters.use_c1_grav_correction (Loop.parameters this) = false.
Hypothesis Hlength : Parameters.loop_length (Loop.parameters this) = 1.
Hypothesis Hbc : Parameters.boltzmann_correction (Loop.parameters this) = 1.
Hypothesis Hrka : Parameters.rka_error (Loop.parameters this) = 1e-6.
Hypothesis Hsolver : Parameters.solver (Loop.parameters this) = "rka4"%string.
Hypothesis Hrad :
  forall x, GetPowerLawRad (Loop.radiation_model this) x = 1.16e-7.
Hypothesis Hheater : Loop.heater this = stall_heater.

Lemma stall_derivs (t : R) :
  CalculateDerivs this seed t
  = [2 / 3 * (stall_heating 5 t - 3.48e-7) * balanced_partition;
     2 / 3 * (stall_heating 5 t - 3.48e-7) * (1 - balanced_partition); 0].
Proof.
  rewrite example_derivs_heated; try assumption.
  rewrite Hheater. cbn [stall_heater Get_Heating partition].
  unfold balanced_partition. repeat f_equal; lra.
Qed.

Lemma stall_rest (k j : nat) (C : Z) (t : R) :
  (k <= 5)%nat -> (j <= 99)%nat -> (0 <= C <= 4)%Z ->
  C <> 4%Z \/ j = 99%nat \/ (5 <= k)%nat ->
  t = stall_time k + IZR C / 4 * (stall_shrink ^ k * q ^ j) ->
  CalculateDerivs this seed t = [0; 0; 0].
Proof.
  intros Hk Hj HC Hoff ->.
  rewrite stall_derivs, stall_heating_off by (assumption || lia).
  repeat f_equal; lra.
Qed.

Lemma stall_kick (k j : nat) (t : R) :
  (k < 5)%nat -> (j < 99)%nat ->
  t = stall_time k + stall_shrink ^ k * q ^ j ->
  CalculateDerivs this seed t
  = [2 / 3 * (1 / (stall_shrink ^ k * q ^ j)) * balanced_partition;
     2 / 3 * (1 / (stall_shrink ^ k * q ^ j)) * (1 - balanced_partition); 0].
Proof.
  intros Hk Hj ->. rewrite stall_derivs, stall_heating_on by lia.
  repeat f_equal; lra.
Qed.

Lemma stall_step_pos (k j : nat) : 0 < stall_shrink ^ k * q ^ j.
Proof.
  apply Rmult_lt_0_compat; [apply stall_shrink_pow_pos | apply grid_pos].
Qed.

Lemma stall_inner_rest (k j : nat) (c t : R) :
  (k <= 5)%nat -> (j <= 99)%nat ->
  c = 0 \/ c = 1 / 4 \/ c = 1 / 2 \/ c = 3 / 4 ->
  t = stall_time k + c * (stall_shrink ^ k * q ^ j) ->
  CalculateDerivs this seed t = [0; 0; 0].
Proof.
  intros Hk Hj Hc Ht.
  destruct Hc as [-> | [-> | [-> | ->]]].
  - apply (stall_rest k j 0); [assumption | assumption | lia | left; lia | lra].
  - apply (stall_rest k j 1); [assumption | assumption | lia | left; lia | lra].
  - apply (stall_rest k j 2); [assumption | assumption | lia | left; lia | lra].
  - apply (stall_rest k j 3); [assumption | assumption | lia | left; lia | lra].
Qed.

(** Each of the first 99 attempts of pass [k + 1] ends on a spike. *)
Lemma stall_rejected (k j : nat) :
  (k < 5)%nat -> (j < 99)%nat ->
  ~ error_ratio (RKA4_attempt this seed (stall_time k)
                   (stall_shrink ^ k * q ^ j)) < 1.
Proof.
  intros Hk Hj. apply seed_attempt_kicked.
  - exact Hrka.
  - apply stall_step_pos.
  - intros c t Hc Ht. apply (stall_inner_rest k j c); (assumption || lia).
  - intros t Ht. apply stall_kick; assumption.
Qed.

(** The hundredth attempt meets no spike. *)
Lemma stall_accepted (k : nat) :
  (k <= 5)%nat ->
  small_step (RKA4_attempt this seed (stall_time k)
                (stall_shrink ^ k * q ^ 99)) = seed
  /\ error_ratio (RKA4_attempt this seed (stall_time k)
                    (stall_shrink ^ k * q ^ 99)) = 0.
Proof.
  intros Hk. apply seed_attempt_at_rest.
  - intros c t Hc Ht. apply (stall_inner_rest k 99 c); (assumption || lia).
  - intros t Ht. apply (stall_rest k 99 4); [assumption | lia | lia | tauto |].
    rewrite Ht. lra.
Qed.

Lemma stall_next_step (k : nat) :
  safety_3 * (stall_shrink ^ k * q ^ 99) = stall_shrink ^ S k.
Proof.
  change (stall_shrink ^ S k) with (stall_shrink * stall_shrink ^ k).
  assert (Hs : stall_shrink = 4 * q ^ 99) by reflexivity.
  generalize dependent (q ^ 99). intros w Hs. rewrite Hs.
  generalize (stall_shrink ^ k). intros p. unfold safety_3. lra.
Qed.

Lemma stall_attempts (d j k : nat) :
  (k < 5)%nat -> (j + d = 99)%nat ->
  RKA4_attempts this d seed (stall_time k) (stall_shrink ^ k * q ^ j)
  = ([], seed ++ [stall_shrink ^ S k]).
Proof.
  intros Hk. revert j. induction d as [| d IH]; intros j Hj.
  - replace j with 99%nat by lia.
    destruct (stall_accepted k ltac:(lia)) as [Hsmall Hratio].
    rewrite RKA4_attempts_unfold. cbv zeta.
    destruct (Rlt_dec _ 1) as [_ | Hn]; [| rewrite Hratio in Hn; lra].
    rewrite Hsmall. unfold capped_tau. rewrite Hratio, RKA4_attempt_old_tau.
    destruct (Req_dec_T 0 0) as [_ | Hn]; [| lra].
    rewrite stall_next_step. reflexivity.
  - pose proof (stall_rejected k j Hk ltac:(lia)) as Hrej.
    rewrite RKA4_attempts_unfold. cbv zeta.
    destruct (Rlt_dec _ 1) as [Hacc | _]; [contradiction |].
    rewrite rejected_new_tau; [| apply stall_step_pos | exact Hrej].
    replace (stall_shrink ^ k * q ^ j / 1.1)
      with (stall_shrink ^ k * q ^ S j) by (simpl; lra).
    apply IH. lia.
Qed.

Lemma stall_RKA4Solver (k : nat) :
  (k < 5)%nat ->
  RKA4Solver this seed (stall_time k) (stall_shrink ^ k)
  = ([], seed ++ [stall_shrink ^ S k]).
Proof.
  intros Hk. unfold RKA4Solver, max_try. simpl Nat.sub.
  replace (stall_shrink ^ k) with (stall_shrink ^ k * q ^ 0) at 1
    by (simpl; lra).
  apply stall_attempts; [exact Hk | lia].
Qed.

End StallPass.
(** ** The stalling run from construction to its fifth pass *)

Section BinaryLoop.
Context `{PhysicalConstants}.

Lemma EvolveLoop_body_binary64_unfold (this : Loop.t) (v : EvolveVars) :
  EvolveLoop_body_binary64 this v
  = (SaveResults
       (dem_step (fst (solver_step this (ev_time v) (ev_tau v))) (ev_i v))
       (ev_i v) (ev_time v),
     {| ev_i := ev_i v + 1;
        ev_time := binary64.add (ev_time v)
                     (snd (solver_step this (ev_time v) (ev_tau v)));
        ev_tau := snd (solver_step this (ev_time v) (ev_tau v)) |}).
Proof.
  unfold EvolveLoop_body_binary64.
  destruct (solver_step this (ev_time v) (ev_tau v)). reflexivity.
Qed.

(** The rounding of the time does not touch the object. *)
Lemma EvolveLoop_body_binary64_object (this : Loop.t) (v : EvolveVars) :
  fst (EvolveLoop_body_binary64 this v) = fst (EvolveLoop_body this v)
  /\ ev_tau (snd (EvolveLoop_body_binary64 this v))
     = ev_tau (snd (EvolveLoop_body this v))
  /\ ev_i (snd (EvolveLoop_body_binary64 this v))
     = ev_i (snd (EvolveLoop_body this v)).
Proof.
  rewrite EvolveLoop_body_binary64_unfold, EvolveLoop_body_unfold.
  repeat split.
Qed.

Lemma EvolveLoop_passes_binary64_S (k : nat) (this : Loop.t) (v : EvolveVars) :
  EvolveLoop_passes_binary64 (S k) this v
  = EvolveLoop_body_binary64 (fst (EvolveLoop_passes_binary64 k this v))
      (snd (EvolveLoop_passes_binary64 k this v)).
Proof.
  simpl. destruct (EvolveLoop_passes_binary64 k this v). reflexivity.
Qed.

Lemma EvolveLoop_passes_binary64_frame (k : nat) (this : Loop.t)
    (v : EvolveVars) :
  let this' := fst (EvolveLoop_passes_binary64 k this v) in
  Loop.parameters this' = Loop.parameters this
  /\ Loop.N this' = Loop.N this
  /\ Loop.radiation_model this' = Loop.radiation_model this
  /\ Loop.heater this' = Loop.heater this.
Proof.
  induction k as [| k IH].
  - repeat split.
  - rewrite EvolveLoop_passes_binary64_S. cbv zeta in *.
    destruct (EvolveLoop_body_binary64_object
                (fst (EvolveLoop_passes_binary64 k this v))
                (snd (EvolveLoop_passes_binary64 k this v))) as (-> & _).
    destruct (EvolveLoop_body_frame (fst (EvolveLoop_passes_binary64 k this v))
                (snd (EvolveLoop_passes_binary64 k this v)))
      as (-> & -> & -> & -> & _).
    exact IH.
Qed.

End BinaryLoop.

Section StallRun.
#[local] Existing Instance cgs.

Local Abbreviation seed := [1.242e-16; 1.242e-16; 1].

Lemma stall_new :
  Loop_new (example_config "rka4") stall_heater
    example_radiation example_radiation
  = Some (Loop_build (example_config "rka4") stall_heater
            example_radiation example_radiation 3).
Proof.
  unfold Loop_new. cbn [Config.tau Config.total_time example_config].
  destruct (Req_dec_T 1 0) as [Habs | _]; [lra |].
  rewrite example_ceil. reflexivity.
Qed.

(** The seed state is found at the second pass of the loop of
    [CalculateInitialConditions], which reads the heating rate at time 0
    only. *)
Lemma initial_while_heated_at_0 (this : Loop.t) :
  Parameters.use_c1_loss_correction (Loop.parameters this) = false ->
  Parameters.use_c1_grav_correction (Loop.parameters this) = false ->
  Parameters.loop_length (Loop.parameters this) = 1 ->
  (forall x, GetPowerLawRad (Loop.radiation_model this) x = 1.16e-7) ->
  Get_Heating (Loop.heater this) 0.0 = 3.48e-7 ->
  initial_while this (i_max - 1) 0 2.0 LARGEST_DOUBLE LARGEST_DOUBLE
  = (1%Z, 0.9, 1).
Proof.
  intros Hloss Hgrav Hlength Hrad Hheat.
  assert (Hbase : forall c1, c1 = 2 ->
            3.5 * c1 / (1.0 + c1)
            * cmath.pow (Parameters.loop_length (Loop.parameters this)) 2
            * Get_Heating (Loop.heater this) 0.0
            / (SPITZER_ELECTRON_CONDUCTIVITY + SPITZER_ION_CONDUCTIVITY) = 1).
  { intros c1 ->. rewrite Hlength, Hheat, pow_2. cgs_values. lra. }
  assert (Hpass : forall i c1 To no,
            (if (0 <? i)%Z then CalculateC1 this To To no else c1) = 2 ->
            ic_temperature (initial_pass this i c1 To no) = 0.9
            /\ ic_density (initial_pass this i c1 To no) = 1
            /\ ic_error_temperature (initial_pass this i c1 To no)
               = Rabs (0.9 - To) / 0.9
            /\ ic_error_density (initial_pass this i c1 To no)
               = Rabs (1 - no) / 1).
  { intros i c1 To no Hc1. unfold initial_pass.
    cbn [ic_temperature ic_density ic_error_temperature ic_error_density].
    rewrite Hc1, (Hbase 2 eq_refl), pow_1, Hrad, Hheat.
    replace (3.48e-7 / (1.16e-7 * (1.0 + 2))) with 1 by lra.
    rewrite sqrt_1. unfold CalculateC2.
    replace (0.9 * 1) with 0.9 by lra. repeat split. }
  unfold i_max. simpl Nat.sub. rewrite initial_while_unfold. cbv zeta.
  destruct (Hpass 0%Z 2.0 LARGEST_DOUBLE LARGEST_DOUBLE)
    as (HT0 & Hn0 & HeT0 & Hen0); [simpl; lra |].
  destruct (Rlt_dec _ tol) as [Hconv | _].
  { exfalso. rewrite Hen0, HeT0 in Hconv. unfold tol in Hconv.
    apply Rmax_Rlt in Hconv as [Hconv _].
    rewrite Rabs_left in Hconv by (cgs_values; lra).
    cgs_values. lra. }
  rewrite initial_while_unfold. cbv zeta.
  assert (Hc1 : ic_c1 (initial_pass this 0 2.0 LARGEST_DOUBLE LARGEST_DOUBLE)
                = 2) by (simpl; lra).
  rewrite HT0, Hn0.
  destruct (Hpass (0 + 1)%Z
              (ic_c1 (initial_pass this 0 2.0 LARGEST_DOUBLE LARGEST_DOUBLE))
              0.9 1)
    as (HT1 & Hn1 & HeT1 & Hen1).
  { simpl. apply (example_C1 this Hloss Hgrav Hlength Hrad).
    unfold CalculateC2. lra. }
  destruct (Rlt_dec _ tol) as [_ | Hnot].
  - rewrite HT1, Hn1. reflexivity.
  - exfalso. apply Hnot. rewrite Hen1, HeT1. unfold tol.
    rewrite !Rminus_diag, Rabs_R0. unfold Rdiv. rewrite !Rmult_0_l.
    rewrite Rmax_left; lra.
Qed.

Lemma stall_build_parameters (this : Loop.t) :
  this = Loop_build (example_config "rka4") stall_heater
           example_radiation example_radiation 3 ->
  Parameters.use_spitzer_conductivity (Loop.parameters this) = true
  /\ Parameters.use_c1_loss_correction (Loop.parameters this) = false
  /\ Parameters.use_c1_grav_correction (Loop.parameters this) = false
  /\ Parameters.loop_length (Loop.parameters this) = 1
  /\ Parameters.boltzmann_correction (Loop.parameters this) = 1
  /\ Parameters.rka_error (Loop.parameters this) = 1e-6
  /\ Parameters.solver (Loop.parameters this) = "rka4"%string
  /\ Parameters.tau (Loop.parameters this) = 1
  /\ Parameters.total_time (Loop.parameters this) = 3
  /\ Loop.radiation_model this = example_radiation
  /\ Loop.heater this = stall_heater.
Proof.
  intros ->. repeat split.
  cbn [Loop_build Loop.parameters Loop.with_results
       CalculateAbundanceCorrection Loop.with_parameters
       Parameters.boltzmann_correction Config.helium_to_hydrogen_ratio
       example_config].
  lra.
Qed.

Lemma stall_seed (this0 : Loop.t) :
  this0 = Loop_build (example_config "rka4") stall_heater
            example_radiation example_radiation 3 ->
  let this := CalculateInitialConditions this0 in
  Loop.__state this = seed
  /\ Parameters.use_spitzer_conductivity (Loop.parameters this) = true
  /\ Parameters.use_c1_loss_correction (Loop.parameters this) = false
  /\ Parameters.use_c1_grav_correction (Loop.parameters this) = false
  /\ Parameters.loop_length (Loop.parameters this) = 1
  /\ Parameters.boltzmann_correction (Loop.parameters this) = 1
  /\ Parameters.rka_error (Loop.parameters this) = 1e-6
  /\ Parameters.solver (Loop.parameters this) = "rka4"%string
  /\ Parameters.tau (Loop.parameters this) = 1
  /\ Parameters.total_time (Loop.parameters this) = 3
  /\ (forall x, GetPowerLawRad (Loop.radiation_model this) x = 1.16e-7)
  /\ Loop.heater this = stall_heater.
Proof.
  intros Hbuild. cbv zeta.
  destruct (stall_build_parameters this0 Hbuild)
    as (Hsp & Hlo & Hgr & Hle & Hbc & Hrk & Hso & Hta & Hto & Hra & Hhe).
  clear Hbuild.
  destruct (CalculateInitialConditions_frame this0) as (Hp & _ & Hh & Hr).
  rewrite Hp, Hh, Hr, Hra.
  split.
  - rewrite CalculateInitialConditions_unfold. cbv zeta.
    assert (Hrad0 : forall x,
              GetPowerLawRad (Loop.radiation_model this0) x = 1.16e-7)
      by (intros x; rewrite Hra; reflexivity).
    assert (Hheat0 : Get_Heating (Loop.heater this0) 0.0 = 3.48e-7)
      by (rewrite Hhe; exact (stall_heating_0 5 ltac:(lia))).
    rewrite (initial_while_heated_at_0 this0 Hlo Hgr Hle Hrad0 Hheat0).
    cbn [fst snd].
    match goal with
    | |- context [SaveResults ?l ?a ?b] =>
        destruct (SaveResults_frame l a b) as (_ & _ & _ & -> & _)
    end.
    cbn [Loop.__state Loop.with_state]. rewrite Hbc. cgs_values.
    repeat f_equal; lra.
  - repeat split; assumption.
Qed.

Lemma stall_loop_seed :
  Loop.__state stall_loop = seed
  /\ Parameters.use_spitzer_conductivity (Loop.parameters stall_loop) = true
  /\ Parameters.use_c1_loss_correction (Loop.parameters stall_loop) = false
  /\ Parameters.use_c1_grav_correction (Loop.parameters stall_loop) = false
  /\ Parameters.loop_length (Loop.parameters stall_loop) = 1
  /\ Parameters.boltzmann_correction (Loop.parameters stall_loop) = 1
  /\ Parameters.rka_error (Loop.parameters stall_loop) = 1e-6
  /\ Parameters.solver (Loop.parameters stall_loop) = "rka4"%string
  /\ Parameters.tau (Loop.parameters stall_loop) = 1
  /\ Parameters.total_time (Loop.parameters stall_loop) = 3
  /\ (forall x, GetPowerLawRad (Loop.radiation_model stall_loop) x = 1.16e-7)
  /\ Loop.heater stall_loop = stall_heater.
Proof. exact (stall_seed _ eq_refl). Qed.

(** Pass [k + 1] of the loop: 99 rejected attempts, an accepted one, and
    the state is left at the seed. *)
Lemma stall_pass (this : Loop.t) (i : Z) (k : nat) :
  same_model this stall_loop ->
  Loop.__state this = seed ->
  (k < 5)%nat ->
  exists this',
    EvolveLoop_body_binary64 this
      {| ev_i := i; ev_time := stall_time k; ev_tau := stall_shrink ^ k |}
    = (this', {| ev_i := i + 1; ev_time := stall_time (S k);
                 ev_tau := stall_shrink ^ S k |})
    /\ same_model this' stall_loop
    /\ Loop.__state this' = seed.
Proof.
  intros (Hp & Hr & Hh) Hstate Hk.
  destruct stall_loop_seed
    as (_ & Hsp & Hlo & Hgr & Hle & Hbc & Hrk & Hso & _ & _ & Hra & Hhe).
  rewrite <- Hp in Hsp, Hlo, Hgr, Hle, Hbc, Hrk, Hso.
  rewrite <- Hr in Hra. rewrite <- Hh in Hhe.
  rewrite EvolveLoop_body_binary64_unfold. cbn [ev_i ev_time ev_tau].
  rewrite (solver_step_rka4 this _ _ Hso). cbv zeta. rewrite Hstate.
  rewrite (stall_RKA4Solver this Hsp Hlo Hgr Hle Hbc Hrk Hra Hhe k Hk).
  cbn [fst snd]. rewrite last_last, removelast_last.
  eexists. split; [reflexivity |].
  match goal with
  | |- context [SaveResults ?l ?a ?b] =>
      destruct (SaveResults_frame l a b) as (Hp1 & _ & _ & Hs1 & Hr1 & Hh1 & _)
  end.
  match goal with
  | |- context [dem_step ?l ?a] =>
      destruct (dem_step_frame l a) as (Hp2 & _ & _ & Hs2 & _ & Hr2 & Hh2 & _)
  end.
  unfold same_model. rewrite Hp1, Hr1, Hh1, Hs1, Hp2, Hr2, Hh2, Hs2.
  cbn [Loop.parameters Loop.radiation_model Loop.heater Loop.__state
       Loop.with_state Loop.print].
  repeat split; assumption.
Qed.

Lemma stall_run (k : nat) :
  (k <= 5)%nat ->
  exists this_k,
    EvolveLoop_passes_binary64 k stall_loop (EvolveLoop_init stall_loop)
    = (this_k, {| ev_i := 1 + Z.of_nat k; ev_time := stall_time k;
                  ev_tau := stall_shrink ^ k |})
    /\ same_model this_k stall_loop
    /\ Loop.__state this_k = seed.
Proof.
  induction k as [| k IH]; intros Hk.
  - exists stall_loop.
    destruct stall_loop_seed as (Hst & _ & _ & _ & _ & _ & _ & _ & Hta & _).
    split; [| split; [repeat split | exact Hst]].
    cbn [EvolveLoop_passes_binary64]. unfold EvolveLoop_init. rewrite Hta.
    reflexivity.
  - destruct (IH ltac:(lia)) as (this_k & Heq & Hmodel & Hstate).
    destruct (stall_pass this_k (1 + Z.of_nat k) k Hmodel Hstate ltac:(lia))
      as (this' & Hbody & Hmodel' & Hstate').
    exists this'. rewrite EvolveLoop_passes_binary64_S, Heq. cbn [fst snd].
    rewrite Hbody.
    replace (1 + Z.of_nat k + 1)%Z with (1 + Z.of_nat (S k))%Z by lia.
    split; [reflexivity | split; [exact Hmodel' | exact Hstate']].
Qed.

(** The fifth pass returns a step size that the time absorbs. *)
Lemma stall_time_5 : stall_time 5 = stall_time 4.
Proof.
  change (stall_time 5) with (binary64.add (stall_time 4) (stall_shrink ^ 5)).
  destruct (stall_time_bounds 4 ltac:(lia)) as [Hlo Hhi].
  apply add_absorbs.
  - replace (INR 4) with 4 in Hhi by (simpl; lra). split; lra.
  - apply stall_time_representable. lia.
  - split; [left; apply stall_shrink_pow_pos | exact stall_shrink_pow_5].
Qed.

End StallRun.
(** ** The step size and the time of the adaptive run *)

Section AdaptiveTime.
Context `{PhysicalConstants}.

(** C10, as amended.  With [0 <= rka_error], a call of [RKA4Solver] on a
    state of at least three components with [0 < tau] returns a vector one
    longer than the state whose last element is positive: every attempt has
    an error ratio that is defined and not negative, is entered with a
    positive step size and floors its new step size at that size divided by
    1.1, and the returned step size lies between the floor and the cap of
    the attempt that returns.  Hence, with the solver "rka4" and a positive
    configured step that is a double, the step size is positive at every
    pass of the loop of [EvolveLoop], and the time, which [time += tau]
    adds in binary64, is a positive double that never decreases: it
    advances whenever the returned step size exceeds half the spacing of
    the doubles at the time, and stays where it is whenever the step size
    is below half that spacing. *)
Theorem RKA4Solver_step_size_and_time (this : Loop.t) :
  0 <= Parameters.rka_error (Loop.parameters this) ->
  (forall (state : list R) (time tau : R),
      (3 <= length state)%nat ->
      0 < tau ->
      let out := snd (RKA4Solver this state time tau) in
      length out = S (length state)
      /\ 0 < List.last out 0
      /\ (forall j,
            let a := attempt_from this state time j tau in
            0 <= error_ratio a /\ 0 < old_tau a
            /\ old_tau a / 1.1 <= new_tau a)
      /\ (exists k,
            let a := attempt_from this state time k tau in
            (k < 100)%nat
            /\ out = small_step a ++ [List.last out 0]
            /\ old_tau a / 1.1 <= List.last out 0 <= 4 * old_tau a))
  /\ (Parameters.solver (Loop.parameters this) = "rka4"%string ->
      0 < Parameters.tau (Loop.parameters this) ->
      binary64.representable (Parameters.tau (Loop.parameters this)) ->
      (3 <= length (Loop.__state this))%nat ->
      forall k,
        let this_k :=
          fst (EvolveLoop_passes_binary64 k this (EvolveLoop_init this)) in
        let v_k :=
          snd (EvolveLoop_passes_binary64 k this (EvolveLoop_init this)) in
        let v_next :=
          snd (EvolveLoop_passes_binary64 (S k) this (EvolveLoop_init this)) in
        length (Loop.__state this_k) = length (Loop.__state this)
        /\ 0 < ev_tau v_k
        /\ 0 < ev_time v_k
        /\ binary64.representable (ev_time v_k)
        /\ ev_tau v_next
           = List.last (snd (RKA4Solver this_k (Loop.__state this_k)
                               (ev_time v_k) (ev_tau v_k))) 0
        /\ 0 < ev_tau v_next
        /\ ev_time v_next = binary64.add (ev_time v_k) (ev_tau v_next)
        /\ ev_time v_k <= ev_time v_next
        /\ (binary64.ulp (ev_time v_k) / 2 < ev_tau v_next ->
            ev_time v_k < ev_time v_next)
        /\ (ev_tau v_next < binary64.ulp (ev_time v_k) / 2 ->
            ev_time v_next = ev_time v_k)).
Proof.
  intros Hrka. split.
  - intros state time tau Hlen Htau out.
    destruct (RKA4Solver_last_positive this state time tau Htau)
      as (Hl & Hp & _).
    split; [exact Hl |]. split; [exact Hp |]. split.
    + intros j a.
      destruct (attempt_from_tau_pos this state time j tau Htau) as [Hpos Hfloor].
      unfold safety_2 in Hfloor. split; [| split; assumption].
      unfold a. rewrite attempt_from_is_attempt.
      apply error_ratio_nonneg, Hrka.
    + destruct (RKA4Solver_returns this state time tau) as (k & Hk & Heq).
      exists k. cbv zeta. split; [exact Hk |].
      destruct (attempt_from_tau_pos this state time k tau Htau) as [Hpos Hfloor].
      pose proof (capped_tau_bounds _ Hpos Hfloor) as Hcap.
      unfold safety_2, safety_3 in Hcap.
      unfold out. rewrite Heq, last_last. split; [reflexivity | lra].
  - intros Hsolver Htau Hrep Hlen k.
    assert (Hinv :
      length (Loop.__state
                (fst (EvolveLoop_passes_binary64 k this (EvolveLoop_init this))))
      = length (Loop.__state this)
      /\ 0 < ev_tau (snd (EvolveLoop_passes_binary64 k this (EvolveLoop_init this)))
      /\ 0 < ev_time (snd (EvolveLoop_passes_binary64 k this (EvolveLoop_init this)))
      /\ binary64.representable
           (ev_time (snd (EvolveLoop_passes_binary64 k this (EvolveLoop_init this))))).
    { induction k as [| k IH].
      - split; [reflexivity |]. split; [exact Htau |]. split; [exact Htau |].
        exact Hrep.
      - destruct IH as (IHlen & IHtau & IHtime & IHrep).
        rewrite EvolveLoop_passes_binary64_S.
        set (this_k := fst (EvolveLoop_passes_binary64 k this (EvolveLoop_init this))) in *.
        set (v_k := snd (EvolveLoop_passes_binary64 k this (EvolveLoop_init this))) in *.
        assert (Hs : Parameters.solver (Loop.parameters this_k) = "rka4"%string).
        { destruct (EvolveLoop_passes_binary64_frame k this (EvolveLoop_init this))
            as (Hp & _). fold this_k in Hp. rewrite Hp. exact Hsolver. }
        destruct (EvolveLoop_body_binary64_object this_k v_k) as (-> & _).
        destruct (EvolveLoop_body_frame this_k v_k) as (_ & _ & _ & _ & ->).
        rewrite EvolveLoop_body_binary64_unfold. cbn [snd ev_tau ev_time].
        rewrite (solver_step_rka4 this_k _ _ Hs).
        cbn [fst snd Loop.__state Loop.with_state].
        destruct (RKA4Solver_last_positive this_k (Loop.__state this_k)
                    (ev_time v_k) (ev_tau v_k) IHtau) as (_ & Hp & Hl).
        split; [rewrite Hl; exact IHlen |]. split; [exact Hp |].
        pose proof (add_not_below (ev_time v_k) _ IHtime IHrep (Rlt_le _ _ Hp)).
        split; [lra |]. apply add_representable. lra. }
    destruct Hinv as (Hklen & Hktau & Hktime & Hkrep). cbv zeta.
    rewrite EvolveLoop_passes_binary64_S.
    set (this_k := fst (EvolveLoop_passes_binary64 k this (EvolveLoop_init this))) in *.
    set (v_k := snd (EvolveLoop_passes_binary64 k this (EvolveLoop_init this))) in *.
    assert (Hs : Parameters.solver (Loop.parameters this_k) = "rka4"%string).
    { destruct (EvolveLoop_passes_binary64_frame k this (EvolveLoop_init this))
        as (Hp & _). fold this_k in Hp. rewrite Hp. exact Hsolver. }
    rewrite EvolveLoop_body_binary64_unfold. cbn [snd ev_tau ev_time].
    rewrite (solver_step_rka4 this_k _ _ Hs). cbn [snd].
    destruct (RKA4Solver_last_positive this_k (Loop.__state this_k)
                (ev_time v_k) (ev_tau v_k) Hktau) as (_ & Hp & _).
    split; [exact Hklen |]. split; [exact Hktau |]. split; [exact Hktime |].
    split; [exact Hkrep |]. split; [reflexivity |]. split; [exact Hp |].
    split; [reflexivity |].
    split; [apply add_not_below; [exact Hktime | exact Hkrep | lra] |].
    split.
    + intros Hbig. apply add_advances; assumption.
    + intros Hsmall. apply add_stays; [exact Hktime | exact Hkrep | lra].
Qed.

End AdaptiveTime.

Section StallCounterexample.
#[local] Existing Instance cgs.

(** C10, refuted as stated.  The concrete loop with the adaptive
    integrator, a tolerance of 1e-6 and a step of 1, heated at a rate that
    is raised at the ends of the first 99 attempts of each of the first
    five passes: every pass is entered with a positive step size and before
    the total time, each returns a positive step size, and the fifth pass
    leaves the time where it was. *)
Lemma time_stall_counterexample :
  let this := stall_loop in
  let v := fun k =>
    snd (EvolveLoop_passes_binary64 k this (EvolveLoop_init this)) in
  Loop_new (example_config "rka4") stall_heater
    example_radiation example_radiation
  = Some (Loop_build (example_config "rka4") stall_heater
            example_radiation example_radiation 3)
  /\ 0 <= Parameters.rka_error (Loop.parameters this)
  /\ Parameters.solver (Loop.parameters this) = "rka4"%string
  /\ 0 < Parameters.tau (Loop.parameters this)
  /\ binary64.representable (Parameters.tau (Loop.parameters this))
  /\ (forall k, (k <= 5)%nat ->
        0 < ev_tau (v k)
        /\ ev_time (v k) < Parameters.total_time (Loop.parameters this))
  /\ ev_time (v 5%nat) = ev_time (v 4%nat)
  /\ ~ ev_time (v 4%nat) < ev_time (v 5%nat).
Proof.
  cbv zeta.
  destruct stall_loop_seed
    as (_ & _ & _ & _ & _ & _ & Hrk & Hso & Hta & Hto & _).
  split; [exact stall_new |].
  split; [rewrite Hrk; lra |].
  split; [exact Hso |].
  split; [rewrite Hta; lra |].
  split; [rewrite Hta; exact representable_1 |].
  assert (Hstall : ev_time (snd (EvolveLoop_passes_binary64 5 stall_loop
                                   (EvolveLoop_init stall_loop)))
                   = ev_time (snd (EvolveLoop_passes_binary64 4 stall_loop
                                     (EvolveLoop_init stall_loop)))).
  { destruct (stall_run 5 ltac:(lia)) as (this5 & -> & _).
    destruct (stall_run 4 ltac:(lia)) as (this4 & -> & _).
    cbn [snd ev_time]. exact stall_time_5. }
  split; [| split; [exact Hstall | rewrite Hstall; lra]].
  intros k Hk. destruct (stall_run k Hk) as (this_k & -> & _).
  cbn [snd ev_tau ev_time]. split; [apply stall_shrink_pow_pos |].
  rewrite Hto. destruct (stall_time_bounds k ltac:(lia)) as [_ Hhi].
  assert (HS : INR k <= 5).
  { replace 5 with (INR 5) by (simpl; lra). apply le_INR. exact Hk. }
  lra.
Qed.

End StallCounterexample.
(** * Positivity of the state *)

(** ** Functions that are bounded on a set *)

Lemma abs_le_bounds (x M : R) : Rabs x <= M -> - M <= x <= M.
Proof.
  intros HM. pose proof (Rle_abs x). pose proof (Rle_abs (- x)) as Hn.
  rewrite Rabs_Ropp in Hn. lra.
Qed.

Section BoundedFunctions.
Context {X : Type} (P : X -> Prop).

Lemma bounded_const (c : R) : bounded_on P (fun _ => c).
Proof. exists (Rabs c). intros x _. lra. Qed.

Lemma bounded_ext (f g : X -> R) :
  (forall x, P x -> f x = g x) -> bounded_on P g -> bounded_on P f.
Proof.
  intros Heq [M HM]. exists M. intros x Hx. rewrite (Heq x Hx). apply HM, Hx.
Qed.

Lemma bounded_below (f g : X -> R) :
  (forall x, P x -> Rabs (f x) <= Rabs (g x)) ->
  bounded_on P g -> bounded_on P f.
Proof.
  intros Hle [M HM]. exists M. intros x Hx.
  eapply Rle_trans; [apply Hle, Hx | apply HM, Hx].
Qed.

Lemma bounded_plus (f g : X -> R) :
  bounded_on P f -> bounded_on P g -> bounded_on P (fun x => f x + g x).
Proof.
  intros [M HM] [N HN]. exists (M + N). intros x Hx.
  eapply Rle_trans; [apply Rabs_triang |].
  specialize (HM x Hx). specialize (HN x Hx). lra.
Qed.

Lemma bounded_opp (f : X -> R) :
  bounded_on P f -> bounded_on P (fun x => - f x).
Proof.
  intros [M HM]. exists M. intros x Hx. rewrite Rabs_Ropp. apply HM, Hx.
Qed.

Lemma bounded_minus (f g : X -> R) :
  bounded_on P f -> bounded_on P g -> bounded_on P (fun x => f x - g x).
Proof.
  intros Hf Hg. apply (bounded_plus f (fun x => - g x)); [exact Hf |].
  apply bounded_opp, Hg.
Qed.

Lemma bounded_mult (f g : X -> R) :
  bounded_on P f -> bounded_on P g -> bounded_on P (fun x => f x * g x).
Proof.
  intros [M HM] [N HN]. exists (Rabs M * Rabs N). intros x Hx.
  rewrite Rabs_mult. specialize (HM x Hx). specialize (HN x Hx).
  pose proof (Rabs_pos (f x)). pose proof (Rabs_pos (g x)).
  pose proof (Rle_abs M). pose proof (Rle_abs N).
  apply Rmult_le_compat; lra.
Qed.

Lemma positive_bounded (f : X -> R) : positive_on P f -> bounded_on P f.
Proof.
  intros (m & M & Hm & HmM). exists M. intros x Hx.
  destruct (HmM x Hx). rewrite Rabs_pos_eq; lra.
Qed.

Lemma positive_const (c : R) : 0 < c -> positive_on P (fun _ => c).
Proof. intros Hc. exists c, c. split; [exact Hc |]. intros x _. lra. Qed.

Lemma positive_ext (f g : X -> R) :
  (forall x, P x -> f x = g x) -> positive_on P g -> positive_on P f.
Proof.
  intros Heq (m & M & Hm & HmM). exists m, M. split; [exact Hm |].
  intros x Hx. rewrite (Heq x Hx). apply HmM, Hx.
Qed.

Lemma positive_plus (f g : X -> R) :
  positive_on P f -> positive_on P g -> positive_on P (fun x => f x + g x).
Proof.
  intros (m & M & Hm & HmM) (n & N & Hn & HnN).
  exists (m + n), (M + N). split; [lra |]. intros x Hx.
  destruct (HmM x Hx). destruct (HnN x Hx). lra.
Qed.

Lemma positive_mult (f g : X -> R) :
  positive_on P f -> positive_on P g -> positive_on P (fun x => f x * g x).
Proof.
  intros (m & M & Hm & HmM) (n & N & Hn & HnN).
  exists (m * n), (M * N). split; [apply Rmult_lt_0_compat; assumption |].
  intros x Hx. destruct (HmM x Hx). destruct (HnN x Hx).
  split; apply Rmult_le_compat; lra.
Qed.

Lemma positive_inv (f : X -> R) :
  positive_on P f -> positive_on P (fun x => / f x).
Proof.
  intros (m & M & Hm & HmM). exists (/ Rmax M m), (/ m).
  pose proof (Rmax_r M m) as Hr. pose proof (Rmax_l M m) as Hl.
  split; [apply Rinv_0_lt_compat; lra |].
  intros x Hx. destruct (HmM x Hx).
  split; apply Rinv_le_contravar; lra.
Qed.

Lemma positive_div (f g : X -> R) :
  positive_on P f -> positive_on P g -> positive_on P (fun x => f x / g x).
Proof.
  intros Hf Hg. apply (positive_mult f (fun x => / g x)); [exact Hf |].
  apply positive_inv, Hg.
Qed.

Lemma bounded_div (f g : X -> R) :
  bounded_on P f -> positive_on P g -> bounded_on P (fun x => f x / g x).
Proof.
  intros Hf Hg. apply (bounded_mult f (fun x => / g x)); [exact Hf |].
  apply positive_bounded, positive_inv, Hg.
Qed.

(** The denominator may carry a constant factor of any sign, 0 included. *)
Lemma bounded_div_scaled (c : R) (f g : X -> R) :
  bounded_on P f -> positive_on P g ->
  bounded_on P (fun x => f x / (c * g x)).
Proof.
  intros Hf Hg.
  apply (bounded_ext _ (fun x => f x * (/ c * / g x))).
  - intros x _. unfold Rdiv. rewrite Rinv_mult. reflexivity.
  - apply bounded_mult; [exact Hf |].
    apply bounded_mult; [apply bounded_const |].
    apply positive_bounded, positive_inv, Hg.
Qed.

Lemma positive_sqrt (f : X -> R) :
  positive_on P f -> positive_on P (fun x => sqrt (f x)).
Proof.
  intros (m & M & Hm & HmM). exists (sqrt m), (sqrt (Rmax M m)).
  pose proof (Rmax_r M m) as Hr. pose proof (Rmax_l M m) as Hl.
  split; [apply sqrt_lt_R0; exact Hm |].
  intros x Hx. destruct (HmM x Hx).
  split; apply sqrt_le_1_alt; lra.
Qed.

Lemma bounded_ln (f : X -> R) :
  positive_on P f -> bounded_on P (fun x => ln (f x)).
Proof.
  intros (m & M & Hm & HmM). exists (Rabs (ln m) + Rabs (ln (Rmax M m))).
  pose proof (Rmax_r M m) as Hr. pose proof (Rmax_l M m) as Hl.
  intros x Hx. destruct (HmM x Hx) as [Hlo Hhi].
  assert (H1 : ln m <= ln (f x)).
  { destruct Hlo as [Hlt | <-]; [left; apply ln_increasing; lra | lra]. }
  assert (H2 : ln (f x) <= ln (Rmax M m)).
  { assert (Hle : f x <= Rmax M m) by lra.
    destruct Hle as [Hlt | ->]; [left; apply ln_increasing; lra | lra]. }
  pose proof (Rle_abs (ln (Rmax M m))) as Ha.
  pose proof (Rle_abs (- ln m)) as Hb. rewrite Rabs_Ropp in Hb.
  pose proof (Rabs_pos (ln m)). pose proof (Rabs_pos (ln (Rmax M m))).
  apply Rabs_le. split; lra.
Qed.

Lemma positive_exp (f : X -> R) :
  bounded_on P f -> positive_on P (fun x => exp (f x)).
Proof.
  intros [M HM]. exists (exp (- M)), (exp M).
  split; [apply exp_pos |].
  intros x Hx. specialize (HM x Hx). apply abs_le_bounds in HM as [Hlo Hhi].
  split.
  - destruct Hlo as [Hlt | <-]; [left; apply exp_increasing; exact Hlt | lra].
  - destruct Hhi as [Hlt | ->]; [left; apply exp_increasing; exact Hlt | lra].
Qed.

(** [pow] with a positive base. *)
Lemma positive_pow (f : X -> R) (y : R) :
  positive_on P f -> positive_on P (fun x => cmath.pow (f x) y).
Proof.
  intros Hf. destruct (Req_dec_T y 2) as [-> | Hy].
  - apply (positive_ext _ (fun x => f x * f x)).
    + intros x _. apply pow_2.
    + apply positive_mult; exact Hf.
  - apply (positive_ext _ (fun x => exp (y * ln (f x)))).
    + intros x Hx. destruct Hf as (m & M & Hm & HmM).
      destruct (HmM x Hx). rewrite pow_Rpower by lra. reflexivity.
    + apply positive_exp. apply bounded_mult; [apply bounded_const |].
      apply bounded_ln, Hf.
Qed.

End BoundedFunctions.
(** ** The derivatives are bounded around a positive state *)

Ltac bound_step :=
  match goal with
  | |- positive_on _ (fun _ => ?c) => apply positive_const
  | |- positive_on _ (fun x => @?f x * @?g x) => apply (positive_mult _ f g)
  | |- positive_on _ (fun x => @?f x / @?g x) => apply (positive_div _ f g)
  | |- positive_on _ (fun x => @?f x + @?g x) => apply (positive_plus _ f g)
  | |- positive_on _ (fun x => sqrt (@?f x)) => apply (positive_sqrt _ f)
  | |- positive_on _ (fun x => exp (@?f x)) => apply (positive_exp _ f)
  | |- positive_on _ (fun x => cmath.pow (@?f x) ?y) =>
      apply (positive_pow _ f y)
  | |- bounded_on _ (fun _ => ?c) => apply bounded_const
  | |- bounded_on _ (fun x => @?f x + @?g x) => apply (bounded_plus _ f g)
  | |- bounded_on _ (fun x => @?f x - @?g x) => apply (bounded_minus _ f g)
  | |- bounded_on _ (fun x => - @?f x) => apply (bounded_opp _ f)
  | |- bounded_on _ (fun x => @?f x * @?g x) => apply (bounded_mult _ f g)
  | |- bounded_on _ (fun x => @?f x / @?g x) => apply (bounded_div _ f g)
  | |- bounded_on _ (fun x => ln (@?f x)) => apply (bounded_ln _ f)
  | |- bounded_on _ _ => apply positive_bounded
  end.

Ltac bound := repeat first [assumption | bound_step].

Ltac positive_product :=
  first [assumption | lra | nra
        | apply Rmult_lt_0_compat; positive_product].

Section DerivativesBounded.
Context `{PhysicalConstants}.
Variable this : Loop.t.
Context {X : Type} (P : X -> Prop).
Variables (pe pi n tm : X -> R).
Variables (Hmax Lmin Lmax : R).

Local Abbreviation p := (Loop.parameters this).
Local Abbreviation L := (Parameters.loop_length (Loop.parameters this)).
Local Abbreviation bc := (Parameters.boltzmann_correction (Loop.parameters this)).
Local Abbreviation imc := (Parameters.ion_mass_correction (Loop.parameters this)).
Local Abbreviation rad T :=
  (GetPowerLawRad (Loop.radiation_model this) (cmath.log10 T)).
Local Abbreviation Te x := (pe x / (BOLTZMANN_CONSTANT * n x)).
Local Abbreviation Ti x := (pi x / (bc * BOLTZMANN_CONSTANT * n x)).

Hypothesis Hphys : physical.
Hypothesis HL : 0 < L.
Hypothesis Hbc : 0 < bc.
Hypothesis Himc : 0 < imc.
Hypothesis Hheat : forall t, 0 <= Get_Heating (Loop.heater this) t <= Hmax.
Hypothesis HLmin : 0 < Lmin.
Hypothesis Hrad :
  forall x, Lmin <= GetPowerLawRad (Loop.radiation_model this) x <= Lmax.
Hypothesis Hpe : positive_on P pe.
Hypothesis Hpi : positive_on P pi.
Hypothesis Hn : positive_on P n.

Local Ltac side :=
  pose proof (kB_pos Hphys); pose proof (me_pos Hphys);
  pose proof (mp_pos Hphys); pose proof (kappa_e_pos Hphys);
  pose proof (kappa_i_pos Hphys); pose proof (gamma_pos Hphys);
  pose proof (gamma_m1_pos Hphys); pose proof (g_sun_pos Hphys);
  pose proof (pow_gt0 L 2 HL);
  unfold CalculateC2, CalculateC3, c1_eqm0;
  positive_product.

Lemma Te_positive : positive_on P (fun x => Te x).
Proof. bound; side. Qed.

Lemma Ti_positive : positive_on P (fun x => Ti x).
Proof. bound; side. Qed.

Lemma rad_positive (T : X -> R) : positive_on P (fun x => rad (T x)).
Proof. exists Lmin, Lmax. split; [exact HLmin |]. intros x _. apply Hrad. Qed.

Lemma heat_bounded : bounded_on P (fun x => Get_Heating (Loop.heater this) (tm x)).
Proof.
  exists Hmax. intros x _. destruct (Hheat (tm x)). rewrite Rabs_pos_eq; lra.
Qed.

Lemma classical_flux_bounded (kappa : R) (T : X -> R) :
  positive_on P T -> bounded_on P (fun x => classical_flux this kappa (T x)).
Proof.
  intros HT. unfold classical_flux. cbv zeta. bound; side.
Qed.

Lemma conduction_le_classical (T dens : R) (species : string) :
  Rabs (CalculateThermalConduction this T dens species)
  <= Rabs (classical_flux this (fst (fst (species_constants this species))) T).
Proof.
  unfold CalculateThermalConduction.
  destruct (species_constants this species) as [[kappa mass] k_B]. cbn [fst].
  destruct (Parameters.use_spitzer_conductivity p); [lra |].
  rewrite !pow_2. apply blend_bound.
Qed.

Lemma conduction_bounded (T dens : X -> R) (species : string) :
  positive_on P T ->
  bounded_on P (fun x => CalculateThermalConduction this (T x) (dens x) species).
Proof.
  intros HT.
  apply (bounded_below _ _
           (fun x => classical_flux this
                       (fst (fst (species_constants this species))) (T x))).
  - intros x _. apply conduction_le_classical.
  - apply classical_flux_bounded, HT.
Qed.

Lemma scale_height_positive :
  positive_on P (fun x => CalculateScaleHeight this (Te x) (Ti x)).
Proof.
  pose proof Te_positive. pose proof Ti_positive.
  unfold CalculateScaleHeight. bound; side.
Qed.

Lemma grav_correction_positive :
  positive_on P (fun x => C1_grav_correction this (Te x) (Ti x)).
Proof.
  pose proof scale_height_positive as Hs.
  unfold C1_grav_correction. cbv zeta.
  destruct (Parameters.use_c1_grav_correction p).
  - apply positive_exp.
    apply (bounded_div_scaled _ _PI_
             (fun _ => 4.0 * sin (_PI_ / 5.0) * L)
             (fun x => CalculateScaleHeight this (Te x) (Ti x)));
      [apply bounded_const | exact Hs].
  - apply positive_const. lra.
Qed.

Lemma loss_correction_positive :
  positive_on P (fun x => C1_loss_correction this (Te x)).
Proof.
  pose proof Te_positive. pose proof (rad_positive (fun x => Te x)).
  unfold C1_loss_correction. cbv zeta.
  destruct (Parameters.use_c1_loss_correction p).
  - bound; side.
  - apply positive_const. lra.
Qed.

Lemma density_eqm_2_positive :
  positive_on P (fun x => C1_density_eqm_2 this (Te x) (Ti x)).
Proof.
  pose proof Te_positive. pose proof (rad_positive (fun x => Te x)).
  pose proof grav_correction_positive. pose proof loss_correction_positive.
  unfold C1_density_eqm_2. cbv zeta. bound; side.
Qed.

Lemma C1_piecewise_bounded (cond0 rad0 : R) (ratio : X -> R) :
  positive_on P ratio ->
  bounded_on P (fun x => C1_piecewise cond0 rad0 (ratio x)).
Proof.
  intros (m & M & Hm & HmM). exists (2 + Rabs cond0 + Rabs rad0).
  intros x Hx. destruct (HmM x Hx) as [Hlo _].
  destruct (C1_piecewise_between cond0 rad0 (ratio x) ltac:(lra))
    as [Hlow Hhigh].
  pose proof (Rle_abs cond0). pose proof (Rle_abs rad0).
  pose proof (Rle_abs (- cond0)) as Hc. rewrite Rabs_Ropp in Hc.
  pose proof (Rle_abs (- rad0)) as Hr. rewrite Rabs_Ropp in Hr.
  apply Rabs_le.
  destruct (Rlt_dec (ratio x) 1) as [Hlt | Hge].
  - destruct (Hlow Hlt) as [Hv1 Hv2].
    pose proof (Rmin_l 2 cond0). pose proof (Rmin_r 2 cond0).
    pose proof (Rmax_l 2 cond0). pose proof (Rmax_r 2 cond0).
    assert (- (2 + Rabs cond0) <= Rmin 2 cond0)
      by (apply Rmin_glb; lra).
    assert (Rmax 2 cond0 <= 2 + Rabs cond0) by (apply Rmax_lub; lra).
    split; lra.
  - destruct (Hhigh ltac:(lra)) as [Hv1 Hv2].
    assert (- (2 + Rabs rad0) <= Rmin 2 rad0) by (apply Rmin_glb; lra).
    assert (Rmax 2 rad0 <= 2 + Rabs rad0) by (apply Rmax_lub; lra).
    split; lra.
Qed.

Lemma C1_bounded :
  bounded_on P (fun x => CalculateC1 this (Te x) (Ti x) (n x)).
Proof.
  pose proof grav_correction_positive as Hg.
  pose proof loss_correction_positive as Hl.
  pose proof density_eqm_2_positive as He.
  apply (bounded_ext _ _
           (fun x => C1_loss_correction this (Te x)
                     * C1_grav_correction this (Te x) (Ti x)
                     * C1_piecewise (Parameters.c1_cond0 p)
                         (Parameters.c1_rad0 p)
                         (n x * n x / C1_density_eqm_2 this (Te x) (Ti x)))).
  - intros x _. apply CalculateC1_piecewise.
  - apply bounded_mult; [bound; side |].
    apply (C1_piecewise_bounded _ _
             (fun x => n x * n x / C1_density_eqm_2 this (Te x) (Ti x))).
    bound; side.
Qed.

Lemma collision_frequency_bounded :
  bounded_on P (fun x => CalculateCollisionFrequency this (Te x) (n x)).
Proof.
  pose proof Te_positive.
  unfold CalculateCollisionFrequency. cbv zeta. bound; side.
Qed.

Lemma xi_positive : positive_on P (fun x => pe x / pi x).
Proof. bound; side. Qed.

Lemma npow_positive (f : X -> R) (k : nat) :
  positive_on P f -> positive_on P (fun x => f x ^ k).
Proof.
  intros Hf. induction k as [| k IH]; simpl.
  - apply positive_const. lra.
  - apply positive_mult; assumption.
Qed.

Lemma R_c_bounded :
  bounded_on P (fun x => n x ^ 2 * rad (Te x) * L).
Proof.
  pose proof (npow_positive n 2 Hn). pose proof (rad_positive (fun x => Te x)).
  bound; side.
Qed.

Lemma psi_tr_bounded :
  bounded_on P
    (fun x =>
       (CalculateThermalConduction this (Te x) (n x) "electron"
        + CalculateC1 this (Te x) (Ti x) (n x) * (n x ^ 2 * rad (Te x) * L)
        - pe x / pi x * CalculateThermalConduction this (Ti x) (n x) "ion")
       / (1 + pe x / pi x)).
Proof.
  pose proof (conduction_bounded (fun x => Te x) n "electron" Te_positive).
  pose proof (conduction_bounded (fun x => Ti x) n "ion" Ti_positive).
  pose proof C1_bounded. pose proof R_c_bounded. pose proof xi_positive.
  bound; side.
Qed.

Lemma psi_c_bounded :
  bounded_on P
    (fun x => L / GAMMA_MINUS_ONE
              * CalculateCollisionFrequency this (Te x) (n x)
              * (pi x - pe x)).
Proof. pose proof collision_frequency_bounded. bound; side. Qed.

(** The three derivatives. *)
Lemma derivatives_bounded (j : nat) :
  bounded_on P
    (fun x => CalculateDerivs this [pe x; pi x; n x] (tm x) !!! j).
Proof.
  pose proof (conduction_bounded (fun x => Te x) n "electron" Te_positive)
    as Hfe.
  pose proof C1_bounded as HC1. pose proof R_c_bounded as HRc.
  pose proof psi_tr_bounded as Htr. pose proof psi_c_bounded as Hc.
  pose proof heat_bounded as Hh. pose proof Te_positive as HTe.
  eapply bounded_ext.
  - intros x _.
    destruct (CalculateDerivs_formulas this (pe x) (pi x) (n x) (tm x))
      as (_ & _ & _ & _ & _ & _ & _ & _ & Hvec & _).
    cbv zeta in Hvec. rewrite Hvec. reflexivity.
  - destruct j as [| [| [| j]]]; cbn [lookup_total list_lookup_total].
    + bound; side.
    + bound; side.
    + bound; side.
    + apply bounded_const.
Qed.

End DerivativesBounded.
(** ** Safe steps exist and keep the state in its box *)

Lemma list_3_eta (u : list R) :
  length u = 3%nat -> u = [u !!! 0%nat; u !!! 1%nat; u !!! 2%nat].
Proof.
  destruct u as [| a [| b [| c [| d u]]]]; try discriminate. reflexivity.
Qed.

Lemma drift_stage (s a rho h c D f : R) :
  Rabs (a - s) <= rho * D -> Rabs f <= D -> 0 <= c <= h ->
  Rabs (a + c * f - s) <= (rho + h) * D.
Proof.
  intros Ha Hf [Hc0 Hch].
  pose proof (Rabs_pos f) as Hpos.
  apply abs_le_bounds in Ha as [Ha1 Ha2]. apply abs_le_bounds in Hf as [Hf1 Hf2].
  assert (HcD : c * D <= h * D) by nra.
  assert (Hcf1 : - (c * D) <= c * f) by nra.
  assert (Hcf2 : c * f <= c * D) by nra.
  apply Rabs_le. split; lra.
Qed.

Lemma drift_final (s a rho h D f1 f2 f3 f4 : R) :
  Rabs (a - s) <= rho * D ->
  Rabs f1 <= D -> Rabs f2 <= D -> Rabs f3 <= D -> Rabs f4 <= D ->
  0 <= h ->
  Rabs (a + h / 6.0 * (f1 + 2.0 * f2 + 2.0 * f3 + f4) - s) <= (rho + h) * D.
Proof.
  intros Ha H1 H2 H3 H4 Hh.
  apply abs_le_bounds in Ha as [Ha1 Ha2].
  apply abs_le_bounds in H1 as [H11 H12]. apply abs_le_bounds in H2 as [H21 H22].
  apply abs_le_bounds in H3 as [H31 H32]. apply abs_le_bounds in H4 as [H41 H42].
  set (g := (f1 + 2.0 * f2 + 2.0 * f3 + f4) / 6.0).
  assert (Hg1 : - D <= g) by (unfold g; lra).
  assert (Hg2 : g <= D) by (unfold g; lra).
  replace (h / 6.0 * (f1 + 2.0 * f2 + 2.0 * f3 + f4)) with (h * g)
    by (unfold g; lra).
  assert (- (h * D) <= h * g) by nra.
  assert (h * g <= h * D) by nra.
  apply Rabs_le. split; lra.
Qed.

Section SafeStepExists.
Context `{PhysicalConstants}.
Variable this : Loop.t.
Variables (Hmax Lmin Lmax : R).

Hypothesis Hphys : physical.
Hypothesis HL : 0 < Parameters.loop_length (Loop.parameters this).
Hypothesis Hbc : 0 < Parameters.boltzmann_correction (Loop.parameters this).
Hypothesis Himc : 0 < Parameters.ion_mass_correction (Loop.parameters this).
Hypothesis Hheat : forall t, 0 <= Get_Heating (Loop.heater this) t <= Hmax.
Hypothesis HLmin : 0 < Lmin.
Hypothesis Hrad :
  forall x, Lmin <= GetPowerLawRad (Loop.radiation_model this) x <= Lmax.

Lemma box_component (s : list R) (j : nat) :
  (j < 3)%nat -> 0 < s !!! j ->
  positive_on (fun x : list R * R => in_box s (fst x)) (fun x => fst x !!! j).
Proof.
  intros Hj Hs. exists (s !!! j / 2), (3 * s !!! j / 2). split; [lra |].
  intros x [_ Hx]. specialize (Hx j Hj). apply abs_le_bounds in Hx. lra.
Qed.

(** Bounds on the three derivatives over the box around a positive state. *)
Lemma derivatives_bounded_on_box (s : list R) :
  positive_state s ->
  exists D : list R,
    forall u t j, (j < 3)%nat -> in_box s u ->
      Rabs (CalculateDerivs this u t !!! j) <= D !!! j.
Proof.
  intros (H0 & H1 & H2).
  assert (Hb : forall j,
            bounded_on (fun x : list R * R => in_box s (fst x))
              (fun x => CalculateDerivs this
                          [fst x !!! 0%nat; fst x !!! 1%nat; fst x !!! 2%nat]
                          (snd x) !!! j)).
  { intros j.
    apply (derivatives_bounded this _ (fun x => fst x !!! 0%nat)
             (fun x => fst x !!! 1%nat) (fun x => fst x !!! 2%nat) snd
             Hmax Lmin Lmax Hphys HL Hbc Himc Hheat HLmin Hrad);
      apply box_component; (lia || assumption). }
  destruct (Hb 0%nat) as [M0 HM0]. destruct (Hb 1%nat) as [M1 HM1].
  destruct (Hb 2%nat) as [M2 HM2].
  exists [M0; M1; M2]. intros u t j Hj Hu.
  rewrite (list_3_eta u (proj1 Hu)).
  destruct j as [| [| [| j]]]; [| | | lia];
    cbn [lookup_total list_lookup_total].
  - exact (HM0 (u, t) Hu).
  - exact (HM1 (u, t) Hu).
  - exact (HM2 (u, t) Hu).
Qed.

Lemma in_box_self (s : list R) :
  length s = 3%nat -> positive_state s -> in_box s s.
Proof.
  intros Hlen (H0 & H1 & H2). split; [exact Hlen |].
  intros j Hj. rewrite Rminus_diag, Rabs_R0.
  destruct j as [| [| [| j]]]; [lra | lra | lra | lia].
Qed.

(** Every positive state has a positive step size below which all steps
    are safe. *)
Lemma safe_step_exists (s : list R) :
  length s = 3%nat -> positive_state s ->
  exists bound, 0 < bound /\ forall tau, tau <= bound -> safe_step this s tau.
Proof.
  intros Hlen Hs. destruct (derivatives_bounded_on_box s Hs) as [D HD].
  pose proof (in_box_self s Hlen Hs) as Hself.
  assert (HD0 : forall j, (j < 3)%nat -> 0 <= D !!! j).
  { intros j Hj. eapply Rle_trans; [apply Rabs_pos | apply (HD s 0 j Hj Hself)]. }
  pose proof (HD0 0%nat ltac:(lia)) as Hd0.
  pose proof (HD0 1%nat ltac:(lia)) as Hd1.
  pose proof (HD0 2%nat ltac:(lia)) as Hd2.
  destruct Hs as (H0 & H1 & H2).
  set (K := 1 + D !!! 0%nat + D !!! 1%nat + D !!! 2%nat).
  assert (HK : 0 < K) by (unfold K; lra).
  set (m := Rmin (s !!! 0%nat) (Rmin (s !!! 1%nat) (s !!! 2%nat))).
  assert (Hm : 0 < m) by (unfold m; repeat apply Rmin_pos; assumption).
  assert (Hm0 : m <= s !!! 0%nat) by apply Rmin_l.
  assert (Hm1 : m <= s !!! 1%nat).
  { eapply Rle_trans; [apply Rmin_r | apply Rmin_l]. }
  assert (Hm2 : m <= s !!! 2%nat).
  { eapply Rle_trans; [apply Rmin_r | apply Rmin_r]. }
  exists (m / (2 * K)). split; [apply Rdiv_lt_0_compat; lra |].
  intros tau Htau. exists D. split; [exact HD |].
  assert (HtK : tau * K <= m / 2).
  { apply (Rmult_le_compat_r K) in Htau; [| lra].
    replace (m / (2 * K) * K) with (m / 2) in Htau by (field; lra).
    exact Htau. }
  intros j Hj.
  assert (Hgen : forall d sj, 0 <= d -> d <= K - 1 -> m <= sj ->
            tau * d <= sj / 2).
  { intros d sj Hd HdK Hsj.
    destruct (Rle_dec 0 tau) as [Hpos | Hneg]; [nra |].
    apply Rnot_le_lt in Hneg. nra. }
  destruct j as [| [| [| j]]]; [| | | lia];
    apply Hgen; (assumption || (unfold K; lra)).
Qed.

End SafeStepExists.
(** ** The integrators under a safe step *)

Section CallsOfThree.
Context `{PhysicalConstants}.
Variable this : Loop.t.

Lemma RK4Solver_calls_3 (a b c time tau : R) :
  let f1 := CalculateDerivs this [a; b; c] time in
  let s1 := [a + tau / 2.0 * f1 !!! 0%nat; b + tau / 2.0 * f1 !!! 1%nat;
             c + tau / 2.0 * f1 !!! 2%nat] in
  let f2 := CalculateDerivs this s1 (time + tau / 2.0) in
  let s2 := [a + tau / 2.0 * f2 !!! 0%nat; b + tau / 2.0 * f2 !!! 1%nat;
             c + tau / 2.0 * f2 !!! 2%nat] in
  let f3 := CalculateDerivs this s2 (time + tau / 2.0) in
  let s3 := [a + tau * f3 !!! 0%nat; b + tau * f3 !!! 1%nat;
             c + tau * f3 !!! 2%nat] in
  RK4Solver_calls this [a; b; c] time tau = [[a; b; c]; s1; s2; s3].
Proof.
  intros f1 s1 f2 s2 f3 s3. unfold RK4Solver_calls.
  rewrite !CalculateDerivs_length, !for_loop_3.
  cbn [length replicate insert list_insert lookup_total list_lookup_total].
  reflexivity.
Qed.

End CallsOfThree.

Section SafeStep.
Context `{PhysicalConstants}.
Variable this : Loop.t.
Variables (s D : list R) (tau : R).

Hypothesis Hlen : length s = 3%nat.
Hypothesis Hs : positive_state s.
Hypothesis Hbound :
  forall u t j, (j < 3)%nat -> in_box s u ->
    Rabs (CalculateDerivs this u t !!! j) <= D !!! j.
Hypothesis Hstep : forall j, (j < 3)%nat -> tau * D !!! j <= s !!! j / 2.

Lemma bound_nonneg (j : nat) : (j < 3)%nat -> 0 <= D !!! j.
Proof.
  intros Hj. eapply Rle_trans; [apply Rabs_pos |].
  apply (Hbound s 0 j Hj). apply in_box_self; assumption.
Qed.

Lemma within_3 (rho a b c : R) :
  within s D rho [a; b; c]
  <-> Rabs (a - s !!! 0%nat) <= rho * D !!! 0%nat
      /\ Rabs (b - s !!! 1%nat) <= rho * D !!! 1%nat
      /\ Rabs (c - s !!! 2%nat) <= rho * D !!! 2%nat.
Proof.
  split.
  - intros [_ Hw]. repeat split; [apply (Hw 0%nat) | apply (Hw 1%nat)
                                  | apply (Hw 2%nat)]; lia.
  - intros (H0 & H1 & H2). split; [reflexivity |].
    intros j Hj. destruct j as [| [| [| j]]]; [assumption .. | lia].
Qed.

Lemma within_mono (rho rho' : R) (u : list R) :
  rho <= rho' -> within s D rho u -> within s D rho' u.
Proof.
  intros Hle [Hl Hw]. split; [exact Hl |]. intros j Hj.
  pose proof (bound_nonneg j Hj). specialize (Hw j Hj). nra.
Qed.

Lemma within_self : within s D 0 s.
Proof.
  split; [exact Hlen |]. intros j Hj. rewrite Rminus_diag, Rabs_R0. lra.
Qed.

Lemma within_in_box (rho : R) (u : list R) :
  rho <= tau -> within s D rho u -> in_box s u.
Proof.
  intros Hle [Hl Hw]. split; [exact Hl |]. intros j Hj.
  pose proof (bound_nonneg j Hj). specialize (Hw j Hj).
  specialize (Hstep j Hj). nra.
Qed.

Lemma in_box_positive (u : list R) : in_box s u -> positive_state u.
Proof.
  intros [_ Hu]. destruct Hs as (H0 & H1 & H2).
  pose proof (Hu 0%nat ltac:(lia)) as Hu0.
  pose proof (Hu 1%nat ltac:(lia)) as Hu1.
  pose proof (Hu 2%nat ltac:(lia)) as Hu2.
  apply abs_le_bounds in Hu0, Hu1, Hu2.
  repeat split; lra.
Qed.

Lemma within_positive (rho : R) (u : list R) :
  rho <= tau -> within s D rho u -> positive_state u.
Proof. intros Hle Hw. apply in_box_positive, (within_in_box rho); assumption. Qed.

(** The derivatives at a state of the box. *)
Lemma within_derivs (rho : R) (u : list R) (t : R) (j : nat) :
  rho <= tau -> within s D rho u -> (j < 3)%nat ->
  Rabs (CalculateDerivs this u t !!! j) <= D !!! j.
Proof.
  intros Hle Hw Hj. apply Hbound; [exact Hj |].
  apply (within_in_box rho); assumption.
Qed.

Lemma EulerSolver_within (rho h : R) (u : list R) (time : R) :
  within s D rho u -> 0 <= h -> rho + h <= tau ->
  within s D (rho + h) (EulerSolver this u time h).
Proof.
  intros Hw Hh Hsum. pose proof Hw as [Hl _].
  rewrite (list_3_eta u Hl) in *.
  set (a := u !!! 0%nat) in *. set (b := u !!! 1%nat) in *.
  set (c := u !!! 2%nat) in *.
  assert (Hrho : rho <= tau) by lra.
  pose proof (fun j => within_derivs rho [a; b; c] time j Hrho Hw) as Hd.
  apply within_3 in Hw as (H0 & H1 & H2).
  rewrite EulerSolver_3. cbv zeta. apply within_3.
  repeat split.
  - rewrite (Rmult_comm _ h). apply drift_stage; [exact H0 | apply Hd; lia | lra].
  - rewrite (Rmult_comm _ h). apply drift_stage; [exact H1 | apply Hd; lia | lra].
  - rewrite (Rmult_comm _ h). apply drift_stage; [exact H2 | apply Hd; lia | lra].
Qed.

(** A Runge-Kutta step of size [h] from a state within [rho] of [s]: the
    four states handed to [CalculateDerivs] and the result are within
    [rho + h]. *)
Lemma RK4Solver_within (rho h : R) (u : list R) (time : R) :
  within s D rho u -> 0 <= rho -> 0 <= h -> rho + h <= tau ->
  Forall (within s D (rho + h)) (RK4Solver_calls this u time h)
  /\ within s D (rho + h) (RK4Solver this u time h).
Proof.
  intros Hw Hrho Hh Hsum. pose proof Hw as [Hl _].
  rewrite (list_3_eta u Hl) in *.
  set (a := u !!! 0%nat) in *. set (b := u !!! 1%nat) in *.
  set (c := u !!! 2%nat) in *.
  rewrite RK4Solver_calls_3, RK4Solver_3. cbv zeta.
  set (f1 := CalculateDerivs this [a; b; c] time).
  set (s1 := [a + h / 2.0 * f1 !!! 0%nat; b + h / 2.0 * f1 !!! 1%nat;
              c + h / 2.0 * f1 !!! 2%nat]).
  set (f2 := CalculateDerivs this s1 (time + h / 2.0)).
  set (s2 := [a + h / 2.0 * f2 !!! 0%nat; b + h / 2.0 * f2 !!! 1%nat;
              c + h / 2.0 * f2 !!! 2%nat]).
  set (f3 := CalculateDerivs this s2 (time + h / 2.0)).
  set (s3 := [a + h * f3 !!! 0%nat; b + h * f3 !!! 1%nat;
              c + h * f3 !!! 2%nat]).
  set (f4 := CalculateDerivs this s3 (time + h)).
  assert (Hle : rho <= tau) by lra.
  assert (Hf1 : forall j, (j < 3)%nat -> Rabs (f1 !!! j) <= D !!! j).
  { intros j Hj. apply (within_derivs rho); assumption. }
  pose proof Hw as Hw0. apply within_3 in Hw as (H0 & H1 & H2).
  assert (Hs1 : within s D (rho + h) s1).
  { apply within_3. repeat split; apply drift_stage;
      first [assumption | apply Hf1; lia | lra]. }
  assert (Hf2 : forall j, (j < 3)%nat -> Rabs (f2 !!! j) <= D !!! j).
  { intros j Hj. apply (within_derivs (rho + h)); assumption. }
  assert (Hs2 : within s D (rho + h) s2).
  { apply within_3. repeat split; apply drift_stage;
      first [assumption | apply Hf2; lia | lra]. }
  assert (Hf3 : forall j, (j < 3)%nat -> Rabs (f3 !!! j) <= D !!! j).
  { intros j Hj. apply (within_derivs (rho + h)); assumption. }
  assert (Hs3 : within s D (rho + h) s3).
  { apply within_3. repeat split; apply drift_stage;
      first [assumption | apply Hf3; lia | lra]. }
  assert (Hf4 : forall j, (j < 3)%nat -> Rabs (f4 !!! j) <= D !!! j).
  { intros j Hj. apply (within_derivs (rho + h)); assumption. }
  split.
  - constructor; [apply (within_mono rho); [lra | exact Hw0] |].
    constructor; [exact Hs1 |]. constructor; [exact Hs2 |].
    constructor; [exact Hs3 |]. constructor.
  - apply within_3. repeat split; apply drift_final;
      first [assumption | apply Hf1; lia | apply Hf2; lia | apply Hf3; lia
            | apply Hf4; lia].
Qed.

(** One attempt of the adaptive integrator at [s] with a step size [h] that
    does not exceed [tau]. *)
Lemma RKA4_attempt_within (h time : R) :
  0 <= h -> h <= tau ->
  Forall (within s D tau) (RKA4_attempt_calls this s time h)
  /\ within s D tau (small_step (RKA4_attempt this s time h)).
Proof.
  intros Hh Hle.
  destruct (RK4Solver_within 0 (h * 0.5) s time within_self)
    as [Hc1 Hr1]; [lra | lra | lra |].
  destruct (RK4Solver_within (0 + h * 0.5) (h * 0.5)
              (RK4Solver this s time (h * 0.5)) (time + h * 0.5) Hr1)
    as [Hc2 Hr2]; [lra | lra | lra |].
  destruct (RK4Solver_within 0 h s time within_self)
    as [Hc3 _]; [lra | lra | lra |].
  split.
  - unfold RKA4_attempt_calls. rewrite !Forall_app. repeat split.
    + eapply Forall_impl; [exact Hc1 |]. intros u. apply within_mono. lra.
    + eapply Forall_impl; [exact Hc2 |]. intros u. apply within_mono. lra.
    + eapply Forall_impl; [exact Hc3 |]. intros u. apply within_mono. lra.
  - unfold RKA4_attempt. cbn [small_step].
    apply (within_mono (0 + h * 0.5 + h * 0.5)); [lra | exact Hr2].
Qed.

(** The attempt loop entered with a step size that does not exceed [tau]:
    a rejected attempt shrinks the step size. *)
Lemma RKA4_attempts_within (remaining : nat) (h time : R) :
  0 < h -> h <= tau ->
  Forall (within s D tau) (RKA4_attempts_calls this remaining s time h)
  /\ within s D tau (removelast (snd (RKA4_attempts this remaining s time h))).
Proof.
  revert h. induction remaining as [| remaining IH]; intros h Hh Hle;
    destruct (RKA4_attempt_within h time ltac:(lra) Hle) as [Hc Hr];
    rewrite RKA4_attempts_unfold; cbv zeta;
    cbn [RKA4_attempts_calls];
    destruct (Rlt_dec (error_ratio (RKA4_attempt this s time h)) 1)
      as [Hacc | Hrej]; cbn [snd]; rewrite ?removelast_last, ?app_nil_r;
    try (split; assumption).
  rewrite Forall_app.
  assert (Hnew : new_tau (RKA4_attempt this s time h) = h / 1.1)
    by (apply rejected_new_tau; assumption).
  rewrite Hnew.
  destruct (IH (h / 1.1)) as [Hc' Hr']; [lra | lra |].
  split; [split; assumption | assumption].
Qed.

(** The dispatch of the loop with a positive step size that does not exceed
    [tau], at the state [s]. *)
Lemma solver_step_within (time h : R) :
  Loop.__state this = s ->
  0 < h -> h <= tau ->
  Forall (within s D tau) (solver_step_calls this time h)
  /\ within s D tau (Loop.__state (fst (solver_step this time h))).
Proof.
  intros Hstate Hh Hle. unfold solver_step_calls, solver_step. cbv zeta.
  rewrite Hstate.
  destruct (String.eqb _ "euler").
  { cbn [fst Loop.__state Loop.with_state]. split.
    - constructor; [| constructor].
      apply (within_mono 0); [lra | exact within_self].
    - apply (within_mono (0 + h)); [lra |].
      apply EulerSolver_within; [exact within_self | lra | lra]. }
  destruct (String.eqb _ "rk4").
  { cbn [fst Loop.__state Loop.with_state].
    destruct (RK4Solver_within 0 h s time within_self) as [Hc Hr];
      [lra | lra | lra |].
    split.
    - eapply Forall_impl; [exact Hc |]. intros u. apply within_mono. lra.
    - apply (within_mono (0 + h)); [lra | exact Hr]. }
  destruct (String.eqb _ "rka4").
  { destruct (RKA4_attempts_within (max_try - 1) h time Hh Hle) as [Hc Hr].
    unfold RKA4Solver_calls, RKA4Solver.
    destruct (RKA4_attempts this (max_try - 1) s time h) as [printed out].
    cbn [fst snd Loop.__state Loop.with_state] in *.
    split; assumption. }
  cbn [fst]. split; [constructor |]. rewrite Hstate.
  apply (within_mono 0); [lra | exact within_self].
Qed.

End SafeStep.
(** ** Passes and runs with safe steps *)

Section SafeRun.
Context `{PhysicalConstants}.

Lemma solver_step_tau_pos (this : Loop.t) (time tau : R) :
  0 < tau -> 0 < snd (solver_step this time tau).
Proof.
  intros Htau. unfold solver_step. cbv zeta.
  destruct (String.eqb _ "euler"); [exact Htau |].
  destruct (String.eqb _ "rk4"); [exact Htau |].
  destruct (String.eqb _ "rka4"); [| exact Htau].
  destruct (RKA4Solver_last_positive this (Loop.__state this) time tau Htau)
    as (_ & Hpos & _).
  destruct (RKA4Solver this (Loop.__state this) time tau) as [printed out].
  exact Hpos.
Qed.

Lemma EvolveLoop_passes_calls_S (k : nat) (this : Loop.t) (v : EvolveVars) :
  EvolveLoop_passes_calls (S k) this v
  = EvolveLoop_passes_calls k this v
    ++ solver_step_calls (fst (EvolveLoop_passes k this v))
         (ev_time (snd (EvolveLoop_passes k this v)))
         (ev_tau (snd (EvolveLoop_passes k this v))).
Proof.
  cbn [EvolveLoop_passes_calls]. destruct (EvolveLoop_passes k this v).
  reflexivity.
Qed.

(** One pass of the loop with a safe step from a positive state. *)
Lemma safe_pass (this : Loop.t) (v : EvolveVars) :
  length (Loop.__state this) = 3%nat ->
  positive_state (Loop.__state this) ->
  0 < ev_tau v ->
  safe_step this (Loop.__state this) (ev_tau v) ->
  Forall positive_state (solver_step_calls this (ev_time v) (ev_tau v))
  /\ length (Loop.__state (fst (EvolveLoop_body this v))) = 3%nat
  /\ positive_state (Loop.__state (fst (EvolveLoop_body this v)))
  /\ in_box (Loop.__state this) (Loop.__state (fst (EvolveLoop_body this v)))
  /\ 0 < ev_tau (snd (EvolveLoop_body this v)).
Proof.
  intros Hlen Hpos Htau (D & Hbound & Hstep).
  destruct (solver_step_within this (Loop.__state this) D (ev_tau v)
              Hlen Hpos Hbound Hstep (ev_time v) (ev_tau v) eq_refl Htau
              (Rle_refl _)) as [Hcalls Hnew].
  destruct (EvolveLoop_body_frame this v) as (_ & _ & _ & _ & ->).
  pose proof (within_in_box this (Loop.__state this) D (ev_tau v)
                Hlen Hpos Hbound Hstep (ev_tau v) _ (Rle_refl _) Hnew) as Hbox.
  split.
  { eapply Forall_impl; [exact Hcalls |]. intros u Hu.
    exact (within_positive this (Loop.__state this) D (ev_tau v)
             Hlen Hpos Hbound Hstep (ev_tau v) u (Rle_refl _) Hu). }
  split; [exact (proj1 Hnew) |].
  split; [eapply in_box_positive; eassumption |].
  split; [exact Hbox |].
  rewrite EvolveLoop_body_unfold. cbn [snd ev_tau].
  apply solver_step_tau_pos, Htau.
Qed.

(** C5, as amended.  The code checks neither the state nor the step size;
    what keeps the state positive is a step that is safe at the state it is
    taken from: one that, with bounds [D_j] on the magnitudes of the three
    derivatives over the box around the state, moves no component by more
    than half of itself.

    - Safe steps exist for physical inputs: with positive constants, loop
      length and correction factors, a heating rate that is at least 0 and
      bounded at all times, and a radiative loss rate between two positive
      bounds, every state with [Pe > 0], [Pi > 0] and [n > 0] has a positive
      step size below which every step is safe.
    - A pass of the loop of [EvolveLoop] taken with a safe step from a
      positive state, whichever the solver, hands to [CalculateDerivs] only
      states with positive pressures and density, and stores such a state,
      inside the box around the one it started from.
    - Hence, in a run, as long as the step of every pass is safe at the
      state the pass starts from, every state produced is positive and
      every state [CalculateDerivs] has been invoked with is positive. *)
Theorem safe_steps_keep_positive (this : Loop.t) :
  (physical ->
   0 < Parameters.loop_length (Loop.parameters this) ->
   0 < Parameters.boltzmann_correction (Loop.parameters this) ->
   0 < Parameters.ion_mass_correction (Loop.parameters this) ->
   (exists Hmax, forall t, 0 <= Get_Heating (Loop.heater this) t <= Hmax) ->
   (exists Lmin Lmax,
       0 < Lmin
       /\ forall x, Lmin <= GetPowerLawRad (Loop.radiation_model this) x <= Lmax) ->
   forall s, length s = 3%nat -> positive_state s ->
     exists bound,
       0 < bound /\ forall tau, tau <= bound -> safe_step this s tau)
  /\ (forall v,
        length (Loop.__state this) = 3%nat ->
        positive_state (Loop.__state this) ->
        0 < ev_tau v ->
        safe_step this (Loop.__state this) (ev_tau v) ->
        let this' := fst (EvolveLoop_body this v) in
        Forall positive_state (solver_step_calls this (ev_time v) (ev_tau v))
        /\ length (Loop.__state this') = 3%nat
        /\ positive_state (Loop.__state this')
        /\ in_box (Loop.__state this) (Loop.__state this')
        /\ 0 < ev_tau (snd (EvolveLoop_body this v)))
  /\ (length (Loop.__state this) = 3%nat ->
      positive_state (Loop.__state this) ->
      0 < Parameters.tau (Loop.parameters this) ->
      forall k,
        (forall j, (j < k)%nat ->
           let this_j := fst (EvolveLoop_passes j this (EvolveLoop_init this)) in
           let v_j := snd (EvolveLoop_passes j this (EvolveLoop_init this)) in
           safe_step this_j (Loop.__state this_j) (ev_tau v_j)) ->
        let this_k := fst (EvolveLoop_passes k this (EvolveLoop_init this)) in
        positive_state (Loop.__state this_k)
        /\ Forall positive_state
             (EvolveLoop_passes_calls k this (EvolveLoop_init this))).
Proof.
  split; [| split].
  - intros Hphys HL Hbc Himc [Hmax Hheat] (Lmin & Lmax & HLmin & Hrad) s Hlen Hs.
    exact (safe_step_exists this Hmax Lmin Lmax Hphys HL Hbc Himc Hheat HLmin
             Hrad s Hlen Hs).
  - intros v Hlen Hpos Htau Hsafe. cbv zeta.
    exact (safe_pass this v Hlen Hpos Htau Hsafe).
  - intros Hlen Hpos Htau k Hsafe. cbv zeta in *.
    assert (Hinv :
      length (Loop.__state (fst (EvolveLoop_passes k this (EvolveLoop_init this))))
      = 3%nat
      /\ positive_state
           (Loop.__state (fst (EvolveLoop_passes k this (EvolveLoop_init this))))
      /\ 0 < ev_tau (snd (EvolveLoop_passes k this (EvolveLoop_init this)))
      /\ Forall positive_state
           (EvolveLoop_passes_calls k this (EvolveLoop_init this))).
    { induction k as [| k IH].
      - split; [exact Hlen |]. split; [exact Hpos |]. split; [exact Htau |].
        constructor.
      - destruct IH as (IHlen & IHpos & IHtau & IHcalls).
        { intros j Hj. apply Hsafe. lia. }
        destruct (safe_pass _ _ IHlen IHpos IHtau (Hsafe k ltac:(lia)))
          as (Hc & Hl & Hp & _ & Ht).
        rewrite EvolveLoop_passes_S, EvolveLoop_passes_calls_S, Forall_app.
        split; [exact Hl |]. split; [exact Hp |]. split; [exact Ht |].
        split; [exact IHcalls | exact Hc]. }
    destruct Hinv as (_ & Hp & _ & Hc). split; assumption.
Qed.

End SafeRun.

(** * Concrete instances *)

Section Witnesses.
#[local] Existing Instance cgs.

(** The hypotheses are met by the concrete loop at its seed state. *)
Lemma CalculateC1_spec_witness :
  let this := example_loop "rk4" true 1 balanced_partition in
  0 < 0.9 /\ 0 < 1
  /\ CalculateC1 this 0.9 0.9 1
     = C1_loss_correction this 0.9 * C1_grav_correction this 0.9 0.9
       * C1_piecewise 6 0.6 (1 ^ 2 / C1_density_eqm_2 this 0.9 0.9).
Proof.
  intros this. split; [lra |]. split; [lra |].
  apply (CalculateC1_spec this 0.9 0.9 1); lra.
Defined.

(** With the balanced share of the heating the seed state is at rest. *)
Lemma example_loop_at_rest (solver : string) (time : R) :
  CalculateDerivs (example_loop solver true 1 balanced_partition)
    [1.242e-16; 1.242e-16; 1] time
  = [0; 0; 0].
Proof.
  rewrite example_derivs; try reflexivity.
  cbn [example_loop Loop.heater example_heater partition].
  unfold balanced_partition. repeat f_equal; lra.
Qed.

(** The hypotheses are met by the concrete loop at its seed state. *)
Lemma RKA4Solver_accepted_witness :
  let this := example_loop "rka4" true 1 balanced_partition in
  let state := [1.242e-16; 1.242e-16; 1] in
  fst (RKA4Solver this state 1 1) = []
  /\ exists k tau_att,
       (k < 100)%nat
       /\ tau_att = old_tau (attempt_from this state 1 k 1)
       /\ 0 < tau_att
       /\ tau_att / 1.1 <= List.last (snd (RKA4Solver this state 1 1)) 0
          <= 4 * tau_att.
Proof.
  intros this state.
  assert (Hquiet : fst (RKA4Solver this state 1 1) = []).
  { destruct (RKA4Solver_fixed this 1.242e-16 1.242e-16 1 1 1
                (example_loop_at_rest "rka4")) as [_ Heq].
    unfold state. rewrite Heq. reflexivity. }
  split; [exact Hquiet |].
  destruct (RKA4Solver_accepted this state 1 1) as (k & tau_att & Hk & Hatt & Hpos & _ & Hrest).
  - reflexivity.
  - lra.
  - simpl. lra.
  - exact Hquiet.
  - exists k, tau_att. cbv zeta in Hrest.
    destruct Hrest as (_ & _ & _ & Hbounds & _).
    repeat split; try assumption; apply Hbounds.
Defined.

(** The hypotheses are met by the concrete loop at its seed state. *)
Lemma CalculateDerivs_spec_witness :
  let this := example_loop "rk4" true 1 balanced_partition in
  0 < 1.242e-16 /\ 0 < 1
  /\ d_temperature_e (CalculateDerivs_locals this [1.242e-16; 1.242e-16; 1] 0)
     = 1.242e-16 / (BOLTZMANN_CONSTANT * 1).
Proof.
  intros this. split; [lra |]. split; [lra |].
  apply (CalculateDerivs_spec this 1.242e-16 1.242e-16 1 0); lra.
Defined.

(** The concrete loop with the adaptive integrator at its seed state: its
    inputs are physical, so there is a positive step size below which a
    pass of the loop, at whatever time, calls [CalculateDerivs] on positive
    states only and stores a positive state. *)
Lemma safe_steps_keep_positive_witness :
  let this := example_loop "rka4" true 1 balanced_partition in
  physical
  /\ (forall t, 0 <= Get_Heating (Loop.heater this) t <= 3.48e-7)
  /\ positive_state (Loop.__state this)
  /\ exists bound,
       0 < bound
       /\ forall i time tau, 0 < tau <= bound ->
            let v := {| ev_i := i; ev_time := time; ev_tau := tau |} in
            Forall positive_state (solver_step_calls this time tau)
            /\ positive_state (Loop.__state (fst (EvolveLoop_body this v))).
Proof.
  intros this.
  assert (Hheat : forall t, 0 <= Get_Heating (Loop.heater this) t <= 3.48e-7)
    by (intros t; cbn [this example_loop Loop.heater example_heater Get_Heating];
        lra).
  assert (Hpos : positive_state (Loop.__state this)).
  { unfold positive_state.
    cbn [this example_loop Loop.__state lookup_total list_lookup_total]. lra. }
  split; [exact cgs_physical |]. split; [exact Hheat |]. split; [exact Hpos |].
  destruct (safe_steps_keep_positive this) as (Hexists & Hpass & _).
  destruct (Hexists cgs_physical) with (s := Loop.__state this)
    as (bound & Hbound & Hsafe).
  - cbn [this example_loop Loop.parameters example_parameters
         Parameters.loop_length]. lra.
  - cbn [this example_loop Loop.parameters example_parameters
         Parameters.boltzmann_correction]. lra.
  - cbn [this example_loop Loop.parameters example_parameters
         Parameters.ion_mass_correction]. lra.
  - exists 3.48e-7. exact Hheat.
  - exists 1.16e-7, 1.16e-7. split; [lra |]. intros x.
    cbn [this example_loop Loop.radiation_model example_radiation
         GetPowerLawRad]. lra.
  - reflexivity.
  - exact Hpos.
  - exists bound. split; [exact Hbound |]. intros i time tau [Htau Hle] v.
    destruct (Hpass v eq_refl Hpos Htau (Hsafe tau Hle))
      as (Hcalls & _ & Hnew & _).
    split; [exact Hcalls | exact Hnew].
Defined.

(** The hypotheses are met by the concrete loop at its seed state. *)
Lemma CalculateThermalConduction_spec_witness :
  let this := example_loop "rk4" false 1 balanced_partition in
  physical
  /\ 0 < Parameters.loop_length (Loop.parameters this)
  /\ 0 < Parameters.saturation_limit (Loop.parameters this)
  /\ CalculateThermalConduction this 0.9 1 "ion" < 0.
Proof.
  intros this.
  split; [exact cgs_physical |].
  split; [simpl; lra |]. split; [simpl; lra |].
  destruct (CalculateThermalConduction_spec this 0.9 1 "ion")
    as (_ & _ & _ & _ & Hsign);
    [exact cgs_physical | simpl; lra | simpl; lra | lra | lra |].
  destruct Hsign as [_ Hneg]; [simpl; lra |].
  apply Hneg. right. simpl. lra.
Defined.

(** The hypotheses are met by the concrete loop at its seed state. *)
Lemma results_sequences_aligned_witness :
  let this0 := Loop_build (example_config "rk4") (example_heater balanced_partition)
                 example_radiation example_radiation 3 in
  Loop_new (example_config "rk4") (example_heater balanced_partition)
    example_radiation example_radiation = Some this0
  /\ Loop.N this0 = cmath.ceil (3 / 1)
  /\ aligned (Loop.results this0) (Z.to_nat (cmath.ceil (3 / 1))).
Proof.
  intros this0. split; [apply example_new |].
  destruct (results_sequences_aligned (example_config "rk4")
              (example_heater balanced_partition) example_radiation
              example_radiation this0 (example_new "rk4" balanced_partition))
    as (HN & _ & Hal & _).
  split; assumption.
Defined.

(** The hypotheses are met by the concrete loop at its seed state. *)
Lemma EvolveLoop_unknown_solver_witness :
  let this := example_loop "rk5" true 1 balanced_partition in
  let v := {| ev_i := 1; ev_time := 1; ev_tau := 1 |} in
  Parameters.solver (Loop.parameters this) <> "euler"%string
  /\ Loop.__state (fst (EvolveLoop_body this v)) = Loop.__state this
  /\ ev_time (snd (EvolveLoop_body this v)) = 1 + 1
  /\ Results.time (Loop.results (fst (EvolveLoop_body this v))) !! 1%nat
     = Some 1.
Proof.
  intros this v.
  assert (Hal : aligned (Loop.results this) 3) by (repeat split).
  destruct (EvolveLoop_unknown_solver this v 3) as (Hs & Ht & _ & _ & _ & Hrow & _);
    try discriminate; try exact Hal; try (simpl; lia).
  split; [discriminate |]. repeat split; assumption.
Defined.

(** The hypotheses are met by the concrete loop at its seed state, with the
    configured step 1, which is a double. *)
Lemma RKA4Solver_step_size_and_time_witness :
  let this := example_loop "rka4" true 1 balanced_partition in
  let v := fun k =>
    snd (EvolveLoop_passes_binary64 k this (EvolveLoop_init this)) in
  0 <= Parameters.rka_error (Loop.parameters this)
  /\ length (snd (RKA4Solver this [1.242e-16; 1.242e-16; 1] 1 1)) = 4%nat
  /\ 0 < List.last (snd (RKA4Solver this [1.242e-16; 1.242e-16; 1] 1 1)) 0
  /\ binary64.representable (Parameters.tau (Loop.parameters this))
  /\ 0 < ev_tau (v 1%nat)
  /\ ev_time (v 0%nat) <= ev_time (v 1%nat).
Proof.
  intros this v.
  assert (Hrka : 0 <= Parameters.rka_error (Loop.parameters this))
    by (cbn [this example_loop Loop.parameters example_parameters
             Parameters.rka_error]; lra).
  assert (Htau : 0 < Parameters.tau (Loop.parameters this))
    by (cbn [this example_loop Loop.parameters example_parameters
             Parameters.tau]; lra).
  assert (Hrep : binary64.representable (Parameters.tau (Loop.parameters this)))
    by exact representable_1.
  assert (Hlen : (3 <= length (Loop.__state this))%nat)
    by (cbn [this example_loop Loop.__state length]; lia).
  split; [exact Hrka |].
  destruct (RKA4Solver_step_size_and_time this Hrka) as [Hcall Hloop].
  destruct (Hcall [1.242e-16; 1.242e-16; 1] 1 1) as (Hl & Hpos & _);
    [cbn [length]; lia | lra |].
  destruct (Hloop eq_refl Htau Hrep Hlen 0%nat)
    as (_ & _ & _ & _ & _ & Hnext & _ & Hle & _).
  split; [exact Hl |]. split; [exact Hpos |]. split; [exact Hrep |].
  split; [exact Hnext | exact Hle].
Defined.

(** The hypothesis is met by the call at time 0 with step size 1 on the loop
    heated by the spikes. *)
Lemma RKA4Solver_not_converged_witness :
  (forall j, (j < 100)%nat ->
     ~ error_ratio (attempt_from spiky_loop [1.242e-16; 1.242e-16; 1] 0 j 1) < 1)
  /\ exists tau_ret small,
       RKA4Solver spiky_loop [1.242e-16; 1.242e-16; 1] 0 1
       = ([Warning_not_converged; Returning_a_tau tau_ret 0], small ++ [tau_ret]).
Proof.
  assert (Hnone : forall j, (j < 100)%nat ->
            ~ error_ratio
                (attempt_from spiky_loop [1.242e-16; 1.242e-16; 1] 0 j 1) < 1).
  { intros j Hj. apply (spiky_attempts j 0). lia. }
  split; [exact Hnone |].
  destruct (RKA4Solver_not_converged spiky_loop [1.242e-16; 1.242e-16; 1] 0 1 Hnone)
    as [Heq _].
  eexists _, _. exact Heq.
Defined.

End Witnesses.
Section ExtraWitnesses.
#[local] Existing Instance cgs.

(** A loop of pure hydrogen. *)
Lemma abundance_closed_form_witness :
  let p := Loop.parameters
             (CalculateAbundanceCorrection
                (example_loop "rk4" true 1 balanced_partition) 0) in
  0 <= 0
  /\ 3 / 4 < Parameters.boltzmann_correction p <= 1
  /\ 1 <= Parameters.ion_mass_correction p < 2.
Proof.
  intros p. split; [lra |].
  destruct (abundance_closed_form
              (example_loop "rk4" true 1 balanced_partition) 0)
    as (_ & _ & Hbc & Himc); [lra |].
  split; assumption.
Defined.

(** The concrete loop with the flux limiter switched on. *)
Lemma conduction_is_limited_witness :
  let this := example_loop "rk4" false 1 balanced_partition in
  Parameters.use_spitzer_conductivity (Loop.parameters this) = false
  /\ Rabs (CalculateThermalConduction this 0.9 1 "electron")
     <= Rabs (classical_flux this
                (fst (fst (species_constants this "electron"))) 0.9).
Proof.
  intros this. split; [reflexivity |].
  destruct (conduction_is_limited this 0.9 1 "electron" eq_refl) as [Hc _].
  exact Hc.
Defined.

Lemma example_radiation_pos (solver : string) (spitzer : bool) (sat share x : R) :
  0 < GetPowerLawRad
        (Loop.radiation_model (example_loop solver spitzer sat share)) x.
Proof.
  cbn [example_loop Loop.radiation_model example_radiation GetPowerLawRad]. lra.
Qed.

Lemma example_length (solver : string) (spitzer : bool) (sat share : R) :
  Parameters.loop_length
    (Loop.parameters (example_loop solver spitzer sat share)) = 1.
Proof. reflexivity. Qed.

(** The concrete loop at its seed temperature and density. *)
Lemma CalculateC1_between_witness :
  let this := example_loop "rk4" true 1 balanced_partition in
  physical
  /\ 0 < GetPowerLawRad (Loop.radiation_model this) (cmath.log10 0.9)
  /\ 0 < CalculateC1 this 0.9 0.9 1.
Proof.
  intros this. split; [exact cgs_physical |].
  split; [apply example_radiation_pos |].
  destruct (CalculateC1_between this 0.9 0.9 1) as (_ & _ & _ & Hpos).
  - exact cgs_physical.
  - lra.
  - lra.
  - apply example_radiation_pos.
  - unfold this. rewrite example_length. lra.
  - apply Hpos; cbn [this example_loop Loop.parameters example_parameters
                     Parameters.c1_cond0 Parameters.c1_rad0]; lra.
Defined.

(** The concrete loop at its seed state, where the pressures are equal. *)
Lemma CalculateDerivs_energy_balance_witness :
  let this := example_loop "rk4" true 1 balanced_partition in
  0 < 1.242e-16
  /\ d_psi_c (CalculateDerivs_locals this [1.242e-16; 1.242e-16; 1] 0) = 0.
Proof.
  intros this. split; [lra |].
  destruct (CalculateDerivs_energy_balance this 1.242e-16 1.242e-16 1 0)
    as (_ & _ & Hpsi); [lra | lra |].
  apply Hpsi. reflexivity.
Defined.

(** The concrete loop with the balanced share of the heating. *)
Lemma rest_state_is_kept_witness :
  let this := example_loop "euler" true 1 balanced_partition in
  (forall t, CalculateDerivs this [1.242e-16; 1.242e-16; 1] t = [0; 0; 0])
  /\ Loop.__state (fst (EvolveLoop_passes 2 this (EvolveLoop_init this)))
     = [1.242e-16; 1.242e-16; 1].
Proof.
  intros this. split; [apply example_loop_at_rest |].
  destruct (rest_state_is_kept this 1.242e-16 1.242e-16 1
              (example_loop_at_rest "euler")) as [_ Hrun].
  destruct (Hrun eq_refl (EvolveLoop_init this) 2%nat) as [Hstate _].
  exact Hstate.
Defined.

(** The call at time 0 with step size 1 on the loop heated by the
    spikes. *)
Lemma RKA4Solver_rejections_shrink_witness :
  (forall i, (i < 100)%nat ->
     ~ error_ratio (attempt_from spiky_loop [1.242e-16; 1.242e-16; 1] 0 i 1) < 1)
  /\ List.last (snd (RKA4Solver spiky_loop [1.242e-16; 1.242e-16; 1] 0 1)) 0
     = 1 / 1.1 ^ 100.
Proof.
  assert (Hnone : forall i, (i < 100)%nat ->
            ~ error_ratio
                (attempt_from spiky_loop [1.242e-16; 1.242e-16; 1] 0 i 1) < 1).
  { intros i Hi. apply (spiky_attempts i 0). lia. }
  split; [exact Hnone |].
  destruct (RKA4Solver_rejections_shrink spiky_loop
              [1.242e-16; 1.242e-16; 1] 0 1 Rlt_0_1) as [_ Hall].
  destruct (Hall Hnone) as [Hlast _]. exact Hlast.
Defined.

(** The concrete loop at rest: the error ratio of the first attempt is 0. *)
Lemma RKA4Solver_growth_threshold_witness :
  let this := example_loop "rka4" true 1 balanced_partition in
  error_ratio (RKA4_attempt this [1.242e-16; 1.242e-16; 1] 0 1) < 1
  /\ 1 <= List.last (snd (RKA4Solver this [1.242e-16; 1.242e-16; 1] 0 1)) 0.
Proof.
  intros this.
  destruct (RKA4Solver_fixed this 1.242e-16 1.242e-16 1 0 1
              (example_loop_at_rest "rka4")) as [Hzero _].
  assert (Hacc : error_ratio (RKA4_attempt this [1.242e-16; 1.242e-16; 1] 0 1) < 1)
    by (rewrite Hzero; lra).
  split; [exact Hacc |].
  destruct (RKA4Solver_growth_threshold this [1.242e-16; 1.242e-16; 1] 0 1)
    as (_ & Hgrow & _).
  - lra.
  - cbn [this example_loop Loop.parameters example_parameters
         Parameters.rka_error]. lra.
  - exact Hacc.
  - apply Hgrow. rewrite Hzero. apply pow_le. lra.
Defined.

(** The constructed concrete loop with the solver "rk4". *)
Lemma fixed_step_time_grid_witness :
  let this1 := seeded "rk4" balanced_partition in
  Loop_new (example_config "rk4") (example_heater balanced_partition)
    example_radiation example_radiation
  = Some (Loop_build (example_config "rk4") (example_heater balanced_partition)
            example_radiation example_radiation 3)
  /\ Results.time
       (Loop.results (fst (EvolveLoop_passes 2 this1 (EvolveLoop_init this1))))
       !! 2%nat
     = Some (INR 2 * Config.tau (example_config "rk4")).
Proof.
  intros this1. split; [apply example_new |].
  destruct (fixed_step_time_grid (example_config "rk4")
              (example_heater balanced_partition) example_radiation
              example_radiation _ 2 (example_new "rk4" balanced_partition))
    as (_ & _ & _ & Hrows); [discriminate |].
  apply Hrows. lia.
Defined.

(** Two passes of the concrete loop with the DEM calculation switched on. *)
Lemma dem_called_once_per_pass_witness :
  Loop.dem dem_loop = Some []
  /\ exists calls,
       Loop.dem (fst (EvolveLoop_passes 2 dem_loop (EvolveLoop_init dem_loop)))
       = Some ([] ++ calls)
       /\ length calls = 2%nat.
Proof.
  split; [reflexivity |].
  pose proof (dem_called_once_per_pass dem_loop (EvolveLoop_init dem_loop)
                [] 2 eq_refl) as Hdem.
  cbv zeta in Hdem.
  change (Parameters.calculate_dem (Loop.parameters dem_loop)) with true in Hdem.
  destruct Hdem as (calls & Heq & Hlen & _).
  exists calls. split; assumption.
Defined.

(** The row of the first pass of the concrete loop. *)
Lemma SaveResults_row_witness :
  let this := example_loop "rk4" true 1 balanced_partition in
  aligned (Loop.results this) 3
  /\ row (Loop.results (SaveResults this 1 1)) 0
     = row (Loop.results this) 0.
Proof.
  intros this.
  assert (Hal : aligned (Loop.results this) 3) by (repeat split).
  split; [exact Hal |].
  destruct (SaveResults_row this 1 1 3 Hal) as [_ Hframe];
    [lia | intros _; simpl; lia |].
  apply Hframe. simpl. lia.
Defined.

Lemma example_first_estimate (this : Loop.t) :
  Parameters.loop_length (Loop.parameters this) = 1 ->
  (forall x, GetPowerLawRad (Loop.radiation_model this) x = 1.16e-7) ->
  (forall t, Get_Heating (Loop.heater this) t = 3.48e-7) ->
  ic_temperature (initial_pass_at this 0) = 0.9
  /\ ic_density (initial_pass_at this 0) = 1.
Proof.
  intros Hlength Hrad Hheat.
  unfold initial_pass_at. cbn [pass_from]. unfold initial_pass.
  cbn [ic_temperature ic_density]. change (0 <? 0)%Z with false. cbv iota.
  rewrite Hlength, Hheat, pow_2, Hrad.
  replace (3.5 * 2.0 / (1.0 + 2.0) * (1 * 1) * 3.48e-7
           / (SPITZER_ELECTRON_CONDUCTIVITY + SPITZER_ION_CONDUCTIVITY))
    with 1 by (cgs_values; lra).
  rewrite pow_1.
  replace (3.48e-7 / (1.16e-7 * (1.0 + 2.0))) with 1 by lra.
  rewrite sqrt_1. unfold CalculateC2. split; lra.
Qed.

(** The constructed concrete loop: its iteration ends with the density 1. *)
Lemma seed_row_is_isothermal_witness :
  let this0 := Loop_build (example_config "rk4") (example_heater balanced_partition)
                 example_radiation example_radiation 3 in
  let run := initial_while this0 (i_max - 1) 0 2.0 LARGEST_DOUBLE LARGEST_DOUBLE in
  snd run <> 0
  /\ row (Loop.results (CalculateInitialConditions this0)) 0
     = [Some 0; Some (Get_Heating (example_heater balanced_partition) 0);
        Some (snd (fst run)); Some (snd (fst run));
        Some (BOLTZMANN_CONSTANT * snd run * snd (fst run));
        Some (Parameters.boltzmann_correction (Loop.parameters this0)
              * BOLTZMANN_CONSTANT * snd run * snd (fst run));
        Some (snd run)].
Proof.
  intros this0 run.
  assert (Hn : snd run <> 0).
  { unfold run.
    rewrite (example_initial_while this0); [cbn [snd]; lra | | | | |];
      try reflexivity. }
  split; [exact Hn |].
  apply (seed_row_is_isothermal (example_config "rk4")
           (example_heater balanced_partition) example_radiation
           example_radiation this0 (example_new "rk4" balanced_partition)).
  - cgs_values. lra.
  - cbn [example_config Config.helium_to_hydrogen_ratio]. lra.
  - exact Hn.
Defined.

(** The concrete loop: its first estimate is the equilibrium 0.9, 1. *)
Lemma initial_conditions_fixed_point_witness :
  let this := example_loop "rk4" true 1 balanced_partition in
  CalculateC1 this (ic_temperature (initial_pass_at this 0))
    (ic_temperature (initial_pass_at this 0))
    (ic_density (initial_pass_at this 0)) = 2
  /\ exists i : Z,
       (i = 0 \/ i = 1)%Z
       /\ initial_while this (i_max - 1) 0 2.0 LARGEST_DOUBLE LARGEST_DOUBLE
          = (i, ic_temperature (initial_pass_at this 0),
             ic_density (initial_pass_at this 0)).
Proof.
  intros this.
  destruct (example_first_estimate this) as [HT Hn]; try reflexivity.
  assert (HC1 : CalculateC1 this (ic_temperature (initial_pass_at this 0))
                  (ic_temperature (initial_pass_at this 0))
                  (ic_density (initial_pass_at this 0)) = 2).
  { rewrite HT, Hn. apply example_C1; try reflexivity.
    unfold CalculateC2. lra. }
  split; [exact HC1 |].
  apply (initial_conditions_fixed_point this);
    [rewrite HT; lra | rewrite Hn; lra | exact HC1].
Defined.

(** The concrete loop, whose constant [_PI_] lies between 3 and 4. *)
Lemma grav_correction_at_least_1_witness :
  let this := example_loop "rk4" true 1 balanced_partition in
  3 < _PI_ < 4
  /\ 0 < CalculateScaleHeight this 0.9 0.9
  /\ 1 <= C1_grav_correction this 0.9 0.9.
Proof.
  intros this.
  assert (Hpi : 3 < _PI_ < 4) by (cbv [_PI_ cgs]; lra).
  split; [exact Hpi |].
  destruct (grav_correction_at_least_1 this 0.9 0.9) as (Hh & Hg & _);
    [exact cgs_physical | cbn; lra | cbn; lra | lra | lra | cbn; lra
    | exact Hpi |].
  split; assumption.
Defined.

Lemma example_coulomb (this : Loop.t) (time : R) :
  let v := CalculateDerivs_locals this [1.602e4; 1; 1.0e13] time in
  sqrt (1.0e13 / 1.0e+13)
  * cmath.pow (BOLTZMANN_CONSTANT * d_temperature_e v / 1.602e-9) (-1.5)
  < exp 23.
Proof.
  cbv zeta.
  cbn [CalculateDerivs_locals d_temperature_e lookup_total list_lookup_total].
  replace (1.0e13 / 1.0e+13) with 1 by lra.
  replace (BOLTZMANN_CONSTANT * (1.602e4 / (BOLTZMANN_CONSTANT * 1.0e13)) / 1.602e-9)
    with 1 by (cgs_values; lra).
  rewrite sqrt_1, pow_1, Rmult_1_r, <- exp_0. apply exp_increasing. lra.
Qed.

(** A hot, dense state of the concrete loop whose Coulomb logarithm is 23. *)
Lemma collisions_equalise_pressures_witness :
  let this := example_loop "rk4" true 1 balanced_partition in
  let v := CalculateDerivs_locals this [1.602e4; 1; 1.0e13] 0 in
  physical
  /\ 0 < d_collision_frequency v
  /\ d_psi_c v < 0.
Proof.
  intros this v. split; [exact cgs_physical |].
  destruct (collisions_equalise_pressures this 1.602e4 1 1.0e13 0)
    as (Hnu & _ & Hpsi);
    [exact cgs_physical | cbn; lra | cbv [_PI_ cgs]; lra
    | cbv [ELECTRON_CHARGE_POWER_4 cgs]; lra | cbn; lra | lra | lra
    | apply example_coulomb |].
  split; [exact Hnu |]. apply Hpsi. lra.
Defined.

(** The constructed concrete loop: two passes leave the seed row alone. *)
Lemma saved_rows_are_permanent_witness :
  let this1 := seeded "rk4" balanced_partition in
  Loop_new (example_config "rk4") (example_heater balanced_partition)
    example_radiation example_radiation
  = Some (Loop_build (example_config "rk4") (example_heater balanced_partition)
            example_radiation example_radiation 3)
  /\ row (Loop.results (fst (EvolveLoop_passes 2 this1 (EvolveLoop_init this1)))) 0
     = row (Loop.results this1) 0.
Proof.
  intros this1. split; [apply example_new |].
  destruct (saved_rows_are_permanent (example_config "rk4")
              (example_heater balanced_partition) example_radiation
              example_radiation _ 0 2 (example_new "rk4" balanced_partition))
    as [H0 _]; [lia |].
  exact H0.
Defined.

(** The concrete loop once [excess] is set to 1. *)
Lemma PrintToFile_export_witness :
  let this := Loop.with_excess (example_loop "rk4" true 1 balanced_partition) 1 in
  Loop.excess this = Some 1%Z
  /\ exists this' out,
       PrintToFile this = Some (this', out)
       /\ length (file_rows out) = 2%nat.
Proof.
  intros this. split; [reflexivity |].
  destruct (PrintToFile_export this 1 eq_refl)
    as (this' & out & Heq & Hres & _ & Hlen & _).
  exists this', out. split; [exact Heq |].
  rewrite Hlen, Hres. reflexivity.
Defined.

End ExtraWitnesses.
